(* ===== verification/_CoqProject ===== *)
-Q . S2P
Prelude.v
Errors.v
Errno.v
Netip.v
Egress.v
Config.v
GuestMem.v
Proc.v
Sha.v
Crypto.v
Host.v
Sockets.v
Imports.v
System.v
SystemSafety.v
ImportsSpec.v
Names.v
Answer.v
AnswerSpec.v
SocketsSpec.v
Memory.v
DataSegments.v
Zygote.v
Resolve.v
ResolveSpec.v
Lifecycle.v
LifecycleSpec.v
CreateSpec.v
