(* ===== verification/Prelude.v ===== *)
(** * unbound-wasm: verification library

    unbound-wasm runs the Unbound resolver as a WebAssembly guest inside a
    Go program. The Go package is the trusted side: it compiles the guest,
    gives it sockets, timers, entropy and cryptography through host imports,
    enforces where packets may go, drives resolutions and reads the answers.
    The guest is untrusted: it may be compromised by the network data it
    parses. This library models the Go package and proves what holds
    whatever the guest does.

    ** Parts and files

    - Values and errors. This file has the machine integers, byte strings,
      panics, results and automation every file uses. Errors.v has Go error
      values and the package's error types (unbound.go); Errno.v maps them
      to WASI errno numbers (errno.go).
    - Egress policy. Netip.v models the parts of net/netip in use; Egress.v
      has deniedNetworks and egressAllowed (sockets.go) and characterises
      them by address ranges; Config.v has NewRuntime's checks and defaults
      (runtime.go, module.go) and relates the guest's own do-not-query list
      to the policy.
    - Concurrency. Proc.v is a small language of goroutines: a [proc] is a
      sequence of atomic steps, one per critical section or operating-system
      call, with [run] (alone), [pstep] (interleaved) and the proof rule
      [rg] (and [rgr], with separate relations for others and for the
      goroutine). Host.v (host.go: instanceState, enqueue, shutdown, timers) and
      Sockets.v (sockets.go: every socket operation and reader goroutine)
      are written in it, one definition per Go function. What the network
      and [select] decide is an argument.
    - Imports. GuestMem.v is the interface of wazero's memory with
      readCopy, readAddr, writeAddr, putU32; Sha.v has SHA-1 and SHA-2,
      Crypto.v has crypto.go; Imports.v has every function of the host
      module and of the WASI module (host.go, wasi.go) as [import_call].
    - The running instance. System.v is the transition system of an
      instance: any import with any arguments at any time, timers, the
      dispatcher, close, and any interleaving. [mstep] is the abstract
      machine it promises to be; the invariants are proved on the machine.
      SystemSafety.v states the results about reachable states, with an
      executable scheduler for examples; ImportsSpec.v and SocketsSpec.v
      are about single calls.
    - Answers. Names.v models strings.EqualFold (nameEqual); Answer.v has
      parseAnswer, parseCAA and parseEDE (answer.go) over an interface for
      golang.org/x/net/dns/dnsmessage; AnswerSpec.v has the theorems.
    - Templates. Memory.v has the linear-memory allocators
      (memory_unix.go), DataSegments.v parseDataSegments, Zygote.v the
      template and the restoring of clones (zygote.go).
    - Resolution. Resolve.v has Resolve, ResolveAll and what they call
      (runtime.go: dispatch, pollResult, allocWrite, Close, ...) over an
      arbitrary guest, with the outcomes of [select] as a script;
      ResolveSpec.v has the theorems.
    - Life cycle. Lifecycle.v has NewInstance, newModuleInstance,
      newFullInstance, newClone, initZygote and Runtime.Close as goroutines
      over the runtime's registry (runtime.go, zygote.go); LifecycleSpec.v
      is about their interleavings, CreateSpec.v about what creating an
      instance leaves. Instances are known by index, not by random name.

    ** What the theorems show

    - Safety of the running instance: no packet leaves for a destination
      outside the policy (egress_safety, with egressAllowed_iff giving the
      policy in addresses); queues and tables stay bounded
      (resource_bounds); shutdown is final (shutdown_final); descriptors
      are unique (socket_ids); all by the refinement sys_refines.
    - Memory: an import writes only the regions its arguments name
      (import_frame); a clone's memory is the template's (clone_memory);
      growth keeps the guest's bytes (Reallocate_backs).
    - Resolution: one result or one error per query, each explained, for
      every guest and every interference (resolveAll_spec, resolve_spec);
      bogus answers are never returned (interpret_spec); a call returns once
      its context is done (resolveAll_returns).
    - Life cycle: closing a runtime sweeps every instance whatever runs
      beside it (close_sweeps); NewInstance leaves exactly what it returns
      (NewInstance_leaves); a clone is the restored template, reseeded and
      version-checked (newClone_spec, buildZygote_template).
    - Functional correctness: TCP streams and UDP datagrams (tcp_stream,
      udp_datagram), wake-ups (no_lost_wakeup), the event queue, timers and
      descriptors, signatures and digests (cryptoVerify_spec,
      parseDNSKEYRSA_spec, nsec3Hash_rfc5155), answers (parseAnswer_spec,
      cname_walk, parseCAA_spec), the wasm data segments (round trip and
      totality).
    - Where the code departs from its intent the library proves that too:
      sockSendTo_leaks_after_close, fd_write_amplifies,
      memoryPages_overflow, nameEqual_conflates,
      alloc_failure_leaves_open.

    ** Bounds and fuel

    Loops that are not structural carry fuel, with a proof that it is
    enough: eleven bytes for LEB128 and the length of the module for its
    sections (parseDataSegments_total), one turn per additional record, at
    most 65536, for parseEDE (parseEDE_total), the number of answer records
    for the CNAME walk (cname_walk). The waiting loop of ResolveAll takes one
    turn per element of its script; a script that is used up is the outcome
    [Waits], and resolveAll_returns says when it cannot be. Integers are [Z] with the conversions
    of the source written out ([u32], [i64], ...).

    ** Interfaces

    Code outside the repository enters through classes whose laws state
    documented behaviour: [GuestMemory] (wazero's memory), [Signatures]
    (crypto/rsa, ecdsa, ed25519), [Unicode] (unicode.SimpleFold),
    [DNSMessage] (the message parser). Each has an instance, on which the
    theorems are run.

    ** Not modelled

    Logging text, the temporary file that holds the image, the command line
    tool, the guest itself, wazero and the build. A guest call is one step
    of Resolve.v, although host goroutines run during it; System.v has the
    interleavings of imports with them. Left for later: that every guest
    allocation of a resolution is freed, and a joint system of several
    instances that run their imports. *)

From stdpp Require Export prelude gmap strings list.
From Stdlib Require Export ZArith Lia.

#[global] Open Scope Z_scope.

(** ** Automation *)

Create HintDb unbound.
Create Rewrite HintDb unbound_rw.

(** Close an arithmetic goal that mentions [/], [mod] or [Z.quot]. *)
Ltac zlia := Z.to_euclidean_division_equations; lia.

(** Turn every boolean comparison of integers in the context into a
    proposition. *)
Ltac bool_props :=
  repeat match goal with
  | H : (_ && _)%bool = true |- _ => apply andb_true_iff in H; destruct H
  | H : (_ || _)%bool = false |- _ => apply orb_false_iff in H; destruct H
  | H : (_ =? _)%Z = true |- _ => apply Z.eqb_eq in H
  | H : (_ =? _)%Z = false |- _ => apply Z.eqb_neq in H
  | H : (_ <? _)%Z = true |- _ => apply Z.ltb_lt in H
  | H : (_ <? _)%Z = false |- _ => apply Z.ltb_ge in H
  | H : (_ <=? _)%Z = true |- _ => apply Z.leb_le in H
  | H : (_ <=? _)%Z = false |- _ => apply Z.leb_gt in H
  | H : negb _ = true |- _ => apply negb_true_iff in H
  | H : negb _ = false |- _ => apply negb_false_iff in H
  | H : bool_decide _ = true |- _ => apply bool_decide_eq_true in H
  | H : bool_decide _ = false |- _ => apply bool_decide_eq_false in H
  end.

(** Case on the first conditional or match scrutinee of the goal. *)
Ltac case_goal :=
  match goal with
  | |- context [if ?b then _ else _] => destruct b eqn:?
  | |- context [match ?x with _ => _ end] => destruct x eqn:?
  end.

(** Case on the first conditional or match scrutinee of a hypothesis. *)
Ltac case_hyp H :=
  match type of H with
  | context [if ?b then _ else _] => destruct b eqn:?
  | context [match ?x with _ => _ end] => destruct x eqn:?
  end.

(** ** Machine integers

    A Go integer of width [w] is a [Z] kept in its range; a conversion
    [uint32(x)], [int32(x)], ... wraps around. *)

Definition u8 (z : Z) : Z := z mod 2 ^ 8.

Definition u16 (z : Z) : Z := z mod 2 ^ 16.

Definition u32 (z : Z) : Z := z mod 2 ^ 32.

Definition u64 (z : Z) : Z := z mod 2 ^ 64.

Definition i32 (z : Z) : Z := (z + 2 ^ 31) mod 2 ^ 32 - 2 ^ 31.

Definition i64 (z : Z) : Z := (z + 2 ^ 63) mod 2 ^ 64 - 2 ^ 63.

Lemma u8_id z : 0 <= z < 2 ^ 8 -> u8 z = z.
Proof. apply Z.mod_small. Qed.

Lemma u16_id z : 0 <= z < 2 ^ 16 -> u16 z = z.
Proof. apply Z.mod_small. Qed.

Lemma u32_id z : 0 <= z < 2 ^ 32 -> u32 z = z.
Proof. apply Z.mod_small. Qed.

Lemma u64_id z : 0 <= z < 2 ^ 64 -> u64 z = z.
Proof. apply Z.mod_small. Qed.

Lemma i32_id z : - 2 ^ 31 <= z < 2 ^ 31 -> i32 z = z.
Proof. intros. unfold i32. rewrite Z.mod_small; lia. Qed.

Lemma i64_id z : - 2 ^ 63 <= z < 2 ^ 63 -> i64 z = z.
Proof. intros. unfold i64. rewrite Z.mod_small; lia. Qed.

Lemma u32_range z : 0 <= u32 z < 2 ^ 32.
Proof. apply Z.mod_pos_bound. lia. Qed.

Lemma u64_range z : 0 <= u64 z < 2 ^ 64.
Proof. apply Z.mod_pos_bound. lia. Qed.

#[export] Hint Rewrite u8_id u16_id u32_id u64_id i32_id i64_id using lia : unbound_rw.

(** ** Bytes

    A Go [[]byte] or [string] is the list of its bytes, each a [Z] in
    [0, 255]. *)

Definition is_byte (z : Z) : Prop := 0 <= z < 256.

#[export] Instance is_byte_dec z : Decision (is_byte z).
Proof. unfold is_byte. apply _. Defined.

(** The bytes of a string literal of the source. *)
Definition s2b (s : string) : list Z :=
  map (fun a => Z.of_N (Ascii.N_of_ascii a)) (String.list_ascii_of_string s).

Lemma s2b_bytes s : Forall is_byte (s2b s).
Proof.
  unfold s2b. apply Forall_forall. intros z Hz.
  apply list_elem_of_fmap in Hz as (a & -> & _).
  unfold is_byte. pose proof (Ascii.N_ascii_bounded a). lia.
Qed.

(** The length of a slice, as the Go [int] that [len] returns. *)
Definition zlen {A} (l : list A) : Z := Z.of_nat (length l).

(** [l[off:off+n]] for a range the caller has checked. *)
Definition slice {A} (l : list A) (off n : Z) : list A :=
  take (Z.to_nat n) (drop (Z.to_nat off) l).

(** [l[i]] for an index the caller has checked. *)
Definition byte_at (l : list Z) (i : Z) : Z := nth (Z.to_nat i) l 0.

Lemma zlen_nonneg {A} (l : list A) : 0 <= zlen l.
Proof. unfold zlen. lia. Qed.

Lemma zlen_app {A} (l k : list A) : zlen (l ++ k) = zlen l + zlen k.
Proof. unfold zlen. rewrite length_app. lia. Qed.

Lemma zlen_cons {A} (x : A) l : zlen (x :: l) = 1 + zlen l.
Proof. unfold zlen. simpl. lia. Qed.

Lemma zlen_nil {A} : zlen (@nil A) = 0.
Proof. done. Qed.

Lemma zlen_slice {A} (l : list A) off n :
  0 <= off -> 0 <= n -> off + n <= zlen l -> zlen (slice l off n) = n.
Proof. unfold zlen, slice. rewrite length_take, length_drop. lia. Qed.

Lemma slice_forall {A} (P : A -> Prop) l off n :
  Forall P l -> Forall P (slice l off n).
Proof. intros. by apply Forall_take, Forall_drop. Qed.

Lemma slice_all {A} (l : list A) : slice l 0 (zlen l) = l.
Proof. unfold slice, zlen. rewrite Nat2Z.id, drop_0, firstn_all. done. Qed.

Lemma slice_app_l {A} (l k : list A) : slice (l ++ k) 0 (zlen l) = l.
Proof. unfold slice, zlen. rewrite Nat2Z.id. simpl. apply take_app_length. Qed.

Lemma slice_app_r {A} (l k : list A) n :
  slice (l ++ k) (zlen l) n = take (Z.to_nat n) k.
Proof. unfold slice, zlen. rewrite Nat2Z.id, drop_app_length. done. Qed.

Lemma byte_at_range l i : Forall is_byte l -> is_byte (byte_at l i).
Proof.
  intros H. unfold byte_at.
  destruct (nth_in_or_default (Z.to_nat i) l 0) as [Hin | ->]; [|unfold is_byte; lia].
  rewrite Forall_forall in H. by apply H, list_elem_of_In.
Qed.

#[export] Hint Resolve zlen_nonneg s2b_bytes slice_forall byte_at_range : unbound.
#[export] Hint Rewrite @zlen_app @zlen_cons @zlen_nil : unbound_rw.

(** [binary.LittleEndian] and [binary.BigEndian] over whole slices. *)
Fixpoint le_decode (l : list Z) : Z :=
  match l with
  | [] => 0
  | b :: l => b + 2 ^ 8 * le_decode l
  end.

Fixpoint le_encode (n : nat) (z : Z) : list Z :=
  match n with
  | O => []
  | S n => z mod 2 ^ 8 :: le_encode n (z / 2 ^ 8)
  end.

Definition be_decode (l : list Z) : Z :=
  fold_left (fun acc b => acc * 2 ^ 8 + b) l 0.

Definition be_encode (n : nat) (z : Z) : list Z := rev (le_encode n z).

Lemma length_le_encode n z : length (le_encode n z) = n.
Proof. revert z. induction n as [|n IH]; intros z; simpl; [done|]. by rewrite IH. Qed.

Lemma zlen_le_encode n z : zlen (le_encode n z) = Z.of_nat n.
Proof. unfold zlen. by rewrite length_le_encode. Qed.

Lemma le_encode_bytes n z : Forall is_byte (le_encode n z).
Proof.
  revert z. induction n as [|n IH]; intros z; simpl; constructor; [|done].
  unfold is_byte. apply (Z.mod_pos_bound z 256). lia.
Qed.

Lemma le_decode_encode n z : le_decode (le_encode n z) = z mod 2 ^ (8 * Z.of_nat n).
Proof.
  revert z. induction n as [|n IH]; intros z; simpl le_encode; simpl le_decode.
  - by rewrite Z.mod_1_r.
  - rewrite IH. replace (8 * Z.of_nat (S n)) with (8 + 8 * Z.of_nat n) by lia.
    rewrite Z.pow_add_r, Z.rem_mul_r by lia. done.
Qed.

Lemma be_decode_app l b : be_decode (l ++ [b]) = be_decode l * 2 ^ 8 + b.
Proof. unfold be_decode. by rewrite fold_left_app. Qed.

Lemma be_decode_rev l : be_decode (rev l) = le_decode l.
Proof.
  induction l as [|b l IH]; [done|].
  simpl rev. rewrite be_decode_app, IH. simpl le_decode. lia.
Qed.

Lemma be_decode_encode n z : be_decode (be_encode n z) = z mod 2 ^ (8 * Z.of_nat n).
Proof. unfold be_encode. by rewrite be_decode_rev, le_decode_encode. Qed.

Lemma length_be_encode n z : length (be_encode n z) = n.
Proof. unfold be_encode. by rewrite length_rev, length_le_encode. Qed.

Lemma be_encode_bytes n z : Forall is_byte (be_encode n z).
Proof. unfold be_encode. apply Forall_rev, le_encode_bytes. Qed.

Lemma le_decode_range l : Forall is_byte l -> 0 <= le_decode l < 2 ^ (8 * zlen l).
Proof.
  induction 1 as [|b l Hb _ IH]; [done|].
  simpl le_decode. rewrite zlen_cons.
  replace (8 * (1 + zlen l)) with (8 + 8 * zlen l) by lia.
  rewrite Z.pow_add_r by (unfold zlen; lia). unfold is_byte in Hb. lia.
Qed.

Lemma be_decode_range l : Forall is_byte l -> 0 <= be_decode l < 2 ^ (8 * zlen l).
Proof.
  intros H. rewrite <- (rev_involutive l), be_decode_rev.
  replace (zlen (rev (rev l))) with (zlen (rev l)) by (unfold zlen; by rewrite !length_rev).
  apply le_decode_range. by apply Forall_rev.
Qed.

#[export] Hint Resolve le_encode_bytes be_encode_bytes : unbound.

(** ** Run-time panics

    An expression that can panic yields an [option], [None] for the panic.
    Indexing and slicing panic outside the length of the slice (Go admits an
    upper bound up to the capacity, so the model panics no less often). *)

Definition go_index {A} (l : list A) (i : Z) : option A :=
  if 0 <=? i then l !! Z.to_nat i else None.

Definition go_slice {A} (l : list A) (lo hi : Z) : option (list A) :=
  if (0 <=? lo) && (lo <=? hi) && (hi <=? zlen l) then Some (slice l lo (hi - lo)) else None.

Lemma go_slice_Some {A} (l : list A) lo hi :
  0 <= lo -> lo <= hi -> hi <= zlen l -> go_slice l lo hi = Some (slice l lo (hi - lo)).
Proof.
  intros H1%Z.leb_le H2%Z.leb_le H3%Z.leb_le. unfold go_slice. by rewrite H1, H2, H3.
Qed.

Lemma go_slice_mid {A} (a b c : list A) lo hi :
  lo = zlen a -> hi = zlen a + zlen b -> go_slice (a ++ b ++ c) lo hi = Some b.
Proof.
  intros -> ->. rewrite go_slice_Some; rewrite ?zlen_app; pose proof (zlen_nonneg a);
    pose proof (zlen_nonneg b); pose proof (zlen_nonneg c); [|lia..].
  rewrite slice_app_r. f_equal. replace (zlen a + zlen b - zlen a) with (zlen b) by lia.
  unfold zlen. by rewrite Nat2Z.id, take_app_length.
Qed.

(** ** Results

    A Go function that returns [(T, error)]. *)
Inductive result (E A : Type) : Type :=
| Ok (a : A)
| Err (e : E).

Arguments Ok {E A} a.
Arguments Err {E A} e.

Declare Scope go_scope.
Delimit Scope go_scope with go.

(** [x, err := m; if err != nil { return ..., err }]. *)
Notation "'let?' x := m 'in' k" :=
  (match m with Ok x => k | Err err => Err err end)
  (at level 10, x pattern, k at level 200) : go_scope.

#[global] Open Scope go_scope.

#[export] Instance result_eq_dec {E A} `{EqDecision E, EqDecision A} :
  EqDecision (result E A).
Proof. solve_decision. Defined.

Definition is_ok {E A} (r : result E A) : bool :=
  match r with Ok _ => true | Err _ => false end.
