(* ===== verification/Errors.v ===== *)
(** * Error values

    The Go errors the package produces, wraps and inspects: the sentinel
    errors of the standard library it compares against, [syscall.Errno],
    [*net.OpError], the wrappers of [fmt.Errorf] with [%w], [errors.Join],
    and the package's own [BogusError], [ResponseError] and [QueryError]
    (unbound.go, runtime.go), with the text their [Error] methods build.
    A Go [error] is an [option go_error]: [None] is [nil]. *)

From S2P Require Import Prelude.
From stdpp Require Import pretty.

#[local] Open Scope Z_scope.

(** [syscall.Errno]: the values the package names, and any other. The
    numbers themselves differ between operating systems and are not used. *)
Inductive Errno :=
| EACCES | EADDRINUSE | EADDRNOTAVAIL | EAGAIN | EBADF | ECONNREFUSED
| ECONNRESET | EHOSTUNREACH | EINVAL | ENETUNREACH | ENOTCONN | EPIPE
| ETIMEDOUT | EOTHER (n : Z).

#[export] Instance Errno_eq_dec : EqDecision Errno.
Proof. solve_decision. Defined.

(** An Extended DNS Error (RFC 8914). *)
Record EDE := mkEDE { Code : Z; Text : list Z }.

#[export] Instance EDE_eq_dec : EqDecision EDE.
Proof. solve_decision. Defined.

(** One name and type of a batch. *)
Record Query := mkQuery { Name : list Z; Type_ : Z }.

#[export] Instance Query_eq_dec : EqDecision Query.
Proof. solve_decision. Defined.

#[warnings="-register-all"]
Inductive go_error : Type :=
| ErrString (msg : list Z)                  (* errors.New, fmt.Errorf without a wrapped error *)
| ErrWrap (prefix : list Z) (e : go_error)  (* fmt.Errorf("...: %w", e) *)
| OpError (e : go_error)                    (* *net.OpError, e its Err field *)
| SyscallErrno (n : Errno)                  (* syscall.Errno *)
| DeadlineExceeded                          (* context.DeadlineExceeded *)
| Canceled                                  (* context.Canceled *)
| NetTimeout                                (* the net package's dial timeout error *)
| NetErrClosed                              (* net.ErrClosed *)
| EOF                                       (* io.EOF *)
| ErrClosed                                 (* unbound.ErrClosed *)
| BogusError (reason : list Z) (ede : list EDE)
| ResponseError (rcode : Z) (ede : list EDE)
| QueryError (q : Query) (e : go_error)
| ErrJoin (errs : list go_error).           (* errors.Join of non-nil errors *)

(** [fmt.Errorf] and [errors.New] with a literal text. *)
Definition errorsNew (s : string) : go_error := ErrString (s2b s).

Definition errorfw (s : string) (e : go_error) : go_error := ErrWrap (s2b s) e.

(** The search of [errors.As] and [errors.Is]: an error, then what its
    [Unwrap] method returns, depth first. [sel] is the type or identity
    test. *)
Fixpoint find_err {A} (sel : go_error -> option A) (e : go_error) : option A :=
  match sel e with
  | Some a => Some a
  | None =>
      match e with
      | ErrWrap _ e' | OpError e' | QueryError _ e' => find_err sel e'
      | ErrJoin l =>
          (fix go (l : list go_error) : option A :=
             match l with
             | [] => None
             | e' :: l => match find_err sel e' with Some a => Some a | None => go l end
             end) l
      | _ => None
      end
  end.

(** [errors.As(err, &op)] for [op *net.OpError], yielding [op.Err]. *)
Definition as_op (e : go_error) : option go_error :=
  find_err (fun e => match e with OpError e' => Some e' | _ => None end) e.

(** [errors.As(err, &errno)] for [errno syscall.Errno]. *)
Definition as_errno (e : go_error) : option Errno :=
  find_err (fun e => match e with SyscallErrno n => Some n | _ => None end) e.

(** [errors.As(err, &qe)] for [qe *QueryError], yielding [qe.Err]. *)
Definition as_query (e : go_error) : option go_error :=
  find_err (fun e => match e with QueryError _ e' => Some e' | _ => None end) e.

(** [errors.Is(err, context.DeadlineExceeded)]; the timeout error of the
    net package has an [Is] method that accepts it. *)
Definition is_deadline (e : go_error) : bool :=
  bool_decide (is_Some (find_err (fun e => match e with
    DeadlineExceeded | NetTimeout => Some tt | _ => None end) e)).

(** [errors.Is(err, net.ErrClosed)]. *)
Definition is_net_closed (e : go_error) : bool :=
  bool_decide (is_Some (find_err (fun e => match e with
    NetErrClosed => Some tt | _ => None end) e)).

(** [errors.Is(err, io.EOF)]. *)
Definition is_eof (e : go_error) : bool :=
  bool_decide (is_Some (find_err (fun e => match e with
    EOF => Some tt | _ => None end) e)).

(** [errors.Join]: nil when no error is non-nil. *)
Definition errorsJoin (errs : list (option go_error)) : option go_error :=
  match omap id errs with
  | [] => None
  | l => Some (ErrJoin l)
  end.

(** ** Rendered texts *)

Definition itoa (z : Z) : list Z := s2b (pretty z).

Definition edeNames : list string := [
  "Other Error";
  "Unsupported DNSKEY Algorithm";
  "Unsupported DS Digest Type";
  "Stale Answer";
  "Forged Answer";
  "DNSSEC Indeterminate";
  "DNSSEC Bogus";
  "Signature Expired";
  "Signature Not Yet Valid";
  "DNSKEY Missing";
  "RRSIGs Missing";
  "No Zone Key Bit Set";
  "NSEC Missing";
  "Cached Error";
  "Not Ready";
  "Blocked";
  "Censored";
  "Filtered";
  "Prohibited";
  "Stale NXDOMAIN Answer";
  "Not Authoritative";
  "Not Supported";
  "No Reachable Authority";
  "Network Error";
  "Invalid Data" ]%string.

(** [EDE.String]. *)
Definition EDE_String (e : EDE) : list Z :=
  let s := s2b "EDE " ++ itoa (Code e) in
  let s := if Code e <? zlen edeNames
           then s2b (nth (Z.to_nat (Code e)) edeNames ""%string) else s in
  if bool_decide (Text e = []) then s else s ++ s2b ": " ++ Text e.

Definition BogusError_Error (reason : list Z) : list Z :=
  s2b "unbound: DNSSEC validation failed: " ++ reason.

(** [ResponseError.Error]. *)
Definition ResponseError_Error (rcode : Z) (ede : list EDE) : list Z :=
  let msg := s2b "unbound: resolution failed: " in
  let msg := msg ++
    (if rcode =? 1 then s2b "FORMERR"
     else if rcode =? 2 then s2b "SERVFAIL"
     else if rcode =? 4 then s2b "NOTIMP"
     else if rcode =? 5 then s2b "REFUSED"
     else s2b "rcode " ++ itoa rcode) in
  fold_left (fun msg e => msg ++ s2b " (" ++ EDE_String e ++ s2b ")") ede msg.

Lemma find_err_wrap {A} (sel : go_error -> option A) p e :
  (forall p e, sel (ErrWrap p e) = None) -> find_err sel (ErrWrap p e) = find_err sel e.
Proof. intros H. simpl. by rewrite H. Qed.

(** A test case of answer_test.go. *)
Example EDE_String_test :
  EDE_String (mkEDE 22 (s2b "no servers could be reached"))
  = s2b "No Reachable Authority: no servers could be reached".
Proof. reflexivity. Qed.
