(* ===== verification/Errno.v ===== *)
(** * errno.go: Go network errors as WASI errno values *)

From S2P Require Import Prelude Errors.

Definition wasiSuccess : Z := 0.
Definition wasiEACCES : Z := 2.
Definition wasiEADDRINUSE : Z := 3.
Definition wasiEADDRNOTAVAIL : Z := 4.
Definition wasiEAFNOSUPPORT : Z := 5.
Definition wasiEAGAIN : Z := 6.
Definition wasiEBADF : Z := 8.
Definition wasiECONNREFUSED : Z := 14.
Definition wasiECONNRESET : Z := 15.
Definition wasiEFAULT : Z := 21.
Definition wasiEHOSTUNREACH : Z := 23.
Definition wasiEINVAL : Z := 28.
Definition wasiEIO : Z := 29.
Definition wasiENETUNREACH : Z := 40.
Definition wasiEMFILE : Z := 41.
Definition wasiENOSYS : Z := 52.
Definition wasiENOTCONN : Z := 53.
Definition wasiEPIPE : Z := 64.
Definition wasiETIMEDOUT : Z := 73.

(** The [switch errno] of [wasiErrno]. *)
Definition errno_switch (n : Errno) : Z :=
  match n with
  | EACCES => wasiEACCES
  | EADDRINUSE => wasiEADDRINUSE
  | EADDRNOTAVAIL => wasiEADDRNOTAVAIL
  | EAGAIN => wasiEAGAIN
  | EBADF => wasiEBADF
  | ECONNREFUSED => wasiECONNREFUSED
  | ECONNRESET => wasiECONNRESET
  | EHOSTUNREACH => wasiEHOSTUNREACH
  | EINVAL => wasiEINVAL
  | ENETUNREACH => wasiENETUNREACH
  | ENOTCONN => wasiENOTCONN
  | EPIPE => wasiEPIPE
  | ETIMEDOUT => wasiETIMEDOUT
  | EOTHER _ => wasiEIO
  end.

(** [wasiErrno]: a Go network error as a WASI errno. *)
Definition wasiErrno (err : option go_error) : Z :=
  match err with
  | None => wasiSuccess
  | Some err =>
      let err := match as_op err with Some e => e | None => err end in
      match as_errno err with
      | Some errno => errno_switch errno
      | None =>
          if is_deadline err then wasiETIMEDOUT
          else if is_net_closed err then wasiEBADF
          else wasiEIO
      end
  end.

Lemma errno_switch_range n : 2 <= errno_switch n <= 73.
Proof. destruct n; unfold errno_switch; cbv; split; discriminate. Qed.

Lemma wasiErrno_range e : 2 <= wasiErrno (Some e) <= 73.
Proof.
  unfold wasiErrno.
  destruct (as_errno _); [apply errno_switch_range|].
  repeat case_goal; cbv; split; discriminate.
Qed.

Lemma wasiErrno_pos e : 0 < wasiErrno (Some e).
Proof. pose proof (wasiErrno_range e). lia. Qed.

#[export] Hint Resolve wasiErrno_pos : unbound.

(** The result of [wasiErrno] is zero exactly for a nil error, and
    otherwise a WASI errno between 2 and 73 that [fmt.Errorf] wrapping does
    not change; the recognised system errors keep distinct numbers. So a
    host call that returns the negated errno of a failure returns a
    strictly negative value, which the guest cannot take for a success. *)
Lemma wasiErrno_sound :
  (forall err, wasiErrno err = 0 <-> err = None) /\
  (forall e, 2 <= wasiErrno (Some e) <= 73) /\
  (forall p e, wasiErrno (Some (ErrWrap p e)) = wasiErrno (Some e)) /\
  (forall n m, errno_switch n = errno_switch m -> errno_switch n <> wasiEIO -> n = m).
Proof.
  split_and!.
  - intros [e|]; [|done]. pose proof (wasiErrno_pos e). split; [lia|done].
  - apply wasiErrno_range.
  - intros p e. unfold wasiErrno, as_op, as_errno, is_deadline, is_net_closed.
    rewrite !find_err_wrap by done.
    destruct (find_err _ e) eqn:Hop; [done|]. by rewrite !find_err_wrap.
  - intros [] []; cbv; intros; congruence.
Qed.

(** The cases of errno_test.go. *)
Example wasiErrno_tests :
  map wasiErrno [None; Some (SyscallErrno EAGAIN);
                 Some (OpError (SyscallErrno ECONNREFUSED));
                 Some DeadlineExceeded; Some NetErrClosed;
                 Some (errorsNew "inscrutable")]
  = [0; 6; 14; 73; 8; 29].
Proof. reflexivity. Qed.
