(* ===== verification/Netip.v ===== *)
(** * The parts of Go's net/netip the host policy uses

    [netip.Addr], [netip.AddrPort] and [netip.Prefix] with the accessors,
    the parsers ([ParseAddr], [ParsePrefix]) and [Prefix.Contains]. As in
    the library, an address is a 128-bit number with a tag that says
    whether it is absent, IPv4 (stored in its IPv4-mapped form) or IPv6
    with or without a zone. The second half characterises [Contains]
    arithmetically: a prefix holds the addresses of its family whose top
    bits agree. *)

From S2P Require Import Prelude.

(** ** Addresses *)

Inductive addr_z := z0 | z4 | z6noz | z6 (zone : list Z).

#[export] Instance addr_z_eq_dec : EqDecision addr_z.
Proof. solve_decision. Defined.

Record Addr := mkAddr { addr : Z; az : addr_z }.

#[export] Instance Addr_eq_dec : EqDecision Addr.
Proof. solve_decision. Defined.

(** The zero [netip.Addr{}]. *)
Definition Addr_zero : Addr := mkAddr 0 z0.

Record AddrPort := mkAddrPort { AP_Addr : Addr; AP_Port : Z }.

#[export] Instance AddrPort_eq_dec : EqDecision AddrPort.
Proof. solve_decision. Defined.

Definition AddrPort_zero : AddrPort := mkAddrPort Addr_zero 0.

Definition AddrPortFrom (ip : Addr) (port : Z) : AddrPort := mkAddrPort ip port.

Definition IsValid (ip : Addr) : bool :=
  match az ip with z0 => false | _ => true end.

Definition Is4 (ip : Addr) : bool :=
  match az ip with z4 => true | _ => false end.

Definition Is6 (ip : Addr) : bool :=
  match az ip with z6noz | z6 _ => true | _ => false end.

Definition HasZone (ip : Addr) : bool :=
  match az ip with z6 _ => true | _ => false end.

Definition Is4In6 (ip : Addr) : bool :=
  Is6 ip && (Z.shiftr (addr ip) 32 =? 65535).

Definition Unmap (ip : Addr) : Addr :=
  if Is4In6 ip then mkAddr (addr ip) z4 else ip.

Definition BitLen (ip : Addr) : Z :=
  match az ip with z0 => 0 | z4 => 32 | _ => 128 end.

Definition AddrFrom4 (b : list Z) : Addr :=
  mkAddr (65535 * 2 ^ 32 + be_decode b) z4.

Definition AddrFrom16 (b : list Z) : Addr := mkAddr (be_decode b) z6noz.

(** [As4], for an address the caller knows to be IPv4. *)
Definition As4 (ip : Addr) : list Z := be_encode 4 (addr ip).

Definition As16 (ip : Addr) : list Z := be_encode 16 (addr ip).

Definition WithZone (ip : Addr) (zone : list Z) : Addr :=
  if negb (Is6 ip) then ip
  else if bool_decide (zone = []) then mkAddr (addr ip) z6noz
  else mkAddr (addr ip) (z6 zone).

Definition AddrPort_IsValid (p : AddrPort) : bool := IsValid (AP_Addr p).

(** An address as the library builds it: 128 bits, and in the IPv4-mapped
    block when it is IPv4. *)
Definition addr_wf (ip : Addr) : Prop :=
  0 <= addr ip < 2 ^ 128 /\ (az ip = z4 -> addr ip / 2 ^ 32 = 65535).

(** ** Parsing *)

Definition is_digit (c : Z) : bool := (48 <=? c) && (c <=? 57).

(** [parseIPv4Fields] with the octets read so far, the value and digit
    count of the current octet, and the previous character. *)
Fixpoint parseIPv4Fields (s : list Z) (fields : list Z) (val digLen : Z)
    (prev : option Z) : option (list Z) :=
  match s with
  | [] => if zlen fields <? 3 then None else Some (fields ++ [val])
  | c :: s' =>
      if is_digit c then
        if (digLen =? 1) && (val =? 0) then None
        else
          let val := val * 10 + c - 48 in
          if 255 <? val then None
          else parseIPv4Fields s' fields val (digLen + 1) (Some c)
      else if c =? 46 then
        if bool_decide (prev = None) || bool_decide (s' = []) || bool_decide (prev = Some 46)
        then None
        else if zlen fields =? 3 then None
        else parseIPv4Fields s' (fields ++ [val]) 0 0 (Some c)
      else None
  end.

Definition parseIPv4 (s : list Z) : option Addr :=
  AddrFrom4 <$> parseIPv4Fields s [] 0 0 None.

Definition hexval (c : Z) : option Z :=
  if is_digit c then Some (c - 48)
  else if (97 <=? c) && (c <=? 102) then Some (c - 97 + 10)
  else if (65 <=? c) && (c <=? 70) then Some (c - 65 + 10)
  else None.

(** The hexadecimal digits of one group: value, digit count, rest. *)
Fixpoint hexgroup (s : list Z) (off acc : Z) : option (Z * Z * list Z) :=
  match s with
  | [] => Some (acc, off, [])
  | c :: s' =>
      match hexval c with
      | None => Some (acc, off, s)
      | Some d =>
          let acc := acc * 16 + d in
          if 3 <? off then None
          else if 65535 <? acc then None
          else hexgroup s' (off + 1) acc
      end
  end.

(** The loop of [parseIPv6]: the bytes read so far, and the position of
    the ellipsis. The loop stops at 16 bytes, and every round but the last
    adds two, so eight rounds are enough. *)
Fixpoint parseIPv6Groups (fuel : nat) (s ip : list Z) (ellipsis : option nat)
    : option (list Z * option nat * list Z) :=
  match fuel with
  | O => Some (ip, ellipsis, s)
  | S fuel =>
      match hexgroup s 0 0 with
      | None => None
      | Some (acc, off, rest) =>
          if off =? 0 then None
          else if bool_decide (head rest = Some 46) then
            if bool_decide (ellipsis = None) && negb (zlen ip =? 12) then None
            else if 16 <? zlen ip + 4 then None
            else match parseIPv4Fields s [] 0 0 None with
                 | None => None
                 | Some f => Some (ip ++ f, ellipsis, [])
                 end
          else
            let ip := ip ++ [Z.shiftr acc 8; u8 acc] in
            match rest with
            | [] => Some (ip, ellipsis, [])
            | c :: s1 =>
                if negb (c =? 58) then None
                else match s1 with
                     | [] => None
                     | c1 :: s2 =>
                         if c1 =? 58 then
                           if bool_decide (ellipsis <> None) then None
                           else match s2 with
                                | [] => Some (ip, Some (length ip), [])
                                | _ => parseIPv6Groups fuel s2 ip (Some (length ip))
                                end
                         else parseIPv6Groups fuel s1 ip ellipsis
                     end
            end
      end
  end.

(** Everything before the first [c], and what follows it. *)
Fixpoint cut (c : Z) (s : list Z) : option (list Z * list Z) :=
  match s with
  | [] => None
  | x :: s => if x =? c then Some ([], s)
              else match cut c s with
                   | Some (a, b) => Some (x :: a, b)
                   | None => None
                   end
  end.

Definition parseIPv6 (s : list Z) : option Addr :=
  let '(s, zone, bad) := match cut 37 s with
                         | Some (a, b) => (a, b, bool_decide (b = []))
                         | None => (s, [], false)
                         end in
  if bad then None
  else
    let '(s, ellipsis) := match s with
                          | 58 :: 58 :: s => (s, Some O)
                          | _ => (s, None)
                          end in
    if bool_decide (s = []) && bool_decide (ellipsis = Some O)
    then Some (WithZone (AddrFrom16 (replicate 16 0)) zone)
    else
      match parseIPv6Groups 8 s [] ellipsis with
      | None => None
      | Some (ip, ellipsis, rest) =>
          if bool_decide (rest <> []) then None
          else if zlen ip <? 16 then
            match ellipsis with
            | None => None
            | Some e =>
                Some (WithZone (AddrFrom16 (take e ip ++ replicate (16 - length ip) 0 ++ drop e ip)) zone)
            end
          else if bool_decide (ellipsis <> None) then None
          else Some (WithZone (AddrFrom16 ip) zone)
      end.

(** [ParseAddr]: the first of [.], [:] and [%] decides the format. *)
Definition ParseAddr (s : list Z) : option Addr :=
  match find (fun c => (c =? 46) || (c =? 58) || (c =? 37)) s with
  | Some c => if c =? 46 then parseIPv4 s
              else if c =? 58 then parseIPv6 s
              else None
  | None => None
  end.

(** ** Prefixes *)

(** [p_bits] is [-1] for an invalid prefix. *)
Record Prefix := mkPrefix { p_ip : Addr; p_bits : Z }.

#[export] Instance Prefix_eq_dec : EqDecision Prefix.
Proof. solve_decision. Defined.

Definition PrefixFrom (ip : Addr) (bits : Z) : Prefix :=
  mkPrefix (WithZone ip [])
    (if IsValid ip && (0 <=? bits) && (bits <=? BitLen ip) then bits else -1).

Definition Prefix_IsValid (p : Prefix) : bool := 0 <=? p_bits p.

(** [strconv.Atoi] on a string without a sign. *)
Definition atoi (s : list Z) : option Z :=
  if bool_decide (s = []) then None
  else if forallb is_digit s then Some (fold_left (fun v c => v * 10 + (c - 48)) s 0)
  else None.

Definition ParsePrefix (s : list Z) : option Prefix :=
  match cut 47 (rev s) with
  | None => None
  | Some (bits_rev, ip_rev) =>
      let bitsStr := rev bits_rev in
      match ParseAddr (rev ip_rev) with
      | None => None
      | Some ip =>
          if HasZone ip then None
          else if (1 <? zlen bitsStr) && ((hd 0 bitsStr <? 49) || (57 <? hd 0 bitsStr)) then None
          else match atoi bitsStr with
               | None => None
               | Some bits =>
                   if (bits <? 0) || ((if Is6 ip then 128 else 32) <? bits) then None
                   else Some (PrefixFrom ip bits)
               end
      end
  end.

(** The top [n] bits of 128. *)
Definition mask6 (n : Z) : Z := Z.shiftl (Z.ones n) (128 - n).

(** [Prefix.Contains]. *)
Definition Contains (p : Prefix) (ip : Addr) : bool :=
  if negb (Prefix_IsValid p) || HasZone ip then false
  else
    let f1 := BitLen (p_ip p) in
    let f2 := BitLen ip in
    if (f1 =? 0) || (f2 =? 0) || negb (f1 =? f2) then false
    else if Is4 ip
    then Z.shiftr (u32 (Z.lxor (addr ip) (addr (p_ip p)))) (32 - p_bits p) =? 0
    else Z.land (Z.lxor (addr ip) (addr (p_ip p))) (mask6 (p_bits p)) =? 0.

(** ** Facts about addresses *)

Lemma AddrFrom4_wf b : Forall is_byte b -> length b = 4%nat -> addr_wf (AddrFrom4 b).
Proof.
  intros Hb Hl. pose proof (be_decode_range b Hb) as Hr.
  unfold zlen in Hr. rewrite Hl in Hr. change (2 ^ (8 * Z.of_nat 4)) with (2 ^ 32) in Hr.
  unfold addr_wf, AddrFrom4. cbn [addr az].
  split; [lia|]. intros _. rewrite Z.div_add_l by lia. rewrite Z.div_small; lia.
Qed.

Lemma AddrFrom16_wf b : Forall is_byte b -> length b = 16%nat -> addr_wf (AddrFrom16 b).
Proof.
  intros Hb Hl. pose proof (be_decode_range b Hb) as Hr.
  unfold zlen in Hr. rewrite Hl in Hr. change (2 ^ (8 * Z.of_nat 16)) with (2 ^ 128) in Hr.
  unfold addr_wf, AddrFrom16. cbn [addr az]. split; [lia|discriminate].
Qed.

Lemma Unmap_wf ip : addr_wf ip -> addr_wf (Unmap ip).
Proof.
  intros [Hr H4]. unfold Unmap, Is4In6. destruct (Is6 ip && _) eqn:E; [|done].
  bool_props. split; [done|]. intros _. cbn. by rewrite <- Z.shiftr_div_pow2.
Qed.

#[export] Hint Resolve AddrFrom4_wf AddrFrom16_wf Unmap_wf : unbound.

(** ** [Contains] as arithmetic *)

(** Two numbers have equal bits above position [n] iff they have the same
    quotient. *)
Lemma shiftr_lxor_zero a b n :
  0 <= n -> Z.shiftr (Z.lxor a b) n = 0 <-> a / 2 ^ n = b / 2 ^ n.
Proof.
  intros Hn. rewrite <- !Z.shiftr_div_pow2, Z.shiftr_lxor by done.
  split; [apply Z.lxor_eq | intros ->; apply Z.lxor_nilpotent].
Qed.

Lemma u32_lxor a b : u32 (Z.lxor a b) = Z.lxor (u32 a) (u32 b).
Proof.
  unfold u32. rewrite <- !(Z.land_ones _ 32) by lia.
  apply Z.bits_inj'. intros i Hi.
  rewrite !Z.land_spec, !Z.lxor_spec, !Z.land_spec.
  destruct (Z.testbit a i), (Z.testbit b i), (Z.testbit (Z.ones 32) i); done.
Qed.

Lemma land_mask6_zero x n :
  0 <= x < 2 ^ 128 -> 0 <= n <= 128 ->
  Z.land x (mask6 n) = 0 <-> Z.shiftr x (128 - n) = 0.
Proof.
  intros Hx Hn. unfold mask6. set (k := 128 - n).
  assert (Hland : Z.land x (Z.shiftl (Z.ones n) k) = Z.shiftl (Z.land (Z.shiftr x k) (Z.ones n)) k).
  { apply Z.bits_inj'. intros i Hi.
    rewrite Z.land_spec. rewrite !Z.shiftl_spec by done.
    rewrite Z.land_spec. destruct (Z.le_gt_cases k i).
    - rewrite Z.shiftr_spec by lia. do 2 f_equal. lia.
    - rewrite (Z.testbit_neg_r (Z.ones n)) by lia. by rewrite !andb_false_r. }
  assert (Hpos : 0 < 2 ^ k) by (apply Z.pow_pos_nonneg; lia).
  assert (Hsmall : 0 <= Z.shiftr x k < 2 ^ n).
  { rewrite Z.shiftr_div_pow2 by lia. split; [apply Z.div_pos; lia|].
    apply Z.div_lt_upper_bound; [done|].
    rewrite <- Z.pow_add_r by lia. replace (k + n) with 128 by lia. lia. }
  rewrite Hland, Z.land_ones, (Z.mod_small _ _ Hsmall), Z.shiftl_mul_pow2 by lia.
  nia.
Qed.

Lemma log2_lt_128 a : 0 <= a < 2 ^ 128 -> Z.log2 a < 128.
Proof.
  intros. destruct (Z.eq_dec a 0) as [->|]; [done|]. apply Z.log2_lt_pow2; lia.
Qed.

Lemma lxor_128 a b : 0 <= a < 2 ^ 128 -> 0 <= b < 2 ^ 128 -> 0 <= Z.lxor a b < 2 ^ 128.
Proof.
  intros Ha Hb.
  assert (Hnn : 0 <= Z.lxor a b) by (apply Z.lxor_nonneg; lia).
  split; [done|].
  destruct (Z.eq_dec (Z.lxor a b) 0) as [->|Hne]; [lia|].
  apply Z.log2_lt_pow2; [lia|].
  eapply Z.le_lt_trans; [apply Z.log2_lxor; lia|].
  apply Z.max_lub_lt; by apply log2_lt_128.
Qed.

(** Membership of an IPv4 address in an IPv4 prefix. *)
Lemma Contains_v4 a p n :
  0 <= n <= 32 -> a / 2 ^ 32 = 65535 -> p / 2 ^ 32 = 65535 ->
  Contains (mkPrefix (mkAddr p z4) n) (mkAddr a z4)
  = (a / 2 ^ (32 - n) =? p / 2 ^ (32 - n)).
Proof.
  intros Hn Ha Hp. unfold Contains, Prefix_IsValid, HasZone, BitLen, Is4. cbn [p_ip p_bits az addr].
  rewrite (proj2 (Z.leb_le 0 n)) by lia. cbn -[Z.pow Z.div].
  apply Bool.eq_iff_eq_true. rewrite !Z.eqb_eq, u32_lxor, shiftr_lxor_zero by lia.
  assert (E : forall x, x / 2 ^ 32 = 65535 ->
              x / 2 ^ (32 - n) = 65535 * 2 ^ n + u32 x / 2 ^ (32 - n)).
  { intros x Hx. unfold u32. rewrite (Z.div_mod x (2 ^ 32)) at 1 by lia. rewrite Hx.
    replace (2 ^ 32 * 65535) with (65535 * 2 ^ n * 2 ^ (32 - n))
      by (rewrite <- Z.mul_assoc, <- Z.pow_add_r by lia; replace (n + (32 - n)) with 32 by lia; lia).
    rewrite Z.div_add_l by (apply Z.pow_nonzero; lia). done. }
  rewrite (E a Ha), (E p Hp). lia.
Qed.

(** Membership of an IPv6 address without zone in an IPv6 prefix. *)
Lemma Contains_v6 a p n :
  0 <= n <= 128 -> 0 <= a < 2 ^ 128 -> 0 <= p < 2 ^ 128 ->
  Contains (mkPrefix (mkAddr p z6noz) n) (mkAddr a z6noz)
  = (a / 2 ^ (128 - n) =? p / 2 ^ (128 - n)).
Proof.
  intros Hn Ha Hp. unfold Contains, Prefix_IsValid, HasZone, BitLen, Is4. cbn [p_ip p_bits az addr].
  rewrite (proj2 (Z.leb_le 0 n)) by lia. cbn -[Z.pow Z.div mask6].
  apply Bool.eq_iff_eq_true.
  rewrite !Z.eqb_eq, land_mask6_zero by auto using lxor_128.
  by apply shiftr_lxor_zero; lia.
Qed.

(** A zoned address is in no prefix. *)
Lemma Contains_zone p a zone : Contains p (mkAddr a (z6 zone)) = false.
Proof. unfold Contains. cbn. by rewrite orb_true_r. Qed.

(** The families do not mix. *)
Lemma Contains_family p n a z :
  BitLen (p_ip (mkPrefix p n)) <> BitLen (mkAddr a z) -> Contains (mkPrefix p n) (mkAddr a z) = false.
Proof.
  intros H. unfold Contains. cbn [p_ip] in *. case_goal; [done|].
  rewrite (proj2 (Z.eqb_neq _ _) H). cbn. by rewrite orb_true_r.
Qed.
