(* ===== verification/Egress.v ===== *)
(** * sockets.go: the egress policy

    [deniedNetworks], [globalUnicastV6] and [egressAllowed], and an
    independent description of the destinations the policy lets through as
    address ranges. *)

From S2P Require Import Prelude Netip.

(** ** The policy, as the source writes it *)

(** [netip.MustParsePrefix]; [deniedNetworks_parse] shows that no literal
    of the source makes it panic. *)
Definition MustParsePrefix (s : string) : Prefix :=
  match ParsePrefix (s2b s) with
  | Some p => p
  | None => mkPrefix Addr_zero (-1)
  end.

Definition deniedNetworks_literals : list string := [
  "0.0.0.0/8"; "10.0.0.0/8"; "100.64.0.0/10"; "127.0.0.0/8"; "169.254.0.0/16";
  "172.16.0.0/12"; "192.0.0.0/24"; "192.0.2.0/24"; "192.88.99.0/24";
  "192.168.0.0/16"; "198.18.0.0/15"; "198.51.100.0/24"; "203.0.113.0/24";
  "224.0.0.0/4"; "240.0.0.0/4";
  "::/128"; "::1/128"; "64:ff9b::/96"; "64:ff9b:1::/48"; "100::/64";
  "2001::/23"; "2001:db8::/32"; "2002::/16"; "3fff::/20"; "5f00::/16";
  "fc00::/7"; "fe80::/10"; "ff00::/8" ]%string.

Definition deniedNetworks : list Prefix := map MustParsePrefix deniedNetworks_literals.

Definition globalUnicastV6 : Prefix := MustParsePrefix "2000::/3".

Definition egressAllowed (remote : AddrPort) : bool :=
  if negb (AP_Port remote =? 53) then false
  else
    let ip := Unmap (AP_Addr remote) in
    if negb (IsValid ip) then false
    else if Is6 ip && negb (Contains globalUnicastV6 ip) then false
    else negb (existsb (fun network => Contains network ip) deniedNetworks).

(** ** The destinations it lets through *)

(** A dotted quad as a number, and an IPv6 address given by its leading
    16-bit groups. *)
Definition quad (a b c d : Z) : Z := be_decode [a; b; c; d].

Definition groups (l : list Z) : Z :=
  fold_left (fun acc g => acc * 2 ^ 16 + g) l 0 * 2 ^ (16 * (8 - zlen l)).

(** The IPv4 ranges that are not public unicast: first and last address. *)
Definition special_v4 : list (Z * Z) := [
  (quad 0 0 0 0, quad 0 255 255 255);
  (quad 10 0 0 0, quad 10 255 255 255);
  (quad 100 64 0 0, quad 100 127 255 255);
  (quad 127 0 0 0, quad 127 255 255 255);
  (quad 169 254 0 0, quad 169 254 255 255);
  (quad 172 16 0 0, quad 172 31 255 255);
  (quad 192 0 0 0, quad 192 0 0 255);
  (quad 192 0 2 0, quad 192 0 2 255);
  (quad 192 88 99 0, quad 192 88 99 255);
  (quad 192 168 0 0, quad 192 168 255 255);
  (quad 198 18 0 0, quad 198 19 255 255);
  (quad 198 51 100 0, quad 198 51 100 255);
  (quad 203 0 113 0, quad 203 0 113 255);
  (quad 224 0 0 0, quad 255 255 255 255) ].

(** The special ranges inside the IPv6 global unicast block 2000::/3:
    2001:0000 to 2001:01ff, 2001:db8, 2002 and 3fff:0000 to 3fff:0fff. *)
Definition special_v6 : list (Z * Z) := [
  (groups [0x2001], groups [0x2001; 0x200] - 1);
  (groups [0x2001; 0xdb8], groups [0x2001; 0xdb9] - 1);
  (groups [0x2002], groups [0x2003] - 1);
  (groups [0x3fff], groups [0x3fff; 0x1000] - 1) ].

Definition in_ranges (x : Z) (l : list (Z * Z)) : Prop :=
  exists r, r ∈ l /\ fst r <= x <= snd r.

Definition public_v4 (x : Z) : Prop :=
  0 <= x < 2 ^ 32 /\ ~ in_ranges x special_v4.

Definition public_v6 (x : Z) : Prop :=
  groups [0x2000] <= x < groups [0x4000] /\ ~ in_ranges x special_v6.

(** The IPv4 address [x], possibly in IPv4-mapped form. *)
Definition is_v4 (ip : Addr) (x : Z) : Prop :=
  addr ip = 65535 * 2 ^ 32 + x /\ 0 <= x < 2 ^ 32 /\ (az ip = z4 \/ Is6 ip = true).

(** ** Shared lemmas *)

(** Every literal parses: package initialisation does not panic. *)
Lemma deniedNetworks_parse :
  forallb (fun s => bool_decide (is_Some (ParsePrefix (s2b s))))
    ("2000::/3" :: deniedNetworks_literals)%string = true.
Proof. vm_compute. reflexivity. Qed.

(** The parsed list, split by family. *)
Definition denied_v4 : list (Z * Z) := Eval vm_compute in
  omap (fun p => if Is4 (p_ip p) then Some (addr (p_ip p), p_bits p) else None) deniedNetworks.

Definition denied_v6 : list (Z * Z) := Eval vm_compute in
  omap (fun p => if Is6 (p_ip p) then Some (addr (p_ip p), p_bits p) else None) deniedNetworks.

Lemma deniedNetworks_split :
  deniedNetworks = map (fun '(a, n) => mkPrefix (mkAddr a z4) n) denied_v4
                   ++ map (fun '(a, n) => mkPrefix (mkAddr a z6noz) n) denied_v6.
Proof. vm_compute. reflexivity. Qed.

Lemma globalUnicastV6_eq : globalUnicastV6 = mkPrefix (mkAddr (2 ^ 125) z6noz) 3.
Proof. vm_compute. reflexivity. Qed.

Definition in_block (w x : Z) (r : Z * Z) : bool :=
  x / 2 ^ (w - snd r) =? fst r / 2 ^ (w - snd r).

Lemma denied_v4_wf :
  forallb (fun r => (0 <=? snd r) && (snd r <=? 32) && (fst r / 2 ^ 32 =? 65535)) denied_v4 = true.
Proof. vm_compute. reflexivity. Qed.

Lemma denied_v6_wf :
  forallb (fun r => (0 <=? snd r) && (snd r <=? 128) && (0 <=? fst r) && (fst r <? 2 ^ 128)) denied_v6 = true.
Proof. vm_compute. reflexivity. Qed.

Lemma existsb_ext {A} (f g : A -> bool) l :
  (forall x, In x l -> f x = g x) -> existsb f l = existsb g l.
Proof.
  induction l as [|x l IH]; intros H; [done|]. simpl.
  rewrite H by (by left). f_equal. apply IH. intros y Hy. apply H. by right.
Qed.

Lemma existsb_map {A B} (f : B -> bool) (g : A -> B) l :
  existsb f (map g l) = existsb (fun x => f (g x)) l.
Proof. induction l as [|x l IH]; [done|]. simpl. by rewrite IH. Qed.

Lemma existsb_none {A} (f : A -> bool) l :
  (forall x, In x l -> f x = false) -> existsb f l = false.
Proof. intros H. induction l as [|x l IH]; [done|]. simpl. rewrite H, IH; auto with datatypes. Qed.

Lemma denied_on_v4 a :
  a / 2 ^ 32 = 65535 ->
  existsb (fun n => Contains n (mkAddr a z4)) deniedNetworks = existsb (in_block 32 a) denied_v4.
Proof.
  intros Ha. rewrite deniedNetworks_split, existsb_app, !existsb_map.
  rewrite (existsb_none _ denied_v6), orb_false_r.
  - apply existsb_ext. intros [p n] Hin.
    pose proof (proj1 (forallb_forall _ _) denied_v4_wf _ Hin) as Hwf. simpl in Hwf.
    bool_props. unfold in_block. simpl. apply Contains_v4; lia.
  - intros [p n] _. by apply Contains_family.
Qed.

Lemma denied_on_v6 a :
  0 <= a < 2 ^ 128 ->
  existsb (fun n => Contains n (mkAddr a z6noz)) deniedNetworks = existsb (in_block 128 a) denied_v6.
Proof.
  intros Ha. rewrite deniedNetworks_split, existsb_app, !existsb_map.
  rewrite (existsb_none _ denied_v4), orb_false_l.
  - apply existsb_ext. intros [p n] Hin.
    pose proof (proj1 (forallb_forall _ _) denied_v6_wf _ Hin) as Hwf. simpl in Hwf.
    bool_props. unfold in_block. simpl. apply Contains_v6; lia.
  - intros [p n] _. by apply Contains_family.
Qed.

(** A block as the range from its first to its last address. *)
Definition block_range (w : Z) (r : Z * Z) : Z * Z :=
  let lo := fst r / 2 ^ (w - snd r) * 2 ^ (w - snd r) in
  (lo, lo + 2 ^ (w - snd r) - 1).

Definition in_range (x : Z) (r : Z * Z) : bool := (fst r <=? x) && (x <=? snd r).

Lemma in_block_range w x r :
  snd r <= w -> in_block w x r = in_range x (block_range w r).
Proof.
  intros Hw. unfold in_block, in_range, block_range. cbn [fst snd].
  assert (0 < 2 ^ (w - snd r)) by (apply Z.pow_pos_nonneg; lia).
  set (k := 2 ^ (w - snd r)) in *. set (q := fst r / k).
  pose proof (Z.div_mod x k). pose proof (Z.mod_pos_bound x k).
  apply Bool.eq_iff_eq_true. rewrite andb_true_iff, Z.eqb_eq, !Z.leb_le. nia.
Qed.

Lemma in_blocks_ranges w x l :
  forallb (fun r => snd r <=? w) l = true ->
  existsb (in_block w x) l = existsb (in_range x) (map (block_range w) l).
Proof.
  intros H. rewrite existsb_map. apply existsb_ext. intros r Hr.
  apply in_block_range. rewrite forallb_forall in H. apply Z.leb_le. auto.
Qed.

Lemma in_ranges_existsb x l : in_ranges x l <-> existsb (in_range x) l = true.
Proof.
  rewrite existsb_exists. unfold in_ranges, in_range.
  setoid_rewrite <- list_elem_of_In. setoid_rewrite andb_true_iff.
  by setoid_rewrite Z.leb_le.
Qed.

Lemma denied_v4_special x :
  0 <= x < 2 ^ 32 ->
  existsb (in_block 32 (65535 * 2 ^ 32 + x)) denied_v4 = true <-> in_ranges x special_v4.
Proof.
  intros Hx. rewrite in_ranges_existsb, in_blocks_ranges by (vm_compute; reflexivity).
  set (l := map (block_range 32) denied_v4). vm_compute in l. subst l.
  set (l := special_v4). vm_compute in l. subst l.
  cbn [existsb]. unfold in_range. cbn [fst snd]. lia.
Qed.

Lemma denied_v6_special x :
  groups [0x2000] <= x < groups [0x4000] ->
  existsb (in_block 128 x) denied_v6 = true <-> in_ranges x special_v6.
Proof.
  set (a := groups [_]). set (b := groups [0x4000]). vm_compute in a, b. subst a b.
  intros Hx. rewrite in_ranges_existsb, in_blocks_ranges by (vm_compute; reflexivity).
  set (l := map (block_range 128) denied_v6). vm_compute in l. subst l.
  set (l := special_v6). vm_compute in l. subst l.
  cbn [existsb]. unfold in_range. cbn [fst snd]. lia.
Qed.

Lemma globalUnicast_range a :
  0 <= a < 2 ^ 128 ->
  Contains globalUnicastV6 (mkAddr a z6noz) = true <-> groups [0x2000] <= a < groups [0x4000].
Proof.
  intros Ha. rewrite globalUnicastV6_eq, Contains_v6 by lia.
  change (in_block 128 a (2 ^ 125, 3) = true <-> groups [0x2000] <= a < groups [0x4000]).
  rewrite in_block_range by (cbn; lia). unfold in_range.
  set (r := block_range 128 (2 ^ 125, 3)).
  set (l := groups [0x2000]). set (h := groups [0x4000]). vm_compute in r, l, h. subst r l h.
  cbn [fst snd]. lia.
Qed.

(** The policy on an address whose family is known. *)
Lemma egress_v4 a :
  a / 2 ^ 32 = 65535 ->
  (if negb (IsValid (mkAddr a z4)) then false
   else if Is6 (mkAddr a z4) && negb (Contains globalUnicastV6 (mkAddr a z4)) then false
   else negb (existsb (fun n => Contains n (mkAddr a z4)) deniedNetworks)) = true
  <-> public_v4 (a - 65535 * 2 ^ 32).
Proof.
  intros Ha. unfold IsValid, Is6. cbn [az negb andb].
  pose proof (Z.div_mod a (2 ^ 32)). pose proof (Z.mod_pos_bound a (2 ^ 32)).
  rewrite denied_on_v4, negb_true_iff, <- not_true_iff_false by done.
  replace a with (65535 * 2 ^ 32 + (a - 65535 * 2 ^ 32)) at 1 by lia.
  rewrite denied_v4_special by lia. unfold public_v4. intuition lia.
Qed.

Lemma egress_v6 a z :
  0 <= a < 2 ^ 128 -> z = z6noz \/ (exists zone, z = z6 zone) ->
  (if negb (IsValid (mkAddr a z)) then false
   else if Is6 (mkAddr a z) && negb (Contains globalUnicastV6 (mkAddr a z)) then false
   else negb (existsb (fun n => Contains n (mkAddr a z)) deniedNetworks)) = true
  <-> z = z6noz /\ public_v6 a.
Proof.
  intros Ha [->|[zone ->]]; unfold IsValid, Is6; cbn [az negb andb].
  - rewrite denied_on_v6 by done. pose proof (globalUnicast_range a Ha) as Hg.
    unfold public_v6. destruct (Contains _ _); cbn [negb].
    + destruct Hg as [Hg _]. specialize (Hg eq_refl).
      rewrite negb_true_iff, <- not_true_iff_false, denied_v6_special by done. intuition.
    + split; [done|]. intros (_ & Hr & _). by apply Hg.
  - rewrite Contains_zone. cbn. split; [done|]. by intros [? _].
Qed.

Lemma is_v4_inv a z x :
  is_v4 (mkAddr a z) x ->
  a = 65535 * 2 ^ 32 + x /\ 0 <= x < 2 ^ 32 /\ (z = z4 \/ Is6 (mkAddr a z) = true).
Proof. done. Qed.

Lemma is_v4_intro a z :
  z = z4 \/ Is6 (mkAddr a z) = true -> public_v4 (a - 65535 * 2 ^ 32) ->
  exists x, is_v4 (mkAddr a z) x /\ public_v4 x.
Proof.
  intros Hz Hpub. exists (a - 65535 * 2 ^ 32). split; [|done].
  split_and!; [cbn; lia | apply Hpub | apply Hpub | done].
Qed.

(** C2: what the policy lets through. [egressAllowed] accepts a destination
    exactly when the port is 53 and the address is either an IPv4 address,
    plain or IPv4-mapped and with or without a zone, outside the
    special-purpose IPv4 ranges, or an IPv6 address without zone inside
    2000::/3 and outside the special-purpose ranges there. *)
Theorem egressAllowed_iff ip port :
  addr_wf ip ->
  egressAllowed (AddrPortFrom ip port) = true <->
  port = 53 /\ ((exists x, is_v4 ip x /\ public_v4 x) \/ (az ip = z6noz /\ public_v6 (addr ip))).
Proof.
  intros Hwf. unfold egressAllowed. cbn [AP_Port AP_Addr AddrPortFrom].
  destruct (port =? 53) eqn:Hp; bool_props; cbn [negb]; [|split; [done|]; by intros [? _]].
  pose proof (Unmap_wf ip Hwf) as [Hr' H4]. destruct ip as [a z]. destruct Hwf as [Hr _].
  pose proof (is_v4_inv a z) as Hinv.
  unfold Unmap, Is4In6 in *. cbn [az addr] in *.
  destruct (Is6 _ && _) eqn:Em; cbn [az addr] in *.
  - bool_props. rewrite egress_v4 by auto. split.
    + intros Hpub. split; [done|]. left. by apply is_v4_intro; auto.
    + intros (_ & [(x & (-> & _)%Hinv & Hx)|[_ [Hb _]]]).
      * by replace (_ + x - _) with x by lia.
      * rewrite Z.shiftr_div_pow2 in * by lia. exfalso.
        set (l := groups _) in Hb. vm_compute in l. subst l. zlia.
  - destruct z.
    + cbn. split; [done|]. by intros (_ & [(x & (_ & _ & [|])%Hinv & _)|[]]).
    + rewrite egress_v4 by auto. split.
      * intros Hpub. split; [done|]. left. by apply is_v4_intro; auto.
      * intros (_ & [(x & (-> & _)%Hinv & Hx)|[]]); [|done].
        by replace (_ + x - _) with x by lia.
    + rewrite egress_v6 by auto. split; [by auto|].
      intros (_ & [(x & (-> & Hx & _)%Hinv & _)|]); [|done]. exfalso.
      cbn in Em. rewrite Z.eqb_neq, Z.shiftr_div_pow2 in Em by lia. zlia.
    + rewrite egress_v6 by eauto. split; [by intros []|].
      intros (_ & [(x & (-> & Hx & _)%Hinv & _)|[]]); [|done]. exfalso.
      cbn in Em. rewrite Z.eqb_neq, Z.shiftr_div_pow2 in Em by lia. zlia.
Qed.

(** The cases of sockets_test.go, through the parser. *)
Definition egress_test (s : string) : bool :=
  match ParseAddr (s2b s) with
  | Some ip => egressAllowed (AddrPortFrom ip 53)
  | None => false
  end.

Example egress_test_allowed :
  forallb egress_test ["8.8.8.8"; "1.1.1.1"; "2001:503:ba3e::2:30"; "2620:fe::fe"]%string = true.
Proof. vm_compute. reflexivity. Qed.

Example egress_test_denied :
  existsb egress_test [
    "0.0.0.1"; "10.0.0.1"; "100.64.0.1"; "100.127.255.255"; "127.8.8.8"; "169.254.1.1";
    "172.16.0.1"; "192.0.0.1"; "192.168.1.1"; "198.18.0.1"; "224.0.0.251"; "255.255.255.255";
    "::"; "::1"; "64:ff9b::a00:1"; "64:ff9b:1::1"; "100::1"; "2001::5"; "2001:2::1"; "2001:db8::1";
    "2002:a00:1::1"; "3fff::1"; "5f00::1"; "fc00::1"; "fd00::1"; "fe80::1"; "ff02::fb";
    "::ffff:10.0.0.1"; "::ffff:127.0.0.1"; "fec0::1"; "::10.0.0.1"; "100:0:0:1::1";
    "4000::1"; "8000::1"; "c000::1" ]%string = false.
Proof. vm_compute. reflexivity. Qed.

(** An address that satisfies the hypothesis of the characterisation. *)
Lemma egressAllowed_iff_witness :
  addr_wf (AddrFrom4 [8; 8; 8; 8]) /\
  (53 = 53 /\ ((exists x, is_v4 (AddrFrom4 [8; 8; 8; 8]) x /\ public_v4 x)
               \/ (az (AddrFrom4 [8; 8; 8; 8]) = z6noz /\ public_v6 (addr (AddrFrom4 [8; 8; 8; 8]))))).
Proof.
  assert (H : addr_wf (AddrFrom4 [8; 8; 8; 8])) by (split; [cbn; lia | done]).
  split; [exact H|]. apply (egressAllowed_iff _ 53 H). vm_compute. reflexivity.
Defined.
