(* ===== verification/Config.v ===== *)
(** * module.go and NewRuntime: configuration

    The resolver configuration and the trust anchors embedded in the
    package (module.go), and the part of [NewRuntime] (runtime.go) that
    validates the caller's [Config] and derives the memory limit. The
    wazero calls at its end are parameters. *)

From S2P Require Import Prelude Errors Netip Egress.

(** ** module.go *)

(** The lines of [defaultCanonicalConfig]. *)
Definition defaultCanonicalConfig_lines : list string := [
  "module-config:=validator iterator";
  "do-ip4:=yes";
  "do-ip6:=yes";
  "do-udp:=yes";
  "do-tcp:=yes";
  "tcp-upstream:=no";
  "edns-buffer-size:=1232";
  "harden-glue:=yes";
  "harden-dnssec-stripped:=yes";
  "harden-below-nxdomain:=no";
  "use-caps-for-id:=yes";
  "cache-min-ttl:=0";
  "cache-max-ttl:=0";
  "cache-max-negative-ttl:=0";
  "neg-cache-size:=0";
  "prefetch:=no";
  "unwanted-reply-threshold:=10000";
  "do-not-query-localhost:=yes";
  "val-clean-additional:=yes";
  "val-sig-skew-min:=0";
  "val-sig-skew-max:=0";
  "ede:=yes";
  "qname-minimisation:=no";
  "qname-minimisation-strict:=no";
  "val-log-level:=2";
  "log-servfail:=yes";
  "private-address:=192.168.0.0/16";
  "private-address:=172.16.0.0/12";
  "private-address:=10.0.0.0/8";
  "private-address:=127.0.0.0/8";
  "private-address:=0.0.0.0/8";
  "private-address:=169.254.0.0/16";
  "private-address:=192.0.0.0/24";
  "private-address:=192.0.2.0/24";
  "private-address:=198.51.100.0/24";
  "private-address:=203.0.113.0/24";
  "private-address:=192.88.99.0/24";
  "private-address:=198.18.0.0/15";
  "private-address:=224.0.0.0/4";
  "private-address:=240.0.0.0/4";
  "private-address:=255.255.255.255/32";
  "private-address:=100.64.0.0/10";
  "private-address:=::/128";
  "private-address:=::1/128";
  "private-address:=::ffff:0:0/96";
  "private-address:=100::/64";
  "private-address:=2001::/23";
  "private-address:=2001:db8::/32";
  "private-address:=fc00::/7";
  "private-address:=fe80::/10";
  "private-address:=ff00::/8";
  "# Additions over the Let's Encrypt list: NAT64 and 6to4 translation";
  "# prefixes, which can smuggle packets toward internal IPv4 space, the newer";
  "# IPv6 documentation and SRv6 SID ranges, and the deprecated site-local and";
  "# IPv4-compatible ranges, which a stack may still route toward internal space.";
  "private-address:=64:ff9b::/96";
  "private-address:=64:ff9b:1::/48";
  "private-address:=2002::/16";
  "private-address:=3fff::/20";
  "private-address:=5f00::/16";
  "private-address:=fec0::/10";
  "private-address:=::/96";
  "do-not-query-address:=192.168.0.0/16";
  "do-not-query-address:=172.16.0.0/12";
  "do-not-query-address:=10.0.0.0/8";
  "do-not-query-address:=127.0.0.0/8";
  "do-not-query-address:=0.0.0.0/8";
  "do-not-query-address:=169.254.0.0/16";
  "do-not-query-address:=192.0.0.0/24";
  "do-not-query-address:=192.0.2.0/24";
  "do-not-query-address:=198.51.100.0/24";
  "do-not-query-address:=203.0.113.0/24";
  "do-not-query-address:=192.88.99.0/24";
  "do-not-query-address:=198.18.0.0/15";
  "do-not-query-address:=224.0.0.0/4";
  "do-not-query-address:=240.0.0.0/4";
  "do-not-query-address:=255.255.255.255/32";
  "do-not-query-address:=100.64.0.0/10";
  "do-not-query-address:=::/128";
  "do-not-query-address:=::1/128";
  "do-not-query-address:=::ffff:0:0/96";
  "do-not-query-address:=100::/64";
  "do-not-query-address:=2001::/23";
  "do-not-query-address:=2001:db8::/32";
  "do-not-query-address:=fc00::/7";
  "do-not-query-address:=fe80::/10";
  "do-not-query-address:=ff00::/8";
  "do-not-query-address:=64:ff9b::/96";
  "do-not-query-address:=64:ff9b:1::/48";
  "do-not-query-address:=2002::/16";
  "do-not-query-address:=3fff::/20";
  "do-not-query-address:=5f00::/16";
  "do-not-query-address:=fec0::/10";
  "do-not-query-address:=::/96" ]%string.

(** A newline after every line, as in the raw string literal. *)
Definition join_lines (l : list string) : list Z :=
  concat (map (fun s => s2b s ++ [10]) l).

Definition defaultCanonicalConfig : list Z := join_lines defaultCanonicalConfig_lines.

Definition defaultTrustAnchors : list Z := join_lines [
  ". 172800 IN DS 20326 8 2 E06D44B80B8F1D39A95C0B0D7C65D08458E880409BBC683457104237C7F8EC8D";
  ". 172800 IN DS 38696 8 2 683D2D0ACB8C9B712A1948B27F741219298D0A450D612C483AF444A4C0FB2B16" ]%string.

(** The values the configuration gives to an option: what follows the
    option's name and [:=] on each line that sets it. *)
Definition option_values (opt : string) : list (list Z) :=
  omap (fun l => let key := s2b opt ++ s2b ":=" in
                 if bool_decide (take (length key) (s2b l) = key)
                 then Some (drop (length key) (s2b l)) else None)
    defaultCanonicalConfig_lines.

(** The guest-side [do-not-query-address] networks. *)
Definition doNotQuery : list Prefix := omap ParsePrefix (option_values "do-not-query-address").

(** ** NewRuntime *)

Record Config := mkConfig {
  MemoryLimit : Z;          (* int64 *)
  TrustAnchors : list Z;
  RootHints : list (list Z);
  Log : option unit }.      (* whether a logger is given *)

Definition pageSize : Z := 64 * 1024.
Definition maxPages : Z := Z.shiftl 1 32 / pageSize.

(** The page limit: [int64] arithmetic, truncated division, and the
    conversion to [uint32]. *)
Definition memoryPages (limit : Z) : Z :=
  if 0 <? limit
  then u32 (Z.min (Z.quot (i64 (i64 (limit + pageSize) - 1)) pageSize) maxPages)
  else u32 (Z.quot (Z.shiftl 64 20) pageSize).

(** The loop over [cfg.RootHints]. The offending address, which the error
    text quotes, is left out of the text. *)
Fixpoint checkRootHints (hints : list (list Z)) : option go_error :=
  match hints with
  | [] => None
  | a :: hints =>
      match ParseAddr a with
      | None => Some (errorsNew "unbound: invalid RootHints address")
      | Some addr =>
          if negb (egressAllowed (AddrPortFrom addr 53))
          then Some (errorsNew "unbound: RootHints address is not a public unicast address")
          else checkRootHints hints
      end
  end.

(** [NewRuntime]: the configuration and page limit the runtime is built
    with. [hostErr] and [compileErr] are what wazero reports for the host
    modules and for the embedded module under that page limit. *)
Definition NewRuntime (hostErr compileErr : Z -> option go_error) (cfg : Config)
    : result go_error (Config * Z) :=
  match checkRootHints (RootHints cfg) with
  | Some err => Err err
  | None =>
      let anchors := if bool_decide (TrustAnchors cfg = []) then defaultTrustAnchors
                     else TrustAnchors cfg in
      let cfg := mkConfig (MemoryLimit cfg) anchors (RootHints cfg)
                          (Some (default tt (Log cfg))) in
      let pages := memoryPages (MemoryLimit cfg) in
      match hostErr pages with
      | Some err => Err (errorfw "unbound: instantiate host ABI: " err)
      | None =>
          match compileErr pages with
          | Some err => Err (errorfw "unbound: compile module: " err)
          | None => Ok (cfg, pages)
          end
      end
  end.

(** ** The memory limit *)

(** For a limit up to 2^63 - 65536 the page limit is the number of
    64 KiB pages that hold that many bytes, at most 65536; a limit that is
    not positive selects 1024 pages (64 MiB). *)
Lemma memoryPages_spec limit :
  - 2 ^ 63 <= limit <= 2 ^ 63 - pageSize ->
  memoryPages limit =
    if 0 <? limit then Z.min ((limit + pageSize - 1) / pageSize) 65536 else 1024.
Proof.
  change pageSize with 65536. intros H. unfold memoryPages. change pageSize with 65536.
  change maxPages with 65536. destruct (0 <? limit) eqn:E; [|reflexivity]. bool_props.
  replace (i64 (i64 (limit + 65536) - 1)) with (limit + 65535).
  - rewrite Z.quot_div_nonneg by lia. replace (limit + 65536 - 1) with (limit + 65535) by lia.
    apply u32_id. assert (0 <= (limit + 65535) / 65536) by (apply Z.div_pos; lia). lia.
  - unfold i64. Z.to_euclidean_division_equations. lia.
Qed.

(** Past that bound the addition overflows: every larger [int64] limit,
    [math.MaxInt64] among them, yields a limit of at most one page. *)
Lemma memoryPages_overflow limit :
  2 ^ 63 - pageSize < limit < 2 ^ 63 -> 0 <= memoryPages limit <= 1.
Proof.
  change pageSize with 65536. intros H. unfold memoryPages. change pageSize with 65536.
  change maxPages with 65536. rewrite (proj2 (Z.ltb_lt 0 limit)) by lia.
  replace (i64 (i64 (limit + 65536) - 1)) with (limit + 65535 - 2 ^ 64)
    by (unfold i64; Z.to_euclidean_division_equations; lia).
  unfold u32. Z.to_euclidean_division_equations. lia.
Qed.

Lemma memoryPages_spec_witness :
  (- 2 ^ 63 <= 100000 <= 2 ^ 63 - pageSize) /\ memoryPages 100000 = 2.
Proof. split; [done|]. rewrite (memoryPages_spec 100000); [reflexivity|done]. Defined.

Lemma memoryPages_overflow_witness :
  (2 ^ 63 - pageSize < 2 ^ 63 - 1 < 2 ^ 63) /\ 0 <= memoryPages (2 ^ 63 - 1) <= 1.
Proof. split; [done|]. apply (memoryPages_overflow (2 ^ 63 - 1)). done. Defined.

(** ** Root hints and trust anchors *)

Definition hint_ok (a : list Z) : Prop :=
  exists ip, ParseAddr a = Some ip /\ egressAllowed (AddrPortFrom ip 53) = true.

Lemma checkRootHints_spec hints : checkRootHints hints = None <-> Forall hint_ok hints.
Proof.
  induction hints as [|a l IH]; [done|]. simpl. rewrite Forall_cons. unfold hint_ok at 1.
  destruct (ParseAddr a) as [ip|].
  - destruct (egressAllowed _) eqn:E; cbn [negb].
    + rewrite IH. split; [intros Hl; split; [by eauto|done] | by intros [_ Hl]].
    + split; [done|]. intros [(ip' & [= <-] & Hip) _]. congruence.
  - split; [done|]. by intros [(ip & [=] & _) _].
Qed.

(** C35: [NewRuntime] succeeds exactly when every root hint is a literal
    address the egress policy would let a query reach and wazero accepts
    the modules; the runtime then keeps the hints and the memory limit and
    validates against the caller's trust anchors, or against the built-in
    root anchors when the caller gives none, so never against nothing. *)
Theorem NewRuntime_spec hostErr compileErr cfg :
  match NewRuntime hostErr compileErr cfg with
  | Ok (cfg', pages) =>
      Forall hint_ok (RootHints cfg) /\
      hostErr pages = None /\ compileErr pages = None /\
      pages = memoryPages (MemoryLimit cfg) /\
      RootHints cfg' = RootHints cfg /\ TrustAnchors cfg' <> [] /\ Log cfg' <> None /\
      (TrustAnchors cfg <> [] -> TrustAnchors cfg' = TrustAnchors cfg) /\
      (TrustAnchors cfg = [] -> TrustAnchors cfg' = defaultTrustAnchors)
  | Err _ =>
      ~ Forall hint_ok (RootHints cfg) \/
      hostErr (memoryPages (MemoryLimit cfg)) <> None \/
      compileErr (memoryPages (MemoryLimit cfg)) <> None
  end.
Proof.
  unfold NewRuntime. pose proof (checkRootHints_spec (RootHints cfg)) as Hh.
  destruct (checkRootHints _) eqn:E; [left; rewrite <- Hh; done|]. cbn [MemoryLimit].
  destruct (hostErr _) eqn:E1; [right; left; congruence|].
  destruct (compileErr _) eqn:E2; [right; right; congruence|].
  cbn [RootHints TrustAnchors Log]. case_bool_decide as Hta.
  - split_and!; try done. by apply Hh.
  - split_and!; try done. by apply Hh.
Qed.

(** ** The guest's do-not-query list *)

(** Every value of the configuration parses. *)
Lemma doNotQuery_complete :
  map Some doNotQuery = map ParsePrefix (option_values "do-not-query-address").
Proof. vm_compute. reflexivity. Qed.

Definition mapped_prefix : Prefix := MustParsePrefix "::ffff:0:0/96".

Definition disjoint (r s : Z * Z) : bool := (snd r <? fst s) || (snd s <? fst r).

Definition within (r s : Z * Z) : bool := (fst s <=? fst r) && (snd r <=? snd s).

(** A guest prefix is covered when it lies inside a denied block of its
    family, or, for IPv6, when it does not meet 2000::/3. *)
Definition covered (p : Prefix) : bool :=
  let r w := block_range w (addr (p_ip p), p_bits p) in
  if Is4 (p_ip p)
  then (0 <=? p_bits p) && (p_bits p <=? 32) && (addr (p_ip p) / 2 ^ 32 =? 65535) &&
       existsb (fun d => within (r 32) (block_range 32 d)) denied_v4
  else bool_decide (az (p_ip p) = z6noz) && (0 <=? p_bits p) && (p_bits p <=? 128) &&
       (0 <=? addr (p_ip p)) && (addr (p_ip p) <? 2 ^ 128) &&
       disjoint (r 128) (block_range 128 (65535 * 2 ^ 32, 96)) &&
       (disjoint (r 128) (block_range 128 (2 ^ 125, 3)) ||
        existsb (fun d => within (r 128) (block_range 128 d)) denied_v6).

Lemma doNotQuery_covered :
  forallb (fun p => bool_decide (p = mapped_prefix) || covered p) doNotQuery = true.
Proof. vm_compute. reflexivity. Qed.

Lemma within_in_range x r s : within r s = true -> in_range x r = true -> in_range x s = true.
Proof. unfold within, in_range. lia. Qed.

Lemma disjoint_in_range x r s : disjoint r s = true -> in_range x r = true -> in_range x s = false.
Proof. unfold disjoint, in_range. lia. Qed.

Lemma within_denied w x r l :
  forallb (fun d => snd d <=? w) l = true ->
  existsb (fun d => within r (block_range w d)) l = true -> in_range x r = true ->
  existsb (in_block w x) l = true.
Proof.
  intros Hw Hl Hx. rewrite in_blocks_ranges, existsb_map by done.
  apply existsb_exists in Hl as (d & Hd & Hr). apply existsb_exists.
  exists d. split; [done|]. by eapply within_in_range.
Qed.

Lemma egress_denied_v4 a port :
  a / 2 ^ 32 = 65535 -> existsb (in_block 32 a) denied_v4 = true ->
  egressAllowed (AddrPortFrom (mkAddr a z4) port) = false.
Proof.
  intros Ha Hd. unfold egressAllowed. cbn [AP_Port AP_Addr AddrPortFrom].
  case_goal; [done|]. change (Unmap (mkAddr a z4)) with (mkAddr a z4). cbn [IsValid Is6 az negb andb].
  by rewrite denied_on_v4, Hd.
Qed.

Lemma egress_denied_v6 a port :
  0 <= a < 2 ^ 128 -> Z.shiftr a 32 <> 65535 ->
  Contains globalUnicastV6 (mkAddr a z6noz) = false \/ existsb (in_block 128 a) denied_v6 = true ->
  egressAllowed (AddrPortFrom (mkAddr a z6noz) port) = false.
Proof.
  intros Ha Hm Hd. unfold egressAllowed. cbn [AP_Port AP_Addr AddrPortFrom].
  case_goal; [done|]. unfold Unmap, Is4In6. cbn [addr Is6 az andb].
  rewrite (proj2 (Z.eqb_neq _ _) Hm). cbn [IsValid az negb andb Is6].
  rewrite denied_on_v6 by done. destruct Hd as [-> | ->]; [done|]. by destruct (Contains _ _).
Qed.


