(* ===== verification/GuestMem.v ===== *)
(** * Guest memory

    The guest's linear memory is reached through wazero's [api.Memory],
    which is not part of the repository: [GuestMemory] lists the methods
    the host calls, and [GuestMemoryLaws] states their documented behaviour
    over the bytes of the memory (a range outside the memory is reported by
    [false], here [None]; [Size] is a [uint32] and wraps to zero for a
    memory of 2^32 bytes). [ListMem] implements the interface. On top of
    it, the helpers of host.go that move bytes and addresses across the
    boundary: [readCopy], [readAddr], [writeAddr], [putU32]. *)

From S2P Require Import Prelude Netip.

(** ** The interface *)

Class GuestMemory (M : Type) := {
  mem_size : M -> Z;
  mem_read : M -> Z -> Z -> option (list Z);
  mem_write : M -> Z -> list Z -> option M;
  mem_read32 : M -> Z -> option Z;       (* ReadUint32Le *)
  mem_write32 : M -> Z -> Z -> option M; (* WriteUint32Le *)
  mem_write64 : M -> Z -> Z -> option M  (* WriteUint64Le *)
}.

(** [l] with the bytes from [p] on replaced by [bs]. *)
Definition splice {A} (l : list A) (p : Z) (bs : list A) : list A :=
  take (Z.to_nat p) l ++ bs ++ drop (Z.to_nat p + length bs) l.

Class GuestMemoryLaws (M : Type) {GM : GuestMemory M} := {
  mem_bytes : M -> list Z;
  mem_bytes_ok m : Forall is_byte (mem_bytes m);
  mem_size_spec m : mem_size m = u32 (zlen (mem_bytes m));
  mem_read_spec m p n :
    0 <= p -> 0 <= n ->
    mem_read m p n =
    if p + n <=? zlen (mem_bytes m) then Some (slice (mem_bytes m) p n) else None;
  mem_write_spec m p bs :
    0 <= p ->
    mem_bytes <$> mem_write m p bs =
    if p + zlen bs <=? zlen (mem_bytes m) then Some (splice (mem_bytes m) p (map u8 bs)) else None;
  mem_read32_spec m p : 0 <= p -> mem_read32 m p = le_decode <$> mem_read m p 4;
  mem_write32_spec m p v : 0 <= p -> mem_write32 m p v = mem_write m p (le_encode 4 v);
  mem_write64_spec m p v : 0 <= p -> mem_write64 m p v = mem_write m p (le_encode 8 v)
}.

(** ** A memory that is the list of its bytes *)

Lemma map_u8_id l : Forall is_byte l -> map u8 l = l.
Proof.
  induction 1 as [|b l Hb _ IH]; [done|]. cbn [map]. rewrite IH. f_equal. by apply u8_id.
Qed.

Lemma zlen_map_u8 l : zlen (map u8 l) = zlen l.
Proof. unfold zlen. by rewrite length_map. Qed.

Module ListMem.

Definition read (m : list Z) (p n : Z) : option (list Z) :=
  if p + n <=? zlen m then Some (slice (map u8 m) p n) else None.

Definition write (m : list Z) (p : Z) (bs : list Z) : option (list Z) :=
  if p + zlen bs <=? zlen m then Some (splice m p bs) else None.

#[export] Instance list_mem : GuestMemory (list Z) := {
  mem_size m := u32 (zlen m);
  mem_read := read;
  mem_write := write;
  mem_read32 m p := le_decode <$> read m p 4;
  mem_write32 m p v := write m p (le_encode 4 v);
  mem_write64 m p v := write m p (le_encode 8 v)
}.

#[export] Instance list_mem_laws : GuestMemoryLaws (list Z).
Proof.
  refine {| mem_bytes := map u8 |}.
  - intros m. apply Forall_forall. intros z (b & -> & _)%list_elem_of_fmap.
    unfold u8, is_byte. apply (Z.mod_pos_bound b 256). lia.
  - intros m. cbn. by rewrite zlen_map_u8.
  - intros m p n Hp Hn. cbn. unfold read. by rewrite zlen_map_u8.
  - intros m p bs Hp. cbn. unfold write. rewrite zlen_map_u8.
    destruct (_ <=? _); [|done]. cbn. f_equal. unfold splice.
    by rewrite !map_app, length_map, <- firstn_map, <- skipn_map.
  - done.
  - done.
  - done.
Defined.

End ListMem.

(** ** host.go: crossing the boundary *)

Section Helpers.
Context {M : Type} `{GM : GuestMemory M}.

(** [readCopy]: the copy is what a functional read yields. *)
Definition readCopy (m : M) (ptr n : Z) : option (list Z) := mem_read m ptr n.

Definition readAddr (m : M) (ptr n : Z) : option Addr :=
  match readCopy m ptr n with
  | None => None
  | Some b =>
      if n =? 4 then Some (AddrFrom4 b)
      else if n =? 16 then Some (AddrFrom16 b)
      else None
  end.

Definition writeAddr (m : M) (ptr : Z) (a : Addr) : option M :=
  let out := if Is4 a then As4 a ++ replicate 12 0 else As16 a in
  mem_write m ptr out.

Definition putU32 (m : M) (ptr value : Z) : option M :=
  mem_write m ptr (le_encode 4 value).

(** ** Facts *)

Context {GL : GuestMemoryLaws M}.

Lemma mem_read_Some m p n bs :
  0 <= p -> 0 <= n -> mem_read m p n = Some bs ->
  bs = slice (mem_bytes m) p n /\ zlen bs = n /\ p + n <= zlen (mem_bytes m) /\ Forall is_byte bs.
Proof.
  intros Hp Hn H. rewrite mem_read_spec in H by done.
  destruct (_ <=? _) eqn:E; [|done]. bool_props. injection H as <-.
  split_and!; [done|by apply zlen_slice|done|].
  apply slice_forall, mem_bytes_ok.
Qed.

Lemma mem_write_any m p bs m' :
  0 <= p -> mem_write m p bs = Some m' ->
  mem_bytes m' = splice (mem_bytes m) p (map u8 bs) /\ p + zlen bs <= zlen (mem_bytes m).
Proof.
  intros Hp H. pose proof (mem_write_spec m p bs Hp) as Hs. rewrite H in Hs.
  cbn in Hs. destruct (_ <=? _) eqn:E; bool_props; by simplify_eq.
Qed.

Lemma mem_write_Some m p bs m' :
  0 <= p -> Forall is_byte bs -> mem_write m p bs = Some m' ->
  mem_bytes m' = splice (mem_bytes m) p bs /\ p + zlen bs <= zlen (mem_bytes m).
Proof.
  intros Hp Hbs H. rewrite <- (map_u8_id bs Hbs) at 1. by apply mem_write_any.
Qed.

Lemma zlen_splice {A} (l : list A) p bs :
  0 <= p -> p + zlen bs <= zlen l -> zlen (splice l p bs) = zlen l.
Proof.
  unfold zlen, splice. intros. rewrite !length_app, length_take, length_drop. lia.
Qed.

Lemma slice_splice {A} (l : list A) p bs off n :
  0 <= p -> p + zlen bs <= zlen l -> 0 <= off -> 0 <= n -> off + n <= zlen bs ->
  slice (splice l p bs) (p + off) n = slice bs off n.
Proof.
  unfold zlen, slice, splice. intros Hp Hl Hoff Hn Hb.
  rewrite Z2Nat.inj_add, <- drop_drop by lia.
  rewrite (drop_app_length' (take _ l)) by (rewrite length_take; lia).
  rewrite drop_app_le by lia. rewrite take_app_le by (rewrite length_drop; lia). done.
Qed.

(** Bytes outside the written range keep their value. *)
Lemma slice_splice_ne {A} (l : list A) p bs off n :
  0 <= p -> p + zlen bs <= zlen l -> 0 <= off -> 0 <= n -> off + n <= zlen l ->
  off + n <= p \/ p + zlen bs <= off ->
  slice (splice l p bs) off n = slice l off n.
Proof.
  unfold zlen, slice, splice. intros Hp Hl Hoff Hn Hb [Hd|Hd].
  - rewrite drop_app_le, take_app_le by (rewrite ?length_drop, ?length_take; lia).
    rewrite !take_drop_commute, take_take. do 2 f_equal. lia.
  - rewrite app_assoc, drop_app_ge by (rewrite length_app, length_take; lia).
    rewrite length_app, length_take, drop_drop. f_equal. f_equal. lia.
Qed.

Lemma mem_read_write m p bs m' off n :
  0 <= p -> Forall is_byte bs -> mem_write m p bs = Some m' ->
  0 <= off -> 0 <= n -> off + n <= zlen bs ->
  mem_read m' (p + off) n = Some (slice bs off n).
Proof.
  intros Hp Hbs Hw Hoff Hn Hb. apply mem_write_Some in Hw as [Hm Hr]; [|done..].
  rewrite mem_read_spec, Hm, zlen_splice by lia.
  rewrite (proj2 (Z.leb_le _ _)) by lia. by rewrite slice_splice.
Qed.

(** A write is read back whole. *)
Lemma mem_read_written m p bs m' :
  0 <= p -> mem_write m p bs = Some m' -> mem_read m' p (zlen bs) = Some (map u8 bs).
Proof.
  intros Hp Hw. apply mem_write_any in Hw as [Hm Hr]; [|done].
  pose proof (zlen_nonneg bs). rewrite mem_read_spec, Hm, zlen_splice by (rewrite ?zlen_map_u8; lia).
  rewrite (proj2 (Z.leb_le _ _)) by lia. f_equal. rewrite <- (zlen_map_u8 bs).
  rewrite <- (slice_all (map u8 bs)) at 3. replace p with (p + 0) at 2 by lia.
  rewrite slice_splice; rewrite ?zlen_map_u8; done || lia.
Qed.

Lemma mem_write_ok m p bs :
  0 <= p -> p + zlen bs <= zlen (mem_bytes m) -> is_Some (mem_write m p bs).
Proof.
  intros Hp Hr. pose proof (mem_write_spec m p bs Hp) as Hs.
  rewrite (proj2 (Z.leb_le _ _) Hr) in Hs. destruct (mem_write m p bs); [eauto|done].
Qed.

(** *** Frames *)

(** Memory [m'] is [m] except within the regions [rs], each a pointer and a
    length. *)
Definition frame (rs : list (Z * Z)) (m m' : M) : Prop :=
  zlen (mem_bytes m') = zlen (mem_bytes m) /\
  forall i : nat, (forall p n, (p, n) ∈ rs -> ~ (p <= Z.of_nat i < p + n)) ->
    mem_bytes m' !! i = mem_bytes m !! i.

Lemma frame_trans rs1 rs2 m1 m2 m3 : frame rs1 m1 m2 -> frame rs2 m2 m3 -> frame (rs1 ++ rs2) m1 m3.
Proof.
  intros [H1 F1] [H2 F2]. split; [by rewrite H2|]. intros i Hi.
  rewrite F2, F1; [done| |]; intros p n Hp; apply Hi, elem_of_app; auto.
Qed.

Lemma frame_weaken rs rs' m m' : rs ⊆ rs' -> frame rs m m' -> frame rs' m m'.
Proof. intros Hs [H F]. split; [done|]. intros i Hi. apply F. auto. Qed.

Lemma frame_write m p n bs m' :
  0 <= p -> zlen bs <= n -> mem_write m p bs = Some m' -> frame [(p, n)] m m'.
Proof.
  intros Hp Hn Hw. apply mem_write_any in Hw as [Hm Hr]; [|done]. split.
  - rewrite Hm, zlen_splice by (rewrite ?zlen_map_u8; lia). done.
  - intros i Hi. rewrite Hm. unfold splice. rewrite length_map. unfold zlen in *.
    specialize (Hi p n ltac:(by left)).
    destruct (decide (i < Z.to_nat p)%nat) as [Hlt|Hge].
    + rewrite lookup_app_l by (rewrite length_take; lia). by rewrite lookup_take_lt.
    + rewrite lookup_app_r by (rewrite length_take; lia).
      rewrite lookup_app_r by (rewrite length_take, length_map; lia).
      rewrite lookup_drop, length_take, length_map. f_equal. lia.
Qed.

Lemma AddrFrom4_As4 a : addr_wf a -> az a = z4 -> AddrFrom4 (As4 a) = a.
Proof.
  intros [Hr H4] Hz. specialize (H4 Hz). unfold AddrFrom4, As4.
  rewrite be_decode_encode. change (8 * Z.of_nat 4) with 32.
  destruct a as [x z]. cbn [addr az] in *. subst z. f_equal.
  pose proof (Z.div_mod x (2 ^ 32)). lia.
Qed.

Lemma AddrFrom16_As16 a : addr_wf a -> az a = z6noz -> AddrFrom16 (As16 a) = a.
Proof.
  intros [Hr _] Hz. unfold AddrFrom16, As16. rewrite be_decode_encode.
  change (8 * Z.of_nat 16) with 128. rewrite Z.mod_small by done.
  destruct a as [x z]. cbn in *. by subst.
Qed.

(** The 16 bytes [writeAddr] stores. *)
Lemma writeAddr_bytes a :
  Forall is_byte (if Is4 a then As4 a ++ replicate 12 0 else As16 a) /\
  zlen (if Is4 a then As4 a ++ replicate 12 0 else As16 a) = 16.
Proof.
  unfold zlen, As4, As16. destruct (Is4 a).
  - rewrite length_app, length_be_encode, length_replicate. split; [|done].
    apply Forall_app. split; [apply be_encode_bytes|]. by apply Forall_replicate.
  - rewrite length_be_encode. split; [apply be_encode_bytes|done].
Qed.

(** The address the host writes for a received packet ([writeAddr]) is
    the address the host reads back from the same place ([readAddr]) with
    the length of its family: an IPv4 address in the first four bytes, an
    IPv6 address without zone in sixteen. *)
Lemma writeAddr_readAddr m ptr a m' :
  0 <= ptr -> addr_wf a -> az a = z4 \/ az a = z6noz -> writeAddr m ptr a = Some m' ->
  readAddr m' ptr (if Is4 a then 4 else 16) = Some a.
Proof.
  intros Hp Hwf Hz Hw. unfold writeAddr in Hw.
  pose proof (writeAddr_bytes a) as [Hb Hl].
  unfold readAddr, readCopy. replace ptr with (ptr + 0) by lia.
  rewrite (mem_read_write _ _ _ _ 0 _ Hp Hb Hw) by (rewrite ?Hl; destruct (Is4 a); lia).
  unfold Is4 in *. destruct Hz as [Hz|Hz]; rewrite Hz in *.
  - change (4 =? 4) with true. cbn iota. f_equal.
    replace 4 with (zlen (As4 a)) by (unfold zlen, As4; by rewrite length_be_encode).
    rewrite slice_app_l. by apply AddrFrom4_As4.
  - change (16 =? 4) with false. change (16 =? 16) with true. cbn iota. f_equal.
    rewrite <- Hl, slice_all. by apply AddrFrom16_As16.
Qed.

Lemma putU32_read m ptr v m' :
  0 <= ptr -> 0 <= v < 2 ^ 32 -> putU32 m ptr v = Some m' -> mem_read32 m' ptr = Some v.
Proof.
  intros Hp Hv Hw. unfold putU32 in Hw. rewrite mem_read32_spec by done.
  assert (Hl : zlen (le_encode 4 v) = 4) by (unfold zlen; by rewrite length_le_encode).
  replace ptr with (ptr + 0) by lia.
  rewrite (mem_read_write _ _ _ _ 0 4 Hp (le_encode_bytes 4 v) Hw) by lia.
  rewrite <- Hl at 1. rewrite slice_all. cbn [fmap option_fmap option_map].
  rewrite le_decode_encode. f_equal. by apply Z.mod_small.
Qed.

End Helpers.

Import ListMem.

Lemma writeAddr_readAddr_witness :
  exists m', writeAddr (replicate 20 0) 2 (AddrFrom4 [192; 0; 2; 7]) = Some m' /\
             readAddr m' 2 4 = Some (AddrFrom4 [192; 0; 2; 7]).
Proof.
  eexists. split; [vm_compute; reflexivity|].
  apply (writeAddr_readAddr (replicate 20 0) 2 (AddrFrom4 [192; 0; 2; 7])).
  - lia.
  - split; [cbn; lia|done].
  - by left.
  - vm_compute. reflexivity.
Defined.
