(* ===== verification/Proc.v ===== *)
(** * Goroutines over shared state

    The host runs guest calls, socket readers, dialers and timer callbacks
    concurrently over one mutable state, whose parts are guarded by
    mutexes. A [proc S A] is a goroutine that ends with an [A]: a sequence
    of atomic steps on [S], one per critical section (or per atomic or
    operating-system operation) of the source, which may start further
    goroutines. [run] executes a goroutine alone; [pstep] interleaves a
    pool of them step by step. [rg] is the proof rule: a goroutine whose
    steps all belong to a relation [G], whatever [G] steps other goroutines
    took in between; a pool of such goroutines makes only [G] steps
    ([pstep_rg]). *)

From S2P Require Import Prelude.

Inductive proc (S : Type) (A : Type) : Type :=
| Done (a : A)
| Step (f : S -> S) (k : S -> proc S A)     (* both see the state before the step *)
| Spawn (c : proc S unit) (k : proc S A).   (* go c() *)


Arguments Done {S A} a.
Arguments Step {S A} f k.
Arguments Spawn {S A} c k.

Fixpoint pbind {S A B : Type} (k : A -> proc S B) (p : proc S A) : proc S B :=
  match p with
  | Done a => k a
  | Step f p' => Step f (fun s => pbind k (p' s))
  | Spawn c p' => Spawn c (pbind k p')
  end.

(** One critical section that updates the state and yields a value. *)
Definition atomic {S R} (f : S -> S * R) : proc S R :=
  Step (fun s => fst (f s)) (fun s => Done (snd (f s))).

(** A critical section that only reads. *)
Definition reads {S R} (f : S -> R) : proc S R :=
  Step id (fun s => Done (f s)).

(** A critical section that only updates. *)
Definition modify {S} (f : S -> S) : proc S unit := Step f (fun _ => Done tt).

Definition spawn {S} (c : proc S unit) : proc S unit := Spawn c (Done tt).

Declare Scope proc_scope.
Delimit Scope proc_scope with proc.

Notation "'let*' x := m 'in' k" := (pbind (fun x => k) m)
  (at level 10, x pattern, k at level 200) : proc_scope.
Notation "'do*' m 'in' k" := (pbind (fun _ => k) m)
  (at level 10, k at level 200) : proc_scope.

#[global] Open Scope proc_scope.

(** Run a body for each element in turn. *)
Fixpoint for_each {S A} (f : A -> proc S unit) (l : list A) : proc S unit :=
  match l with
  | [] => Done tt
  | a :: l => do* f a in for_each f l
  end.

(** ** Execution *)

(** Run a goroutine with no interference: the final state, the result and
    the goroutines it started. *)
Fixpoint run {S A : Type} (p : proc S A) (s : S) : S * A * list (proc S unit) :=
  match p with
  | Done a => (s, a, [])
  | Step f k => run (k s) (f s)
  | Spawn c k => let '(s', a, l) := run k s in (s', a, c :: l)
  end.

Definition run_state {S A} (p : proc S A) (s : S) : S := (run p s).1.1.

Definition run_value {S A} (p : proc S A) (s : S) : A := (run p s).1.2.

Definition run_spawned {S A} (p : proc S A) (s : S) : list (proc S unit) := (run p s).2.

(** A pool of goroutines over a state: any of them may take the next step. *)
Inductive pstep {S} : S * list (proc S unit) -> S * list (proc S unit) -> Prop :=
| pstep_step s l1 f k l2 :
    pstep (s, l1 ++ Step f k :: l2) (f s, l1 ++ k s :: l2)
| pstep_spawn s l1 c k l2 :
    pstep (s, l1 ++ Spawn c k :: l2) (s, l1 ++ k :: l2 ++ [c]).

(** ** Running compositions *)

Lemma run_bind {S A B} (p : proc S A) (k : A -> proc S B) s :
  run (pbind k p) s =
  let '(s1, a, l1) := run p s in let '(s2, b, l2) := run (k a) s1 in (s2, b, l1 ++ l2).
Proof.
  revert s. induction p as [A a|A f p IH|A c _ p IH]; intros s; simpl.
  - by destruct (run (k a) s) as [[??]?].
  - apply IH.
  - rewrite IH. destruct (run p s) as [[s1 a] l1]. by destruct (run (k a) s1) as [[??]?].
Qed.

Lemma run_atomic {S R} (f : S -> S * R) s : run (atomic f) s = (f s, []).
Proof. unfold atomic. simpl. by destruct (f s). Qed.

(** ** Interference

    [rg G p s0 Q]: started in a state that others may have changed by [G]
    steps since [s0], every step of [p] is a [G] step, and so are the steps
    of the goroutines it starts, whatever [G] steps of others happen in
    between; if [p] ends, its result and the state satisfy [Q]. What a
    goroutine learned under a lock can be used later as far as [G] steps
    preserve it. *)
Fixpoint rg {S A : Type} (G : S -> S -> Prop) (p : proc S A) (s0 : S) (Q : A -> S -> Prop) : Prop :=
  match p with
  | Done a => Q a s0
  | Step f k => forall s, rtc G s0 s -> G s (f s) /\ rg G (k s) (f s) Q
  | Spawn c k => rg G c s0 (fun _ _ => True) /\ rg G k s0 Q
  end.

Abbreviation rg_ G p s0 := (rg G p s0 (fun _ _ => True)).

Section RG.
Context {S : Type} (G : S -> S -> Prop).

Lemma rg_bind {A B} (p : proc S A) (k : A -> proc S B) s0 Q R :
  rg G p s0 Q -> (forall a s, rtc G s0 s -> Q a s -> rg G (k a) s R) ->
  rg G (pbind k p) s0 R.
Proof.
  revert k s0 Q. induction p as [A a|A f p IH|A c _ p IH]; simpl; intros k s0 Q Hp Hk.
  - by apply Hk.
  - intros s Hs. destruct (Hp s Hs) as [Hg Hp']. split; [done|].
    eapply IH; [done|]. intros a s' Hs' HQ. apply Hk; [|done].
    etrans; [done|]. by eapply rtc_l.
  - destruct Hp. split; [done|]. by eapply IH.
Qed.

Lemma rg_done {A} (a : A) s0 (Q : A -> S -> Prop) : Q a s0 -> rg G (Done a) s0 Q.
Proof. done. Qed.

Lemma rg_atomic {R} (f : S -> S * R) s0 Q :
  (forall s, rtc G s0 s -> G s (fst (f s)) /\ Q (snd (f s)) (fst (f s))) ->
  rg G (atomic f) s0 Q.
Proof. done. Qed.

Lemma rg_modify (f : S -> S) s0 (Q : unit -> S -> Prop) :
  (forall s, rtc G s0 s -> G s (f s) /\ Q tt (f s)) -> rg G (modify f) s0 Q.
Proof. done. Qed.

Lemma rg_reads {R} (f : S -> R) s0 (Q : R -> S -> Prop) :
  (forall s, G s s) -> (forall s, rtc G s0 s -> Q (f s) s) -> rg G (reads f) s0 Q.
Proof. intros HG H s Hs. split; [apply HG|]. by apply H. Qed.

Lemma rg_spawn c s0 (Q : unit -> S -> Prop) : rg_ G c s0 -> Q tt s0 -> rg G (spawn c) s0 Q.
Proof. done. Qed.

Lemma rg_later {A} (p : proc S A) s0 s1 Q :
  (forall a s s', Q a s -> rtc G s s' -> Q a s') ->
  rtc G s0 s1 -> rg G p s0 Q -> rg G p s1 Q.
Proof.
  revert s0 s1 Q. induction p as [A a|A f p IH|A c IHc p IH]; simpl; intros s0 s1 Q HQ Hs Hp.
  - by eapply HQ.
  - intros s Hs'. apply Hp. by etrans.
  - destruct Hp as [Hc Hp]. split; [by eapply IHc|by eapply IH].
Qed.

Lemma rg_for_each {A} (f : A -> proc S unit) l s0 :
  (forall a s, rtc G s0 s -> a ∈ l -> rg_ G (f a) s) -> rg_ G (for_each f l) s0.
Proof.
  revert s0. induction l as [|a l IH]; intros s0 H; [done|].
  simpl. eapply rg_bind; [apply H; [done|by left]|].
  intros [] s Hs _. apply IH. intros a' s' Hs' Ha'. apply H; [by etrans|by right].
Qed.

Lemma rg_weaken {A} (p : proc S A) s0 (Q R : A -> S -> Prop) :
  rg G p s0 Q -> (forall a s, Q a s -> R a s) -> rg G p s0 R.
Proof.
  revert s0 Q R. induction p as [A a|A f p IH|A c _ p IH]; simpl; intros s0 Q R Hp HQ.
  - by apply HQ.
  - intros s Hs. destruct (Hp s Hs). split; [done|]. by eapply IH.
  - destruct Hp. split; [done|]. by eapply IH.
Qed.

(** A pool of such goroutines makes only [G] steps. *)
Lemma pstep_rg s l s' l' :
  pstep (s, l) (s', l') -> Forall (fun p => rg_ G p s) l ->
  rtc G s s' /\ Forall (fun p => rg_ G p s') l'.
Proof.
  assert (Hlater : forall s s' (l : list (proc S unit)), rtc G s s' -> Forall (fun p => rg_ G p s) l -> Forall (fun p => rg_ G p s') l).
  { intros s1 s2 l1 Hs Hl1. eapply Forall_impl; [done|]. intros p. by apply rg_later. }
  intros Hst Hl. inversion Hst; subst;
    apply Forall_app in Hl as [H1 H2]; apply Forall_cons in H2 as [Hp H2]; simpl in Hp.
  - destruct (Hp s) as [Hg Hk]; [done|]. split; [by apply rtc_once|].
    assert (rtc G s (f s)) by (by apply rtc_once).
    apply Forall_app; split; [by eapply Hlater|]. constructor; [done|by eapply Hlater].
  - destruct Hp. split; [done|]. apply Forall_app; split; [done|]. constructor; [done|].
    apply Forall_app; split; [done|]. by repeat constructor.
Qed.

End RG.

(** The same rule with two relations: others may take [R] steps, and the
    goroutine promises more, [G] steps only. *)
Fixpoint rgr {S A : Type} (R G : S -> S -> Prop) (p : proc S A) (s0 : S) (Q : A -> S -> Prop) : Prop :=
  match p with
  | Done a => Q a s0
  | Step f k => forall s, rtc R s0 s -> G s (f s) /\ rgr R G (k s) (f s) Q
  | Spawn c k => rgr R G c s0 (fun _ _ => True) /\ rgr R G k s0 Q
  end.

Abbreviation rgr_ R G p s0 := (rgr R G p s0 (fun _ _ => True)).

Section RGR.
Context {S : Type} (R G : S -> S -> Prop) (HGR : forall s s', G s s' -> R s s').

Lemma rgr_bind {A B} (p : proc S A) (k : A -> proc S B) s0 Q P :
  rgr R G p s0 Q -> (forall a s, rtc R s0 s -> Q a s -> rgr R G (k a) s P) -> rgr R G (pbind k p) s0 P.
Proof using HGR.
  revert k s0 Q. induction p as [A a|A f p IH|A c _ p IH]; cbn [rgr pbind]; intros k s0 Q Hp Hk.
  - by apply Hk.
  - intros s Hs. destruct (Hp s Hs) as [Hg Hp']. split; [done|].
    eapply IH; [done|]. intros a s' Hs' HQ. apply Hk; [|done].
    etrans; [done|]. eapply rtc_l; [by apply HGR|done].
  - destruct Hp. split; [done|]. by eapply IH.
Qed.

Lemma rgr_weaken {A} (p : proc S A) s0 (Q P : A -> S -> Prop) :
  rgr R G p s0 Q -> (forall a s, Q a s -> P a s) -> rgr R G p s0 P.
Proof using Type.
  revert s0 Q P. induction p as [A a|A f p IH|A c _ p IH]; cbn [rgr]; intros s0 Q P Hp HQ.
  - by apply HQ.
  - intros s Hs. destruct (Hp s Hs). split; [done|]. by eapply IH.
  - destruct Hp. split; [done|]. by eapply IH.
Qed.

Lemma rgr_done {A} (a : A) s0 (Q : A -> S -> Prop) : Q a s0 -> rgr R G (Done a) s0 Q.
Proof using Type. done. Qed.

Lemma rgr_atomic {A} (f : S -> S * A) s0 (Q : A -> S -> Prop) :
  (forall s, rtc R s0 s -> G s (fst (f s)) /\ Q (snd (f s)) (fst (f s))) -> rgr R G (atomic f) s0 Q.
Proof using Type. done. Qed.

Lemma rgr_modify (f : S -> S) s0 (Q : unit -> S -> Prop) :
  (forall s, rtc R s0 s -> G s (f s) /\ Q tt (f s)) -> rgr R G (modify f) s0 Q.
Proof using Type. done. Qed.

Lemma rgr_reads {A} (f : S -> A) s0 (Q : A -> S -> Prop) :
  (forall s, G s s) -> (forall s, rtc R s0 s -> Q (f s) s) -> rgr R G (reads f) s0 Q.
Proof using Type. intros HG H s Hs. split; [apply HG|]. by apply H. Qed.

Lemma rgr_for_each {A} (f : A -> proc S unit) l s0 :
  (forall a s, rtc R s0 s -> a ∈ l -> rgr_ R G (f a) s) -> rgr_ R G (for_each f l) s0.
Proof using HGR.
  revert s0. induction l as [|a l IH]; intros s0 H; [done|].
  cbn [for_each]. eapply rgr_bind; [apply H; [done|by left]|].
  intros [] s Hs _. apply IH. intros a' s' Hs' Ha'. apply H; [by etrans|by right].
Qed.

Lemma rgr_later {A} (p : proc S A) s0 s1 : rtc R s0 s1 -> rgr_ R G p s0 -> rgr_ R G p s1.
Proof using Type.
  revert s0 s1. induction p as [A a|A f p IH|A c IHc p IH]; cbn [rgr]; intros s0 s1 Hs Hp.
  - done.
  - intros s Hs'. apply Hp. by etrans.
  - destruct Hp as [Hc Hp]. split; [by eapply IHc|by eapply IH].
Qed.

(** Sequencing when the first part's postcondition says all. *)
Lemma rgr_chain {A B} (p : proc S A) (k : A -> proc S B) s0 Q P :
  rgr R G p s0 Q -> (forall a s, Q a s -> rgr R G (k a) s P) -> rgr R G (pbind k p) s0 P.
Proof using Type.
  revert k s0 Q. induction p as [A a|A f p IH|A c _ p IH]; cbn [rgr pbind]; intros k s0 Q Hp Hk.
  - by apply Hk.
  - intros s Hs. destruct (Hp s Hs) as [Hg Hp']. split; [done|]. by eapply IH.
  - destruct Hp. split; [done|]. by eapply IH.
Qed.

(** Steps straight from the definition. *)
Lemma rgr_step {A B} (f : S -> S * A) (k : A -> proc S B) s0 Q :
  (forall s, rtc R s0 s -> G s (f s).1 /\ rgr R G (k (f s).2) (f s).1 Q) -> rgr R G (pbind k (atomic f)) s0 Q.
Proof using Type. done. Qed.

Lemma rgr_run {A} (p : proc S A) s Q : rgr R G p s Q -> Q (run_value p s) (run_state p s).
Proof using Type.
  unfold run_value, run_state. revert s Q. induction p as [A a|A f p IH|A c _ p IH]; cbn [rgr run]; intros s Q Hp.
  - exact Hp.
  - apply (IH s (f s) Q), (Hp s), rtc_refl.
  - specialize (IH s Q (proj2 Hp)). by destruct (run p s) as [[??]?].
Qed.

End RGR.

(** A goroutine that starts no others. *)
Fixpoint spawnless {S A : Type} (p : proc S A) : Prop :=
  match p with
  | Done _ => True
  | Step f k => forall s, spawnless (k s)
  | Spawn _ _ => False
  end.

Lemma spawnless_bind {S A B} (p : proc S A) (k : A -> proc S B) :
  spawnless p -> (forall a, spawnless (k a)) -> spawnless (pbind k p).
Proof. intros Hp Hk. induction p as [A a|A f p IH|A c _ p _]; cbn [spawnless pbind] in *; auto. Qed.

Lemma spawnless_for_each {S A} (f : A -> proc S unit) l :
  (forall a, spawnless (f a)) -> spawnless (for_each f l).
Proof. intros Hf. induction l as [|a l IH]; [done|]. cbn [for_each]. by apply spawnless_bind. Qed.

(** One distinguished goroutine that takes [C] steps beside others that take
    [R] steps: the pool takes steps of these two kinds only. *)
Lemma pool_two {S} (T R C : S -> S -> Prop) s p l s' l' :
  (forall s s', R s s' -> T s s') -> (forall s s', C s s' -> T s s') ->
  rtc pstep (s, p :: l) (s', l') -> rgr_ R C p s -> spawnless p -> Forall (fun q => rgr_ T R q s) l ->
  rtc (fun s s' => R s s' \/ C s s') s s'.
Proof.
  intros HRT HCT Hst. remember (s, p :: l) as a eqn:Ha. remember (s', l') as b eqn:Hb.
  revert s p l Ha. induction Hst as [a|a b c Hab _ IH]; intros s p l Ha Hp Hsp Hl.
  { rewrite Hb in Ha. injection Ha as -> _. apply rtc_refl. }
  specialize (IH Hb).
  assert (Hlater : forall s1 s2 (ls : list (proc S unit)), T s1 s2 -> Forall (fun q => rgr_ T R q s1) ls -> Forall (fun q => rgr_ T R q s2) ls).
  { intros s1 s2 ls Ht Hls. eapply Forall_impl; [done|]. intros q. apply rgr_later. by apply rtc_once. }
  inversion Hab as [s1 l1 f k l2 E1 E2|s1 l1 q k l2 E1 E2]; subst; injection E1 as -> E1; destruct l1 as [|q0 l1]; injection E1 as <- E1.
  - subst l2. cbn [rgr spawnless] in Hp, Hsp. destruct (Hp s) as [Hc Hk]; [done|].
    eapply rtc_l; [by right|]. eapply IH; [done|done|apply Hsp|]. by eapply Hlater; [apply HCT|].
  - subst l. apply Forall_app in Hl as [H1 H2]. apply Forall_cons in H2 as [Hq H2]. cbn [rgr] in Hq.
    destruct (Hq s) as [Hr Hk]; [done|]. eapply rtc_l; [by left|]. eapply IH; [done| |done|].
    + eapply rgr_later; [|done]. by apply rtc_once.
    + apply Forall_app; split; [by eapply Hlater; [apply HRT|]|]. constructor; [done|by eapply Hlater; [apply HRT|]].
  - done.
  - subst l. apply Forall_app in Hl as [H1 H2]. apply Forall_cons in H2 as [[Hc Hk] H2].
    eapply IH; [done|done|done|]. apply Forall_app; split; [done|]. constructor; [done|].
    apply Forall_app; split; [done|]. by repeat constructor.
Qed.

(** An undisturbed run is one of the interleavings. *)
Lemma run_pool {S} : forall (p : proc S unit) s l1 l2,
  exists l3, rtc pstep (s, l1 ++ p :: l2) (run_state p s, l1 ++ Done tt :: l2 ++ l3).
Proof.
  fix IH 1. intros [[]|f k|c k] s l1 l2.
  - exists []. by rewrite app_nil_r.
  - destruct (IH (k s) (f s) l1 l2) as [l3 H3]. exists l3.
    eapply rtc_l; [apply pstep_step|]. exact H3.
  - destruct (IH k s l1 (l2 ++ [c])) as [l3 H3]. exists (c :: l3).
    eapply rtc_l; [apply pstep_spawn|]. unfold run_state in *. simpl.
    destruct (run k s) as [[s' a] l]. simpl in *. by rewrite <- app_assoc in H3.
Qed.

(** Evaluating an undisturbed run, step by step. *)
Create Rewrite HintDb run.

Lemma run_state_bind {S A B} (p : proc S A) (k : A -> proc S B) s :
  run_state (pbind k p) s = run_state (k (run_value p s)) (run_state p s).
Proof.
  unfold run_state, run_value. rewrite run_bind.
  destruct (run p s) as [[s1 a] l1]. cbn. by destruct (run (k a) s1) as [[??]?].
Qed.

Lemma run_value_bind {S A B} (p : proc S A) (k : A -> proc S B) s :
  run_value (pbind k p) s = run_value (k (run_value p s)) (run_state p s).
Proof.
  unfold run_state, run_value. rewrite run_bind.
  destruct (run p s) as [[s1 a] l1]. cbn. by destruct (run (k a) s1) as [[??]?].
Qed.

Lemma run_state_atomic {S R} (f : S -> S * R) s : run_state (atomic f) s = (f s).1.
Proof. unfold run_state. rewrite run_atomic. by destruct (f s). Qed.

Lemma run_value_atomic {S R} (f : S -> S * R) s : run_value (atomic f) s = (f s).2.
Proof. unfold run_value. rewrite run_atomic. by destruct (f s). Qed.

Lemma run_state_modify {S} (f : S -> S) s : run_state (modify f) s = f s.
Proof. done. Qed.

Lemma run_state_reads {S R} (f : S -> R) s : run_state (reads f) s = s.
Proof. done. Qed.

Lemma run_value_reads {S R} (f : S -> R) s : run_value (reads f) s = f s.
Proof. done. Qed.

Lemma run_state_done {S A} (a : A) (s : S) : run_state (Done a) s = s.
Proof. done. Qed.

Lemma run_value_done {S A} (a : A) (s : S) : run_value (Done a) s = a.
Proof. done. Qed.

Lemma run_state_spawn {S} (c : proc S unit) s : run_state (spawn c) s = s.
Proof. done. Qed.

#[export] Hint Rewrite @run_state_spawn @run_state_bind @run_value_bind @run_state_atomic @run_value_atomic
  @run_state_modify @run_state_reads @run_value_reads @run_state_done @run_value_done : run.

Ltac runs := autorewrite with run; cbn [fst snd].

#[global] Arguments rg : simpl never.
#[global] Arguments rgr : simpl never.
#[global] Arguments pbind : simpl never.
#[global] Arguments run : simpl never.
