(* ===== verification/Sha.v ===== *)
(** * The hash functions of the Go standard library

    [sha1.Sum], [sha256.Sum256], [sha512.Sum384] and [sha512.Sum512], which
    crypto.go calls, as FIPS 180-4 defines them: padding, message schedule
    and compression over words of 32 or 64 bits. Messages and digests are
    lists of bytes. *)

From S2P Require Import Prelude.

#[local] Open Scope Z_scope.

(** ** Constants *)

(** The constants are the first bits of the fractional parts of the cube and
    square roots of the first primes. *)

Definition is_prime (n : nat) : bool :=
  forallb (fun d => negb (n mod d =? 0)%nat) (seq 2 (n - 2)).

Definition primes : list Z := Eval vm_compute in map Z.of_nat (List.filter is_prime (seq 2 408)).

(** The integer cube root of [n], bit by bit from [2 ^ k] down. *)
Fixpoint cbrt_from (k : nat) (n r : Z) : Z :=
  let r' := r + 2 ^ Z.of_nat k in
  let r := if r' * r' * r' <=? n then r' else r in
  match k with O => r | S k => cbrt_from k n r end.

Definition frac_cbrt (w p : Z) : Z := cbrt_from (Z.to_nat w + 3) (p * 2 ^ (3 * w)) 0 mod 2 ^ w.

Definition frac_sqrt (w p : Z) : Z := Z.sqrt (p * 2 ^ (2 * w)) mod 2 ^ w.

Definition K256 : list Z := Eval vm_compute in map (frac_cbrt 32) (take 64 primes).

Definition K512 : list Z := Eval vm_compute in map (frac_cbrt 64) primes.

Definition H256 : list Z := Eval vm_compute in map (frac_sqrt 32) (take 8 primes).

Definition H384 : list Z := Eval vm_compute in map (frac_sqrt 64) (take 8 (drop 8 primes)).

Definition H512 : list Z := Eval vm_compute in map (frac_sqrt 64) (take 8 primes).

Definition H160 : list Z := [0x67452301; 0xefcdab89; 0x98badcfe; 0x10325476; 0xc3d2e1f0].

(** ** Words and blocks *)

(** Rotations and shifts of a [w]-bit word. *)
Definition rotl (w n x : Z) : Z := Z.lor (Z.shiftl x n mod 2 ^ w) (Z.shiftr x (w - n)).

Definition rotr (w n x : Z) : Z := rotl w (w - n) x.

(** [w]-bit addition. *)
Definition wadd (w x y : Z) : Z := (x + y) mod 2 ^ w.

Definition wnot (w x : Z) : Z := 2 ^ w - 1 - x.

Definition Ch (w x y z : Z) : Z := Z.lxor (Z.land x y) (Z.land (wnot w x) z).

Definition Maj (x y z : Z) : Z := Z.lxor (Z.lxor (Z.land x y) (Z.land x z)) (Z.land y z).

Definition Parity (x y z : Z) : Z := Z.lxor (Z.lxor x y) z.

(** Pad to a multiple of [blk] bytes, the last [lenb] of which hold the
    length in bits. *)
Definition pad (blk lenb : Z) (msg : list Z) : list Z :=
  let n := zlen msg in
  msg ++ [128] ++ replicate (Z.to_nat ((- (n + 1 + lenb)) mod blk)) 0 ++ be_encode (Z.to_nat lenb) (8 * n).

(** Cut into pieces of [n] elements; [fuel] bounds their number. *)
Fixpoint pieces {A} (fuel n : nat) (l : list A) : list (list A) :=
  match fuel with
  | O => []
  | S fuel => match l with [] => [] | _ => take n l :: pieces fuel n (drop n l) end
  end.

Definition blocks {A} (n : nat) (l : list A) : list (list A) := pieces (length l) n l.

(** The words of a block. *)
Definition words (wb : nat) (block : list Z) : list Z := map be_decode (blocks wb block).

(** The bytes of a state. *)
Definition unwords (wb : nat) (h : list Z) : list Z := concat (map (be_encode wb) h).

(** The message schedule, latest word first. *)
Fixpoint extend (next : list Z -> Z) (n : nat) (rev_w : list Z) : list Z :=
  match n with
  | O => rev_w
  | S n => extend next n (next rev_w :: rev_w)
  end.

(** ** SHA-1 *)

Definition sha1_next (r : list Z) : Z :=
  rotl 32 1 (Z.lxor (Z.lxor (byte_at r 2) (byte_at r 7)) (Z.lxor (byte_at r 13) (byte_at r 15))).

Definition sha1_round (s : Z * Z * Z * Z * Z) (tw : nat * Z) : Z * Z * Z * Z * Z :=
  let '(a, b, c, d, e) := s in
  let '(t, wt) := tw in
  let '(f, k) :=
    if (t <? 20)%nat then (Ch 32 b c d, 0x5a827999)
    else if (t <? 40)%nat then (Parity b c d, 0x6ed9eba1)
    else if (t <? 60)%nat then (Maj b c d, 0x8f1bbcdc)
    else (Parity b c d, 0xca62c1d6) in
  (wadd 32 (rotl 32 5 a) (wadd 32 f (wadd 32 e (wadd 32 k wt))), a, rotl 32 30 b, c, d).

Definition sha1_block (h : list Z) (block : list Z) : list Z :=
  let ws := rev (extend sha1_next 64 (rev (words 4 block))) in
  let '(a, b, c, d, e) :=
    fold_left sha1_round (zip (seq 0 80) ws)
      (byte_at h 0, byte_at h 1, byte_at h 2, byte_at h 3, byte_at h 4) in
  [wadd 32 (byte_at h 0) a; wadd 32 (byte_at h 1) b; wadd 32 (byte_at h 2) c;
   wadd 32 (byte_at h 3) d; wadd 32 (byte_at h 4) e].

Definition sha1_Sum (msg : list Z) : list Z :=
  unwords 4 (fold_left sha1_block (blocks 64 (pad 64 8 msg)) H160).

(** ** SHA-2 *)

(** What distinguishes the 32-bit and the 64-bit functions: word size,
    round constants, and the rotation and shift amounts. *)
Record sha2 := mkSha2 {
  sw : Z; sK : list Z;
  bigS0 : Z * Z * Z; bigS1 : Z * Z * Z; (* three rotations *)
  g0 : Z * Z * Z; g1 : Z * Z * Z  (* two rotations and a shift *)
}.

Definition sha2_32 : sha2 := mkSha2 32 K256 (2, 13, 22) (6, 11, 25) (7, 18, 3) (17, 19, 10).

Definition sha2_64 : sha2 := mkSha2 64 K512 (28, 34, 39) (14, 18, 41) (1, 8, 7) (19, 61, 6).

Definition bigSigma (w : Z) (k : Z * Z * Z) (x : Z) : Z :=
  let '(i, j, l) := k in Z.lxor (Z.lxor (rotr w i x) (rotr w j x)) (rotr w l x).

Definition smallSigma (w : Z) (k : Z * Z * Z) (x : Z) : Z :=
  let '(i, j, l) := k in Z.lxor (Z.lxor (rotr w i x) (rotr w j x)) (Z.shiftr x l).

Definition sha2_next (p : sha2) (r : list Z) : Z :=
  wadd (sw p) (smallSigma (sw p) (g1 p) (byte_at r 1))
    (wadd (sw p) (byte_at r 6) (wadd (sw p) (smallSigma (sw p) (g0 p) (byte_at r 14)) (byte_at r 15))).

Definition sha2_round (p : sha2) (s : Z * Z * Z * Z * Z * Z * Z * Z) (kw : Z * Z)
    : Z * Z * Z * Z * Z * Z * Z * Z :=
  let '(a, b, c, d, e, f, g, h) := s in
  let t1 := wadd (sw p) h (wadd (sw p) (bigSigma (sw p) (bigS1 p) e)
              (wadd (sw p) (Ch (sw p) e f g) (wadd (sw p) (fst kw) (snd kw)))) in
  let t2 := wadd (sw p) (bigSigma (sw p) (bigS0 p) a) (Maj a b c) in
  (wadd (sw p) t1 t2, a, b, c, wadd (sw p) d t1, e, f, g).

Definition sha2_block (p : sha2) (hs : list Z) (block : list Z) : list Z :=
  let ws := rev (extend (sha2_next p) (length (sK p) - 16) (rev (words (Z.to_nat (sw p / 8)) block))) in
  let '(a, b, c, d, e, f, g, h) :=
    fold_left (sha2_round p) (zip (sK p) ws)
      (byte_at hs 0, byte_at hs 1, byte_at hs 2, byte_at hs 3,
       byte_at hs 4, byte_at hs 5, byte_at hs 6, byte_at hs 7) in
  [wadd (sw p) (byte_at hs 0) a; wadd (sw p) (byte_at hs 1) b; wadd (sw p) (byte_at hs 2) c;
   wadd (sw p) (byte_at hs 3) d; wadd (sw p) (byte_at hs 4) e; wadd (sw p) (byte_at hs 5) f;
   wadd (sw p) (byte_at hs 6) g; wadd (sw p) (byte_at hs 7) h].

Definition sha2_sum (p : sha2) (h0 : list Z) (msg : list Z) : list Z :=
  unwords (Z.to_nat (sw p / 8))
    (fold_left (sha2_block p) (blocks (Z.to_nat (2 * sw p)) (pad (2 * sw p) (sw p / 4) msg)) h0).

Definition sha256_Sum256 (msg : list Z) : list Z := sha2_sum sha2_32 H256 msg.

Definition sha512_Sum384 (msg : list Z) : list Z := take 48 (sha2_sum sha2_64 H384 msg).

Definition sha512_Sum512 (msg : list Z) : list Z := sha2_sum sha2_64 H512 msg.

(** ** Test vectors (FIPS 180-4 examples) *)

Example sha1_Sum_abc :
  be_decode (sha1_Sum (s2b "abc")) =
  0xa9993e364706816aba3e25717850c26c9cd0d89d.
Proof. vm_compute. reflexivity. Qed.

Example sha256_Sum256_abc :
  be_decode (sha256_Sum256 (s2b "abc")) =
  0xba7816bf8f01cfea414140de5dae2223b00361a396177a9cb410ff61f20015ad.
Proof. vm_compute. reflexivity. Qed.

Example sha512_Sum384_abc :
  be_decode (sha512_Sum384 (s2b "abc")) =
  0xcb00753f45a35e8bb5a03d699ac65007272c32ab0eded1631a8b605a43ff5bed8086072ba1e7cc2358baeca134c825a7.
Proof. vm_compute. reflexivity. Qed.

Example sha512_Sum512_abc :
  be_decode (sha512_Sum512 (s2b "abc")) =
  0xddaf35a193617abacc417349ae20413112e6fa4e89a97ea20a9eeee64b55d39a2192992a274fc1a836ba3c23a3feebbd454d4423643ce80e2a9ac94fa54ca49f.
Proof. vm_compute. reflexivity. Qed.

Example sha1_Sum_two :
  be_decode (sha1_Sum (s2b "abcdbcdecdefdefgefghfghighijhijkijkljklmklmnlmnomnopnopq")) =
  0x84983e441c3bd26ebaae4aa1f95129e5e54670f1.
Proof. vm_compute. reflexivity. Qed.

Example sha256_Sum256_two :
  be_decode (sha256_Sum256 (s2b "abcdbcdecdefdefgefghfghighijhijkijkljklmklmnlmnomnopnopq")) =
  0x248d6a61d20638b8e5c026930c3e6039a33ce45964ff2167f6ecedd419db06c1.
Proof. vm_compute. reflexivity. Qed.

(** ** Digests are byte strings of the documented length *)

Lemma length_unwords wb h : length (unwords wb h) = (length h * wb)%nat.
Proof.
  unfold unwords. induction h as [|x h IH]; [done|].
  cbn. by rewrite length_app, length_be_encode, IH.
Qed.

Lemma unwords_bytes wb h : Forall is_byte (unwords wb h).
Proof.
  unfold unwords. induction h as [|x h IH]; [constructor|].
  cbn. apply Forall_app. split; [apply be_encode_bytes|done].
Qed.

Lemma fold_left_length {A B} (f : list A -> B -> list A) n l h :
  (forall h b, length (f h b) = n) -> length h = n -> length (fold_left f l h) = n.
Proof. intros Hf. revert h. induction l as [|b l IH]; intros h Hh; [done|]. cbn. apply IH, Hf. Qed.

Lemma sha1_block_length h b : length (sha1_block h b) = 5%nat.
Proof. unfold sha1_block. by destruct (fold_left _ _ _) as [[[[??]?]?]?]. Qed.

Lemma sha2_block_length p h b : length (sha2_block p h b) = 8%nat.
Proof. unfold sha2_block. by destruct (fold_left _ _ _) as [[[[[[[??]?]?]?]?]?]?]. Qed.

Lemma length_sha1 m : length (sha1_Sum m) = 20%nat.
Proof.
  unfold sha1_Sum. rewrite length_unwords, (fold_left_length _ 5); [done|apply sha1_block_length|done].
Qed.

Lemma length_sha2 p h m :
  length h = 8%nat -> length (sha2_sum p h m) = (8 * Z.to_nat (sw p / 8))%nat.
Proof.
  intros Hh. unfold sha2_sum. rewrite length_unwords, (fold_left_length _ 8); [done| |done].
  apply sha2_block_length.
Qed.

Lemma length_sha256 m : length (sha256_Sum256 m) = 32%nat.
Proof. unfold sha256_Sum256. by rewrite length_sha2. Qed.

Lemma length_sha384 m : length (sha512_Sum384 m) = 48%nat.
Proof. unfold sha512_Sum384. rewrite length_take, length_sha2 by done. done. Qed.

Lemma length_sha512 m : length (sha512_Sum512 m) = 64%nat.
Proof. unfold sha512_Sum512. by rewrite length_sha2. Qed.

Lemma sha1_bytes m : Forall is_byte (sha1_Sum m).
Proof. apply unwords_bytes. Qed.

Lemma sha2_bytes p h m : Forall is_byte (sha2_sum p h m).
Proof. apply unwords_bytes. Qed.

Lemma sha384_bytes m : Forall is_byte (sha512_Sum384 m).
Proof. apply Forall_take, sha2_bytes. Qed.

#[export] Hint Rewrite length_sha1 length_sha256 length_sha384 length_sha512 : unbound_rw.
#[export] Hint Resolve sha1_bytes sha2_bytes sha384_bytes : unbound.

#[global] Arguments sha1_Sum : simpl never.
#[global] Arguments sha256_Sum256 : simpl never.
#[global] Arguments sha512_Sum384 : simpl never.
#[global] Arguments sha512_Sum512 : simpl never.
