(* ===== verification/Crypto.v ===== *)
(** * crypto.go: DNSSEC primitives

    Which algorithms are supported, the RSA key format of RFC 3110, the
    signature checks, the DS digests and the NSEC3 hash. The hash functions
    are those of Sha.v; signature verification itself belongs to the
    standard library's [crypto/rsa], [crypto/ecdsa] and [crypto/ed25519],
    which enter as the interface [Signatures]. An outer [None] is a
    run-time panic. *)

From S2P Require Import Prelude Sha.

#[local] Open Scope Z_scope.

Inductive Hash := SHA256 | SHA384 | SHA512.

#[export] Instance Hash_eq_dec : EqDecision Hash.
Proof. solve_decision. Defined.

Inductive Curve := P256 | P384.

Record PublicKey := mkRSA { pk_N : Z; pk_E : Z }.

(** ** Algorithms *)

Definition algRSASHA256 : Z := 8.
Definition algRSASHA512 : Z := 10.
Definition algECDSAP256SHA256 : Z := 13.
Definition algECDSAP384SHA384 : Z := 14.
Definition algED25519 : Z := 15.

Definition cryptoSupported (alg : Z) : bool :=
  (alg =? algRSASHA256) || (alg =? algRSASHA512) || (alg =? algECDSAP256SHA256) ||
  (alg =? algECDSAP384SHA384) || (alg =? algED25519).

(** ** RSA keys *)

(** [parseDNSKEYRSA]. [big.Int.SetBytes] reads an unsigned big-endian
    number; [IsInt64] holds below 2^63. *)
Definition parseDNSKEYRSA (key : list Z) : option (option PublicKey) :=
  if zlen key <? 3 then Some None
  else
    k0 ← go_index key 0;
    '(elen, off) ← (if negb (k0 =? 0) then Some (k0, 1)
                    else l ← go_slice key 1 3; Some (be_decode l, 3));
    if (elen =? 0) || (zlen key <=? off + elen) then Some None
    else
      eb ← go_slice key off (off + elen);
      let e := be_decode eb in
      if negb (e <? 2 ^ 63) || (e <? 3) || (2 ^ 31 - 1 <? e) then Some None
      else
        nb ← go_slice key (off + elen) (zlen key);
        let n := be_decode nb in
        if n <=? 0 then Some None else Some (Some (mkRSA n e)).

(** ** Digests *)

(** [cryptoDigest]. *)
Definition cryptoDigest (alg : Z) (data : list Z) : option (list Z) :=
  if alg =? 1 then Some (sha1_Sum data)
  else if alg =? 2 then Some (sha256_Sum256 data)
  else if alg =? 4 then Some (sha512_Sum384 data)
  else if alg =? 5 then Some (sha512_Sum512 data)
  else None.

(** The loop of [nsec3Hash], with its reused buffer. *)
Fixpoint nsec3Loop (n : nat) (salt b h : list Z) : list Z :=
  match n with
  | O => h
  | S n => let b := h ++ salt in nsec3Loop n salt b (sha1_Sum b)
  end.

(** [nsec3Hash]. *)
Definition nsec3Hash (salt : list Z) (iterations : Z) (name : list Z) : option (list Z) :=
  if Z.shiftl 1 20 <? iterations then None
  else
    let b := name ++ salt in
    Some (nsec3Loop (Z.to_nat iterations) salt b (sha1_Sum b)).

(** ** Signatures *)

(** The verification functions of the standard library. [ed25519.Verify]
    panics on a public key of the wrong size. *)
Class Signatures := {
  ECKey : Type;
  rsa_VerifyPKCS1v15 : PublicKey -> Hash -> list Z -> list Z -> bool;
  ecdsa_ParseUncompressedPublicKey : Curve -> list Z -> option ECKey;
  ecdsa_Verify : ECKey -> list Z -> Z -> Z -> bool;
  ed25519_Verify : list Z -> list Z -> list Z -> option bool
}.

Definition ed25519_PublicKeySize : Z := 32.

Class SignaturesLaws {SG : Signatures} := {
  ed25519_panics key data sig :
    zlen key = ed25519_PublicKeySize -> is_Some (ed25519_Verify key data sig)
}.

Section Verify.
Context {SG : Signatures}.

(** [verifyECDSA]. *)
Definition verifyECDSA (curve : Curve) (hash : Hash) (key data sig : list Z) (width : Z) : option bool :=
  if negb (zlen key =? 2 * width) || negb (zlen sig =? 2 * width) then Some false
  else
    match ecdsa_ParseUncompressedPublicKey curve (4 :: key) with
    | None => Some false
    | Some pub =>
        let digest := match hash with
                      | SHA256 => Some (sha256_Sum256 data)
                      | SHA384 => Some (sha512_Sum384 data)
                      | SHA512 => None
                      end in
        match digest with
        | None => Some false
        | Some digest =>
            r ← go_slice sig 0 width;
            s ← go_slice sig width (zlen sig);
            Some (ecdsa_Verify pub digest (be_decode r) (be_decode s))
        end
    end.

(** [cryptoVerify]. *)
Definition cryptoVerify (alg : Z) (key data sig : list Z) : option bool :=
  if (alg =? algRSASHA256) || (alg =? algRSASHA512) then
    pub ← parseDNSKEYRSA key;
    match pub with
    | None => Some false
    | Some pub =>
        let '(digest, hash) := if alg =? algRSASHA256 then (sha256_Sum256 data, SHA256)
                               else (sha512_Sum512 data, SHA512) in
        Some (rsa_VerifyPKCS1v15 pub hash digest sig)
    end
  else if alg =? algECDSAP256SHA256 then verifyECDSA P256 SHA256 key data sig 32
  else if alg =? algECDSAP384SHA384 then verifyECDSA P384 SHA384 key data sig 48
  else if alg =? algED25519 then
    if zlen key =? ed25519_PublicKeySize then ed25519_Verify key data sig else Some false
  else Some false.

End Verify.

(** ** The RSA key format *)

(** RFC 3110, section 2: the exponent's length in one byte, or a zero byte
    and two bytes; the exponent; the modulus. *)
Inductive rsa_wire (eb nb : list Z) : list Z -> Prop :=
| wire_short : 1 <= zlen eb <= 255 -> rsa_wire eb nb (zlen eb :: eb ++ nb)
| wire_long : 1 <= zlen eb <= 65535 -> rsa_wire eb nb (0 :: be_encode 2 (zlen eb) ++ eb ++ nb).

(** The exponents and moduli accepted. *)
Definition rsa_key_ok (eb nb : list Z) (pub : PublicKey) : Prop :=
  pk_E pub = be_decode eb /\ pk_N pub = be_decode nb /\ 3 <= pk_E pub <= 2 ^ 31 - 1 /\ 0 < pk_N pub.

(** The two checks after the header, for a key cut into header, exponent
    and modulus. *)
Lemma parse_tail hd eb nb key :
  key = hd ++ eb ++ nb -> nb <> [] ->
  (if (zlen eb =? 0) || (zlen key <=? zlen hd + zlen eb) then Some None
   else
     eb' ← go_slice key (zlen hd) (zlen hd + zlen eb);
     let e := be_decode eb' in
     if negb (e <? 2 ^ 63) || (e <? 3) || (2 ^ 31 - 1 <? e) then Some None
     else
       nb' ← go_slice key (zlen hd + zlen eb) (zlen key);
       let n := be_decode nb' in
       if n <=? 0 then Some None else Some (Some (mkRSA n e))) =
  if (zlen eb =? 0) || (be_decode eb <? 3) || (2 ^ 31 - 1 <? be_decode eb) || (be_decode nb <=? 0)
  then Some None else Some (Some (mkRSA (be_decode nb) (be_decode eb))).
Proof.
  intros -> Hnb. destruct (zlen eb =? 0); [done|]. cbn [orb].
  rewrite (proj2 (Z.leb_gt _ _)).
  2: { rewrite !zlen_app. destruct nb; [done|]. rewrite zlen_cons. pose proof (zlen_nonneg nb). lia. }
  rewrite (go_slice_mid hd eb nb (zlen hd) (zlen hd + zlen eb)) by done. cbn [mbind option_bind]. cbv zeta.
  destruct (Z.ltb_spec (be_decode eb) 3); [by rewrite orb_true_r|].
  destruct (Z.ltb_spec (2 ^ 31 - 1) (be_decode eb)); [by rewrite !orb_true_r|].
  rewrite (proj2 (Z.ltb_lt (be_decode eb) (2 ^ 63))) by lia. cbn [negb orb].
  replace (hd ++ eb ++ nb) with ((hd ++ eb) ++ nb ++ []) by (by rewrite app_nil_r, app_assoc).
  rewrite go_slice_mid; [done|by rewrite zlen_app|]. rewrite !zlen_app, zlen_nil. lia.
Qed.

(** The parser on the two header forms. *)
Lemma parse_short eb nb :
  1 <= zlen eb <= 255 -> nb <> [] ->
  parseDNSKEYRSA (zlen eb :: eb ++ nb) =
  if (be_decode eb <? 3) || (2 ^ 31 - 1 <? be_decode eb) || (be_decode nb <=? 0)
  then Some None else Some (Some (mkRSA (be_decode nb) (be_decode eb))).
Proof.
  intros Hl Hnb. unfold parseDNSKEYRSA.
  rewrite (proj2 (Z.ltb_ge _ 3)); [|rewrite zlen_cons, zlen_app; destruct nb; [done|];
    rewrite zlen_cons; pose proof (zlen_nonneg nb); lia].
  change (go_index _ 0) with (Some (zlen eb)). cbn [mbind option_bind].
  rewrite (proj2 (Z.eqb_neq (zlen eb) 0)) by lia. cbn [negb mbind option_bind].
  etrans; [apply (parse_tail [zlen eb] eb nb); [done|done]|].
  by rewrite (proj2 (Z.eqb_neq (zlen eb) 0)) by lia.
Qed.

Lemma parse_long len eb nb :
  0 <= zlen eb <= 65535 -> nb <> [] -> len = be_encode 2 (zlen eb) ->
  parseDNSKEYRSA (0 :: len ++ eb ++ nb) =
  if (zlen eb =? 0) || (be_decode eb <? 3) || (2 ^ 31 - 1 <? be_decode eb) || (be_decode nb <=? 0)
  then Some None else Some (Some (mkRSA (be_decode nb) (be_decode eb))).
Proof.
  intros Hl Hnb Hlen. unfold parseDNSKEYRSA.
  assert (Hz : zlen len = 2) by (rewrite Hlen; unfold zlen; by rewrite length_be_encode).
  rewrite (proj2 (Z.ltb_ge _ 3)); [|rewrite zlen_cons, !zlen_app; pose proof (zlen_nonneg nb);
    pose proof (zlen_nonneg eb); lia].
  change (go_index _ 0) with (Some 0). cbn [mbind option_bind Z.eqb negb].
  rewrite (go_slice_mid [0] len (eb ++ nb)); [|done|rewrite Hz; done].
  cbn [mbind option_bind].
  replace (be_decode len) with (zlen eb)
    by (rewrite Hlen, be_decode_encode, Z.mod_small; [done|lia]).
  pose proof (parse_tail (0 :: len) eb nb _ eq_refl Hnb) as Ht.
  replace (zlen (0 :: len)) with 3 in Ht by (rewrite zlen_cons; lia). exact Ht.
Qed.

(** Every key of at least three bytes has one of the two header forms, or
    is too short for the length its header announces. *)
Lemma key_cases key :
  Forall is_byte key -> 3 <= zlen key ->
  (exists eb nb, key = zlen eb :: eb ++ nb /\ 1 <= zlen eb <= 255 /\ nb <> []) \/
  (exists eb nb, key = 0 :: be_encode 2 (zlen eb) ++ eb ++ nb /\ 0 <= zlen eb <= 65535 /\ nb <> []) \/
  parseDNSKEYRSA key = Some None.
Proof.
  intros Hb Hl. destruct key as [|k0 key]; [done|]. rewrite zlen_cons in Hl.
  apply Forall_cons in Hb as [Hk0 Hb].
  assert (Hcut : forall (l : list Z) n, 0 <= n < zlen l -> exists a b, l = a ++ b /\ zlen a = n /\ b <> []).
  { intros l n Hn. exists (take (Z.to_nat n) l), (drop (Z.to_nat n) l). unfold zlen in *.
    rewrite take_drop, length_take. split_and!; [done|lia|].
    intros E%(f_equal length). rewrite length_drop in E. cbn in E. lia. }
  destruct (decide (k0 = 0)) as [->|Hz].
  - destruct key as [|k1 [|k2 key]]; [done|done|]. rewrite !zlen_cons in Hl.
    apply Forall_cons in Hb as [Hk1 [Hk2 Hb]%Forall_cons].
    set (n := k1 * 256 + k2). unfold is_byte in *.
    assert (Hn : be_encode 2 n = [k1; k2]).
    { subst n. cbn. f_equal; [zlia|]. f_equal. zlia. }
    destruct (Z.lt_ge_cases n (zlen key)) as [Hlt|Hge].
    + destruct (Hcut key n) as (eb & nb & -> & He & Hnb); [subst n; lia|].
      right; left. exists eb, nb. rewrite He, Hn. split_and!; [done|subst n; lia..|done].
    + right; right. unfold parseDNSKEYRSA. rewrite (proj2 (Z.ltb_ge _ 3)) by (rewrite !zlen_cons; lia).
      change (go_index (0 :: k1 :: k2 :: key) 0) with (Some 0). cbn [mbind option_bind Z.eqb negb].
      change (go_slice (0 :: k1 :: k2 :: key) 1 3) with (go_slice ([0] ++ [k1; k2] ++ key) 1 3).
      rewrite go_slice_mid by done. cbn [mbind option_bind].
      replace (be_decode [k1; k2]) with n by (unfold be_decode, n; cbn; lia).
      rewrite (proj2 (Z.leb_le _ _)) by (rewrite !zlen_cons; lia). by rewrite orb_true_r.
  - unfold is_byte in Hk0. destruct (Z.lt_ge_cases k0 (zlen key)) as [Hlt|Hge].
    + destruct (Hcut key k0) as (eb & nb & -> & He & Hnb); [lia|].
      left. exists eb, nb. rewrite He. split_and!; [done|lia..|done].
    + right; right. unfold parseDNSKEYRSA. rewrite (proj2 (Z.ltb_ge _ 3)) by (rewrite zlen_cons; lia).
      change (go_index (k0 :: key) 0) with (Some k0). cbn [mbind option_bind].
      rewrite (proj2 (Z.eqb_neq k0 0)) by done. cbn [negb mbind option_bind].
      rewrite (proj2 (Z.leb_le _ _)) by (rewrite zlen_cons; lia). by rewrite orb_true_r.
Qed.

Lemma parseDNSKEYRSA_spec_core key :
  Forall is_byte key ->
  is_Some (parseDNSKEYRSA key) /\
  forall pub, parseDNSKEYRSA key = Some (Some pub) <->
    exists eb nb, rsa_wire eb nb key /\ rsa_key_ok eb nb pub.
Proof.
  intros Hb. destruct (Z.lt_ge_cases (zlen key) 3) as [Hs|Hl].
  { unfold parseDNSKEYRSA. rewrite (proj2 (Z.ltb_lt _ _) Hs). split; [done|].
    intros pub. split; [done|]. intros (eb & nb & Hw & Hok). exfalso.
    assert (nb <> []) by (intros ->; destruct Hok as (_ & -> & _ & Hn); done).
    destruct nb; [done|]. inversion Hw as [Hlen Hk|Hlen Hk]; subst key; revert Hs;
      rewrite zlen_cons, !zlen_app, zlen_cons; pose proof (zlen_nonneg nb);
      [lia|unfold zlen at 1; rewrite length_be_encode; lia]. }
  split.
  { destruct (key_cases key Hb Hl) as [(eb & nb & -> & He & Hnb)|[(eb & nb & -> & He & Hnb)| ->]]; [| |done].
    - rewrite parse_short by done. by destruct (_ || _).
    - erewrite parse_long by done. by destruct (_ || _). }
  intros pub. split.
  - intros Hp. destruct (key_cases key Hb Hl) as [(eb & nb & -> & He & Hnb)|[(eb & nb & -> & He & Hnb)|Hn]];
      [| |congruence]; exists eb, nb.
    + rewrite parse_short in Hp by done. destruct (_ || _) eqn:Ek; [done|]. injection Hp as <-.
      bool_props. split; [by constructor|]. unfold rsa_key_ok. cbn. lia.
    + erewrite parse_long in Hp by done. destruct (_ || _) eqn:Ek; [done|]. injection Hp as <-.
      bool_props. split; [constructor; lia|]. unfold rsa_key_ok. cbn. lia.
  - intros (eb & nb & Hw & HE & HN & He & Hn). destruct pub as [n e]; cbn in *; subst n e.
    assert (nb <> []) by (by intros ->).
    assert (Hg : (be_decode eb <? 3) || (2 ^ 31 - 1 <? be_decode eb) || (be_decode nb <=? 0) = false).
    { rewrite !orb_false_iff. split_and!; [apply Z.ltb_ge|apply Z.ltb_ge|apply Z.leb_gt]; lia. }
    inversion Hw as [Hlen Hk|Hlen Hk].
    + by rewrite parse_short, Hg.
    + erewrite parse_long by first [done|lia]. rewrite (proj2 (Z.eqb_neq (zlen eb) 0)) by lia.
      cbn [orb]. by rewrite Hg.
Qed.

(** C15: [parseDNSKEYRSA] implements RFC 3110 and cannot panic: on every
    byte string it returns, and it returns a key exactly for the strings
    that are a header in either form followed by a non-empty exponent and
    a modulus, with the exponent in [3, 2^31-1] and the modulus positive;
    the key is the numbers those bytes spell. *)
Theorem parseDNSKEYRSA_spec key :
  Forall is_byte key ->
  is_Some (parseDNSKEYRSA key) /\
  forall pub, parseDNSKEYRSA key = Some (Some pub) <->
    exists eb nb, rsa_wire eb nb key /\ rsa_key_ok eb nb pub.
Proof. apply parseDNSKEYRSA_spec_core. Qed.

(** The usual exponent 65537 with a two-byte modulus. *)
Lemma parseDNSKEYRSA_spec_witness :
  parseDNSKEYRSA [3; 1; 0; 1; 2; 255] = Some (Some (mkRSA 767 65537)).
Proof.
  apply (proj2 (parseDNSKEYRSA_spec [3; 1; 0; 1; 2; 255] ltac:(by repeat constructor))).
  exists [1; 0; 1], [2; 255]. split; [apply (wire_short [1; 0; 1] [2; 255]); vm_compute; by split|].
  vm_compute. by repeat split.
Defined.

(** ** NSEC3 *)

(** RFC 5155, section 5: the iterated hash, by recursion on the number of
    iterations. *)
Fixpoint nsec3_IH (salt x : list Z) (k : nat) : list Z :=
  match k with
  | O => sha1_Sum (x ++ salt)
  | S k => sha1_Sum (nsec3_IH salt x k ++ salt)
  end.

Lemma nsec3Loop_IH n salt x : forall k b, nsec3Loop n salt b (nsec3_IH salt x k) = nsec3_IH salt x (k + n).
Proof.
  induction n as [|n IHn]; intros k b; cbn [nsec3Loop]; [by rewrite Nat.add_0_r|].
  change (sha1_Sum (nsec3_IH salt x k ++ salt)) with (nsec3_IH salt x (S k)). rewrite IHn. f_equal. lia.
Qed.

Lemma length_IH salt x k : zlen (nsec3_IH salt x k) = 20.
Proof. unfold zlen. destruct k; cbn; by rewrite length_sha1. Qed.

Lemma nsec3Hash_length salt iterations name h :
  nsec3Hash salt iterations name = Some h -> zlen h = 20.
Proof.
  unfold nsec3Hash. destruct (_ <? _); [done|]. intros [= <-].
  rewrite (nsec3Loop_IH _ salt name 0). apply length_IH.
Qed.

(** C16: [nsec3Hash] computes the hash of RFC 5155, whose definition recurses
    from the last iteration while the code loops forward over one reused
    buffer. It refuses exactly the iteration counts above 2^20, and its
    result is always twenty bytes. *)
Theorem nsec3Hash_rfc5155 salt iterations name :
  (nsec3Hash salt iterations name = None <-> 2 ^ 20 < iterations) /\
  (iterations <= 2 ^ 20 ->
   nsec3Hash salt iterations name = Some (nsec3_IH salt name (Z.to_nat iterations)) /\
   zlen (nsec3_IH salt name (Z.to_nat iterations)) = 20).
Proof.
  unfold nsec3Hash. change (Z.shiftl 1 20) with (2 ^ 20).
  destruct (Z.ltb_spec (2 ^ 20) iterations) as [Hlt|Hge]; [split; [done|lia]|].
  split; [split; [done|lia]|]. intros _. split; [|apply length_IH].
  by rewrite (nsec3Loop_IH _ salt name 0).
Qed.

(** Appendix A of RFC 5155: the hash of the name "example" with salt
    AABBCCDD and 12 iterations is 0p9mhaveqvm6t7vbl5lop2u3t2rp3tom in
    base32hex. *)
Lemma nsec3Hash_rfc5155_witness :
  nsec3Hash [0xaa; 0xbb; 0xcc; 0xdd] 12 (7 :: s2b "example" ++ [0]) =
  Some (be_encode 20 0x065368abeed7ec6e9feba96b8c8bc3e8b791f716).
Proof.
  destruct (proj2 (nsec3Hash_rfc5155 [0xaa; 0xbb; 0xcc; 0xdd] 12 (7 :: s2b "example" ++ [0])) ltac:(lia)) as [E _].
  rewrite E. vm_compute. reflexivity.
Defined.

(** ** Digests and signatures *)

(** The length of the digest a selector stands for. *)
Definition digest_size (alg : Z) : option Z :=
  if alg =? 1 then Some 20 else if alg =? 2 then Some 32 else if alg =? 4 then Some 48
  else if alg =? 5 then Some 64 else None.

Lemma cryptoDigest_size alg data : zlen <$> cryptoDigest alg data = digest_size alg.
Proof.
  unfold cryptoDigest, digest_size. repeat case_goal; try done; cbn; unfold zlen;
    by autorewrite with unbound_rw.
Qed.

Section Sound.
Context {SG : Signatures} {SL : SignaturesLaws}.

(** The digest [verifyECDSA] selects. *)
Definition ec_digest (hash : Hash) (data : list Z) : option (list Z) :=
  match hash with
  | SHA256 => Some (sha256_Sum256 data)
  | SHA384 => Some (sha512_Sum384 data)
  | SHA512 => None
  end.

Lemma verifyECDSA_spec curve hash key data sig w :
  0 <= w ->
  is_Some (verifyECDSA curve hash key data sig w) /\
  (verifyECDSA curve hash key data sig w = Some true <->
   exists r s pub d, zlen r = zlen s /\ sig = r ++ s /\ zlen key = 2 * w /\ zlen r = w /\
     ecdsa_ParseUncompressedPublicKey curve (4 :: key) = Some pub /\
     ec_digest hash data = Some d /\ ecdsa_Verify pub d (be_decode r) (be_decode s) = true).
Proof.
  intros Hw. unfold verifyECDSA.
  destruct (_ || _) eqn:Hlen.
  { split; [done|]. split; [done|]. intros (r & s & pub & d & Hrs & -> & Hk & Hr & _).
    rewrite zlen_app in Hlen. apply orb_true_iff in Hlen as [?|?]; bool_props; lia. }
  bool_props. destruct (ecdsa_ParseUncompressedPublicKey _ _) as [pub|].
  2: { split; [done|]. split; [done|]. by intros (?&?&?&?&?&?&?&?&?&?). }
  fold (ec_digest hash data). destruct (ec_digest hash data) as [d|].
  2: { split; [done|]. split; [done|]. by intros (?&?&?&?&?&?&?&?&?&?&?). }
  assert (Hs : go_slice sig 0 w = Some (slice sig 0 (w - 0)) /\
               go_slice sig w (zlen sig) = Some (slice sig w (zlen sig - w))).
  { split; apply go_slice_Some; lia. }
  destruct Hs as [-> ->]. cbn [mbind option_bind]. split; [done|].
  assert (Hcut : forall r s : list Z, sig = r ++ s -> zlen r = w ->
    slice sig 0 (w - 0) = r /\ slice sig w (zlen sig - w) = s).
  { intros r s -> <-. rewrite Z.sub_0_r, slice_app_l, slice_app_r, zlen_app. split; [done|].
    replace (zlen r + zlen s - zlen r) with (zlen s) by lia. unfold zlen. by rewrite Nat2Z.id, firstn_all. }
  split.
  - intros [= Hv]. exists (slice sig 0 (w - 0)), (slice sig w (zlen sig - w)), pub, d.
    rewrite !zlen_slice by lia. split_and!; try done; try lia.
    unfold slice. rewrite drop_0, Z.sub_0_r. rewrite <- (take_drop (Z.to_nat w) sig) at 1. f_equal.
    rewrite take_ge; [done|]. rewrite length_drop. unfold zlen in *. lia.
  - intros (r & s & pub' & d' & Hrs & Hsig & _ & Hr & [= <-] & [= <-] & Hv).
    destruct (Hcut r s Hsig Hr) as [-> ->]. by rewrite Hv.
Qed.

Lemma verifyRSA_spec key hash digest sig :
  Forall is_byte key ->
  let r := pub ← parseDNSKEYRSA key;
           match pub with
           | None => Some false
           | Some pub => Some (rsa_VerifyPKCS1v15 pub hash digest sig)
           end in
  is_Some r /\
  (r = Some true <-> exists eb nb pub, rsa_wire eb nb key /\ rsa_key_ok eb nb pub /\
                     rsa_VerifyPKCS1v15 pub hash digest sig = true).
Proof.
  intros Hb. cbv zeta. destruct (parseDNSKEYRSA_spec_core key Hb) as [[pk Hp] Hk].
  rewrite Hp. cbn. rewrite Hp in Hk. destruct pk as [pub|]; (split; [done|]); split.
  - intros [= Hv]. destruct (proj1 (Hk pub) eq_refl) as (eb & nb & Hw & Hok). by eauto 10.
  - intros (eb & nb & pub' & Hw & Hok & Hv).
    assert (Hpp : Some (Some pub) = Some (Some pub')) by (apply Hk; eauto). simplify_eq. by rewrite Hv.
  - done.
  - intros (eb & nb & pub' & Hw & Hok & Hv).
    assert (Hpp : Some None = Some (Some pub')) by (apply Hk; eauto). done.
Qed.

(** C11: what it takes for [cryptoVerify] to accept, algorithm by algorithm.
    It never panics on byte strings, it refuses every algorithm
    [cryptoSupported] does not list, and it accepts exactly when the key
    has the wire format of its algorithm (RFC 3110 for RSA; X || Y of 64 or
    96 bytes for ECDSA, with a signature r || s of the same length; 32
    bytes for Ed25519) and the library verifies the signature over the
    digest the algorithm names. *)
Theorem cryptoVerify_spec alg key data sig :
  Forall is_byte key ->
  is_Some (cryptoVerify alg key data sig) /\
  (cryptoVerify alg key data sig = Some true <->
   (exists eb nb pub, rsa_wire eb nb key /\ rsa_key_ok eb nb pub /\
      (alg = 8 /\ rsa_VerifyPKCS1v15 pub SHA256 (sha256_Sum256 data) sig = true \/
       alg = 10 /\ rsa_VerifyPKCS1v15 pub SHA512 (sha512_Sum512 data) sig = true)) \/
   (exists r s pub, zlen r = zlen s /\ sig = r ++ s /\
      (alg = 13 /\ zlen key = 64 /\ zlen r = 32 /\ ecdsa_ParseUncompressedPublicKey P256 (4 :: key) = Some pub /\
         ecdsa_Verify pub (sha256_Sum256 data) (be_decode r) (be_decode s) = true \/
       alg = 14 /\ zlen key = 96 /\ zlen r = 48 /\ ecdsa_ParseUncompressedPublicKey P384 (4 :: key) = Some pub /\
         ecdsa_Verify pub (sha512_Sum384 data) (be_decode r) (be_decode s) = true)) \/
   (alg = 15 /\ zlen key = 32 /\ ed25519_Verify key data sig = Some true)).
Proof.
  intros Hb. unfold cryptoVerify, algRSASHA256, algRSASHA512, algECDSAP256SHA256, algECDSAP384SHA384, algED25519.
  destruct (verifyRSA_spec key SHA256 (sha256_Sum256 data) sig Hb) as [Hr256 Hr256i].
  destruct (verifyRSA_spec key SHA512 (sha512_Sum512 data) sig Hb) as [Hr512 Hr512i].
  destruct (verifyECDSA_spec P256 SHA256 key data sig 32 ltac:(lia)) as [H256 H256i].
  destruct (verifyECDSA_spec P384 SHA384 key data sig 48 ltac:(lia)) as [H384 H384i].
  pose proof (ed25519_panics key data sig) as Hed.
  destruct (Z.eqb_spec alg 8) as [->|N8]; [|destruct (Z.eqb_spec alg 10) as [->|N10]];
    [| |destruct (Z.eqb_spec alg 13) as [->|N13]; [|destruct (Z.eqb_spec alg 14) as [->|N14];
        [|destruct (Z.eqb_spec alg 15) as [->|N15]]]]; cbn [orb Z.eqb Pos.eqb].
  - split; [done|]. rewrite Hr256i. clear. split.
    + intros (eb & nb & pub & ? & ? & ?). left. by eauto 10.
    + intros [(eb & nb & pub & ? & ? & [[_ ?]|[? _]])|[(?&?&?&?&?&[[? _]|[? _]])|[? _]]]; by eauto 10.
  - split; [done|]. rewrite Hr512i. clear. split.
    + intros (eb & nb & pub & ? & ? & ?). left. by eauto 10.
    + intros [(eb & nb & pub & ? & ? & [[? _]|[_ ?]])|[(?&?&?&?&?&[[? _]|[? _]])|[? _]]]; by eauto 10.
  - split; [done|]. rewrite H256i. clear. split.
    + intros (r & s & pub & d & ? & ? & ? & ? & ? & [= <-] & ?). right; left. exists r, s, pub. auto 10.
    + intros [(?&?&?&?&?&[[? _]|[? _]])|[(r&s&pub&?&?&[(_&?&?&?&?)|[? _]])|[? _]]]; try done.
      exists r, s, pub, (sha256_Sum256 data). auto 10.
  - split; [done|]. rewrite H384i. clear. split.
    + intros (r & s & pub & d & ? & ? & ? & ? & ? & [= <-] & ?). right; left. exists r, s, pub. auto 10.
    + intros [(?&?&?&?&?&[[? _]|[? _]])|[(r&s&pub&?&?&[[? _]|(_&?&?&?&?)])|[? _]]]; try done.
      exists r, s, pub, (sha512_Sum384 data). auto 10.
  - clear - Hed. unfold ed25519_PublicKeySize in *.
    destruct (Z.eqb_spec (zlen key) 32); (split; [auto|]); split; try done; auto;
    intros [(?&?&?&?&?&[[? _]|[? _]])|[(?&?&?&?&?&[[? _]|[? _]])|(?&?&?)]]; done.
  - split; [done|]. split; [done|]. clear - N8 N10 N13 N14 N15.
    intros [(?&?&?&?&?&[[? _]|[? _]])|[(?&?&?&?&?&[[? _]|[? _]])|[? _]]]; done.
Qed.

Lemma cryptoVerify_total alg key data sig :
  Forall is_byte key -> is_Some (cryptoVerify alg key data sig).
Proof.
  intros Hb. unfold cryptoVerify.
  destruct (_ || _); [destruct (alg =? algRSASHA256); by apply verifyRSA_spec|].
  destruct (alg =? algECDSAP256SHA256); [by apply verifyECDSA_spec|].
  destruct (alg =? algECDSAP384SHA384); [by apply verifyECDSA_spec|].
  destruct (alg =? algED25519); [|done].
  destruct (Z.eqb_spec (zlen key) ed25519_PublicKeySize); [by apply ed25519_panics|done].
Qed.

End Sound.

(** ** A concrete instance *)

(** RSASSA-PKCS1-v1_5 verification (RFC 8017, section 8.2.2) for SHA-256,
    with no elliptic-curve support. *)
Module Demo.

Fixpoint modexp (b : Z) (e : positive) (n : Z) : Z :=
  match e with
  | xH => b mod n
  | xO e => let r := modexp b e n in (r * r) mod n
  | xI e => let r := modexp b e n in (r * r * b) mod n
  end.

Definition emsa (hash : Hash) (digest : list Z) (k : nat) : list Z :=
  let t := be_encode 19 (if decide (hash = SHA256) then 0x3031300d060960864801650304020105000420
                         else 0x3051300d060960864801650304020305000440) ++ digest in
  [0; 1] ++ replicate (k - 3 - length t) 255 ++ [0] ++ t.

Definition rsa_ok (pub : PublicKey) (hash : Hash) (digest sig : list Z) : bool :=
  let k := Z.to_nat ((Z.log2 (pk_N pub) + 8) / 8) in
  bool_decide (length sig = k) && (be_decode sig <? pk_N pub) &&
  bool_decide (be_encode k (modexp (be_decode sig) (Z.to_pos (pk_E pub)) (pk_N pub)) = emsa hash digest k).

#[export] Instance demo_signatures : Signatures := {|
  ECKey := Empty_set;
  rsa_VerifyPKCS1v15 := rsa_ok;
  ecdsa_ParseUncompressedPublicKey _ _ := None;
  ecdsa_Verify _ _ _ _ := false;
  ed25519_Verify key _ _ := if zlen key =? ed25519_PublicKeySize then Some false else None
|}.

#[export] Instance demo_laws : SignaturesLaws.
Proof. constructor. intros key data sig H. cbn. by rewrite H. Qed.

(** A 512-bit key with exponent 3, and a signature over "abc". *)
Definition modulus : list Z := be_encode 64
  0xc6118e2c3ec1188e184f92afbd73996f949b77ff3240bf6318444aa1a6ae39d1eced7d93cdd898873f20dfac844d4c66281236e5f5ea0c4e94015b311515497d.

Definition signature : list Z := be_encode 64
  0x7d6e242a2a86b557878a9fab5caa86863eeadc65f472a58caad47edfe501d05ffd39a741171b1fb4f660050bb74cfe99fb137b8c98b0c1ec4ab7cbcb749070f0.

End Demo.

Import Demo.

Lemma cryptoVerify_spec_witness :
  cryptoVerify 8 (1 :: 3 :: modulus) (s2b "abc") signature = Some true.
Proof.
  apply (proj2 (cryptoVerify_spec 8 (1 :: 3 :: modulus) (s2b "abc") signature
    ltac:(do 2 (constructor; [vm_compute; split; discriminate || reflexivity|]); apply be_encode_bytes))).
  left. exists [3], modulus, (mkRSA (be_decode modulus) 3).
  split; [apply (wire_short [3] modulus); vm_compute; by split|].
  split; [vm_compute; by repeat split|]. left. split; [reflexivity|]. vm_compute. reflexivity.
Defined.
