(* ===== verification/Host.v ===== *)
(** * host.go: the state of an instance, its event queue and its timers

    [instanceState] with the parts of the Go runtime and of the operating
    system it drives: the [hostSocket] objects (which goroutines keep after
    the socket table forgets them), the operating-system sockets, the
    armed timers, and the network traffic caused. The wasm module handle
    and its lock ([mod], [guestMu], [modDead]) are modelled apart, in
    Lifecycle.v. Operations are goroutines ([proc]) whose steps are the
    critical sections of the source. What the environment decides is an
    argument: the branch a [select] takes when two are ready, and the
    results of network calls. *)

From S2P Require Import Prelude Errors Errno Netip Egress Proc.

#[local] Open Scope Z_scope.

(** ** Data *)

Inductive eventKind := eventIO | eventTimer.

Record hostEvent := mkEvent { kind : eventKind; sid : Z; flags : Z; tid : Z }.

#[export] Instance eventKind_eq_dec : EqDecision eventKind.
Proof. solve_decision. Defined.

#[export] Instance hostEvent_eq_dec : EqDecision hostEvent.
Proof. solve_decision. Defined.

Definition socketUDP : Z := 1.
Definition socketTCP : Z := 2.
Definition ioRead : Z := 1.
Definition ioWrite : Z := 2.
Definition ioErr : Z := 4.

Inductive Level := LevelDebug | LevelInfo | LevelWarn | LevelError.

Inductive logLine :=
| LogMsg (l : Level) (msg : list Z)
| LogEgressDenied (remote : AddrPort).

Record receivedPacket := mkPacket { data : list Z; from : AddrPort }.

(** Operating-system sockets: a [*net.UDPConn] bound to a local port, and a
    connected TCP [net.Conn]. *)
Record udpConn := mkUDP { u_port : Z; u_open : bool }.

Record tcpConn := mkTCP { t_port : Z; t_peer : AddrPort; t_open : bool }.

(** Traffic: a datagram, a TCP connection attempt, bytes on a TCP
    connection to its peer. *)
Inductive wireEvent :=
| WireUDP (to : AddrPort) (bs : list Z)
| WireDial (to : AddrPort)
| WireTCP (to : AddrPort) (bs : list Z).

Record hostSocket := mkSocket {
  sk_id : Z;
  af : Z;
  typ : Z;
  bindPort : Z;
  udp : option nat;
  tcp : option nat;
  remote : AddrPort;
  queue : list receivedPacket;
  serr : option go_error;
  closed : bool
}.

Record instanceState := mkInst {
  log : list logLine; (* what the logger received *)
  events : list hostEvent; (* the buffered channel *)
  done : bool; (* whether the done channel is closed, and the sync.Once spent *)
  err : option go_error; (* shutdown cause *)
  sockets : option (gmap Z nat); (* nil (None) after shutdown; values are locations in heap *)
  nextSocket : Z; (* int32 *)
  timers : option (gset Z); (* nil (None) after shutdown; the keys of the timer map *)
  nextTimer : Z; (* atomic.Uint64 *)
  heap : list hostSocket; (* every hostSocket allocated, live or not *)
  uconns : list udpConn; (* every UDP socket opened *)
  tconns : list tcpConn; (* every TCP connection made *)
  armed : gset Z; (* timers the Go runtime has yet to fire *)
  wire : list wireEvent (* what was sent to the network, in order *)
}.

Definition s_sk_id (v : Z) (x : hostSocket) : hostSocket :=
  mkSocket v (af x) (typ x) (bindPort x) (udp x) (tcp x) (remote x) (queue x) (serr x) (closed x).

Definition s_af (v : Z) (x : hostSocket) : hostSocket :=
  mkSocket (sk_id x) v (typ x) (bindPort x) (udp x) (tcp x) (remote x) (queue x) (serr x) (closed x).

Definition s_typ (v : Z) (x : hostSocket) : hostSocket :=
  mkSocket (sk_id x) (af x) v (bindPort x) (udp x) (tcp x) (remote x) (queue x) (serr x) (closed x).

Definition s_bindPort (v : Z) (x : hostSocket) : hostSocket :=
  mkSocket (sk_id x) (af x) (typ x) v (udp x) (tcp x) (remote x) (queue x) (serr x) (closed x).

Definition s_udp (v : option nat) (x : hostSocket) : hostSocket :=
  mkSocket (sk_id x) (af x) (typ x) (bindPort x) v (tcp x) (remote x) (queue x) (serr x) (closed x).

Definition s_tcp (v : option nat) (x : hostSocket) : hostSocket :=
  mkSocket (sk_id x) (af x) (typ x) (bindPort x) (udp x) v (remote x) (queue x) (serr x) (closed x).

Definition s_remote (v : AddrPort) (x : hostSocket) : hostSocket :=
  mkSocket (sk_id x) (af x) (typ x) (bindPort x) (udp x) (tcp x) v (queue x) (serr x) (closed x).

Definition s_queue (v : list receivedPacket) (x : hostSocket) : hostSocket :=
  mkSocket (sk_id x) (af x) (typ x) (bindPort x) (udp x) (tcp x) (remote x) v (serr x) (closed x).

Definition s_serr (v : option go_error) (x : hostSocket) : hostSocket :=
  mkSocket (sk_id x) (af x) (typ x) (bindPort x) (udp x) (tcp x) (remote x) (queue x) v (closed x).

Definition s_closed (v : bool) (x : hostSocket) : hostSocket :=
  mkSocket (sk_id x) (af x) (typ x) (bindPort x) (udp x) (tcp x) (remote x) (queue x) (serr x) v.

Definition set_log (v : list logLine) (x : instanceState) : instanceState :=
  mkInst v (events x) (done x) (err x) (sockets x) (nextSocket x) (timers x) (nextTimer x) (heap x) (uconns x) (tconns x) (armed x) (wire x).

Definition set_events (v : list hostEvent) (x : instanceState) : instanceState :=
  mkInst (log x) v (done x) (err x) (sockets x) (nextSocket x) (timers x) (nextTimer x) (heap x) (uconns x) (tconns x) (armed x) (wire x).

Definition set_done (v : bool) (x : instanceState) : instanceState :=
  mkInst (log x) (events x) v (err x) (sockets x) (nextSocket x) (timers x) (nextTimer x) (heap x) (uconns x) (tconns x) (armed x) (wire x).

Definition set_err (v : option go_error) (x : instanceState) : instanceState :=
  mkInst (log x) (events x) (done x) v (sockets x) (nextSocket x) (timers x) (nextTimer x) (heap x) (uconns x) (tconns x) (armed x) (wire x).

Definition set_sockets (v : option (gmap Z nat)) (x : instanceState) : instanceState :=
  mkInst (log x) (events x) (done x) (err x) v (nextSocket x) (timers x) (nextTimer x) (heap x) (uconns x) (tconns x) (armed x) (wire x).

Definition set_nextSocket (v : Z) (x : instanceState) : instanceState :=
  mkInst (log x) (events x) (done x) (err x) (sockets x) v (timers x) (nextTimer x) (heap x) (uconns x) (tconns x) (armed x) (wire x).

Definition set_timers (v : option (gset Z)) (x : instanceState) : instanceState :=
  mkInst (log x) (events x) (done x) (err x) (sockets x) (nextSocket x) v (nextTimer x) (heap x) (uconns x) (tconns x) (armed x) (wire x).

Definition set_nextTimer (v : Z) (x : instanceState) : instanceState :=
  mkInst (log x) (events x) (done x) (err x) (sockets x) (nextSocket x) (timers x) v (heap x) (uconns x) (tconns x) (armed x) (wire x).

Definition set_heap (v : list hostSocket) (x : instanceState) : instanceState :=
  mkInst (log x) (events x) (done x) (err x) (sockets x) (nextSocket x) (timers x) (nextTimer x) v (uconns x) (tconns x) (armed x) (wire x).

Definition set_uconns (v : list udpConn) (x : instanceState) : instanceState :=
  mkInst (log x) (events x) (done x) (err x) (sockets x) (nextSocket x) (timers x) (nextTimer x) (heap x) v (tconns x) (armed x) (wire x).

Definition set_tconns (v : list tcpConn) (x : instanceState) : instanceState :=
  mkInst (log x) (events x) (done x) (err x) (sockets x) (nextSocket x) (timers x) (nextTimer x) (heap x) (uconns x) v (armed x) (wire x).

Definition set_armed (v : gset Z) (x : instanceState) : instanceState :=
  mkInst (log x) (events x) (done x) (err x) (sockets x) (nextSocket x) (timers x) (nextTimer x) (heap x) (uconns x) (tconns x) v (wire x).

Definition set_wire (v : list wireEvent) (x : instanceState) : instanceState :=
  mkInst (log x) (events x) (done x) (err x) (sockets x) (nextSocket x) (timers x) (nextTimer x) (heap x) (uconns x) (tconns x) (armed x) v.

(** [newInstanceState]. *)
Definition newInstanceState : instanceState := mkInst [] [] false None (Some ∅) 1 (Some ∅) 0 [] [] [] ∅ [].

Definition eventsCap : Z := 1024.

(** [replayHooks], the interface scenario tests install in place of the
    network and the clock; production instances have none. *)
Record replayHooks := mkReplay {
  rp_nowWall : Z;      (* nanoseconds *)
  rp_nowMono : Z;      (* nanoseconds *)
  rp_timerStart : Z -> proc instanceState Z;
  rp_timerStop : Z -> proc instanceState unit;
  rp_connect : nat -> AddrPort -> proc instanceState Z;
  rp_sendTo : nat -> AddrPort -> list Z -> proc instanceState Z;
  rp_localPort : hostSocket -> Z
}.

(** ** Objects behind pointers *)

Definition upd_socket (l : nat) (f : hostSocket -> hostSocket) (s : instanceState) : instanceState :=
  set_heap (alter f l (heap s)) s.

Definition close_udp (c : option nat) : proc instanceState unit :=
  match c with
  | None => Done tt
  | Some c => modify (fun s => set_uconns (alter (fun k => mkUDP (u_port k) false) c (uconns s)) s)
  end.

Definition close_tcp (c : option nat) : proc instanceState unit :=
  match c with
  | None => Done tt
  | Some c => modify (fun s => set_tconns (alter (fun k => mkTCP (t_port k) (t_peer k) false) c (tconns s)) s)
  end.

(** [hostSocket.close]: mark the socket closed under its lock, then close
    what it had open. *)
Definition sock_close (l : nat) : proc instanceState unit :=
  let* r := atomic (fun s =>
    match heap s !! l with
    | None => (s, None)
    | Some sk => if closed sk then (s, None)
                 else (upd_socket l (s_closed true) s, Some (udp sk, tcp sk))
    end) in
  match r with
  | None => Done tt
  | Some (u, t) => do* close_udp u in close_tcp t
  end.

(** ** Shutdown *)

Definition errEventQueueOverflow : go_error := errorsNew "unbound: host event queue overflowed".

(** [shutdown]: the first caller records the cause and closes [done] (one
    step: [err] is only read after [done] is closed), stops and drops the
    timers, then drops and closes the sockets. The socket table is emptied
    before the sockets are closed rather than after, both under [socketsMu]
    in the source. A later caller returns at once, where [sync.Once] would
    make it wait for the first. *)
Definition shutdown (e : option go_error) : proc instanceState unit :=
  let* first := atomic (fun s =>
    if done s then (s, false) else (set_done true (set_err e s), true)) in
  if first : bool then
    do* modify (fun s => match timers s with
                         | Some ts => set_timers None (set_armed (armed s ∖ ts) s)
                         | None => s
                         end) in
    let* socks := atomic (fun s =>
      match sockets s with
      | Some m => (set_sockets None s, (map_to_list m).*2)
      | None => (s, [])
      end) in
    for_each sock_close socks
  else Done tt.

Definition close : proc instanceState unit := shutdown None.

Definition fail_ (e : go_error) : proc instanceState unit := shutdown (Some e).

(** ** Events *)

(** [enqueue]. The [select] takes a ready branch: [pick] chooses when both
    the buffer has room and [done] is closed; with neither, the default
    branch fails the instance. *)
Definition enqueue (pick : bool) (ev : hostEvent) : proc instanceState unit :=
  let* overflow := atomic (fun s =>
    if (zlen (events s) <? eventsCap) && (negb (done s) || pick)
    then (set_events (events s ++ [ev]) s, false)
    else (s, negb (done s))) in
  if overflow : bool then fail_ errEventQueueOverflow else Done tt.

(** ** Timers *)

Definition maxTimersPerInstance : Z := 8192.

(** [timerStart]. *)
Definition timerStart (rp : option replayHooks) (ms : Z) : proc instanceState Z :=
  let ms := if ms <? 0 then 0 else ms in
  match rp with
  | Some h => rp_timerStart h ms
  | None =>
      let* tid := atomic (fun s => let t := u64 (nextTimer s + 1) in (set_nextTimer t s, t)) in
      atomic (fun s =>
        match timers s with
        | None => (s, 0)
        | Some ts =>
            if maxTimersPerInstance <=? Z.of_nat (size ts) then (s, 0)
            else (set_timers (Some ({[tid]} ∪ ts)) (set_armed ({[tid]} ∪ armed s) s), tid)
        end)
  end.

(** The function a timer runs when it fires. *)
Definition timerCallback (pick : bool) (tid : Z) : proc instanceState unit :=
  do* modify (fun s => match timers s with
                       | Some ts => set_timers (Some (ts ∖ {[tid]})) s
                       | None => s
                       end) in
  enqueue pick (mkEvent eventTimer 0 0 tid).

(** [timerStop]. *)
Definition timerStop (rp : option replayHooks) (tid : Z) : proc instanceState unit :=
  match rp with
  | Some h => rp_timerStop h tid
  | None =>
      modify (fun s => match timers s with
                       | Some ts =>
                           if bool_decide (tid ∈ ts)
                           then set_armed (armed s ∖ {[tid]}) (set_timers (Some (ts ∖ {[tid]})) s)
                           else s
                       | None => s
                       end)
  end.
