(* ===== verification/Sockets.v ===== *)
(** * sockets.go: host sockets

    The operations behind the socket imports and the goroutines that feed
    them, one definition per function of sockets.go. The environment's
    part of a call is a [netEnv]: what the operating system answers, and
    what the goroutines the call starts will receive. A goroutine that
    waits for input it never gets simply ends in the model. *)

From S2P Require Import Prelude Errors Errno Netip Egress GuestMem Proc Host.

#[local] Open Scope Z_scope.

(** What a [ReadFromUDPAddrPort] or [Read] returned, and which branch the
    following [enqueue] takes. A TCP read may return data and an error. *)
Record udpRead := mkUdpRead { ur_pick : bool; ur_res : result go_error (list Z * AddrPort) }.

Record tcpRead := mkTcpRead { tr_pick : bool; tr_data : list Z; tr_err : option go_error }.

Record netEnv := mkNet {
  ne_listen : result go_error Z;   (* net.ListenUDP: the local port *)
  ne_reads : list udpRead;         (* what the UDP reader it starts receives *)
  ne_dial : result go_error Z;     (* Dialer.DialContext: the local port *)
  ne_treads : list tcpRead;        (* what the TCP reader it starts receives *)
  ne_send : result go_error Z;     (* WriteToUDPAddrPort, Write: bytes written *)
  ne_pick : bool                   (* the branch of the call's own enqueue *)
}.

(** ** Egress check *)

(** [checkEgress]. *)
Definition checkEgress (ip : Addr) (port : Z) : proc instanceState bool :=
  let remote := AddrPortFrom ip port in
  if negb (egressAllowed remote)
  then do* modify (fun s => set_log (log s ++ [LogEgressDenied remote]) s) in Done false
  else Done true.

(** ** Goroutines *)

(** [hostSocket.push]. *)
Definition push (pick : bool) (l : nat) (bs : list Z) (src : AddrPort) : proc instanceState unit :=
  let* sid := atomic (fun s =>
    match heap s !! l with
    | None => (s, 0)
    | Some sk =>
        (if closed sk then s
         else upd_socket l (fun sk => s_queue (queue sk ++ [mkPacket bs src]) sk) s, sk_id sk)
    end) in
  enqueue pick (mkEvent eventIO sid ioRead 0).

(** [hostSocket.readError]. *)
Definition readError (pick : bool) (l : nat) (e : go_error) : proc instanceState unit :=
  let* r := atomic (fun s =>
    match heap s !! l with
    | None => (s, None)
    | Some sk =>
        (if negb (closed sk) && negb (is_net_closed e) && negb (is_eof e)
         then upd_socket l (s_serr (Some e)) s else s,
         if closed sk then None else Some (sk_id sk))
    end) in
  match r with
  | Some sid => enqueue pick (mkEvent eventIO sid ioErr 0)
  | None => Done tt
  end.

(** [hostSocket.readUDP]. The buffer of 65535 bytes bounds each datagram. *)
Fixpoint readUDP (l : nat) (script : list udpRead) : proc instanceState unit :=
  match script with
  | [] => Done tt
  | r :: script =>
      match ur_res r with
      | Err e => readError (ur_pick r) l e
      | Ok (bs, src) => do* push (ur_pick r) l (slice bs 0 65535) src in readUDP l script
      end
  end.

(** [hostSocket.readTCP], with its buffer of 32 KiB. *)
Fixpoint readTCP (l : nat) (script : list tcpRead) : proc instanceState unit :=
  match script with
  | [] => Done tt
  | r :: script =>
      let bs := slice (tr_data r) 0 32768 in
      do* (if bool_decide (bs = []) then Done tt
           else let* src := reads (fun s => match heap s !! l with
                                            | Some sk => remote sk
                                            | None => AddrPort_zero
                                            end) in
                push (tr_pick r) l bs src) in
      match tr_err r with
      | Some e => readError (tr_pick r) l e
      | None => readTCP l script
      end
  end.

(** [listenUDPLocked], within the critical section of its caller: the new
    state, the error, and the reader goroutine to start. *)
Definition listenUDPLocked (net : netEnv) (l : nat) (s : instanceState)
    : instanceState * option go_error * option (proc instanceState unit) :=
  match heap s !! l with
  | None => (s, None, None)
  | Some sk =>
      if bool_decide (is_Some (udp sk)) then (s, None, None)
      else
        match ne_listen net with
        | Err e => (s, Some e, None)
        | Ok port =>
            let c := length (uconns s) in
            let s := set_uconns (uconns s ++ [mkUDP port true]) s in
            (upd_socket l (fun sk => s_bindPort (u16 port) (s_udp (Some c) sk)) s,
             None, Some (readUDP l (ne_reads net)))
        end
  end.

Definition start (c : option (proc instanceState unit)) : proc instanceState unit :=
  match c with Some c => spawn c | None => Done tt end.

(** [hostSocket.connectTCP]: the connection attempt reaches the network,
    and its outcome is recorded under the socket's lock; a connection that
    completes after the socket was closed is closed at once. *)
Definition connectTCP (net : netEnv) (l : nat) (ip : Addr) (port : Z) : proc instanceState unit :=
  let to := AddrPortFrom ip port in
  do* modify (fun s => set_wire (wire s ++ [WireDial to]) s) in
  let* d := match ne_dial net with
            | Err e => Done (Err e)
            | Ok lport => atomic (fun s =>
                (set_tconns (tconns s ++ [mkTCP lport to true]) s, Ok (length (tconns s))))
            end in
  let* r := atomic (fun s =>
    match heap s !! l with
    | None => (s, None)
    | Some sk =>
        if closed sk then (s, None)
        else (upd_socket l (fun sk => match d with
                                      | Ok c => s_tcp (Some c) (s_serr None sk)
                                      | Err e => s_serr (Some e) sk
                                      end) s,
              Some (sk_id sk))
    end) in
  match r, d with
  | None, Ok c => close_tcp (Some c)
  | None, Err _ => Done tt
  | Some sid, Err _ => enqueue (ne_pick net) (mkEvent eventIO sid (Z.lor ioWrite ioErr) 0)
  | Some sid, Ok _ =>
      do* enqueue (ne_pick net) (mkEvent eventIO sid ioWrite 0) in
      spawn (readTCP l (ne_treads net))
  end.

(** ** The operations behind the imports *)

Definition maxSocketsPerInstance : Z := 256.

(** [sockOpen]. *)
Definition sockOpen (af typ : Z) : proc instanceState Z :=
  if (negb (af =? 4) && negb (af =? 6)) || (negb (typ =? socketUDP) && negb (typ =? socketTCP))
  then Done (- wasiEAFNOSUPPORT)
  else atomic (fun s =>
    match sockets s with
    | None => (s, - wasiEBADF)
    | Some m =>
        if maxSocketsPerInstance <=? Z.of_nat (size m) then (s, - wasiEMFILE)
        else
          let id := nextSocket s in
          let l := length (heap s) in
          let sk := mkSocket id af typ 0 None None AddrPort_zero [] None false in
          (set_nextSocket (i32 (id + 1))
             (set_sockets (Some (<[id := l]> m)) (set_heap (heap s ++ [sk]) s)), id)
    end).

(** [instanceState.socket]: reading a nil map finds nothing. *)
Definition socket (id : Z) : proc instanceState (option nat) :=
  reads (fun s => match sockets s with Some m => m !! id | None => None end).

(** [sockBind]. *)
Definition sockBind (rp : option replayHooks) (net : netEnv) (id port : Z) : proc instanceState Z :=
  if (port <? 0) || (65535 <? port) then Done (- wasiEINVAL)
  else
    let* sock := socket id in
    match sock with
    | None => Done (- wasiEBADF)
    | Some l =>
        let* r := atomic (fun s =>
          match heap s !! l with
          | None => (s, (- wasiEBADF, None))
          | Some sk =>
              if closed sk then (s, (- wasiEBADF, None))
              else if bool_decide (is_Some (udp sk)) || bool_decide (is_Some (tcp sk))
              then (s, (- wasiEINVAL, None))
              else
                let s := upd_socket l (s_bindPort (u16 port)) s in
                if bool_decide (is_Some rp) then (s, (0, None))
                else if typ sk =? socketUDP then
                  let '(s, e, c) := listenUDPLocked net l s in
                  (s, (- wasiErrno e, c))
                else (s, (0, None))
          end) in
        do* start (snd r) in Done (fst r)
    end.

(** [sockConnect]. *)
Definition sockConnect (rp : option replayHooks) (net : netEnv) (id : Z) (ip : Addr) (port : Z)
    : proc instanceState Z :=
  if (port <=? 0) || (65535 <? port) then Done (- wasiEINVAL)
  else
    match rp with
    | Some h =>
        let* sock := socket id in
        match sock with
        | Some l => rp_connect h l (AddrPortFrom ip (u16 port))
        | None => Done (- wasiEBADF)
        end
    | None =>
        let* allowed := checkEgress ip (u16 port) in
        if negb allowed then Done (- wasiEACCES)
        else
          let* sock := socket id in
          match sock with
          | None => Done (- wasiEBADF)
          | Some l =>
              (* under the socket's lock: the return code, or what follows *)
              let* r := atomic (fun s =>
                match heap s !! l with
                | None => (s, (Some (- wasiEBADF), false, None))
                | Some sk =>
                    if closed sk then (s, (Some (- wasiEBADF), false, None))
                    else
                      let s := upd_socket l (s_remote (AddrPortFrom ip (u16 port))) s in
                      if typ sk =? socketUDP then
                        if bool_decide (udp sk = None) then
                          let '(s, e, c) := listenUDPLocked net l s in
                          match e with
                          | Some e => (s, (Some (- wasiErrno (Some e)), false, None))
                          | None => (s, (None, false, c))
                          end
                        else (s, (None, false, None))
                      else if bool_decide (is_Some (tcp sk)) then (s, (Some 0, false, None))
                      else (s, (None, true, None))
                end) in
              match r with
              | (Some rc, _, _) => Done rc
              | (None, false, c) =>
                  do* start c in
                  do* enqueue (ne_pick net) (mkEvent eventIO id ioWrite 0) in Done 0
              | (None, true, _) =>
                  do* spawn (connectTCP net l ip (u16 port)) in Done 0
              end
          end
    end.

(** [WriteToUDPAddrPort] and [Write]: what is sent, unless the socket is
    closed or the operating system refuses. A write that fails counts as
    sending nothing (on TCP a prefix may have gone to the same peer). *)
Definition udp_write (net : netEnv) (c : nat) (to : AddrPort) (bs : list Z)
    : proc instanceState (result go_error Z) :=
  atomic (fun s =>
    if bool_decide ((u_open <$> uconns s !! c) = Some true) then
      match ne_send net with
      | Ok n => (set_wire (wire s ++ [WireUDP to bs]) s, Ok n)
      | Err e => (s, Err e)
      end
    else (s, Err (OpError NetErrClosed))).

Definition tcp_write (net : netEnv) (c : nat) (bs : list Z)
    : proc instanceState (result go_error Z) :=
  atomic (fun s =>
    match tconns s !! c with
    | Some k =>
        if t_open k then
          match ne_send net with
          | Ok n => (set_wire (wire s ++ [WireTCP (t_peer k) bs]) s, Ok n)
          | Err e => (s, Err e)
          end
        else (s, Err (OpError NetErrClosed))
    | None => (s, Err (OpError NetErrClosed))
    end).

Definition write_rc (r : result go_error Z) : Z :=
  match r with Ok n => i32 n | Err e => - wasiErrno (Some e) end.

(** [sockSendTo]. *)
Definition sockSendTo (rp : option replayHooks) (net : netEnv) (id : Z) (ip : Addr) (port : Z)
    (bs : list Z) : proc instanceState Z :=
  if (port <=? 0) || (65535 <? port) then Done (- wasiEINVAL)
  else
    let to := AddrPortFrom ip (u16 port) in
    match rp with
    | Some h =>
        let* sock := socket id in
        match sock with
        | Some l => rp_sendTo h l to bs
        | None => Done (- wasiEBADF)
        end
    | None =>
        let* allowed := checkEgress ip (u16 port) in
        if negb allowed then Done (- wasiEACCES)
        else
          let* sock := socket id in
          match sock with
          | None => Done (- wasiEBADF)
          | Some l =>
              (* first critical section: snapshot the socket *)
              let* r := reads (fun s =>
                match heap s !! l with
                | None => None
                | Some sk => if closed sk then None else Some (typ sk, udp sk, tcp sk)
                end) in
              match r with
              | None => Done (- wasiEBADF)
              | Some (ty, u, t) =>
                  if ty =? socketUDP then
                    match u with
                    | Some c => let* r := udp_write net c to bs in Done (write_rc r)
                    | None =>
                        (* second critical section: bind on first use *)
                        let* r := atomic (fun s =>
                          let '(s, e, c) := listenUDPLocked net l s in
                          (s, (e, match heap s !! l with Some sk => udp sk | None => None end, c))) in
                        let '(e, u, c) := r in
                        do* start c in
                        match e, u with
                        | Some e, _ => Done (- wasiErrno (Some e))
                        | None, None => Done (- wasiEBADF)
                        | None, Some c =>
                            let* r := udp_write net c to bs in Done (write_rc r)
                        end
                    end
                  else
                    match t with
                    | None => Done (- wasiEAGAIN)
                    | Some c => let* r := tcp_write net c bs in Done (write_rc r)
                    end
              end
          end
    end.

(** [sockSend]: to the address the socket was connected to. *)
Definition sockSend (rp : option replayHooks) (net : netEnv) (id : Z) (bs : list Z) : proc instanceState Z :=
  let* sock := socket id in
  match sock with
  | None => Done (- wasiEBADF)
  | Some l =>
      let* to := reads (fun s => match heap s !! l with
                                 | Some sk => remote sk
                                 | None => AddrPort_zero
                                 end) in
      if negb (AddrPort_IsValid to) then Done (- wasiENOTCONN)
      else sockSendTo rp net id (AP_Addr to) (i32 (AP_Port to)) bs
  end.

(** The critical section of [sockRecv]: what is taken from the queue, or
    the return code. *)
Inductive recvOutcome :=
| RecvCode (rc : Z)
| RecvChunk (chunk : list Z) (src : AddrPort) (more : bool).

Definition sockRecvLocked (l : nat) (capacity : Z) (s : instanceState) : instanceState * recvOutcome :=
  match heap s !! l with
  | None => (s, RecvCode (- wasiEBADF))
  | Some sk =>
      match queue sk with
      | [] =>
          (upd_socket l (s_serr None) s,
           RecvCode (match serr sk with
                     | Some e => - wasiErrno (Some e)
                     | None => - wasiEAGAIN
                     end))
      | pkt :: q =>
          let n := zlen (data pkt) in
          let n := if capacity <? u32 n then capacity else n in
          let chunk := take (Z.to_nat n) (data pkt) in
          let q' := if (n =? zlen (data pkt)) || (typ sk =? socketUDP) then q
                    else mkPacket (drop (Z.to_nat n) (data pkt)) (from pkt) :: q in
          (upd_socket l (s_queue q') s,
           RecvChunk chunk (from pkt) (bool_decide (q' <> [])))
      end
  end.

Section Recv.
Context {M : Type} `{GM : GuestMemory M}.

(** [sockRecv]: the return code and the guest memory, which keeps what was
    written before a fault. *)
Definition sockRecv (pick : bool) (m : M) (id ptr capacity : Z) (withFrom : bool) (ipOut portOut : Z)
    : proc instanceState (Z * M) :=
  let* sock := socket id in
  match sock with
  | None => Done (- wasiEBADF, m)
  | Some l =>
      let* r := atomic (sockRecvLocked l capacity) in
      match r with
      | RecvCode rc => Done (rc, m)
      | RecvChunk chunk src more =>
          match mem_write m ptr chunk with
          | None => Done (- wasiEFAULT, m)
          | Some m =>
              let w := if withFrom
                       then match writeAddr m ipOut (AP_Addr src) with
                            | None => (false, m)
                            | Some m => match putU32 m portOut (AP_Port src) with
                                        | None => (false, m)
                                        | Some m => (true, m)
                                        end
                            end
                       else (true, m) in
              if negb (fst w) then Done (- wasiEFAULT, snd w)
              else
                do* (if more then enqueue pick (mkEvent eventIO id ioRead 0) else Done tt) in
                Done (i32 (zlen chunk), snd w)
          end
      end
  end.

End Recv.

(** [sockError]. *)
Definition sockError (id : Z) : proc instanceState Z :=
  let* sock := socket id in
  match sock with
  | None => Done wasiEBADF
  | Some l =>
      atomic (fun s =>
        match heap s !! l with
        | None => (s, wasiEBADF)
        | Some sk =>
            match serr sk with
            | None => (s, 0)
            | Some e => (upd_socket l (s_serr None) s, wasiErrno (Some e))
            end
        end)
  end.

(** [sockLocalPort]. *)
Definition sockLocalPort (rp : option replayHooks) (id : Z) : proc instanceState Z :=
  let* sock := socket id in
  match sock with
  | None => Done (- wasiEBADF)
  | Some l =>
      reads (fun s =>
        match heap s !! l with
        | None => - wasiEBADF
        | Some sk =>
            match rp with
            | Some h => rp_localPort h sk
            | None =>
                match udp sk ≫= fun c => uconns s !! c with
                | Some k => i32 (u_port k)
                | None =>
                    match tcp sk ≫= fun c => tconns s !! c with
                    | Some k => i32 (t_port k)
                    | None => i32 (bindPort sk)
                    end
                end
            end
        end)
  end.

(** [instanceState.sockClose]. *)
Definition sockClose (id : Z) : proc instanceState unit :=
  let* sock := atomic (fun s =>
    match sockets s with
    | None => (s, None)
    | Some m => (set_sockets (Some (delete id m)) s, m !! id)
    end) in
  match sock with
  | Some l => sock_close l
  | None => Done tt
  end.
