(* ===== verification/Imports.v ===== *)
(** * The functions a guest can import

    The host module [unbound_wasm] (host.go) and the restricted WASI module
    (wasi.go): one constructor of [importCall] per exported function, with
    the integers the guest passes, and [import_call], which runs it. These
    calls are everything a guest can do outside its own memory. A host
    function that panics traps the guest. *)

From S2P Require Import Prelude Errors Errno Netip Egress GuestMem Proc Host Sockets Sha Crypto.

#[local] Open Scope Z_scope.

(** Functions wasi-libc links but no guest may use. *)
Inductive wasiStub :=
| fd_close | fd_fdstat_get | fd_fdstat_set_flags | fd_prestat_get | fd_prestat_dir_name
| fd_read | fd_seek | fd_sync | path_open | path_rename | path_unlink_file.

Inductive importCall :=
(* unbound_wasm *)
| sock_open (af typ : Z)
| sock_bind (sid port : Z)
| sock_connect (sid ipPtr ipLen port : Z)
| sock_send (sid ptr n : Z)
| sock_send_to (sid ipPtr ipLen port ptr n : Z)
| sock_recv (sid ptr cap : Z)
| sock_recv_from (sid ptr cap ipOut portOut : Z)
| sock_error (sid : Z)
| sock_local_port (sid : Z)
| sock_close_ (sid : Z)
| timer_start (ms : Z)
| timer_stop (tid : Z)
| now_wall_ms
| now_mono_ms
| entropy (ptr n : Z)
| crypto_supported (alg : Z)
| crypto_verify (alg kp kn dp dn sp sn : Z)
| crypto_digest (alg ptr n out : Z)
| nsec3_hash (sp sn iters np nn out : Z)
| log_msg (level ptr n : Z)
| abort_msg (code ptr n : Z)
(* wasi_snapshot_preview1 *)
| clock_time_get (clockID precision out : Z)
| random_get (ptr n : Z)
| fd_write (fd iovs count written : Z)
| proc_exit (code : Z)
| environ_sizes_get (count size : Z)
| environ_get (environ buf : Z)
| wasi_stub (f : wasiStub)
| poll_oneoff.

(** How a call ends: with a result (none for a void function), by trapping
    the guest, or by closing its module with an exit code. *)
Inductive outcome :=
| Returns (v : option Z)
| Traps (msg : list Z)
| Exits (code : Z).

(** What the surroundings contribute to a call: the network, the bytes
    [rand.Read] yields, and the clocks in nanoseconds. *)
Record hostEnv := mkHostEnv {
  he_net : netEnv;
  he_rand : Z -> list Z;
  he_wall : Z;
  he_mono : Z
}.

(** [b2i]. *)
Definition b2i (b : bool) : Z := if b then 1 else 0.

(** [mapLogLevel]. *)
Definition mapLogLevel (v : Z) : Level :=
  if v <=? 0 then LevelDebug
  else if v =? 1 then LevelInfo
  else if v =? 2 then LevelWarn
  else LevelError.

(** [log.Log]. *)
Definition logLog (l : Level) (msg : list Z) : proc instanceState unit :=
  modify (fun s => set_log (log s ++ [LogMsg l msg]) s).

Section Imports.
Context {M : Type} `{GM : GuestMemory M} {SG : Signatures}.

(** ** Sockets *)

Definition hostSockConnect (rp : option replayHooks) (net : netEnv) (m : M) (sid ipPtr ipLen port : Z)
    : proc instanceState Z :=
  match readAddr m ipPtr ipLen with
  | None => Done (- wasiEFAULT)
  | Some ip => sockConnect rp net sid ip port
  end.

Definition hostSockSend (rp : option replayHooks) (net : netEnv) (m : M) (sid ptr n : Z)
    : proc instanceState Z :=
  match readCopy m ptr n with
  | None => Done (- wasiEFAULT)
  | Some buf => sockSend rp net sid buf
  end.

Definition hostSockSendTo (rp : option replayHooks) (net : netEnv) (m : M)
    (sid ipPtr ipLen port ptr n : Z) : proc instanceState Z :=
  match readAddr m ipPtr ipLen with
  | None => Done (- wasiEFAULT)
  | Some ip =>
      match readCopy m ptr n with
      | None => Done (- wasiEFAULT)
      | Some buf => sockSendTo rp net sid ip port buf
      end
  end.

(** ** Clocks *)

(** [Time.UnixMilli] of a time in nanoseconds since 1970, and
    [Duration.Milliseconds]. *)
Definition UnixMilli (ns : Z) : Z := i64 (ns / 1000000).

Definition Milliseconds (ns : Z) : Z := Z.quot ns 1000000.

Definition wallNow (rp : option replayHooks) (e : hostEnv) : Z :=
  match rp with Some h => rp_nowWall h | None => he_wall e end.

Definition monoNow (rp : option replayHooks) (e : hostEnv) : Z :=
  match rp with Some h => rp_nowMono h | None => he_mono e end.

(** [wasiClockTimeGet]. *)
Definition wasiClockTimeGet (rp : option replayHooks) (e : hostEnv) (m : M) (clockID out : Z) : Z * M :=
  let ns := if clockID =? 0 then Some (u64 (wallNow rp e))
            else if clockID =? 1 then Some (u64 (monoNow rp e))
            else None in
  match ns with
  | None => (wasiEINVAL, m)
  | Some ns =>
      match mem_write64 m out ns with
      | None => (wasiEFAULT, m)
      | Some m => (wasiSuccess, m)
      end
  end.

(** ** Entropy *)

(** [hostEntropy]. *)
Definition hostEntropy (e : hostEnv) (m : M) (ptr n : Z) : outcome * M :=
  let out_of_range := Traps (s2b "unbound entropy: guest memory out of range") in
  if mem_size m <? u64 (ptr + n) then (out_of_range, m)
  else
    match mem_write m ptr (he_rand e n) with
    | None => (out_of_range, m)
    | Some m => (Returns None, m)
    end.

(** [wasiRandomGet]. *)
Definition wasiRandomGet (e : hostEnv) (m : M) (ptr n : Z) : Z * M :=
  if mem_size m <? u64 (ptr + n) then (wasiEFAULT, m)
  else
    match mem_write m ptr (he_rand e n) with
    | None => (wasiEFAULT, m)
    | Some m => (wasiSuccess, m)
    end.

(** ** Cryptography *)

(** [hostCryptoVerify]; a panic of the standard library traps the guest. *)
Definition hostCryptoVerify (m : M) (alg kp kn dp dn sp sn : Z) : outcome :=
  match readCopy m kp kn, readCopy m dp dn, readCopy m sp sn with
  | Some key, Some data, Some sig =>
      match cryptoVerify alg key data sig with
      | Some b => Returns (Some (b2i b))
      | None => Traps []
      end
  | _, _, _ => Returns (Some 0)
  end.

(** [hostCryptoDigest]. *)
Definition hostCryptoDigest (m : M) (alg ptr n out : Z) : Z * M :=
  match readCopy m ptr n with
  | None => (0, m)
  | Some data =>
      match cryptoDigest alg data with
      | None => (0, m)
      | Some digest =>
          match mem_write m out digest with
          | None => (0, m)
          | Some m => (1, m)
          end
      end
  end.

(** [hostNSEC3Hash]. *)
Definition hostNSEC3Hash (m : M) (sp sn iters np nn out : Z) : Z * M :=
  match readCopy m sp sn, readCopy m np nn with
  | Some salt, Some name =>
      match nsec3Hash salt iters name with
      | None => (0, m)
      | Some hash =>
          match mem_write m out hash with
          | None => (0, m)
          | Some m => (1, m)
          end
      end
  | _, _ => (0, m)
  end.

(** ** Logging *)

(** [hostLogMsg]. *)
Definition hostLogMsg (m : M) (level ptr n : Z) : proc instanceState unit :=
  match readCopy m ptr n with
  | None => Done tt
  | Some msg => logLog (mapLogLevel level) msg
  end.

(** [hostAbortMsg]: log the guest's last words and trap. *)
Definition hostAbortMsg (m : M) (code ptr n : Z) : proc instanceState outcome :=
  let msg := match readCopy m ptr n with Some msg => msg | None => [] end in
  do* logLog LevelError msg in
  Done (Traps (s2b "unbound guest abort " ++ itoa code ++ s2b ": " ++ msg)).

(** The loop of [wasiFDWrite] over the guest's io vectors: [fuel] is the
    number of vectors left, [n] the index of the next one. Addresses are
    computed in uint32. *)
Fixpoint fdGather (fuel : nat) (m : M) (iovs n : Z) (msg : list Z) : option (list Z) :=
  match fuel with
  | O => Some msg
  | S fuel =>
      let base := u32 (iovs + u32 (n * 8)) in
      match mem_read32 m base, mem_read32 m (u32 (base + 4)) with
      | Some ptr, Some length =>
          match mem_read m ptr length with
          | None => None
          | Some part => fdGather fuel m iovs (n + 1) (msg ++ part)
          end
      | _, _ => None
      end
  end.

(** [wasiFDWrite]. *)
Definition wasiFDWrite (m : M) (fd iovs count written : Z) : proc instanceState (Z * M) :=
  if negb (fd =? 1) && negb (fd =? 2) then Done (wasiEBADF, m)
  else
    match fdGather (Z.to_nat count) m iovs 0 [] with
    | None => Done (wasiEFAULT, m)
    | Some msg =>
        match mem_write32 m written (u32 (zlen msg)) with
        | None => Done (wasiEFAULT, m)
        | Some m =>
            do* logLog (if fd =? 2 then LevelError else LevelInfo) msg in
            Done (wasiSuccess, m)
        end
    end.

(** [environ_sizes_get]: the second write may fail after the first. *)
Definition environSizesGet (m : M) (count size : Z) : Z * M :=
  match mem_write32 m count 0 with
  | None => (wasiEFAULT, m)
  | Some m =>
      match mem_write32 m size 0 with
      | None => (wasiEFAULT, m)
      | Some m => (wasiSuccess, m)
      end
  end.

(** ** All of them *)

Definition ret_with (m : M) (p : proc instanceState Z) : proc instanceState (outcome * M) :=
  let* v := p in Done (Returns (Some v), m).

Definition returns (r : Z * M) : outcome * M := (Returns (Some (fst r)), snd r).

(** [instantiateHostModules] and [instantiateWASI]: which function each
    name stands for. *)
Definition import_call (rp : option replayHooks) (e : hostEnv) (m : M) (c : importCall)
    : proc instanceState (outcome * M) :=
  let net := he_net e in
  match c with
  | sock_open af typ => ret_with m (sockOpen af typ)
  | sock_bind sid port => ret_with m (sockBind rp net sid port)
  | sock_connect sid ipPtr ipLen port => ret_with m (hostSockConnect rp net m sid ipPtr ipLen port)
  | sock_send sid ptr n => ret_with m (hostSockSend rp net m sid ptr n)
  | sock_send_to sid ipPtr ipLen port ptr n =>
      ret_with m (hostSockSendTo rp net m sid ipPtr ipLen port ptr n)
  | sock_recv sid ptr cap =>
      let* r := sockRecv (ne_pick net) m sid ptr cap false 0 0 in Done (returns r)
  | sock_recv_from sid ptr cap ipOut portOut =>
      let* r := sockRecv (ne_pick net) m sid ptr cap true ipOut portOut in Done (returns r)
  | sock_error sid => ret_with m (sockError sid)
  | sock_local_port sid => ret_with m (sockLocalPort rp sid)
  | sock_close_ sid => do* sockClose sid in Done (Returns None, m)
  | timer_start ms => let* tid := timerStart rp ms in Done (Returns (Some (i64 tid)), m)
  | timer_stop tid => do* timerStop rp (u64 tid) in Done (Returns None, m)
  | now_wall_ms => Done (Returns (Some (UnixMilli (wallNow rp e))), m)
  | now_mono_ms => Done (Returns (Some (Milliseconds (monoNow rp e))), m)
  | entropy ptr n => Done (hostEntropy e m ptr n)
  | crypto_supported alg => Done (Returns (Some (b2i (cryptoSupported alg))), m)
  | crypto_verify alg kp kn dp dn sp sn => Done (hostCryptoVerify m alg kp kn dp dn sp sn, m)
  | crypto_digest alg ptr n out => Done (returns (hostCryptoDigest m alg ptr n out))
  | nsec3_hash sp sn iters np nn out => Done (returns (hostNSEC3Hash m sp sn iters np nn out))
  | log_msg level ptr n => do* hostLogMsg m level ptr n in Done (Returns None, m)
  | abort_msg code ptr n => let* o := hostAbortMsg m code ptr n in Done (o, m)
  | clock_time_get clockID _ out => Done (returns (wasiClockTimeGet rp e m clockID out))
  | random_get ptr n => Done (returns (wasiRandomGet e m ptr n))
  | fd_write fd iovs count written =>
      let* r := wasiFDWrite m fd iovs count written in Done (returns r)
  | proc_exit code => Done (Exits code, m)
  | environ_sizes_get count size => Done (returns (environSizesGet m count size))
  | environ_get _ _ => Done (Returns (Some wasiSuccess), m)
  | wasi_stub _ => Done (Returns (Some wasiENOSYS), m)
  | poll_oneoff => Done (Traps (s2b "unbound: forbidden WASI poll_oneoff"), m)
  end.

End Imports.
