(* ===== verification/System.v ===== *)
(** * The running instance

    An instance as a transition system over all its goroutines
    ([sys_step]): at any time a compromised guest may start any host call
    with any arguments, armed timers may fire, the dispatcher may take an
    event, the instance may be closed, and any goroutine may take its next
    step.

    [mstep] is the abstract machine the host promises to be: the changes an
    instance's state can undergo, each with its guard (a packet leaves only
    for an allowed destination, a socket is opened only below the limit,
    ...). [sys_refines] shows that every interleaving of the goroutines of
    host.go and sockets.go is a run of that machine; the invariants are
    proved on the machine, by induction over its rules. *)

From S2P Require Import Prelude Errors Errno Netip Egress GuestMem Proc Host Sockets Sha Crypto Imports.

#[local] Open Scope Z_scope.

(** ** The abstract machine *)

(** Received packets fit the largest read buffer. *)
Definition packets_ok (q : list receivedPacket) : Prop := Forall (fun p => zlen (data p) <= 65535) q.

(** What may change in one socket. *)
Record sock_step (s : instanceState) (sk sk' : hostSocket) : Prop := {
  ss_id : sk_id sk' = sk_id sk;
  ss_af : af sk' = af sk;
  ss_typ : typ sk' = typ sk;
  ss_udp : udp sk' = udp sk;
  ss_closed : closed sk = true -> closed sk' = true /\ tcp sk' = tcp sk /\ remote sk' = remote sk;
  ss_tcp : tcp sk' = tcp sk \/ exists c, tcp sk' = Some c /\ (c < length (tconns s))%nat;
  ss_remote : remote sk' = remote sk \/ egressAllowed (remote sk') = true;
  ss_queue : packets_ok (queue sk) -> packets_ok (queue sk')
}.

Inductive mstep (s : instanceState) : instanceState -> Prop :=
| M_log x : mstep s (set_log (log s ++ [x]) s)
| M_event ev :
    zlen (events s) < eventsCap -> mstep s (set_events (events s ++ [ev]) s)
| M_dispatch ev evs : events s = ev :: evs -> mstep s (set_events evs s)
| M_shutdown e : done s = false -> mstep s (set_done true (set_err e s))
| M_timers_nil ts :
    done s = true -> timers s = Some ts -> mstep s (set_timers None (set_armed (armed s ∖ ts) s))
| M_sockets_nil m :
    done s = true -> sockets s = Some m -> mstep s (set_sockets None s)
| M_tid : mstep s (set_nextTimer (u64 (nextTimer s + 1)) s)
| M_timer_add t ts :
    timers s = Some ts -> Z.of_nat (size ts) < maxTimersPerInstance ->
    mstep s (set_timers (Some ({[t]} ∪ ts)) (set_armed ({[t]} ∪ armed s) s))
| M_timer_del t ts : timers s = Some ts -> mstep s (set_timers (Some (ts ∖ {[t]})) s)
| M_timer_stop t ts :
    timers s = Some ts ->
    mstep s (set_armed (armed s ∖ {[t]}) (set_timers (Some (ts ∖ {[t]})) s))
| M_fire t : t ∈ armed s -> mstep s (set_armed (armed s ∖ {[t]}) s)
| M_open a ty m :
    sockets s = Some m -> Z.of_nat (size m) < maxSocketsPerInstance ->
    (a = 4 \/ a = 6) -> (ty = socketUDP \/ ty = socketTCP) ->
    mstep s (set_nextSocket (i32 (nextSocket s + 1))
      (set_sockets (Some (<[nextSocket s := length (heap s)]> m))
        (set_heap (heap s ++ [mkSocket (nextSocket s) a ty 0 None None AddrPort_zero [] None false]) s)))
| M_forget id m : sockets s = Some m -> mstep s (set_sockets (Some (delete id m)) s)
| M_sock l f :
    (forall sk, heap s !! l = Some sk -> sock_step s sk (f sk)) -> mstep s (upd_socket l f s)
| M_listen l sk port :
    heap s !! l = Some sk -> udp sk = None ->
    mstep s (upd_socket l (fun sk => s_bindPort (u16 port) (s_udp (Some (length (uconns s))) sk))
               (set_uconns (uconns s ++ [mkUDP port true]) s))
| M_close_udp c :
    mstep s (set_uconns (alter (fun k => mkUDP (u_port k) false) c (uconns s)) s)
| M_close_tcp c :
    mstep s (set_tconns (alter (fun k => mkTCP (t_port k) (t_peer k) false) c (tconns s)) s)
| M_dial to : egressAllowed to = true -> mstep s (set_wire (wire s ++ [WireDial to]) s)
| M_conn to port :
    egressAllowed to = true -> mstep s (set_tconns (tconns s ++ [mkTCP port to true]) s)
| M_udp_send c k to bs :
    egressAllowed to = true -> uconns s !! c = Some k -> u_open k = true ->
    mstep s (set_wire (wire s ++ [WireUDP to bs]) s)
| M_tcp_send c k bs :
    tconns s !! c = Some k -> t_open k = true ->
    mstep s (set_wire (wire s ++ [WireTCP (t_peer k) bs]) s).

Abbreviation msteps := (rtc mstep).

(** ** The goroutines *)

Section System.
Context {M : Type} `{GM : GuestMemory M} {SG : Signatures}.

Definition ignore {A} (p : proc instanceState A) : proc instanceState unit := do* p in Done tt.

(** The calls a guest can make, in production (no replay hooks): any
    import, with any arguments, from any memory, in any surroundings. *)
Inductive hostCall : proc instanceState unit -> Prop :=
| HC (e : hostEnv) (m : M) (c : importCall) : hostCall (ignore (import_call None e m c)).

Abbreviation sys := (instanceState * list (proc instanceState unit))%type.

Inductive sys_step : sys -> sys -> Prop :=
| sys_run c c' : pstep c c' -> sys_step c c'
| sys_call s T p : hostCall p -> sys_step (s, T) (s, T ++ [p])
| sys_timer s T pick t :
    t ∈ armed s -> sys_step (s, T) (set_armed (armed s ∖ {[t]}) s, T ++ [timerCallback pick t])
| sys_dispatch s T ev evs :
    events s = ev :: evs -> sys_step (s, T) (set_events evs s, T)
| sys_close s T : sys_step (s, T) (s, T ++ [close]).

Definition sys_init : sys := (newInstanceState, []).

End System.

(** ** Facts that machine steps preserve *)

Lemma msteps_stable (P : instanceState -> Prop) s s' :
  (forall s s', mstep s s' -> P s -> P s') -> msteps s s' -> P s -> P s'.
Proof. intros HP Hst. induction Hst; eauto. Qed.

Lemma rtc_msteps s s' : rtc msteps s s' -> msteps s s'.
Proof. induction 1; [done|]. by etrans. Qed.

Lemma done_stable s s' : msteps s s' -> done s = true -> done s' = true.
Proof.
  intros Hst. apply (msteps_stable (fun s => done s = true)); [|done].
  intros s1 s2 H. by destruct H.
Qed.

Lemma tconns_grow s s' c : msteps s s' -> (c < length (tconns s))%nat -> (c < length (tconns s'))%nat.
Proof.
  intros Hst. apply (msteps_stable (fun s => c < length (tconns s))%nat); [|done].
  intros s1 s2 H. destruct H; cbn; rewrite ?length_alter, ?length_app; cbn; lia.
Qed.

(** ** The goroutines refine the machine *)

Abbreviation rgm p s0 := (rg_ msteps p s0).

Create HintDb rg.

Lemma rg_bind_ {A B} (p : proc instanceState A) (k : A -> proc instanceState B) s0 R :
  rgm p s0 -> (forall a s, rg msteps (k a) s R) -> rg msteps (pbind k p) s0 R.
Proof. intros Hp Hk. eapply rg_bind; [exact Hp|]. intros a s _ _. apply Hk. Qed.

Lemma rg_reads_ {R} (f : instanceState -> R) s0 : rgm (reads f) s0.
Proof. apply rg_reads; done. Qed.

(** One rule of the machine, or none. *)
Ltac machine :=
  cbn [fst snd];
  repeat case_goal; bool_props; cbn [fst snd];
  first [ reflexivity
        | apply rtc_once; solve [ econstructor; eauto ]
        | idtac ].

(** Walk through the text of a goroutine; the residual goals are the
    machine rules taken by its critical sections. *)
Ltac rg_tac :=
  repeat (
    cbv zeta;
    lazymatch goal with
    | |- rg _ (pbind _ _) _ _ => apply rg_bind_; [|intros ? ?]
    | |- rg _ (atomic _) _ _ => apply rg_atomic; intros ? ?; split; [machine|exact I]
    | |- rg _ (reads _) _ _ => apply rg_reads_
    | |- rg _ (modify _) _ _ => apply rg_modify; intros ? ?; split; [machine|exact I]
    | |- rg _ (Done _) _ _ => exact I
    | |- rg _ (spawn _) _ _ => apply rg_spawn; [|exact I]
    | |- rg _ (if ?b then _ else _) _ _ => destruct b eqn:?
    | |- rg _ (match ?x with _ => _ end) _ _ => destruct x eqn:?
    | |- rg _ _ _ _ => solve [auto with rg]
    end).

(** A socket update that keeps identity, sockets and destination. *)
Lemma M_sock_plain s l f :
  (forall sk, sk_id (f sk) = sk_id sk /\ af (f sk) = af sk /\ typ (f sk) = typ sk /\
              udp (f sk) = udp sk /\ tcp (f sk) = tcp sk /\ remote (f sk) = remote sk /\
              (closed sk = true -> closed (f sk) = true) /\
              (packets_ok (queue sk) -> packets_ok (queue (f sk)))) ->
  mstep s (upd_socket l f s).
Proof.
  intros Hf. apply M_sock. intros sk _. destruct (Hf sk) as (?&?&?&?&?&?&?&?).
  constructor; auto.
Qed.

Ltac plain := apply rtc_once, M_sock_plain; intros; cbn; split_and!; reflexivity || done || auto.

Lemma close_udp_rg c s0 : rgm (close_udp c) s0.
Proof. unfold close_udp. rg_tac. Qed.

Lemma close_tcp_rg c s0 : rgm (close_tcp c) s0.
Proof. unfold close_tcp. rg_tac. Qed.

#[export] Hint Resolve close_udp_rg close_tcp_rg : rg.

Lemma sock_close_rg l s0 : rgm (sock_close l) s0.
Proof. unfold sock_close. rg_tac. plain. Qed.

#[export] Hint Resolve sock_close_rg : rg.

Lemma shutdown_rg e s0 : rgm (shutdown e) s0.
Proof.
  unfold shutdown. eapply rg_bind with (Q := fun b s => b = true -> done s = true).
  - apply rg_atomic. intros s Hs. split; [machine|]. by destruct (done s).
  - intros b s Hs Hd. destruct b; [|done]. specialize (Hd eq_refl).
    eapply rg_bind with (Q := fun _ s => done s = true).
    + apply rg_modify. intros s1 Hs1. apply rtc_msteps in Hs1.
      pose proof (done_stable _ _ Hs1 Hd). destruct (timers s1) eqn:E; [|done].
      split; [|done]. apply rtc_once. by apply M_timers_nil.
    + intros _ s1 _ Hd1. apply rg_bind_.
      * apply rg_atomic. intros s2 Hs2. split; [|done]. apply rtc_msteps in Hs2.
        pose proof (done_stable _ _ Hs2 Hd1). destruct (sockets s2) eqn:E; [|done].
        apply rtc_once. by eapply M_sockets_nil.
      * intros socks s2. apply rg_for_each. auto with rg.
Qed.

#[export] Hint Resolve shutdown_rg : rg.

Lemma enqueue_rg pick ev s0 : rgm (enqueue pick ev) s0.
Proof. unfold enqueue, fail_. rg_tac. Qed.

#[export] Hint Resolve enqueue_rg : rg.

Lemma push_rg pick l bs src s0 : zlen bs <= 65535 -> rgm (push pick l bs src) s0.
Proof.
  intros Hb. unfold push. rg_tac. plain. intros Hq. apply Forall_app. split; [done|].
  by apply Forall_singleton.
Qed.

Lemma slice_buffer {A} (l : list A) n : 0 <= n <= 65535 -> zlen (slice l 0 n) <= 65535.
Proof. intros Hn. unfold zlen, slice. rewrite length_take. lia. Qed.

Lemma readError_rg pick l e s0 : rgm (readError pick l e) s0.
Proof. unfold readError. rg_tac; plain. Qed.

#[export] Hint Resolve push_rg readError_rg : rg.
#[local] Hint Extern 1 (zlen (slice _ 0 _) <= 65535) => apply slice_buffer; lia : rg.

Lemma readUDP_rg l script s0 : rgm (readUDP l script) s0.
Proof. revert s0. induction script as [|r script IH]; intros s0; [done|]. cbn [readUDP]. rg_tac. Qed.

Lemma readTCP_rg l script s0 : rgm (readTCP l script) s0.
Proof. revert s0. induction script as [|r script IH]; intros s0; [done|]. cbn [readTCP]. rg_tac. Qed.

#[export] Hint Resolve readUDP_rg readTCP_rg : rg.

(** [listenUDPLocked] opens at most one operating-system socket, and the
    goroutine it starts is the reader of that socket. *)
Lemma listenUDPLocked_msteps net l s : msteps s (listenUDPLocked net l s).1.1.
Proof.
  unfold listenUDPLocked. destruct (heap s !! l) as [sk|] eqn:E; [|done].
  case_bool_decide as Hu; [done|]. destruct (ne_listen net) as [port|e]; [|done].
  cbn [fst snd]. apply rtc_once. eapply M_listen; [done|]. by apply eq_None_not_Some.
Qed.

Lemma listenUDPLocked_reader net l s p :
  (listenUDPLocked net l s).2 = Some p -> p = readUDP l (ne_reads net).
Proof. unfold listenUDPLocked. repeat case_goal; cbn; congruence. Qed.

(** What a critical section hands to [start] is a reader, or nothing. *)
Definition reader (net : netEnv) (l : nat) (c : option (proc instanceState unit)) : Prop :=
  c = None \/ c = Some (readUDP l (ne_reads net)).

Lemma listenUDPLocked_is_reader net l s : reader net l (listenUDPLocked net l s).2.
Proof.
  destruct ((listenUDPLocked net l s).2) eqn:E; [right|by left].
  f_equal. by eapply listenUDPLocked_reader.
Qed.

Lemma start_rg net l c s0 : reader net l c -> rgm (start c) s0.
Proof. intros [-> | ->]; cbn [start]; rg_tac. Qed.

Lemma checkEgress_rg ip port s0 :
  rg msteps (checkEgress ip port) s0
     (fun b _ => b = true -> egressAllowed (AddrPortFrom ip port) = true).
Proof.
  unfold checkEgress. destruct (egressAllowed _) eqn:E; cbn [negb].
  - by apply rg_done.
  - apply rg_bind_; [rg_tac|]. intros a s. by apply rg_done.
Qed.

Lemma connectTCP_rg net l ip port s0 :
  egressAllowed (AddrPortFrom ip port) = true -> rgm (connectTCP net l ip port) s0.
Proof.
  intros Heg. unfold connectTCP. cbv zeta. apply rg_bind_; [rg_tac|]. intros _ s1.
  eapply rg_bind with
    (Q := fun d s => forall c, d = Ok c -> (c < length (tconns s))%nat).
  { destruct (ne_dial net) as [lport|e]; [|by apply rg_done].
    apply rg_atomic. intros s _. cbn [fst snd]. split; [by apply rtc_once, M_conn|].
    intros c' [= <-]. cbn. rewrite length_app. cbn. lia. }
  intros d s2 _ Hd. apply rg_bind_; [|intros r s3; rg_tac].
  apply rg_atomic. intros s Hs%rtc_msteps. split; [|done].
  destruct (heap s !! l) as [sk|] eqn:E; [|done]. destruct (closed sk) eqn:Ecl; [done|].
  cbn [fst]. destruct d as [c|e]; [|plain]. apply rtc_once, M_sock. intros sk' Hsk'. simplify_eq.
  constructor; cbn; auto; try congruence.
  right. exists c. split; [done|]. eapply tconns_grow; eauto.
Qed.

#[export] Hint Resolve connectTCP_rg : rg.

(** ** The host calls *)

Lemma socket_rg id s0 : rgm (socket id) s0.
Proof. unfold socket. apply rg_reads_. Qed.

#[export] Hint Resolve socket_rg : rg.

Lemma sockOpen_rg af typ s0 : rgm (sockOpen af typ) s0.
Proof.
  unfold sockOpen. destruct (_ || _) eqn:E; [done|]. rg_tac.
  apply rtc_once, M_open; [done|lia|lia|]. unfold socketUDP, socketTCP in *. lia.
Qed.

Lemma set_remote_msteps s l sk to :
  heap s !! l = Some sk -> closed sk = false -> egressAllowed to = true ->
  msteps s (upd_socket l (s_remote to) s).
Proof.
  intros Hl Hc Heg. apply rtc_once, M_sock. intros sk' Hsk'. simplify_eq.
  constructor; cbn; auto; congruence.
Qed.

Lemma sockBind_rg net id port s0 : rgm (sockBind None net id port) s0.
Proof.
  unfold sockBind. destruct (_ || _); [done|]. apply rg_bind_; [auto with rg|].
  intros [l|] s1; [|done].
  eapply rg_bind with (Q := fun r _ => reader net l (snd r)).
  - apply rg_atomic. intros s _. destruct (heap s !! l) as [sk|] eqn:E; [|by repeat constructor].
    destruct (closed sk); [by repeat constructor|].
    destruct (_ || _) eqn:Eb; [by repeat constructor|]. cbn iota beta zeta.
    rewrite bool_decide_eq_false_2 by (by intros []). cbv zeta.
    assert (Hb : msteps s (upd_socket l (s_bindPort (u16 port)) s)) by plain.
    destruct (typ sk =? socketUDP); [|by repeat constructor].
    set (s' := upd_socket l _ s) in *.
    pose proof (listenUDPLocked_msteps net l s') as H1.
    pose proof (listenUDPLocked_is_reader net l s') as H2.
    destruct (listenUDPLocked net l s') as [[s2 e] c]. cbn in *.
    split; [by etrans|done].
  - intros r s2 _ Hr. apply rg_bind_; [by eapply start_rg|]. done.
Qed.

#[export] Hint Resolve sockOpen_rg sockBind_rg : rg.

Lemma sockConnect_rg net id ip port s0 : rgm (sockConnect None net id ip port) s0.
Proof.
  unfold sockConnect. destruct (_ || _); [done|].
  eapply rg_bind; [apply checkEgress_rg|]. intros [|] s1 _ Heg; cbn [negb]; [|done].
  specialize (Heg eq_refl). apply rg_bind_; [auto with rg|]. intros [l|] s2; [|done].
  eapply rg_bind with (Q := fun r _ => reader net l (snd r)).
  - apply rg_atomic. intros s _. destruct (heap s !! l) as [sk|] eqn:E; [|by repeat constructor].
    destruct (closed sk) eqn:Ec; [by repeat constructor|]. cbv zeta.
    pose proof (set_remote_msteps s l sk _ E Ec Heg) as Hb.
    set (s' := upd_socket l _ s) in *.
    pose proof (listenUDPLocked_msteps net l s') as H1.
    pose proof (listenUDPLocked_is_reader net l s') as H2.
    destruct (typ sk =? socketUDP).
    + case_bool_decide; [|split; [done|by left]].
      destruct (listenUDPLocked net l s') as [[s3 [e|]] c]; cbn in *; (split; [by etrans|]);
        [by left|done].
    + case_bool_decide; (split; [done|by left]).
  - intros [[[rc|] [|]] c] s3 _ Hr; cbn [snd] in Hr; try done.
    + rg_tac.
    + apply rg_bind_; [by eapply start_rg|]. intros ? ?. rg_tac.
Qed.

Lemma udp_write_rg net c to bs s0 : egressAllowed to = true -> rgm (udp_write net c to bs) s0.
Proof.
  intros Heg. unfold udp_write. apply rg_atomic. intros s _. split; [|done].
  case_bool_decide as Ho; [|done]. destruct (ne_send net); [|done].
  destruct (uconns s !! c) as [k|] eqn:Ek; [|done]. injection Ho as Ho.
  apply rtc_once. by eapply M_udp_send.
Qed.

Lemma tcp_write_rg net c bs s0 : rgm (tcp_write net c bs) s0.
Proof. unfold tcp_write. rg_tac. Qed.

#[export] Hint Resolve sockConnect_rg udp_write_rg tcp_write_rg : rg.

Lemma sockSendTo_rg net id ip port bs s0 : rgm (sockSendTo None net id ip port bs) s0.
Proof.
  unfold sockSendTo. destruct (_ || _); [done|].
  eapply rg_bind; [apply checkEgress_rg|]. intros [|] s1 _ Heg; cbn [negb]; [|done].
  specialize (Heg eq_refl). apply rg_bind_; [auto with rg|]. intros [l|] s2; [|done].
  apply rg_bind_; [apply rg_reads_|]. intros [[[ty u] t]|] s3; [|done].
  destruct (ty =? socketUDP); [|rg_tac]. destruct u as [c|]; [rg_tac|].
  eapply rg_bind with (Q := fun r _ => reader net l (snd r)).
  - apply rg_atomic. intros s _.
    pose proof (listenUDPLocked_msteps net l s) as H1.
    pose proof (listenUDPLocked_is_reader net l s) as H2.
    by destruct (listenUDPLocked net l s) as [[s4 e] c].
  - intros [[e u] c] s4 _ Hr; cbn [snd] in Hr.
    apply rg_bind_; [by eapply start_rg|]. intros ? ?. rg_tac.
Qed.

#[export] Hint Resolve sockSendTo_rg : rg.

Lemma sockSend_rg net id bs s0 : rgm (sockSend None net id bs) s0.
Proof. unfold sockSend. rg_tac. Qed.

Lemma sockRecvLocked_msteps l cap s : msteps s (sockRecvLocked l cap s).1.
Proof.
  unfold sockRecvLocked. destruct (heap s !! l) as [sk|] eqn:Hl; [|done].
  destruct (queue sk) as [|pkt q] eqn:Hq; cbn [fst]; [plain|].
  apply rtc_once, M_sock. intros sk' Hsk'. simplify_eq. constructor; cbn; auto.
  rewrite Hq. intros [Hp Hr]%Forall_cons. destruct (_ || _); [done|]. constructor; [|done].
  unfold zlen in *. cbn. rewrite length_drop. lia.
Qed.

Lemma sockRecv_rg {M} `{GM : GuestMemory M} pick (m : M) id ptr cap wf ipo po s0 :
  rgm (sockRecv pick m id ptr cap wf ipo po) s0.
Proof.
  unfold sockRecv. apply rg_bind_; [auto with rg|]. intros [l|] s1; [|done].
  apply rg_bind_; [|intros r s2; rg_tac].
  apply rg_atomic. intros s _. split; [|done]. apply sockRecvLocked_msteps.
Qed.

Lemma sockError_rg id s0 : rgm (sockError id) s0.
Proof. unfold sockError. rg_tac. plain. Qed.

Lemma sockLocalPort_rg id s0 : rgm (sockLocalPort None id) s0.
Proof. unfold sockLocalPort. rg_tac. Qed.

Lemma sockClose_rg id s0 : rgm (sockClose id) s0.
Proof. unfold sockClose. rg_tac. Qed.

Lemma timerStart_rg ms s0 : rgm (timerStart None ms) s0.
Proof. unfold timerStart. rg_tac. Qed.

Lemma timerCallback_rg pick t s0 : rgm (timerCallback pick t) s0.
Proof. unfold timerCallback. rg_tac. Qed.

Lemma timerStop_rg t s0 : rgm (timerStop None t) s0.
Proof. unfold timerStop. rg_tac. Qed.

#[export] Hint Resolve sockSend_rg sockRecv_rg sockError_rg sockLocalPort_rg sockClose_rg
  timerStart_rg timerCallback_rg timerStop_rg : rg.

Lemma hostSockConnect_rg {M} `{GM : GuestMemory M} net (m : M) sid ipPtr ipLen port s0 :
  rgm (hostSockConnect None net m sid ipPtr ipLen port) s0.
Proof. unfold hostSockConnect. rg_tac. Qed.

Lemma hostSockSend_rg {M} `{GM : GuestMemory M} net (m : M) sid ptr n s0 :
  rgm (hostSockSend None net m sid ptr n) s0.
Proof. unfold hostSockSend. rg_tac. Qed.

Lemma hostSockSendTo_rg {M} `{GM : GuestMemory M} net (m : M) sid ipPtr ipLen port ptr n s0 :
  rgm (hostSockSendTo None net m sid ipPtr ipLen port ptr n) s0.
Proof. unfold hostSockSendTo. rg_tac. Qed.

Lemma wasiFDWrite_rg {M} `{GM : GuestMemory M} (m : M) fd iovs count written s0 :
  rgm (wasiFDWrite m fd iovs count written) s0.
Proof. unfold wasiFDWrite, logLog. rg_tac. Qed.

#[export] Hint Resolve hostSockConnect_rg hostSockSend_rg hostSockSendTo_rg wasiFDWrite_rg : rg.

Lemma import_rg {M} `{GM : GuestMemory M} {SG : Signatures} e (m : M) c s0 :
  rgm (import_call None e m c) s0.
Proof. destruct c; cbn [import_call]; unfold ret_with, hostLogMsg, hostAbortMsg, logLog; rg_tac. Qed.

#[export] Hint Resolve import_rg : rg.

Lemma hostCall_rg {M} `{GM : GuestMemory M} {SG : Signatures} p s0 : hostCall (M := M) p -> rgm p s0.
Proof. intros H. destruct H; unfold ignore; rg_tac. Qed.

(** ** Reachable states *)

Section Reachable.
Context {M : Type} `{GM : GuestMemory M} {SG : Signatures}.

Lemma sys_step_refines c c' :
  sys_step (M := M) c c' -> Forall (fun p => rgm p c.1) c.2 ->
  msteps c.1 c'.1 /\ Forall (fun p => rgm p c'.1) c'.2.
Proof.
  assert (Hlater : forall s s' (T : list (proc instanceState unit)),
    msteps s s' -> Forall (fun p => rgm p s) T -> Forall (fun p => rgm p s') T).
  { intros s s' T Hs HT. eapply Forall_impl; [done|]. intros p.
    apply rg_later; [done|by apply rtc_once]. }
  intros H HT.
  destruct H as [[s T] [s' T'] Hp|s T p Hp|s T pick t Ht|s T ev evs Hev|s T]; cbn [fst snd] in *.
  - destruct (pstep_rg _ _ _ _ _ Hp HT). split; [by apply rtc_msteps|done].
  - split; [done|]. rewrite Forall_app, Forall_singleton. split; [done|]. by eapply hostCall_rg.
  - assert (Hs : msteps s (set_armed (armed s ∖ {[t]}) s)) by (apply rtc_once; by constructor).
    split; [done|]. rewrite Forall_app, Forall_singleton. split; [by eapply Hlater|auto with rg].
  - assert (Hs : msteps s (set_events evs s)) by (apply rtc_once; by econstructor).
    split; [done|by eapply Hlater].
  - split; [done|]. rewrite Forall_app, Forall_singleton. split; [done|]. unfold close. auto with rg.
Qed.

Lemma sys_msteps c c' :
  rtc (sys_step (M := M)) c c' -> Forall (fun p => rgm p c.1) c.2 -> msteps c.1 c'.1.
Proof.
  intros Hst. induction Hst as [|c c1 c' H1 _ IH]; [done|]. intros HT.
  destruct (sys_step_refines _ _ H1 HT). etrans; [done|]. by apply IH.
Qed.

(** Every reachable state is a state of the machine. *)
Lemma reachable_msteps s T :
  rtc (sys_step (M := M)) sys_init (s, T) -> msteps newInstanceState s.
Proof. intros H. apply (sys_msteps _ _ H). constructor. Qed.

End Reachable.

(** ** Invariants of the machine *)

Lemma machine_invariant (P : instanceState -> Prop) s :
  (forall s s', mstep s s' -> P s -> P s') -> P newInstanceState ->
  msteps newInstanceState s -> P s.
Proof. intros HP H0 Hst. by eapply msteps_stable. Qed.

Definition wire_dest (ev : wireEvent) : AddrPort :=
  match ev with WireUDP to _ | WireDial to | WireTCP to _ => to end.

Definition egress_inv (s : instanceState) : Prop :=
  Forall (fun ev => egressAllowed (wire_dest ev) = true) (wire s) /\
  Forall (fun k => egressAllowed (t_peer k) = true) (tconns s).

Lemma egress_inv_step s s' : mstep s s' -> egress_inv s -> egress_inv s'.
Proof.
  intros Hst [Hw Ht].
  destruct Hst; unfold egress_inv, upd_socket in *; cbn; split;
    rewrite ?Forall_app, ?Forall_singleton; auto.
  - apply Forall_alter; [done|]. intros k _ Hk. exact Hk.
  - split; [done|]. by eapply Forall_lookup_1 in Ht.
Qed.

(** The resource limits of one instance. *)
Definition bounds_inv (s : instanceState) : Prop :=
  zlen (events s) <= eventsCap /\
  (forall m, sockets s = Some m -> Z.of_nat (size m) <= maxSocketsPerInstance) /\
  (forall ts, timers s = Some ts -> Z.of_nat (size ts) <= maxTimersPerInstance).

Lemma size_insert_le {A} (m : gmap Z A) i x : (size (<[i := x]> m) <= S (size m))%nat.
Proof.
  destruct (m !! i) eqn:E; [rewrite map_size_insert_Some by eauto; lia|].
  by rewrite map_size_insert_None.
Qed.

Lemma size_delete_le {A} (m : gmap Z A) i : (size (delete i m) <= size m)%nat.
Proof.
  destruct (m !! i) as [x|] eqn:E; [rewrite map_size_delete_Some by (by exists x); lia|].
  by rewrite map_size_delete_None.
Qed.

Lemma difference_subseteq (X Y : gset Z) : X ∖ Y ⊆ X.
Proof. intros x. rewrite elem_of_difference. by intros []. Qed.

Lemma size_add_le (t : Z) (ts : gset Z) : (size ({[t]} ∪ ts) <= S (size ts))%nat.
Proof.
  rewrite size_union_alt, size_singleton.
  pose proof (subseteq_size (ts ∖ {[t]}) ts (difference_subseteq _ _)). lia.
Qed.

Lemma bounds_inv_step s s' : mstep s s' -> bounds_inv s -> bounds_inv s'.
Proof.
  intros Hst (He & Hm & Ht).
  destruct Hst; unfold bounds_inv, upd_socket in *; cbn; split_and!; auto; try done;
    intros; simplify_eq.
  - rewrite zlen_app, zlen_cons, zlen_nil. lia.
  - rewrite H, zlen_cons in He. lia.
  - pose proof (size_add_le t ts). lia.
  - pose proof (subseteq_size (ts ∖ {[t]}) ts (difference_subseteq _ _)). specialize (Ht _ H). lia.
  - pose proof (subseteq_size (ts ∖ {[t]}) ts (difference_subseteq _ _)). specialize (Ht _ H). lia.
  - pose proof (size_insert_le m (nextSocket s) (length (heap s))). lia.
  - pose proof (size_delete_le m id). specialize (Hm _ H). lia.
Qed.

(** Every queued packet fits the largest read buffer. *)
Definition packets_inv (s : instanceState) : Prop :=
  forall l sk, heap s !! l = Some sk -> packets_ok (queue sk).

Lemma packets_inv_step s s' : mstep s s' -> packets_inv s -> packets_inv s'.
Proof.
  intros Hst Hi. destruct Hst; unfold packets_inv, upd_socket in *; cbn; try exact Hi; intros l' sk'.
  - intros [[_ ?]|[-> <-]]%lookup_snoc_Some; [eauto|constructor].
  - rewrite list_lookup_alter. case_decide; [subst|eauto].
    destruct (heap s !! l') as [sk0|] eqn:E; [|done]. cbn. intros [= <-].
    exact (ss_queue _ _ _ (H _ eq_refl) (Hi _ _ E)).
  - rewrite list_lookup_alter. case_decide; [subst|eauto].
    destruct (heap s !! l') as [sk0|] eqn:E; [|done]. cbn. intros [= <-]. exact (Hi _ _ E).
Qed.

(** The socket table and the objects it points to: a socket's identifier is
    determined by its place in the order of allocation, and its
    operating-system sockets exist. *)
Definition sock_id (l : nat) : Z := i32 (1 + Z.of_nat l).

Record table_inv (s : instanceState) : Prop := {
  ti_next : nextSocket s = sock_id (length (heap s));
  ti_ids : forall l sk, heap s !! l = Some sk -> sk_id sk = sock_id l;
  ti_table : forall m id l, sockets s = Some m -> m !! id = Some l ->
             (l < length (heap s))%nat /\ id = sock_id l;
  ti_udp : forall l sk c, heap s !! l = Some sk -> udp sk = Some c -> (c < length (uconns s))%nat;
  ti_tcp : forall l sk c, heap s !! l = Some sk -> tcp sk = Some c -> (c < length (tconns s))%nat;
  ti_remote : forall l sk, heap s !! l = Some sk ->
              remote sk = AddrPort_zero \/ egressAllowed (remote sk) = true;
  ti_open : done s = false -> sockets s <> None /\ timers s <> None /\ err s = None
}.

Lemma sock_id_next l : i32 (sock_id l + 1) = sock_id (S l).
Proof.
  unfold sock_id, i32. replace (1 + Z.of_nat (S l)) with (1 + Z.of_nat l + 1) by lia.
  zlia.
Qed.

(** Steps that leave the sockets alone. *)
Lemma table_inv_frame s s' :
  table_inv s -> heap s' = heap s -> sockets s' = sockets s -> nextSocket s' = nextSocket s ->
  (length (uconns s) <= length (uconns s'))%nat -> (length (tconns s) <= length (tconns s'))%nat ->
  (done s' = false -> done s = false /\ timers s' <> None /\ err s' = err s) -> table_inv s'.
Proof.
  intros [I1 I2 I3 I4 I5 I6 I7] Hh Hs Hn Hu Ht Ho. constructor; rewrite ?Hh, ?Hs, ?Hn; auto.
  - intros l sk c Hl Hc. specialize (I4 l sk c Hl Hc). lia.
  - intros l sk c Hl Hc. specialize (I5 l sk c Hl Hc). lia.
  - intros Hd. destruct (Ho Hd) as (Hd' & Ht' & ->). split_and!; [|done|]; by apply I7.
Qed.

(** Steps that change one socket. *)
Lemma table_inv_alter s l f s' :
  table_inv s -> heap s' = alter f l (heap s) -> sockets s' = sockets s ->
  nextSocket s' = nextSocket s -> timers s' = timers s -> err s' = err s -> done s' = done s ->
  (length (uconns s) <= length (uconns s'))%nat -> (length (tconns s) <= length (tconns s'))%nat ->
  (forall sk, heap s !! l = Some sk ->
     sk_id (f sk) = sk_id sk /\
     (udp (f sk) = udp sk \/ exists c, udp (f sk) = Some c /\ (c < length (uconns s'))%nat) /\
     (tcp (f sk) = tcp sk \/ exists c, tcp (f sk) = Some c /\ (c < length (tconns s'))%nat) /\
     (remote (f sk) = remote sk \/ egressAllowed (remote (f sk)) = true)) ->
  table_inv s'.
Proof.
  intros [I1 I2 I3 I4 I5 I6 I7] Hh Hs Hn Ht He Hd Hu Htc Hf.
  assert (Hlk : forall l' sk', heap s' !! l' = Some sk' ->
    (l' <> l /\ heap s !! l' = Some sk') \/ (l' = l /\ exists sk, heap s !! l = Some sk /\ sk' = f sk)).
  { intros l' sk' H. rewrite Hh in H. destruct (decide (l' = l)) as [->|Hne].
    - right. split; [done|]. rewrite list_lookup_alter_eq in H.
      destruct (heap s !! l) as [sk|] eqn:E; cbn in H; simplify_eq. eauto.
    - left. split; [done|]. by rewrite list_lookup_alter_ne in H. }
  constructor; rewrite ?Hh, ?length_alter, ?Hs, ?Hn, ?Ht, ?He, ?Hd; auto; rewrite <- Hh.
  - intros l' sk' [[_ H]|(-> & sk & H & ->)]%Hlk; [auto|]. rewrite (proj1 (Hf _ H)). auto.
  - intros l' sk' c [[_ H]|(-> & sk & H & ->)]%Hlk Hc.
    + specialize (I4 _ _ _ H Hc). lia.
    + destruct (Hf _ H) as (_ & [E|(c' & E & Hc')] & _); [|by simplify_eq].
      rewrite E in Hc. specialize (I4 _ _ _ H Hc). lia.
  - intros l' sk' c [[_ H]|(-> & sk & H & ->)]%Hlk Hc.
    + specialize (I5 _ _ _ H Hc). lia.
    + destruct (Hf _ H) as (_ & _ & [E|(c' & E & Hc')] & _); [|by simplify_eq].
      rewrite E in Hc. specialize (I5 _ _ _ H Hc). lia.
  - intros l' sk' [[_ H]|(-> & sk & H & ->)]%Hlk; [eauto|].
    destruct (Hf _ H) as (_ & _ & _ & [->|?]); eauto.
Qed.

Lemma table_inv_open s m a ty :
  table_inv s -> sockets s = Some m ->
  table_inv (set_nextSocket (i32 (nextSocket s + 1))
    (set_sockets (Some (<[nextSocket s := length (heap s)]> m))
      (set_heap (heap s ++ [mkSocket (nextSocket s) a ty 0 None None AddrPort_zero [] None false]) s))).
Proof.
  intros [I1 I2 I3 I4 I5 I6 I7] Hm.
  assert (Hlk : forall l sk, (heap s ++ [mkSocket (nextSocket s) a ty 0 None None AddrPort_zero [] None false]) !! l = Some sk ->
    heap s !! l = Some sk \/ (l = length (heap s) /\ sk = mkSocket (nextSocket s) a ty 0 None None AddrPort_zero [] None false)).
  { intros l sk [[_ ?]|[-> <-]]%lookup_snoc_Some; eauto. }
  constructor; cbn.
  - rewrite I1, sock_id_next, length_app. cbn. f_equal. lia.
  - intros l sk [H|[-> ->]]%Hlk; auto.
  - intros m' id l [= <-]. rewrite length_app. cbn. destruct (decide (id = nextSocket s)) as [->|Hne].
    + rewrite lookup_insert_eq. intros [= <-]. split; [lia|done].
    + rewrite lookup_insert_ne by done. intros H. destruct (I3 _ _ _ Hm H). split; [lia|done].
  - intros l sk c [H|[-> ->]]%Hlk; [eauto|done].
  - intros l sk c [H|[-> ->]]%Hlk; [eauto|done].
  - intros l sk [H|[-> ->]]%Hlk; [eauto|by left].
  - intros Hd. destruct (I7 Hd) as (_ & ? & ?). done.
Qed.

Lemma table_inv_step s s' : mstep s s' -> table_inv s -> table_inv s'.
Proof.
  intros Hst HI. pose proof HI as [I1 I2 I3 I4 I5 I6 I7].
  destruct Hst.
  all: try (eapply table_inv_frame; [exact HI|reflexivity..|cbn; rewrite ?length_alter, ?length_app; lia
             |cbn; rewrite ?length_alter, ?length_app; lia
             |cbn; intros; split_and!; try done; by apply I7]).
  - (* the timers are dropped *) constructor; cbn; auto; congruence.
  - (* the socket table is dropped *) constructor; cbn; auto; congruence.
  - by apply table_inv_open.
  - constructor; cbn; auto.
    + intros m' id' l [= <-] Hl. apply lookup_delete_Some in Hl as [_ Hl]. eauto.
    + intros Hd. destruct (I7 Hd) as (_ & ? & ?). done.
  - eapply (table_inv_alter s l f); [done..|cbn; lia|cbn; lia|].
    intros sk Hsk. destruct (H sk Hsk). split_and!; auto.
  - eapply (table_inv_alter s l); [done..|cbn; rewrite length_app; lia|cbn; lia|].
    intros sk' Hsk'. cbn. split_and!; auto. right. eexists. split; [done|].
    rewrite length_app. cbn. lia.
Qed.
