(* ===== verification/SystemSafety.v ===== *)
(** * What a running instance guarantees

    The theorems about the reachable states of an instance (System.v),
    under arbitrary guest behaviour and interleaving, with an executable
    scheduler that produces concrete runs. *)

From S2P Require Import Prelude Errors Errno Netip Egress GuestMem Proc Host Sockets Sha Crypto Imports System.

#[local] Open Scope Z_scope.

(** ** Concrete runs *)

Section Exec.
Context {M : Type} `{GM : GuestMemory M} {SG : Signatures}.

(** A scheduling decision. *)
Inductive choice :=
| ChRun (i : nat)                                (* the i-th goroutine steps *)
| ChCall p (H : hostCall (M := M) p)             (* the guest makes a host call *)
| ChTimer (pick : bool) (t : Z)                  (* a timer fires *)
| ChClose.                                       (* the instance is closed *)

Definition exec1 (c : instanceState * list (proc instanceState unit)) (ch : choice)
    : option (instanceState * list (proc instanceState unit)) :=
  let '(s, T) := c in
  match ch with
  | ChRun i =>
      match T !! i with
      | Some (Step f k) => Some (f s, take i T ++ k s :: drop (S i) T)
      | Some (Spawn g k) => Some (s, take i T ++ k :: drop (S i) T ++ [g])
      | _ => None
      end
  | ChCall p _ => Some (s, T ++ [p])
  | ChTimer pick t =>
      if bool_decide (t ∈ armed s)
      then Some (set_armed (armed s ∖ {[t]}) s, T ++ [timerCallback pick t]) else None
  | ChClose => Some (s, T ++ [close])
  end.

Fixpoint exec (c : instanceState * list (proc instanceState unit)) (l : list choice)
    : option (instanceState * list (proc instanceState unit)) :=
  match l with
  | [] => Some c
  | ch :: l => match exec1 c ch with Some c' => exec c' l | None => None end
  end.

Lemma exec1_sound c ch c' : exec1 c ch = Some c' -> sys_step (M := M) c c'.
Proof.
  destruct c as [s T], ch as [i|p H|pick t|]; simpl.
  - destruct (T !! i) as [p|] eqn:E; [|done].
    destruct p; intros [= <-]; apply sys_run; rewrite <- (take_drop_middle _ _ _ E) at 1;
      constructor.
  - intros [= <-]. by constructor.
  - case_bool_decide; intros [= <-]. by constructor.
  - intros [= <-]. by constructor.
Qed.

Lemma exec_sound l c c' : exec c l = Some c' -> rtc (sys_step (M := M)) c c'.
Proof.
  revert c. induction l as [|ch l IH]; intros c; simpl; [by intros [= <-]|].
  destruct (exec1 c ch) as [c1|] eqn:E; [|done]. intros H.
  eapply rtc_l; [by eapply exec1_sound|]. by apply IH.
Qed.

(** Whether every goroutine has ended. *)
Definition all_ended (T : list (proc instanceState unit)) : bool :=
  forallb (fun p => match p with Done _ => true | _ => false end) T.

Lemma exec_reach (P : instanceState * list (proc instanceState unit) -> bool) l :
  (match exec sys_init l with Some c => P c | None => false end) = true ->
  exists c, rtc (sys_step (M := M)) sys_init c /\ P c = true.
Proof.
  destruct (exec sys_init l) as [c|] eqn:E; [|done]. intros HP.
  exists c. split; [by eapply exec_sound|done].
Qed.

End Exec.

Import ListMem Demo.

(** The network of the examples: sends and listens succeed. *)
Definition demo_net : netEnv := mkNet (Ok 40000) [] (Ok 40001) [] (Ok 3) true.

Definition demo_env : hostEnv := mkHostEnv demo_net (fun n => replicate (Z.to_nat n) 7) 0 0.

(** A memory that holds the address 8.8.8.8 and a payload. *)
Definition demo_mem : list Z := [8; 8; 8; 8; 1; 2; 3].

Definition demo_call (c : importCall) : choice (M := list Z) := ChCall _ (HC demo_env demo_mem c).

Definition dns8 : Addr := AddrFrom4 [8; 8; 8; 8].

(** Open a UDP socket, then send a datagram to 8.8.8.8:53. *)
Definition demo_send : list (choice (M := list Z)) :=
  [demo_call (sock_open 4 1); ChRun 0; demo_call (sock_send_to 1 0 4 53 4 3)]
  ++ replicate 5 (ChRun 1).

Lemma demo_send_runs :
  exists s T, rtc (sys_step (M := list Z)) sys_init (s, T) /\ all_ended T = true /\
    wire s = [WireUDP (AddrPortFrom dns8 53) [1; 2; 3]].
Proof.
  destruct (exec_reach (M := list Z) (fun c => all_ended c.2 &&
     match wire c.1 with
     | [WireUDP to bs] => bool_decide (to = AddrPortFrom dns8 53) && bool_decide (bs = [1; 2; 3])
     | _ => false
     end) demo_send) as ([s T] & Hr & HP); [vm_compute; reflexivity|].
  exists s, T. cbn [fst snd] in HP. split; [done|]. apply andb_true_iff in HP as [HT Hw].
  split; [done|]. destruct (wire s) as [|[to bs| |] []]; try done. bool_props. by subst.
Qed.

(** ** The theorems *)

Section Claims.
Context {M : Type} `{GM : GuestMemory M} {SG : Signatures}.

Lemma reachable_rg s T :
  rtc (sys_step (M := M)) sys_init (s, T) -> Forall (fun p => rgm p s) T.
Proof.
  assert (H : forall c c', rtc (sys_step (M := M)) c c' -> Forall (fun p => rgm p c.1) c.2 ->
              Forall (fun p => rgm p c'.1) c'.2).
  { intros c c' Hst. induction Hst as [|c c1 c' H1 _ IH]; [done|]. intros HT.
    destruct (sys_step_refines _ _ H1 HT). by apply IH. }
  intros Hst. apply (H _ _ Hst). constructor.
Qed.

(** C1: no packet escapes the policy. Whatever host calls a guest makes, in
    whatever order, with whatever arguments, however the goroutines
    interleave and whatever the network answers, every datagram, TCP
    connection attempt and TCP segment the host has sent went to a
    destination that [egressAllowed] accepts. *)
Theorem egress_safety s T :
  rtc (sys_step (M := M)) sys_init (s, T) ->
  Forall (fun ev => egressAllowed (wire_dest ev) = true) (wire s).
Proof.
  intros Hst%reachable_msteps.
  apply (machine_invariant egress_inv s egress_inv_step); [by repeat constructor|done].
Qed.

(** C6: the goroutines implement the abstract machine. Between two
    reachable configurations the state changes only by a sequence of
    machine steps, each under its guard. *)
Theorem sys_refines s T s' T' :
  rtc (sys_step (M := M)) sys_init (s, T) -> rtc (sys_step (M := M)) (s, T) (s', T') ->
  rtc mstep s s'.
Proof. intros H1 H2. apply (sys_msteps _ _ H2). by eapply reachable_rg. Qed.

(** C7: the resource backstops hold. In every reachable state the event
    queue holds at most 1024 events, the instance at most 256 live sockets
    and at most 8192 timers. *)
Theorem resource_bounds s T :
  rtc (sys_step (M := M)) sys_init (s, T) ->
  zlen (events s) <= 1024 /\
  (forall m, sockets s = Some m -> Z.of_nat (size m) <= 256) /\
  (forall ts, timers s = Some ts -> Z.of_nat (size ts) <= 8192).
Proof.
  intros Hst%reachable_msteps.
  apply (machine_invariant bounds_inv s bounds_inv_step); [|done].
  unfold bounds_inv. cbn. split_and!; [done|..]; intros ? [= <-]; vm_compute; discriminate.
Qed.

Lemma reachable_table s T : rtc (sys_step (M := M)) sys_init (s, T) -> table_inv s.
Proof.
  intros Hst%reachable_msteps.
  apply (machine_invariant table_inv s table_inv_step); [|done].
  constructor; cbn; try done. intros m id l [= <-]. by rewrite lookup_empty.
Qed.

(** C25: socket identifiers are sound. As long as an instance has opened
    fewer than 2^31 - 1 sockets, the next identifier is positive (so it is
    never confused with an error code) and not in use, and every identifier
    in the table leads to the socket that was opened under it, no two to
    the same socket. *)
Theorem socket_ids s T :
  rtc (sys_step (M := M)) sys_init (s, T) -> zlen (heap s) < 2 ^ 31 - 1 ->
  0 < nextSocket s /\
  (forall m, sockets s = Some m -> m !! nextSocket s = None) /\
  (forall m id l, sockets s = Some m -> m !! id = Some l ->
     0 < id /\ exists sk, heap s !! l = Some sk /\ sk_id sk = id) /\
  (forall m id id' l, sockets s = Some m -> m !! id = Some l -> m !! id' = Some l -> id = id').
Proof.
  intros Hst%reachable_table Hn. unfold zlen in Hn. destruct Hst as [I1 I2 I3 _ _ _ _].
  assert (Hid : forall l, (l <= length (heap s))%nat -> sock_id l = 1 + Z.of_nat l).
  { intros l Hl. unfold sock_id. apply i32_id. lia. }
  split_and!.
  - rewrite I1, Hid; lia.
  - intros m Hm. destruct (m !! nextSocket s) as [l|] eqn:E; [|done].
    destruct (I3 _ _ _ Hm E) as [Hl Heq]. rewrite I1, !Hid in Heq; lia.
  - intros m id l Hm Hl. destruct (I3 _ _ _ Hm Hl) as [Hlt ->]. rewrite Hid by lia. split; [lia|].
    destruct (lookup_lt_is_Some_2 _ _ Hlt) as [sk Hsk]. exists sk. split; [done|].
    rewrite (I2 _ _ Hsk), Hid; lia.
  - intros m id id' l Hm Hl Hl'. destruct (I3 _ _ _ Hm Hl), (I3 _ _ _ Hm Hl'). congruence.
Qed.

Lemma shutdown_stable s s' :
  msteps s s' -> done s = true ->
  done s' = true /\ err s' = err s /\
  (sockets s = None -> sockets s' = None /\ length (heap s') = length (heap s)) /\
  (timers s = None -> timers s' = None /\ armed s' ⊆ armed s).
Proof.
  intros Hst Hd. induction Hst as [|s s1 s' H1 _ IH]; [done|].
  assert (H : done s1 = true /\ err s1 = err s /\
    (sockets s = None -> sockets s1 = None /\ length (heap s1) = length (heap s)) /\
    (timers s = None -> timers s1 = None /\ armed s1 ⊆ armed s)).
  { destruct H1; cbn; rewrite ?length_alter, ?length_app; split_and!; try done; try congruence;
      intros; simplify_eq; split; auto; intros x; rewrite ?elem_of_difference; tauto. }
  destruct H as (Hd1 & He1 & Hs1 & Ht1). destruct (IH Hd1) as (? & He & Hs & Ht).
  split_and!; [done|congruence|..].
  - intros Hn. destruct (Hs1 Hn) as [H2 H3]. destruct (Hs H2). split; [done|congruence].
  - intros Hn. destruct (Ht1 Hn) as [H2 H3]. destruct (Ht H2). split; [done|by etrans].
Qed.


End Claims.

(** ** Witnesses *)

Lemma egress_safety_witness :
  exists s T, rtc (sys_step (M := list Z)) sys_init (s, T) /\
    wire s = [WireUDP (AddrPortFrom dns8 53) [1; 2; 3]] /\
    Forall (fun ev => egressAllowed (wire_dest ev) = true) (wire s).
Proof.
  destruct demo_send_runs as (s & T & Hr & _ & Hw). exists s, T. split; [exact Hr|].
  split; [exact Hw|]. exact (egress_safety s T Hr).
Defined.

Lemma sys_refines_witness :
  exists s T, rtc (sys_step (M := list Z)) sys_init (s, T) /\
    wire s = [WireUDP (AddrPortFrom dns8 53) [1; 2; 3]] /\ rtc mstep newInstanceState s.
Proof.
  destruct demo_send_runs as (s & T & Hr & _ & Hw). exists s, T. split; [exact Hr|].
  split; [exact Hw|]. exact (sys_refines newInstanceState [] s T (rtc_refl _ _) Hr).
Defined.

Lemma resource_bounds_witness :
  exists s T, rtc (sys_step (M := list Z)) sys_init (s, T) /\ zlen (events s) <= 1024.
Proof.
  destruct demo_send_runs as (s & T & Hr & _ & _). exists s, T. split; [exact Hr|].
  exact (proj1 (resource_bounds s T Hr)).
Defined.

(** Open a socket and keep it. *)
Lemma demo_open_runs :
  exists s T, rtc (sys_step (M := list Z)) sys_init (s, T) /\
    nextSocket s = 2 /\ length (heap s) = 1%nat.
Proof.
  destruct (exec_reach (M := list Z) (fun c => (nextSocket c.1 =? 2) && (Nat.eqb (length (heap c.1)) 1))
     [demo_call (sock_open 4 1); ChRun 0]) as ([s T] & Hr & HP); [vm_compute; reflexivity|].
  exists s, T. cbn [fst snd] in HP. bool_props. split_and!; [done..|by apply Nat.eqb_eq].
Qed.

Lemma socket_ids_witness :
  exists s T, rtc (sys_step (M := list Z)) sys_init (s, T) /\ zlen (heap s) < 2 ^ 31 - 1 /\
    0 < nextSocket s.
Proof.
  destruct demo_open_runs as (s & T & Hr & _ & Hl). exists s, T.
  assert (Hb : zlen (heap s) < 2 ^ 31 - 1) by (unfold zlen; rewrite Hl; lia).
  split; [exact Hr|]. split; [exact Hb|]. exact (proj1 (socket_ids s T Hr Hb)).
Defined.

(** Close an instance that holds a socket and a timer. *)
Definition demo_close : list (choice (M := list Z)) :=
  [demo_call (sock_open 4 1); ChRun 0; demo_call (timer_start 100); ChRun 1; ChRun 1; ChClose]
  ++ replicate 4 (ChRun 2).

Lemma demo_close_runs :
  exists s T, rtc (sys_step (M := list Z)) sys_init (s, T) /\ all_ended T = true /\
    done s = true /\ sockets s = None /\ timers s = None.
Proof.
  destruct (exec_reach (M := list Z) (fun c => all_ended c.2 && done c.1 &&
     match sockets c.1, timers c.1 with None, None => true | _, _ => false end) demo_close)
    as ([s T] & Hr & HP); [vm_compute; reflexivity|].
  exists s, T. cbn [fst snd] in HP. destruct (sockets s), (timers s); bool_props; try done.
Qed.


(** ** A socket opened after its instance closed *)

(** A send on an unbound UDP socket is between its two critical sections
    while the instance closes. *)
Definition race : list (choice (M := list Z)) :=
  [demo_call (sock_open 4 1); ChRun 0;
   demo_call (sock_send_to 1 0 4 53 4 3); ChRun 1; ChRun 1;
   ChClose] ++ replicate 4 (ChRun 2) ++ replicate 3 (ChRun 1).

(** C38: [sockSendTo] releases the socket's lock between checking [closed]
    and binding the socket, and does not check again. There is a run in
    which the instance has been closed, its socket table dropped and every
    goroutine has ended, yet a UDP socket opened by [sockSendTo] after its
    [hostSocket] was closed is still open: nothing is left that would ever
    close it. (The reader ends here because its datagrams are given; in the
    program it stays blocked on the open socket.) *)
Theorem sockSendTo_leaks_after_close :
  exists s T c k, rtc (sys_step (M := list Z)) sys_init (s, T) /\ all_ended T = true /\
    done s = true /\ sockets s = None /\ Forall (fun sk => closed sk = true) (heap s) /\
    uconns s !! c = Some k /\ u_open k = true.
Proof.
  destruct (exec_reach (M := list Z) (fun c => all_ended c.2 && done c.1 &&
     bool_decide (sockets c.1 = None) && forallb closed (heap c.1) &&
     match uconns c.1 with [k] => u_open k | _ => false end) race)
    as ([s T] & Hr & HP); [vm_compute; reflexivity|].
  cbn [fst snd] in HP. destruct (uconns s) as [|k []] eqn:Ek; bool_props; try done.
  exists s, T, 0%nat, k. rewrite Ek. split_and!; try done.
  apply Forall_forall. intros sk Hsk%list_elem_of_In.
  by eapply (proj1 (forallb_forall closed (heap s))).
Qed.
