(* ===== verification/ImportsSpec.v ===== *)
(** * What the imports guarantee

    Theorems about single import calls (Imports.v): which guest memory a
    call may write, which calls can trap, and the behaviour of entropy,
    hashing and [fd_write]. Where a call shares state with other
    goroutines, its result is described for every interleaving, with the
    proof rule [rg] over the steps of the abstract machine. *)

From S2P Require Import Prelude Errors Errno Netip Egress GuestMem Proc Host Sockets Sha Crypto Imports System.

#[local] Open Scope Z_scope.

(** The guest memory a call may write: pointers and lengths, from its
    arguments. *)
Definition outputs (c : importCall) : list (Z * Z) :=
  match c with
  | sock_recv _ ptr cap => [(ptr, cap)]
  | sock_recv_from _ ptr cap ipOut portOut => [(ptr, cap); (ipOut, 16); (portOut, 4)]
  | entropy ptr n | random_get ptr n => [(ptr, n)]
  | crypto_digest alg _ _ out => [(out, default 0 (digest_size alg))]
  | nsec3_hash _ _ _ _ _ out => [(out, 20)]
  | clock_time_get _ _ out => [(out, 8)]
  | fd_write _ _ _ written => [(written, 4)]
  | environ_sizes_get count size => [(count, 4); (size, 4)]
  | _ => []
  end.

(** Pointers and lengths are unsigned. *)
Definition outputs_ok (c : importCall) : Prop := Forall (fun r => 0 <= r.1 /\ 0 <= r.2) (outputs c).

(** [rand.Read] fills the buffer it is given. *)
Definition rand_ok (e : hostEnv) : Prop := forall n, 0 <= n -> zlen (he_rand e n) = n.

Section Spec.
Context {M : Type} `{GL : GuestMemoryLaws M} {SG : Signatures}.

(** The value of a call whatever its first part does. *)
Lemma rg_then {A B} (p : proc instanceState A) (k : A -> proc instanceState B) s0 (Q : B -> Prop) :
  rgm p s0 -> (forall a s, rg msteps (k a) s (fun b _ => Q b)) ->
  rg msteps (pbind k p) s0 (fun b _ => Q b).
Proof. intros Hp Hk. eapply rg_bind; [exact Hp|]. intros a s _ _. apply Hk. Qed.

Lemma packets_later s s' : rtc msteps s s' -> packets_inv s -> packets_inv s'.
Proof.
  intros Hst%rtc_msteps. apply (msteps_stable packets_inv); [apply packets_inv_step|done].
Qed.

(** A receive takes at most [cap] bytes. *)
Lemma sockRecvLocked_cap l cap s s' chunk src more :
  packets_inv s -> 0 <= cap -> sockRecvLocked l cap s = (s', RecvChunk chunk src more) -> zlen chunk <= cap.
Proof.
  intros Hi Hc. unfold sockRecvLocked. destruct (heap s !! l) as [sk|] eqn:Hl; [|done].
  specialize (Hi l sk Hl). destruct (queue sk) as [|pkt q]; [done|].
  apply Forall_cons in Hi as [Hp _]. intros [= _ <- _ _].
  rewrite u32_id by (pose proof (zlen_nonneg (data pkt)); lia).
  unfold zlen in *. rewrite length_take. destruct (Z.ltb_spec cap (Z.of_nat (length (data pkt)))); lia.
Qed.

Lemma write32_frame (m m' : M) p v : 0 <= p -> mem_write32 m p v = Some m' -> frame [(p, 4)] m m'.
Proof.
  intros Hp. rewrite mem_write32_spec by done. apply frame_write; [done|].
  by rewrite zlen_le_encode.
Qed.

Lemma writeAddr_frame (m m' : M) p a : 0 <= p -> writeAddr m p a = Some m' -> frame [(p, 16)] m m'.
Proof.
  intros Hp. apply frame_write; [done|]. rewrite (proj2 (writeAddr_bytes a)). lia.
Qed.

Lemma putU32_frame (m m' : M) p v : 0 <= p -> putU32 m p v = Some m' -> frame [(p, 4)] m m'.
Proof. intros Hp. apply frame_write; [done|]. by rewrite zlen_le_encode. Qed.

Lemma sockRecv_frame pick (m : M) id ptr cap wf ipOut portOut s0 rs :
  packets_inv s0 -> 0 <= ptr -> 0 <= cap -> 0 <= ipOut -> 0 <= portOut ->
  rs = (if wf : bool then [(ptr, cap); (ipOut, 16); (portOut, 4)] else [(ptr, cap)]) ->
  rg msteps (sockRecv pick m id ptr cap wf ipOut portOut) s0 (fun r _ => frame rs m r.2).
Proof.
  intros Hi Hp Hc Hio Hpo Hrs. unfold sockRecv.
  eapply rg_bind with (Q := fun _ s => packets_inv s).
  { apply rg_reads; [done|]. intros s Hs. by eapply packets_later. }
  intros [l|] s1 _ Hi1; [|by apply rg_done].
  eapply rg_bind with (Q := fun r _ => zlen (match r with RecvChunk chunk _ _ => chunk | _ => [] end) <= cap).
  { apply rg_atomic. intros s Hs. split; [apply sockRecvLocked_msteps|].
    destruct (sockRecvLocked l cap s) as [s' [rc|chunk src more]] eqn:E; [done|].
    eapply sockRecvLocked_cap; [by eapply packets_later|done|done]. }
  intros [rc|chunk src more] s2 _ Hlen; [by apply rg_done|].
  destruct (mem_write m ptr chunk) as [m1|] eqn:Hw; [|by apply rg_done].
  pose proof (frame_write m ptr cap chunk m1 Hp Hlen Hw) as Hf1.
  set (w := if wf then _ else _).
  assert (Hf : frame rs m w.2).
  { subst w rs. destruct wf; [|done].
    destruct (writeAddr m1 ipOut (AP_Addr src)) as [m2|] eqn:Ha.
    2: { eapply frame_weaken; [|exact Hf1]. set_solver. }
    pose proof (frame_trans _ _ _ _ _ Hf1 (writeAddr_frame _ _ _ _ Hio Ha)) as Hf12.
    destruct (putU32 m2 portOut (AP_Port src)) as [m3|] eqn:Hpt; cbn [snd].
    2: { eapply frame_weaken; [|exact Hf12]. set_solver. }
    exact (frame_trans _ _ _ _ _ Hf12 (putU32_frame _ _ _ _ Hpo Hpt)). }
  destruct (negb w.1); [by apply rg_done|]. apply rg_then; [rg_tac|]. intros ? ?. by apply rg_done.
Qed.

(** The calls that write memory without touching shared state. *)
Lemma hostEntropy_frame e (m : M) ptr n :
  rand_ok e -> 0 <= ptr -> 0 <= n -> frame [(ptr, n)] m (hostEntropy e m ptr n).2.
Proof.
  intros Hr Hp Hn. unfold hostEntropy. destruct (_ <? _); [done|].
  destruct (mem_write m ptr _) as [m'|] eqn:E; [|done].
  apply (frame_write _ _ _ (he_rand e n)); [done|by rewrite Hr|done].
Qed.

Lemma wasiRandomGet_frame e (m : M) ptr n :
  rand_ok e -> 0 <= ptr -> 0 <= n -> frame [(ptr, n)] m (wasiRandomGet e m ptr n).2.
Proof.
  intros Hr Hp Hn. unfold wasiRandomGet. destruct (_ <? _); [done|].
  destruct (mem_write m ptr _) as [m'|] eqn:E; [|done].
  apply (frame_write _ _ _ (he_rand e n)); [done|by rewrite Hr|done].
Qed.

Lemma hostCryptoDigest_frame (m : M) alg ptr n out :
  0 <= out -> frame [(out, default 0 (digest_size alg))] m (hostCryptoDigest m alg ptr n out).2.
Proof.
  intros Ho. unfold hostCryptoDigest. destruct (readCopy m ptr n) as [d|]; [|done].
  pose proof (cryptoDigest_size alg d) as Hs. destruct (cryptoDigest alg d) as [h|]; [|done].
  destruct (mem_write m out h) eqn:E; [|done]. cbn in Hs. rewrite <- Hs.
  by apply (frame_write _ _ _ h).
Qed.

Lemma hostNSEC3Hash_frame (m : M) sp sn iters np nn out :
  0 <= out -> frame [(out, 20)] m (hostNSEC3Hash m sp sn iters np nn out).2.
Proof.
  intros Ho. unfold hostNSEC3Hash. destruct (readCopy m sp sn) as [salt|]; [|done].
  destruct (readCopy m np nn) as [name|]; [|done].
  destruct (nsec3Hash salt iters name) as [h|] eqn:Eh; [|done].
  destruct (mem_write m out h) eqn:E; [|done].
  apply (frame_write _ _ _ h); [done| |done].
  by rewrite (nsec3Hash_length _ _ _ _ Eh).
Qed.

Lemma wasiClockTimeGet_frame rp e (m : M) clockID out :
  0 <= out -> frame [(out, 8)] m (wasiClockTimeGet rp e m clockID out).2.
Proof.
  intros Ho. unfold wasiClockTimeGet. destruct (if clockID =? 0 then _ else _) as [ns|]; [|done].
  destruct (mem_write64 m out ns) eqn:E; [|done]. rewrite mem_write64_spec in E by done.
  apply (frame_write _ _ _ (le_encode 8 ns)); [done| |done]. by rewrite zlen_le_encode.
Qed.

Lemma environSizesGet_frame (m : M) count size :
  0 <= count -> 0 <= size -> frame [(count, 4); (size, 4)] m (environSizesGet m count size).2.
Proof.
  intros Hc Hs. unfold environSizesGet. destruct (mem_write32 m count 0) as [m1|] eqn:E1; [|done].
  apply write32_frame in E1; [|done]. destruct (mem_write32 m1 size 0) as [m2|] eqn:E2; cbn [snd].
  - exact (frame_trans _ _ _ _ _ E1 (write32_frame _ _ _ _ Hs E2)).
  - eapply frame_weaken; [|exact E1]. set_solver.
Qed.

Lemma wasiFDWrite_frame (m : M) fd iovs count written s0 :
  0 <= written ->
  rg msteps (wasiFDWrite m fd iovs count written) s0 (fun r _ => frame [(written, 4)] m r.2).
Proof.
  intros Hw. unfold wasiFDWrite. destruct (_ && _); [by apply rg_done|].
  destruct (fdGather _ m iovs 0 []) as [msg|]; [|by apply rg_done].
  destruct (mem_write32 m written _) as [m'|] eqn:E; [|by apply rg_done].
  apply write32_frame in E; [|done].
  apply rg_then; [unfold logLog; rg_tac|]. intros ? ?. by apply rg_done.
Qed.

Lemma ret_with_frame (m : M) p s0 :
  rgm p s0 -> rg msteps (ret_with m p) s0 (fun r _ => frame [] m r.2).
Proof. intros Hp. apply rg_then; [done|]. intros ? ?. by apply rg_done. Qed.

(** C8: the host writes guest memory only where a call's arguments say. For
    every import, started in any state an instance can be in, however other
    goroutines interleave with it and whatever the network delivers, the
    guest memory it leaves has the same size and differs from the memory it
    found at most within the output regions its arguments name, with the
    lengths of the ABI (the capacity of a receive buffer, 16 bytes for an
    address, the digest's size, ...); a call that faults keeps to the same
    regions. *)
Theorem import_frame e (m : M) c s :
  msteps newInstanceState s -> rand_ok e -> outputs_ok c ->
  rg msteps (import_call None e m c) s (fun r _ => frame (outputs c) m r.2).
Proof.
  intros Hst Hr Ho.
  assert (Hi : packets_inv s).
  { apply (machine_invariant packets_inv s packets_inv_step); [|done]. by intros [|l] sk. }
  unfold outputs_ok in Ho.
  destruct c; cbn [import_call outputs] in *; rewrite ?Forall_cons in Ho; cbn [fst snd] in Ho;
    try (apply ret_with_frame; solve [auto with rg]); try (by apply rg_done);
    try (apply rg_then; [unfold hostLogMsg, hostAbortMsg, logLog; rg_tac|intros ? ?; by apply rg_done]).
  - eapply rg_bind; [apply (sockRecv_frame _ _ _ _ _ false); [done|lia..|done]|]. intros r ? _ Hf. by apply rg_done.
  - eapply rg_bind; [apply (sockRecv_frame _ _ _ _ _ true); [done|lia..|done]|]. intros r ? _ Hf. by apply rg_done.
  - apply rg_done, hostEntropy_frame; [done|lia..].
  - apply rg_done, hostCryptoDigest_frame; lia.
  - apply rg_done, hostNSEC3Hash_frame; lia.
  - apply rg_done, wasiClockTimeGet_frame; lia.
  - apply rg_done, wasiRandomGet_frame; [done|lia..].
  - eapply rg_bind; [apply wasiFDWrite_frame; lia|]. intros r ? _ Hf. by apply rg_done.
  - apply rg_done, environSizesGet_frame; lia.
Qed.

(** ** Traps *)

(** The calls that may trap by design. *)
Definition may_trap (c : importCall) : bool :=
  match c with entropy _ _ | abort_msg _ _ _ | poll_oneoff => true | _ => false end.

Definition traps (o : outcome) : bool := match o with Traps _ => true | _ => false end.

Context {SL : SignaturesLaws}.

Lemma hostCryptoVerify_returns (m : M) alg kp kn dp dn sp sn :
  0 <= kp -> 0 <= kn -> traps (hostCryptoVerify m alg kp kn dp dn sp sn) = false.
Proof.
  intros Hp Hn. unfold hostCryptoVerify, readCopy.
  destruct (mem_read m kp kn) as [key|] eqn:Ek; [|done].
  destruct (mem_read m dp dn) as [d|]; [|done]. destruct (mem_read m sp sn) as [sig|]; [|done].
  apply mem_read_Some in Ek as (_ & _ & _ & Hb); [|done..].
  destruct (cryptoVerify_total alg key d sig Hb) as [b ->]. done.
Qed.

Lemma ret_with_returns (m : M) p s0 : rgm p s0 -> rg msteps (ret_with m p) s0 (fun r _ => traps r.1 = false).
Proof. intros Hp. apply rg_then; [done|]. intros ? ?. by apply rg_done. Qed.


(** ** Entropy *)

(** The guest never continues without the randomness it asked for.
    [hostEntropy] either traps and leaves memory alone, or returns with
    exactly the [n] bytes of the random source stored at [ptr]. It returns
    exactly when the range lies within the memory's reported size, and it
    draws randomness for no more bytes than that size. *)
Lemma entropy_all_or_trap e (m : M) ptr n :
  rand_ok e -> 0 <= ptr < 2 ^ 32 -> 0 <= n < 2 ^ 32 ->
  (ptr + n <= mem_size m /\ n <= mem_size m /\ exists m',
     hostEntropy e m ptr n = (Returns None, m') /\
     mem_read m' ptr n = Some (map u8 (he_rand e n)) /\ frame [(ptr, n)] m m') \/
  (mem_size m < ptr + n /\ exists msg, hostEntropy e m ptr n = (Traps msg, m)).
Proof.
  intros Hr Hp Hn. pose proof (hostEntropy_frame e m ptr n Hr ltac:(lia) ltac:(lia)) as Hf.
  revert Hf. unfold hostEntropy. rewrite u64_id by lia. cbv zeta.
  destruct (Z.ltb_spec (mem_size m) (ptr + n)) as [Hlt|Hge]; [intros _; right; eauto|]. intros Hf. left.
  assert (Hfit : ptr + zlen (he_rand e n) <= zlen (mem_bytes m)).
  { rewrite Hr by lia. rewrite mem_size_spec in Hge. unfold u32 in Hge.
    pose proof (Z.mod_le (zlen (mem_bytes m)) (2 ^ 32) (zlen_nonneg _)). lia. }
  destruct (mem_write_ok m ptr (he_rand e n) ltac:(lia) Hfit) as [m' Hw]. rewrite Hw in Hf |- *. cbn [snd] in Hf.
  split_and!; [done|lia|]. exists m'. split_and!; [done| |done].
  rewrite <- (Hr n) at 1 by lia. by apply (mem_read_written m); [lia|].
Qed.

(** ** fd_write *)

(** The io vectors at [iovs]: the [i]-th is a pointer and a length. *)
Definition iovec (m : M) (iovs : Z) (i : nat) : option (list Z) :=
  let base := iovs + 8 * Z.of_nat i in
  match mem_read32 m base, mem_read32 m (base + 4) with
  | Some ptr, Some len => mem_read m ptr len
  | _, _ => None
  end.

(** The parts a list of io vectors names, if all of them are readable. *)
Definition iovecs (m : M) (iovs : Z) (k count : nat) : option (list (list Z)) :=
  mapM (iovec m iovs) (seq k count).

Lemma fdGather_iovecs (m : M) iovs count : forall k msg,
  0 <= iovs -> iovs + 8 * (Z.of_nat k + Z.of_nat count) <= 2 ^ 32 ->
  fdGather count m iovs (Z.of_nat k) msg = (fun ps => msg ++ concat ps) <$> iovecs m iovs k count.
Proof.
  induction count as [|count IH]; intros k msg Hi Hb; cbn [fdGather].
  - cbn. by rewrite app_nil_r.
  - unfold iovecs. cbn [seq mapM].
    assert (Hv : iovec m iovs k = match mem_read32 m (iovs + 8 * Z.of_nat k), mem_read32 m (iovs + 8 * Z.of_nat k + 4) with
                                  | Some ptr, Some len => mem_read m ptr len | _, _ => None end) by done.
    rewrite Hv. cbv zeta.
    replace (u32 (iovs + u32 (Z.of_nat k * 8))) with (iovs + 8 * Z.of_nat k)
      by (rewrite !u32_id by (rewrite ?u32_id; lia); lia).
    rewrite (u32_id (_ + 4)) by lia.
    destruct (mem_read32 m _) as [ptr|]; [|done]. destruct (mem_read32 m _) as [len|]; [|done].
    destruct (mem_read m ptr len) as [part|]; [|done]. cbn [mbind option_bind].
    replace (Z.of_nat k + 1) with (Z.of_nat (S k)) by lia. rewrite IH by lia. unfold iovecs.
    destruct (mapM (iovec m iovs) (seq (S k) count)); cbn; [|done]. by rewrite app_assoc.
Qed.

(** C33: [fd_write] forwards one message per call, and only whole ones. With
    descriptor 1 or 2 and a vector list inside the address space, it logs
    exactly the concatenation of the parts, once, at Info for stdout and
    Error for stderr, reports its length (modulo 2^32) at [written] and
    returns success, provided that every part is readable and [written]
    writable; otherwise it returns an error and logs nothing. Any other
    descriptor is refused. *)
Theorem fd_write_spec (m : M) fd iovs count written s :
  0 <= iovs -> 0 <= count -> iovs + 8 * count <= 2 ^ 32 -> 0 <= written ->
  let r := wasiFDWrite m fd iovs count written in
  match iovecs m iovs 0 (Z.to_nat count) with
  | Some parts =>
      let msg := concat parts in
      if negb ((fd =? 1) || (fd =? 2)) then run_value r s = (wasiEBADF, m) /\ run_state r s = s
      else match mem_write32 m written (u32 (zlen msg)) with
           | Some m' =>
               run_value r s = (wasiSuccess, m') /\
               mem_read32 m' written = Some (u32 (zlen msg)) /\
               run_state r s = set_log (log s ++ [LogMsg (if fd =? 2 then LevelError else LevelInfo) msg]) s
           | None => run_value r s = (wasiEFAULT, m) /\ run_state r s = s
           end
  | None => exists e, e <> wasiSuccess /\ run_value r s = (e, m) /\ run_state r s = s
  end.
Proof.
  intros Hi Hc Hb Hw. cbv zeta. unfold wasiFDWrite. rewrite negb_orb.
  pose proof (fdGather_iovecs m iovs (Z.to_nat count) 0 [] Hi ltac:(lia)) as Hg.
  change (Z.of_nat 0) with 0 in Hg. rewrite Hg.
  destruct (iovecs m iovs 0 (Z.to_nat count)) as [parts|]; cbn [fmap option_fmap option_map].
  2: { destruct (_ && _); [by exists wasiEBADF|by exists wasiEFAULT]. }
  destruct (_ && _); [done|]. cbn [app].
  destruct (mem_write32 m written _) as [m'|] eqn:E; [|done]. unfold logLog. runs.
  split_and!; [done| |done]. rewrite mem_write32_spec in E by done.
  apply (putU32_read m _ _ m'); [done|apply u32_range|done].
Qed.

End Spec.

Import ListMem Demo.

(** ** fd_write and overlapping vectors *)

(** A guest memory of [8 * k] bytes that is nothing but [k] io vectors, each
    of which names the whole memory. *)
Definition overlap (k : nat) : list Z :=
  concat (replicate k (le_encode 4 0 ++ le_encode 4 (8 * Z.of_nat k))).


Lemma drop_overlap (c : list Z) k i :
  (i <= k)%nat -> drop (length c * i) (concat (replicate k c)) = concat (replicate (k - i) c).
Proof.
  revert k. induction i as [|i IH]; intros k Hi.
  - by rewrite Nat.mul_0_r, drop_0, Nat.sub_0_r.
  - destruct k as [|k]; [lia|]. cbn [replicate concat].
    replace (length c * S i)%nat with (length c + length c * i)%nat by lia.
    rewrite <- drop_drop, drop_app_length, IH by lia. done.
Qed.

Lemma overlap_bytes k : Forall is_byte (overlap k).
Proof.
  unfold overlap. generalize (8 * Z.of_nat k). intros v.
  induction k as [|k IH]; [constructor|]. cbn [replicate concat]. rewrite !Forall_app. split; [split; apply le_encode_bytes|done].
Qed.

Lemma zlen_overlap k : zlen (overlap k) = 8 * Z.of_nat k.
Proof.
  unfold overlap, zlen. generalize (8 * Z.of_nat k) at 1. intros v.
  induction k as [|k IH]; [done|]. cbn [replicate concat]. rewrite !length_app, !length_le_encode. lia.
Qed.

Lemma overlap_read k i :
  (i < k)%nat -> drop (8 * i) (overlap k) = le_encode 4 0 ++ le_encode 4 (8 * Z.of_nat k) ++ drop (8 * S i) (overlap k).
Proof.
  intros Hi. unfold overlap. set (c := le_encode 4 0 ++ le_encode 4 (8 * Z.of_nat k)).
  assert (Hc : length c = 8%nat) by (subst c; by rewrite length_app, !length_le_encode).
  rewrite <- Hc, !drop_overlap by lia. replace (k - i)%nat with (S (k - S i)) by lia.
  cbn [replicate concat]. subst c. by rewrite app_assoc.
Qed.

Lemma overlap_iovecs k :
  8 * Z.of_nat k < 2 ^ 32 -> iovecs (overlap k) 0 0 k = Some (replicate k (overlap k)).
Proof.
  intros Hk. unfold iovecs.
  assert (H : forall i, (i < k)%nat -> iovec (overlap k) 0 i = Some (overlap k)).
  { intros i Hi. unfold iovec. cbv zeta. rewrite Z.add_0_l.
    pose proof (overlap_read k i Hi) as Hd.
    assert (Hm : map u8 (overlap k) = overlap k) by apply map_u8_id, overlap_bytes.
    assert (Hr : forall p n, 0 <= p -> 0 <= n -> p + n <= 8 * Z.of_nat k ->
      ListMem.read (overlap k) p n = Some (slice (overlap k) p n)).
    { intros p n Hp Hn Hle. unfold ListMem.read. rewrite zlen_overlap, Hm.
      by rewrite (proj2 (Z.leb_le _ _) Hle). }
    cbn [mem_read32 mem_read list_mem]. rewrite !Hr by lia. unfold slice.
    replace (Z.to_nat (8 * Z.of_nat i)) with (8 * i)%nat by lia.
    replace (Z.to_nat (8 * Z.of_nat i + 4)) with (8 * i + 4)%nat by lia.
    rewrite <- drop_drop, Hd. cbn [fmap option_fmap option_map].
    rewrite take_app_length' by (by rewrite length_le_encode).
    rewrite drop_app_length' by (by rewrite length_le_encode).
    rewrite take_app_length' by (by rewrite length_le_encode).
    rewrite !le_decode_encode. change (0 mod _) with 0. rewrite Z.mod_small by lia.
    rewrite Hr by lia. f_equal. rewrite <- zlen_overlap. apply slice_all. }
  assert (G : forall n j, (j + n <= k)%nat -> mapM (iovec (overlap k) 0) (seq j n) = Some (replicate n (overlap k))).
  { induction n as [|n IH]; intros j Hj; [done|]. cbn [seq mapM]. rewrite H by lia. cbn [mbind option_bind].
    rewrite IH by lia. done. }
  by apply G.
Qed.

(** C39: [fd_write] lets a guest make the host build messages far larger
    than the guest's memory. A memory of [8 * k] bytes that holds only [k]
    vectors, each naming the whole memory, makes the host concatenate and
    log a message of [8 * k * k] bytes in one call: with the default limit
    of 64 MiB, [k] is 2^23 and the message 2^49 bytes. The length checks
    of [entropy] and [random_get] rule out exactly this. *)
Theorem fd_write_amplifies k s :
  (0 < k)%nat -> 8 * Z.of_nat k < 2 ^ 32 ->
  zlen (overlap k) = 8 * Z.of_nat k /\
  exists msg, run_state (wasiFDWrite (overlap k) 1 0 (Z.of_nat k) 0) s =
                set_log (log s ++ [LogMsg LevelInfo msg]) s /\
    zlen msg = 8 * Z.of_nat k * Z.of_nat k.
Proof.
  intros Hk Hb. split; [apply zlen_overlap|].
  pose proof (fdGather_iovecs (overlap k) 0 k 0 [] ltac:(lia) ltac:(lia)) as Hg.
  change (Z.of_nat 0) with 0 in Hg. rewrite overlap_iovecs in Hg by done. cbn [fmap option_fmap option_map app] in Hg.
  exists (concat (replicate k (overlap k))). split.
  - unfold wasiFDWrite. cbn [Z.eqb negb andb]. rewrite Nat2Z.id, Hg.
    destruct (mem_write_ok (overlap k) 0 (le_encode 4 (u32 (zlen (concat (replicate k (overlap k))))))
      ltac:(lia)) as [m' Hw].
    { rewrite zlen_le_encode. cbn [mem_bytes list_mem_laws]. rewrite zlen_map_u8, zlen_overlap. lia. }
    rewrite mem_write32_spec, Hw by lia. unfold logLog. by runs.
  - assert (Hl : forall n, zlen (concat (replicate n (overlap k))) = zlen (overlap k) * Z.of_nat n).
    { induction n as [|n IH]; [by rewrite Z.mul_0_r|]. cbn [replicate concat]. rewrite zlen_app, IH, Nat2Z.inj_succ. lia. }
    by rewrite Hl, zlen_overlap.
Qed.

Lemma fd_write_amplifies_witness :
  zlen (overlap 8) = 64 /\
  exists msg, run_state (wasiFDWrite (overlap 8) 1 0 8 0) newInstanceState =
                set_log (log newInstanceState ++ [LogMsg LevelInfo msg]) newInstanceState /\
    zlen msg = 512.
Proof. exact (fd_write_amplifies 8 newInstanceState ltac:(lia) ltac:(lia)). Defined.

(** ** Instances of the theorems *)

Definition env7 : hostEnv :=
  mkHostEnv (mkNet (Ok 40000) [] (Ok 40001) [] (Ok 3) true) (fun n => replicate (Z.to_nat n) 7) 0 0.

Lemma env7_ok : rand_ok env7.
Proof. intros n Hn. unfold zlen. cbn. rewrite length_replicate. lia. Qed.

Lemma import_frame_witness :
  rg msteps (import_call None env7 (replicate 8 0) (entropy 2 3)) newInstanceState
    (fun r _ => frame [(2, 3)] (replicate 8 0) r.2) /\
  (run_value (import_call None env7 (replicate 8 0) (entropy 2 3)) newInstanceState).2 = [0; 0; 7; 7; 7; 0; 0; 0].
Proof.
  split; [|vm_compute; reflexivity].
  apply (import_frame env7 (replicate 8 0) (entropy 2 3) newInstanceState (rtc_refl _ _) env7_ok).
  by repeat constructor.
Defined.


Lemma entropy_all_or_trap_witness :
  exists m', hostEntropy env7 (replicate 8 0) 2 3 = (Returns None, m') /\ mem_read m' 2 3 = Some [7; 7; 7].
Proof.
  destruct (entropy_all_or_trap env7 (replicate 8 0) 2 3 env7_ok ltac:(lia) ltac:(lia))
    as [(_ & _ & m' & H & Hr & _)|[H _]].
  - exists m'. split; [exact H|exact Hr].
  - exfalso. vm_compute in H. discriminate H.
Defined.

(** Two parts of a 24-byte memory, written to stderr. *)
Definition demo_iov : list Z :=
  le_encode 4 16 ++ le_encode 4 3 ++ le_encode 4 20 ++ le_encode 4 1 ++ [1; 2; 3; 4; 5; 6; 7; 8].

Lemma fd_write_spec_witness :
  run_value (wasiFDWrite demo_iov 2 0 2 16) newInstanceState = (wasiSuccess, take 16 demo_iov ++ [4; 0; 0; 0; 5; 6; 7; 8]) /\
  run_state (wasiFDWrite demo_iov 2 0 2 16) newInstanceState =
    set_log (log newInstanceState ++ [LogMsg LevelError [1; 2; 3; 5]]) newInstanceState.
Proof.
  pose proof (fd_write_spec demo_iov 2 0 2 16 newInstanceState ltac:(lia) ltac:(lia) ltac:(lia) ltac:(lia)) as H.
  cbv zeta in H.
  replace (iovecs demo_iov 0 0 (Z.to_nat 2)) with (Some [[1; 2; 3]; [5]]) in H by (vm_compute; reflexivity).
  cbn [Z.eqb Pos.eqb negb orb] in H.
  replace (mem_write32 demo_iov 16 (u32 (zlen (concat [[1; 2; 3]; [5]]))))
    with (Some (take 16 demo_iov ++ [4; 0; 0; 0; 5; 6; 7; 8])) in H by (vm_compute; reflexivity).
  destruct H as (H1 & _ & H2). split; [exact H1|exact H2].
Defined.
