(* ===== verification/Names.v ===== *)
(** * Comparing names: strings.EqualFold

    [nameEqual] of answer.go is [strings.EqualFold], which folds case by
    Unicode, over the UTF-8 decoding of both strings. The standard
    library's algorithm is modelled as it is: a byte loop while both
    strings are ASCII, then a rune loop. [unicode.SimpleFold] walks the
    orbit of runes that are equal under case folding; it is a parameter,
    with the two orbits that mix ASCII letters with other runes as laws. *)

From S2P Require Import Prelude.

#[local] Open Scope Z_scope.

(** ** UTF-8 *)

Definition RuneSelf : Z := 128.

Definition RuneError : Z := 0xFFFD.

(** A continuation byte in a range. *)
Definition cont (lo hi b : Z) : bool := (lo <=? b) && (b <=? hi).

(** [utf8.DecodeRuneInString]: the rune and its width; an invalid or
    incomplete encoding is [RuneError] with width 1, and the empty string
    [RuneError] with width 0. *)
Definition DecodeRune (s : list Z) : Z * nat :=
  match s with
  | [] => (RuneError, 0%nat)
  | b0 :: s =>
      if b0 <? 0x80 then (b0, 1%nat)
      else if (b0 <? 0xC2) || (0xF4 <? b0) then (RuneError, 1%nat)
      else
        match s with
        | [] => (RuneError, 1%nat)
        | b1 :: s =>
            let lo := if b0 =? 0xE0 then 0xA0 else if b0 =? 0xF0 then 0x90 else 0x80 in
            let hi := if b0 =? 0xED then 0x9F else if b0 =? 0xF4 then 0x8F else 0xBF in
            if negb (cont lo hi b1) then (RuneError, 1%nat)
            else if b0 <? 0xE0 then (Z.lor (Z.shiftl (Z.land b0 0x1F) 6) (Z.land b1 0x3F), 2%nat)
            else
              match s with
              | [] => (RuneError, 1%nat)
              | b2 :: s =>
                  if negb (cont 0x80 0xBF b2) then (RuneError, 1%nat)
                  else if b0 <? 0xF0 then
                    (Z.lor (Z.lor (Z.shiftl (Z.land b0 0x0F) 12) (Z.shiftl (Z.land b1 0x3F) 6)) (Z.land b2 0x3F), 3%nat)
                  else
                    match s with
                    | [] => (RuneError, 1%nat)
                    | b3 :: _ =>
                        if negb (cont 0x80 0xBF b3) then (RuneError, 1%nat)
                        else (Z.lor (Z.lor (Z.lor (Z.shiftl (Z.land b0 0x07) 18) (Z.shiftl (Z.land b1 0x3F) 12))
                                (Z.shiftl (Z.land b2 0x3F) 6)) (Z.land b3 0x3F), 4%nat)
                    end
              end
        end
  end.

(** ** Case folding *)

(** [unicode.SimpleFold]: the next rune of the orbit, in increasing order,
    then around. *)
Class Unicode := { SimpleFold : Z -> Z }.

(** The orbits of the documentation's examples, K, k, U+212A, and of s. *)
Class UnicodeLaws {U : Unicode} := {
  fold_K : SimpleFold 0x4B = 0x6B;
  fold_k : SimpleFold 0x6B = 0x212A;
  fold_kelvin : SimpleFold 0x212A = 0x4B;
  fold_S : SimpleFold 0x53 = 0x73;
  fold_s : SimpleFold 0x73 = 0x17F;
  fold_long_s : SimpleFold 0x17F = 0x53
}.

Section EqualFold.
Context {U : Unicode}.

(** Equality of two different runes, the smaller first. The orbit has at
    most a handful of runes; [fuel] bounds the walk. *)
Fixpoint foldWalk (fuel : nat) (sr tr r : Z) : bool :=
  match fuel with
  | O => false
  | S fuel =>
      if negb (r =? sr) && (r <? tr) then foldWalk fuel sr tr (SimpleFold r) else r =? tr
  end.

(** [sr] is an upper-case letter and [tr] the same in lower case. *)
Definition asciiFold (sr tr : Z) : bool :=
  (0x41 <=? sr) && (sr <=? 0x5A) && (tr =? sr + 0x20).

Definition orbitFuel : nat := 8.

Definition runeEqual (sr tr : Z) : bool :=
  if tr =? sr then true
  else
    let '(sr, tr) := if tr <? sr then (tr, sr) else (sr, tr) in
    if tr <? RuneSelf then asciiFold sr tr
    else foldWalk orbitFuel sr tr (SimpleFold sr).

(** The rune loop: each turn takes at least one byte of [s], so the length
    of [s] bounds the turns. *)
Fixpoint equalRunes (fuel : nat) (s t : list Z) : bool :=
  match fuel with
  | O => bool_decide (s = []) && bool_decide (t = [])
  | S fuel =>
      match s with
      | [] => bool_decide (t = [])
      | _ =>
          match t with
          | [] => false
          | _ =>
              let '(sr, sw) := DecodeRune s in
              let '(tr, tw) := DecodeRune t in
              runeEqual sr tr && equalRunes fuel (drop sw s) (drop tw t)
          end
      end
  end.

(** [strings.EqualFold]: the byte loop. *)
Fixpoint EqualFold (s t : list Z) : bool :=
  match s, t with
  | sr :: s', tr :: t' =>
      if RuneSelf <=? Z.lor sr tr then equalRunes (length s) s t
      else if tr =? sr then EqualFold s' t'
      else
        let '(a, b) := if tr <? sr then (tr, sr) else (sr, tr) in
        asciiFold a b && EqualFold s' t'
  | [], [] => true
  | _, _ => false
  end.

(** answer.go: [nameEqual]. *)
Definition nameEqual (a b : list Z) : bool := EqualFold a b.

End EqualFold.

(** ** ASCII names *)

(** Names compare as RFC 4343 says: octets by value, except that the
    letters A to Z equal a to z. *)
Definition lower (b : Z) : Z := if (0x41 <=? b) && (b <=? 0x5A) then b + 0x20 else b.

Definition rfc4343_eq (a b : list Z) : Prop := map lower a = map lower b.

Definition ascii_name (a : list Z) : Prop := Forall (fun b => 0 <= b < 128) a.

Lemma lor_ascii a b : 0 <= a < 128 -> 0 <= b < 128 -> (RuneSelf <=? Z.lor a b) = false.
Proof.
  intros Ha Hb. apply Z.leb_gt. unfold RuneSelf. change 128 with (2 ^ 7).
  destruct (decide (Z.lor a b = 0)) as [->|Hz]; [lia|].
  assert (0 <= Z.lor a b) by (apply Z.lor_nonneg; lia).
  apply Z.log2_lt_pow2; [lia|]. rewrite Z.log2_lor by lia.
  destruct (decide (a = 0)) as [->|?], (decide (b = 0)) as [->|?]; cbn [Z.log2]; try lia;
    rewrite ?Z.max_lt_iff; try apply Z.max_lub_lt; try (apply Z.log2_lt_pow2; lia); lia.
Qed.

Lemma ascii_step a b :
  0 <= a < 128 -> 0 <= b < 128 ->
  (b =? a) || (let '(x, y) := if b <? a then (b, a) else (a, b) in asciiFold x y) = true <-> lower a = lower b.
Proof.
  intros Ha Hb. unfold asciiFold, lower.
  destruct (Z.ltb_spec b a); rewrite orb_true_iff, !andb_true_iff, !Z.leb_le, !Z.eqb_eq;
    destruct ((0x41 <=? a) && (a <=? 0x5A)) eqn:Ea; destruct ((0x41 <=? b) && (b <=? 0x5A)) eqn:Eb;
    rewrite ?andb_true_iff, ?andb_false_iff, ?Z.leb_le, ?Z.leb_gt in Ea;
    rewrite ?andb_true_iff, ?andb_false_iff, ?Z.leb_le, ?Z.leb_gt in Eb; lia.
Qed.

(** C31: on ASCII names, [nameEqual] is the case-insensitive comparison of
    RFC 4343: two names are equal exactly if they agree byte by byte up to
    the case of the letters A to Z. *)
Theorem nameEqual_ascii {U : Unicode} a b :
  ascii_name a -> ascii_name b -> (nameEqual a b = true <-> rfc4343_eq a b).
Proof.
  unfold nameEqual, rfc4343_eq. revert b. induction a as [|x a IH]; intros [|y b] Ha Hb; cbn; try done.
  apply Forall_cons in Ha as [Hx Ha]. apply Forall_cons in Hb as [Hy Hb].
  rewrite lor_ascii by done. pose proof (ascii_step x y Hx Hy) as Hs. specialize (IH b Ha Hb).
  destruct (Z.eqb_spec y x) as [->|Hne].
  - rewrite IH. split; [by intros ->|by intros [= ->]].
  - cbn [orb] in Hs. destruct (if y <? x then _ else _) as [p q]. rewrite andb_true_iff, IH, Hs.
    split; [by intros [-> ->]|by intros [= -> ->]].
Qed.

(** A table with the ASCII letters and the two mixed orbits. *)
Module DemoUnicode.

Definition fold (r : Z) : Z :=
  if r =? 0x6B then 0x212A else if r =? 0x212A then 0x4B
  else if r =? 0x73 then 0x17F else if r =? 0x17F then 0x53
  else if (0x41 <=? r) && (r <=? 0x5A) then r + 0x20
  else if (0x61 <=? r) && (r <=? 0x7A) then r - 0x20
  else r.

#[export] Instance demo_unicode : Unicode := {| SimpleFold := fold |}.

#[export] Instance demo_unicode_laws : UnicodeLaws.
Proof. by constructor. Qed.

End DemoUnicode.

Import DemoUnicode.

Lemma nameEqual_ascii_witness :
  nameEqual (s2b "wWw.Example.") (s2b "www.eXAMPLE.") = true.
Proof.
  apply (nameEqual_ascii (s2b "wWw.Example.") (s2b "www.eXAMPLE.")).
  1, 2: vm_compute; repeat constructor; discriminate.
  vm_compute. reflexivity.
Defined.

Lemma lor_ge x y : 0 <= x -> 0 <= y -> x <= Z.lor x y.
Proof.
  intros Hx Hy. assert (Hd : Z.ldiff x (Z.lor x y) = 0).
  { apply Z.bits_inj_0. intros n. rewrite Z.ldiff_spec, Z.lor_spec. by destruct (Z.testbit x n). }
  pose proof (Z.sub_nocarry_ldiff (Z.lor x y) x Hd) as E.
  assert (0 <= Z.ldiff (Z.lor x y) x) by (apply Z.ldiff_nonneg; left; apply Z.lor_nonneg; lia). lia.
Qed.

(** C40: beyond ASCII, [nameEqual] equates names that RFC 4343 keeps apart.
    Any two labels made of one byte that no UTF-8 encoding starts with
    compare equal, since both decode to U+FFFD; and a label holding the
    Kelvin sign, in UTF-8, equals the letter k. *)
Theorem nameEqual_conflates {U : Unicode} {UL : UnicodeLaws} :
  (forall x y, 0x80 <= x < 0xC2 -> 0x80 <= y < 0xC2 -> nameEqual [x] [y] = true) /\
  (forall x y, x <> y -> 0x80 <= x < 0xC2 -> 0x80 <= y < 0xC2 -> ~ rfc4343_eq [x] [y]) /\
  nameEqual (s2b "k.test.") ([0xE2; 0x84; 0xAA] ++ s2b ".test.") = true /\
  ~ rfc4343_eq (s2b "k.test.") ([0xE2; 0x84; 0xAA] ++ s2b ".test.").
Proof.
  split_and!.
  - intros x y Hx Hy. unfold nameEqual. cbn [EqualFold length].
    rewrite (proj2 (Z.leb_le _ _)).
    2: { unfold RuneSelf. apply Z.le_trans with x; [lia|]. apply lor_ge; lia. }
    assert (Hd : forall z, 0x80 <= z < 0xC2 -> DecodeRune [z] = (RuneError, 1%nat)).
    { intros z Hz. cbn. rewrite (proj2 (Z.ltb_ge z 0x80)), (proj2 (Z.ltb_lt z 0xC2)) by lia. done. }
    cbn [equalRunes]. rewrite !Hd by done. done.
  - intros x y Hne Hx Hy. unfold rfc4343_eq, lower. cbn [map].
    rewrite !(proj2 (andb_false_iff _ _)); [congruence| |]; right; apply Z.leb_gt; lia.
  - cbv -[SimpleFold]. rewrite fold_k. reflexivity.
  - vm_compute. discriminate.
Qed.

Lemma nameEqual_conflates_witness : nameEqual [0xC0] [0xC1] = true.
Proof. apply (proj1 nameEqual_conflates); lia. Defined.
