(* ===== verification/Answer.v ===== *)
(** * answer.go: reading the answer

    [parseAnswer] with its CNAME walk, [parseCAA] and [parseEDE]. The wire
    format of DNS messages is parsed by golang.org/x/net/dns/dnsmessage,
    which is not part of the repository: the class [DNSMessage] lists the
    methods of its [Parser] that are called, each with the parser state it
    leaves, and [DNSMessageLaws] what the code relies on. An outer [None]
    is a run-time panic. *)

From S2P Require Import Prelude Errors Netip Names.

#[local] Open Scope Z_scope.

(** ** Data *)

Definition TypeA : Z := 1.
Definition TypeTXT : Z := 16.
Definition TypeAAAA : Z := 28.
Definition TypeCAA : Z := 257.

(** dnsmessage's type numbers. *)
Definition TypeCNAME : Z := 5.
Definition TypeOPT : Z := 41.

Record CAA := mkCAA { Flags : Z; Tag : list Z; Value : list Z }.

Record Result := mkResult {
  Secure : bool;
  HaveData : bool;
  NXDomain : bool;
  AnswerPacket : list Z;
  addrs : list Addr;
  txt : list (list Z);
  caa : list CAA
}.

(** The resource bodies the code distinguishes. *)
Inductive ResourceBody :=
| AResource (A : list Z)
| AAAAResource (AAAA : list Z)
| TXTResource (TXT : list (list Z))
| CNAMEResource (CNAME : list Z)
| UnknownResource (Data : list Z)
| OtherResource.

Record Resource := mkResource { rName : list Z; rType : Z; rBody : ResourceBody }.

Record EDNSOption := mkOption { optCode : Z; optData : list Z }.

(** ** The message parser *)

Class DNSMessage := {
  Parser : Type;
  Start : list Z -> result go_error (Parser * bool);           (* the Truncated bit *)
  SkipAllQuestions : Parser -> result go_error Parser;
  AllAnswers : Parser -> result go_error (list Resource * Parser);
  SkipAllAnswers : Parser -> result go_error Parser;
  SkipAllAuthorities : Parser -> result go_error Parser;
  AdditionalHeader : Parser -> result go_error (Z * Parser);    (* the type *)
  SkipAdditional : Parser -> result go_error Parser;
  OPTResource : Parser -> result go_error (list EDNSOption * Parser)
}.

(** A resource of type CNAME has a CNAME body, and raw data is bytes. The section counts of a
    message are 16-bit; a header is only found while records remain, and
    taking or skipping a record leaves one fewer. *)
Class DNSMessageLaws {DM : DNSMessage} := {
  answers_cname p rs p' :
    AllAnswers p = Ok (rs, p') ->
    Forall (fun rr => rType rr = TypeCNAME -> exists c, rBody rr = CNAMEResource c) rs;
  answers_bytes p rs p' :
    AllAnswers p = Ok (rs, p') ->
    Forall (fun rr => forall d, rBody rr = UnknownResource d -> Forall is_byte d) rs;
  additionals : Parser -> Z;
  additionals_bound p : 0 <= additionals p <= 65535;
  AdditionalHeader_left p ty p' :
    AdditionalHeader p = Ok (ty, p') -> additionals p' = additionals p /\ 0 < additionals p;
  SkipAdditional_left p p' : SkipAdditional p = Ok p' -> additionals p' < additionals p;
  OPTResource_left p os p' : OPTResource p = Ok (os, p') -> additionals p' < additionals p
}.

Section Answer.
Context {U : Unicode} {DM : DNSMessage}.

(** ** CNAME chains *)

(** [cnameTarget]; the type assertion panics on another body. *)
Fixpoint cnameTarget (answers : list Resource) (owner : list Z) : option (option (list Z)) :=
  match answers with
  | [] => Some None
  | rr :: answers =>
      if (rType rr =? TypeCNAME) && nameEqual (rName rr) owner then
        match rBody rr with CNAMEResource c => Some (Some c) | _ => None end
      else cnameTarget answers owner
  end.

(** The loop of [parseAnswer]: one step per answer record at most. *)
Fixpoint followChain (steps : list Resource) (answers : list Resource) (owner : list Z) : option (list Z) :=
  match steps with
  | [] => Some owner
  | _ :: steps =>
      next ← cnameTarget answers owner;
      match next with
      | None => Some owner
      | Some next => followChain steps answers next
      end
  end.

(** ** Records *)

(** [parseCAA]. *)
Definition parseCAA (data : list Z) : option (result go_error CAA) :=
  let malformed := Some (Err (errorsNew "unbound: malformed CAA record")) in
  if zlen data <? 2 then malformed
  else
    d1 ← go_index data 1;
    if d1 =? 0 then malformed
    else if zlen data <? 2 + d1 then malformed
    else
      d0 ← go_index data 0;
      tag ← go_slice data 2 (2 + d1);
      value ← go_slice data (2 + d1) (zlen data);
      Some (Ok (mkCAA d0 tag value)).

Definition set_HaveData (r : Result) : Result :=
  mkResult (Secure r) true (NXDomain r) (AnswerPacket r) (addrs r) (txt r) (caa r).

Definition add_addr (a : Addr) (r : Result) : Result :=
  mkResult (Secure r) (HaveData r) (NXDomain r) (AnswerPacket r) (addrs r ++ [a]) (txt r) (caa r).

Definition add_txt (t : list Z) (r : Result) : Result :=
  mkResult (Secure r) (HaveData r) (NXDomain r) (AnswerPacket r) (addrs r) (txt r ++ [t]) (caa r).

Definition add_caa (c : CAA) (r : Result) : Result :=
  mkResult (Secure r) (HaveData r) (NXDomain r) (AnswerPacket r) (addrs r) (txt r) (caa r ++ [c]).

(** The loop over the answers: the result as filled so far, and an error
    that ends it. *)
Fixpoint collect (qtype : Z) (owner : list Z) (answers : list Resource) (r : Result)
    : option (Result * option go_error) :=
  match answers with
  | [] => Some (r, None)
  | rr :: answers =>
      if negb (rType rr =? qtype) || negb (nameEqual (rName rr) owner) then collect qtype owner answers r
      else
        let r := set_HaveData r in
        match rBody rr with
        | AResource A => collect qtype owner answers (add_addr (AddrFrom4 A) r)
        | AAAAResource AAAA => collect qtype owner answers (add_addr (AddrFrom16 AAAA) r)
        | TXTResource TXT => collect qtype owner answers (add_txt (concat TXT) r)
        | UnknownResource Data =>
            if qtype =? TypeCAA then
              c ← parseCAA Data;
              match c with
              | Err e => Some (r, Some e)
              | Ok c => collect qtype owner answers (add_caa c r)
              end
            else collect qtype owner answers r
        | _ => collect qtype owner answers r
        end
  end.

(** [parseAnswer]: the result it fills, and its error. *)
Definition parseAnswer (r : Result) (qname : list Z) (qtype : Z) : option (Result * option go_error) :=
  if zlen (AnswerPacket r) =? 0 then Some (r, None)
  else
    let malformed e := Some (r, Some (errorfw "unbound: malformed answer packet: " e)) in
    match Start (AnswerPacket r) with
    | Err e => malformed e
    | Ok (p, truncated) =>
        if truncated : bool then Some (r, Some (errorsNew "unbound: truncated answer"))
        else
          match SkipAllQuestions p with
          | Err e => malformed e
          | Ok p =>
              match AllAnswers p with
              | Err e => malformed e
              | Ok (answers, p) =>
                  owner ← (if negb (qtype =? TypeCNAME) then followChain answers answers qname
                           else Some qname);
                  collect qtype owner answers r
              end
          end
    end.

(** ** Extended DNS errors *)

(** [strings.TrimSuffix(s, "\x00")]. *)
Definition trimNul (s : list Z) : list Z :=
  if bool_decide (last s = Some 0) then removelast s else s.

Definition optionEDE : Z := 15.

(** The loop over the options of one OPT record. *)
Fixpoint optionEDEs (opts : list EDNSOption) : option (list EDE) :=
  match opts with
  | [] => Some []
  | o :: opts =>
      if negb (optCode o =? optionEDE) || (zlen (optData o) <? 2) then optionEDEs opts
      else
        code ← go_slice (optData o) 0 2;
        text ← go_slice (optData o) 2 (zlen (optData o));
        rest ← optionEDEs opts;
        Some (mkEDE (be_decode code) (trimNul text) :: rest)
  end.

(** The outer loop: [None] for a panic, [Some None] when [fuel] ran out. *)
Fixpoint additionalEDEs (fuel : nat) (p : Parser) (edes : list EDE) : option (option (list EDE)) :=
  match fuel with
  | O => Some None
  | S fuel =>
      match AdditionalHeader p with
      | Err _ => Some (Some edes)
      | Ok (ty, p) =>
          if negb (ty =? TypeOPT) then
            match SkipAdditional p with
            | Err _ => Some (Some edes)
            | Ok p => additionalEDEs fuel p edes
            end
          else
            match OPTResource p with
            | Err _ => Some (Some edes)
            | Ok (opts, p) =>
                es ← optionEDEs opts;
                additionalEDEs fuel p (edes ++ es)
            end
      end
  end.

(** One turn per additional record, and one for the end of the section. *)
Definition edeFuel : nat := Z.to_nat 65536.

(** [parseEDE]; a nil slice is the empty list. *)
Definition parseEDE (packet : list Z) : option (option (list EDE)) :=
  match Start packet with
  | Err _ => Some (Some [])
  | Ok (p, _) =>
      match (let? p := SkipAllQuestions p in let? p := SkipAllAnswers p in SkipAllAuthorities p) with
      | Err _ => Some (Some [])
      | Ok p => additionalEDEs edeFuel p []
      end
  end.

End Answer.
