(* ===== verification/AnswerSpec.v ===== *)
(** * What reading an answer guarantees

    Theorems about Answer.v: the bounded CNAME walk finds the end of every
    chain that has one, a successful [parseAnswer] reports exactly the
    matching records and accepts nothing malformed, [parseCAA] is the
    inverse of the wire format, and [parseEDE] always returns. *)

From S2P Require Import Prelude Errors Netip Names Answer.

#[local] Open Scope Z_scope.

(** ** CNAME chains *)

Section Chain.
Context {U : Unicode}.
Variable answers : list Resource.

Hypothesis cname_bodies :
  Forall (fun rr => rType rr = TypeCNAME -> exists c, rBody rr = CNAMEResource c) answers.

(** One CNAME of the answer section, and the owner at the end of a chain. *)
Definition cname_step (o o' : list Z) : Prop := cnameTarget answers o = Some (Some o').

Definition chain_end (o o' : list Z) : Prop :=
  rtc cname_step o o' /\ cnameTarget answers o' = Some None.

(** The record a lookup uses. *)
Definition is_hit (o : list Z) (rr : Resource) : bool :=
  (rType rr =? TypeCNAME) && nameEqual (rName rr) o.

Definition target (i : nat) : list Z :=
  match answers !! i with
  | Some rr => match rBody rr with CNAMEResource c => c | _ => [] end
  | None => []
  end.

Lemma cnameTarget_cases o :
  cnameTarget answers o = Some None \/
  exists i, (i < length answers)%nat /\ cnameTarget answers o = Some (Some (target i)).
Proof.
  unfold target. revert cname_bodies. induction answers as [|rr rs IH]; [by left|].
  intros [Hb Hbs]%Forall_cons. cbn [cnameTarget].
  destruct (_ && _) eqn:E.
  - bool_props. destruct (Hb ltac:(done)) as [c Hc]. rewrite Hc. right. exists 0%nat.
    cbn. split; [lia|]. by rewrite Hc.
  - destruct (IH Hbs) as [?|(i & Hi & ?)]; [by left|]. right. exists (S i). cbn. split; [lia|done].
Qed.

Lemma cname_step_det o a b : cname_step o a -> cname_step o b -> a = b.
Proof. unfold cname_step. congruence. Qed.

Lemma nsteps_end_det n m o e :
  nsteps cname_step n o e -> nsteps cname_step m o e -> cnameTarget answers e = Some None -> n = m.
Proof.
  intros Hn. revert m. induction Hn as [o|n o o1 e Hs _ IH]; intros m Hm He.
  - inversion Hm as [|m' ? o2 ? Hs' _]; [done|]. unfold cname_step in Hs'. congruence.
  - inversion Hm as [|m' ? o2 ? Hs' Hm']; subst.
    + unfold cname_step in Hs. congruence.
    + rewrite (cname_step_det _ _ _ Hs Hs') in IH. f_equal. by apply IH.
Qed.

(** A chain that ends uses each record at most once. *)
Lemma chain_records k o e :
  nsteps cname_step k o e -> cnameTarget answers e = Some None ->
  exists L : list nat, length L = k /\ NoDup L /\
    forall i, i ∈ L -> (i < length answers)%nat /\ exists m, (m < k)%nat /\ nsteps cname_step m (target i) e.
Proof.
  intros Hk He. induction Hk as [o|k o o1 e Hs Hk IH].
  - exists []. split_and!; [done|constructor|]. by intros i Hi%not_elem_of_nil.
  - destruct (IH He) as (L & HL & Hnd & Hin).
    destruct (cnameTarget_cases o) as [Hn|(i0 & Hi0 & Ht)]; [unfold cname_step in Hs; congruence|].
    assert (o1 = target i0) as -> by (unfold cname_step in Hs; congruence).
    exists (i0 :: L). split_and!; [cbn; lia| |].
    + constructor; [|done]. intros Hi. destruct (Hin i0 Hi) as (_ & m & Hm & Hms).
      pose proof (nsteps_end_det _ _ _ _ Hk Hms He). lia.
    + intros i [->|Hi]%elem_of_cons; [split; [done|exists k; split; [lia|done]]|].
      destruct (Hin i Hi) as (? & m & ? & ?). split; [done|]. exists m. split; [lia|done].
Qed.

Lemma chain_bound k o e :
  nsteps cname_step k o e -> cnameTarget answers e = Some None -> (k <= length answers)%nat.
Proof.
  intros Hk He. destruct (chain_records k o e Hk He) as (L & <- & Hnd & Hin).
  rewrite <- (length_seq (length answers) 0).
  apply submseteq_length, NoDup_submseteq; [done|].
  intros i Hi. apply elem_of_seq. destruct (Hin i Hi). lia.
Qed.

Lemma followChain_end steps k o e :
  nsteps cname_step k o e -> cnameTarget answers e = Some None -> (k <= length steps)%nat ->
  followChain steps answers o = Some e.
Proof.
  intros Hk. revert steps. induction Hk as [o|k o o1 e Hs _ IH]; intros steps He Hl.
  - destruct steps as [|x steps]; [done|]. cbn. by rewrite He.
  - destruct steps as [|x steps]; [cbn in Hl; lia|]. cbn. unfold cname_step in Hs. rewrite Hs. cbn.
    apply IH; [done|]. cbn in Hl. lia.
Qed.

Lemma followChain_reaches steps o : exists o', followChain steps answers o = Some o' /\ rtc cname_step o o'.
Proof.
  revert o. induction steps as [|x steps IH]; intros o; [by exists o|]. cbn.
  destruct (cnameTarget_cases o) as [->|(i & _ & Hi)]; cbn; [by exists o|]. rewrite Hi. cbn.
  destruct (IH (target i)) as (o' & Ho & Hr). exists o'. split; [done|]. by eapply rtc_l.
Qed.

Lemma followChain_complete o e : chain_end o e -> followChain answers answers o = Some e.
Proof.
  intros [[k Hk]%rtc_nsteps He]. eapply followChain_end; [done..|]. by eapply chain_bound.
Qed.

End Chain.

(** C29: the bounded CNAME walk is enough. It takes at most one step per
    answer record, yet it reaches the end of every chain that has one: if
    following CNAME records of the answer section from [o] arrives at a
    name [e] without a CNAME record, the walk returns [e]. On a loop it
    still ends, at a name of the loop, and it never panics. *)
Theorem cname_walk {U : Unicode} answers o :
  Forall (fun rr => rType rr = TypeCNAME -> exists c, rBody rr = CNAMEResource c) answers ->
  (forall e, chain_end answers o e -> followChain answers answers o = Some e) /\
  exists o', followChain answers answers o = Some o' /\ rtc (cname_step answers) o o'.
Proof.
  intros Hb. split; [intros e; by apply followChain_complete|by apply followChain_reaches].
Qed.

(** ** CAA records *)

(** The wire format of RFC 8659, section 4.1. *)
Definition caa_wire (c : CAA) : list Z := Flags c :: zlen (Tag c) :: Tag c ++ Value c.

Lemma parseCAA_wire c : 1 <= zlen (Tag c) -> parseCAA (caa_wire c) = Some (Ok c).
Proof.
  intros Ht. destruct c as [fl tag val]. unfold parseCAA, caa_wire. cbn [Flags Tag Value] in *.
  pose proof (zlen_nonneg val).
  change (go_index (fl :: zlen tag :: tag ++ val) 1) with (Some (zlen tag)).
  change (go_index (fl :: zlen tag :: tag ++ val) 0) with (Some fl).
  rewrite !zlen_cons, zlen_app. cbn [mbind option_bind].
  rewrite (proj2 (Z.ltb_ge (1 + (1 + (zlen tag + zlen val))) 2)) by lia.
  rewrite (proj2 (Z.eqb_neq (zlen tag) 0)) by lia.
  rewrite (proj2 (Z.ltb_ge (1 + (1 + (zlen tag + zlen val))) (2 + zlen tag))) by lia.
  change (fl :: zlen tag :: tag ++ val) with ([fl; zlen tag] ++ tag ++ val).
  rewrite (go_slice_mid [fl; zlen tag] tag val 2 (2 + zlen tag)) by done. cbn [mbind option_bind].
  replace ([fl; zlen tag] ++ tag ++ val) with (([fl; zlen tag] ++ tag) ++ val ++ []) by (by rewrite app_nil_r, app_assoc).
  rewrite go_slice_mid; [done|by rewrite zlen_app|rewrite zlen_app, !zlen_cons, zlen_nil; lia].
Qed.

Lemma parseCAA_spec_core data :
  Forall is_byte data ->
  is_Some (parseCAA data) /\
  forall c, parseCAA data = Some (Ok c) <-> data = caa_wire c /\ 1 <= zlen (Tag c) <= 255.
Proof.
  intros Hb.
  destruct data as [|d0 [|d1 rest]]; [split; [done|]; intros c; split; [done|by intros []]..|].
  apply Forall_cons in Hb as [Hd0 [Hd1 Hb]%Forall_cons].
  destruct (decide (1 <= d1 <= zlen rest)) as [Hok|Hbad].
  - assert (Hr : rest = take (Z.to_nat d1) rest ++ drop (Z.to_nat d1) rest) by (by rewrite take_drop).
    set (tag := take (Z.to_nat d1) rest) in *. set (val := drop (Z.to_nat d1) rest) in *.
    assert (Hl : zlen tag = d1) by (subst tag; unfold zlen in *; rewrite length_take; lia).
    assert (Hw : d0 :: d1 :: rest = caa_wire (mkCAA d0 tag val))
      by (unfold caa_wire; cbn [Flags Tag Value]; by rewrite Hl, <- Hr).
    rewrite Hw, parseCAA_wire by (cbn; lia). split; [done|]. unfold is_byte in *.
    intros c. split; [intros [= <-]; cbn; split; [done|lia]|]. intros [Heq Hc]. do 2 f_equal.
    unfold caa_wire in Heq. destruct c as [fl t v]. cbn [Flags Tag Value] in *.
    injection Heq as -> Ht Htv. apply app_inj_1 in Htv as [-> ->]; [done|]. unfold zlen in *. lia.
  - assert (Hn : exists e, parseCAA (d0 :: d1 :: rest) = Some (Err e)).
    { unfold parseCAA. rewrite !zlen_cons. pose proof (zlen_nonneg rest).
      rewrite (proj2 (Z.ltb_ge _ 2)) by lia.
      change (go_index (d0 :: d1 :: rest) 1) with (Some d1). cbn [mbind option_bind].
      destruct (Z.eqb_spec d1 0); [eauto|]. unfold is_byte in *.
      rewrite (proj2 (Z.ltb_lt _ _)) by lia. eauto. }
    destruct Hn as [e ->]. split; [done|]. intros c. split; [done|]. intros [Heq Hc]. exfalso.
    injection Heq as _ -> ->. rewrite zlen_app in Hbad. pose proof (zlen_nonneg (Value c)). lia.
Qed.

(** C30: [parseCAA] is the inverse of the CAA wire format and cannot panic.
    On every byte string it returns; it returns a record exactly for the
    encodings of records with a non-empty tag of at most 255 bytes, and
    then the record that was encoded. *)
Theorem parseCAA_spec data :
  Forall is_byte data ->
  is_Some (parseCAA data) /\
  forall c, parseCAA data = Some (Ok c) <-> data = caa_wire c /\ 1 <= zlen (Tag c) <= 255.
Proof. apply parseCAA_spec_core. Qed.

Lemma parseCAA_spec_witness :
  parseCAA (128 :: 5 :: s2b "issueca.example") = Some (Ok (mkCAA 128 (s2b "issue") (s2b "ca.example"))).
Proof.
  apply (proj2 (parseCAA_spec (128 :: 5 :: s2b "issueca.example")
    ltac:(vm_compute; repeat constructor; discriminate))).
  vm_compute. split; [reflexivity|split; discriminate].
Defined.

(** ** The records of an answer *)

Section Records.
Context {U : Unicode} {DM : DNSMessage} {DL : DNSMessageLaws}.

(** The records a query selects. *)
Definition selected (qtype : Z) (owner : list Z) (rs : list Resource) : list Resource :=
  List.filter (fun rr => (rType rr =? qtype) && nameEqual (rName rr) owner) rs.

Definition addr_of (rr : Resource) : option Addr :=
  match rBody rr with
  | AResource A => Some (AddrFrom4 A)
  | AAAAResource AAAA => Some (AddrFrom16 AAAA)
  | _ => None
  end.

Definition txt_of (rr : Resource) : option (list Z) :=
  match rBody rr with TXTResource T => Some (concat T) | _ => None end.

(** The CAA data of a selected record. *)
Definition caa_data (qtype : Z) (rr : Resource) : option (list Z) :=
  match rBody rr with
  | UnknownResource D => if qtype =? TypeCAA then Some D else None
  | _ => None
  end.

(** What [collect] adds to a result. *)
Lemma collect_ok qtype owner rs r r' :
  collect qtype owner rs r = Some (r', None) ->
  let sel := selected qtype owner rs in
  HaveData r' = (HaveData r || bool_decide (sel <> [])) /\
  addrs r' = addrs r ++ omap addr_of sel /\
  txt r' = txt r ++ omap txt_of sel /\
  (exists cs, caa r' = caa r ++ cs /\
     Forall2 (fun d c => parseCAA d = Some (Ok c)) (omap (caa_data qtype) sel) cs) /\
  Secure r' = Secure r /\ NXDomain r' = NXDomain r /\ AnswerPacket r' = AnswerPacket r.
Proof.
  cbv zeta. revert r. induction rs as [|rr rs IH]; intros r; cbn [collect selected List.filter].
  { intros [= <-]. cbn. rewrite !app_nil_r, orb_false_r. split_and!; try done. exists []. by rewrite app_nil_r. }
  rewrite <- negb_andb. destruct ((rType rr =? qtype) && nameEqual (rName rr) owner) eqn:Esel; cbn [negb].
  2: { intros H. exact (IH r H). }
  fold (selected qtype owner rs). intros H.
  rewrite bool_decide_eq_true_2 by done. rewrite orb_true_r.
  cbn [omap list_omap]. unfold addr_of at 1, txt_of at 1, caa_data at 1.
  destruct (rBody rr) as [A|A|T|c|D|].
  - destruct (IH _ H) as (-> & -> & -> & Hc & ? & ? & ?). cbn. by rewrite <- app_assoc.
  - destruct (IH _ H) as (-> & -> & -> & Hc & ? & ? & ?). cbn. by rewrite <- app_assoc.
  - destruct (IH _ H) as (-> & -> & -> & Hc & ? & ? & ?). cbn. by rewrite <- app_assoc.
  - by destruct (IH _ H) as (-> & -> & -> & Hc & ? & ? & ?).
  - destruct (qtype =? TypeCAA).
    + destruct (parseCAA D) as [[c|e]|] eqn:Ec; [|done|done]. cbn [mbind option_bind] in H.
      destruct (IH _ H) as (-> & -> & -> & (cs & -> & Hcs) & ? & ? & ?). cbn.
      split_and!; try done. exists (c :: cs). rewrite <- app_assoc. split; [done|by constructor].
    + by destruct (IH _ H) as (-> & -> & -> & Hc & ? & ? & ?).
  - by destruct (IH _ H) as (-> & -> & -> & Hc & ? & ? & ?).
Qed.

Lemma collect_total qtype owner rs r :
  Forall (fun rr => forall d, rBody rr = UnknownResource d -> Forall is_byte d) rs ->
  is_Some (collect qtype owner rs r).
Proof.
  intros Hb. revert r. induction Hb as [|rr rs Hrr _ IH]; intros r; cbn [collect]; [eauto|].
  destruct (_ || _); [auto|]. destruct (rBody rr) as [A|A|T|c|D|] eqn:Eb; auto.
  destruct (qtype =? TypeCAA); [|auto].
  destruct (proj1 (parseCAA_spec_core D (Hrr D eq_refl))) as [[c|e] ->]; cbn; eauto.
Qed.

(** The answer section a query reads, and the owner it selects. *)
Definition answer_of (packet qname : list Z) (qtype : Z) (answers : list Resource) (owner : list Z) : Prop :=
  exists p p1 p2, Start packet = Ok (p, false) /\ SkipAllQuestions p = Ok p1 /\
    AllAnswers p1 = Ok (answers, p2) /\
    if qtype =? TypeCNAME then owner = qname
    else rtc (cname_step answers) qname owner /\ (forall e, chain_end answers qname e -> owner = e).

(** The result [r'] reports what the packet of [r] answers. *)
Definition answers_query (r : Result) (qname : list Z) (qtype : Z) (r' : Result) : Prop :=
  (AnswerPacket r = [] /\ r' = r) \/
  exists answers owner, answer_of (AnswerPacket r) qname qtype answers owner /\
    let sel := selected qtype owner answers in
    HaveData r' = (HaveData r || bool_decide (sel <> [])) /\
    addrs r' = addrs r ++ omap addr_of sel /\
    txt r' = txt r ++ omap txt_of sel /\
    (exists cs, caa r' = caa r ++ cs /\
       Forall2 (fun d c => parseCAA d = Some (Ok c)) (omap (caa_data qtype) sel) cs) /\
    Secure r' = Secure r /\ NXDomain r' = NXDomain r /\ AnswerPacket r' = AnswerPacket r.

Lemma answers_query_keeps r qname qtype r' :
  answers_query r qname qtype r' ->
  Secure r' = Secure r /\ NXDomain r' = NXDomain r /\ AnswerPacket r' = AnswerPacket r.
Proof. intros [[_ ->]|(rs & o & _ & _ & _ & _ & _ & H)]; [done|exact H]. Qed.

Lemma parseAnswer_core r qname qtype :
  is_Some (parseAnswer r qname qtype) /\
  forall r', parseAnswer r qname qtype = Some (r', None) -> answers_query r qname qtype r'.
Proof.
  unfold parseAnswer. destruct (Z.eqb_spec (zlen (AnswerPacket r)) 0) as [Hz|Hz].
  { split; [done|]. intros r' [= <-]. left. split; [|done]. by destruct (AnswerPacket r). }
  destruct (Start (AnswerPacket r)) as [[p tr]|e] eqn:E1; [|by split].
  destruct tr; [by split|]. destruct (SkipAllQuestions p) as [p1|e] eqn:E2; [|by split].
  destruct (AllAnswers p1) as [[rs p2]|e] eqn:E3; [|by split].
  pose proof (answers_cname _ _ _ E3) as Hc. pose proof (answers_bytes _ _ _ E3) as Hb.
  assert (Ho : exists owner, (if negb (qtype =? TypeCNAME) then followChain rs rs qname else Some qname) = Some owner /\
            answer_of (AnswerPacket r) qname qtype rs owner).
  { destruct (qtype =? TypeCNAME) eqn:Eq; cbn [negb].
    - exists qname. split; [done|]. exists p, p1, p2. by rewrite Eq.
    - destruct (followChain_reaches rs Hc rs qname) as (o & Ho & Hr). exists o. split; [done|].
      exists p, p1, p2. rewrite Eq. split_and!; try done.
      intros e He. pose proof (followChain_complete rs Hc qname e He). congruence. }
  destruct Ho as (owner & -> & Ha). cbn [mbind option_bind].
  split; [by apply collect_total|]. intros r' Hr'. right. exists rs, owner. split; [done|].
  by apply collect_ok.
Qed.

(** C10: what a successful [parseAnswer] means. It never panics. When it
    returns no error for a packet, the packet parsed completely and was not
    truncated, so an incomplete answer is never reported as an empty one;
    [HaveData] tells whether the answer section has a record of the queried
    type at the end of the CNAME chain from [qname]; the addresses, texts
    and CAA records are exactly those of the selected records, in order,
    and every selected CAA record was well formed. Nothing else of the
    result changes. *)
Theorem parseAnswer_spec r qname qtype :
  is_Some (parseAnswer r qname qtype) /\
  forall r', parseAnswer r qname qtype = Some (r', None) -> answers_query r qname qtype r'.
Proof. exact (parseAnswer_core r qname qtype). Qed.

(** ** Extended DNS errors *)

Lemma optionEDEs_total opts : is_Some (optionEDEs opts).
Proof.
  induction opts as [|o opts [es IH]]; [done|]. cbn. destruct (_ || _) eqn:E; [eauto|]. bool_props.
  rewrite !go_slice_Some by lia. cbn. rewrite IH. cbn. eauto.
Qed.

Lemma additionalEDEs_total fuel p edes :
  additionals p < Z.of_nat fuel -> exists l, additionalEDEs fuel p edes = Some (Some (edes ++ l)).
Proof.
  revert p edes. induction fuel as [|fuel IH]; intros p edes Hf; [pose proof (additionals_bound p); lia|].
  cbn [additionalEDEs].
  destruct (AdditionalHeader p) as [[ty p1]|e] eqn:Eh; [|exists []; by rewrite app_nil_r].
  destruct (AdditionalHeader_left _ _ _ Eh) as [Hl _].
  destruct (negb (ty =? TypeOPT)).
  - destruct (SkipAdditional p1) as [p2|e] eqn:Es; [|exists []; by rewrite app_nil_r].
    apply SkipAdditional_left in Es. apply IH. lia.
  - destruct (OPTResource p1) as [[os p2]|e] eqn:Eo; [|exists []; by rewrite app_nil_r].
    apply OPTResource_left in Eo. destruct (optionEDEs_total os) as [es ->]. cbn [mbind option_bind].
    destruct (IH p2 (edes ++ es)) as [l ->]; [lia|]. exists (es ++ l). by rewrite app_assoc.
Qed.

(** [parseEDE] always returns a list, on every packet: its loop, which
    has no counter, ends within one turn per additional record, and no
    option makes it panic. *)
Lemma parseEDE_total packet : exists l, parseEDE packet = Some (Some l).
Proof.
  unfold parseEDE. destruct (Start packet) as [[p tr]|e]; [|eauto].
  destruct (let? p := SkipAllQuestions p in let? p := SkipAllAnswers p in SkipAllAuthorities p) as [p1|e]; [|eauto].
  destruct (additionalEDEs_total edeFuel p1 []) as [l Hl]; [|eauto].
  pose proof (additionals_bound p1). unfold edeFuel. lia.
Qed.

End Records.

(** ** A concrete parser *)

(** A parser whose messages are written down: packet [[1]] is an answer
    with a two-step CNAME chain, a loop, and an OPT record with an extended
    error; any other packet is malformed. *)
Module DemoDNS.

Definition chain_answers : list Resource := [
  mkResource (s2b "www.example.") 5 (CNAMEResource (s2b "cdn.example."));
  mkResource (s2b "CDN.example.") 5 (CNAMEResource (s2b "host.example."));
  mkResource (s2b "loop.example.") 5 (CNAMEResource (s2b "loop.example."));
  mkResource (s2b "host.example.") 1 (AResource [192; 0; 2; 1]);
  mkResource (s2b "other.example.") 1 (AResource [192; 0; 2; 2]);
  mkResource (s2b "host.example.") 1 (AResource [192; 0; 2; 3])].

Record parser := mkParser { left_answers : list Resource; left_additional : list (Z * list EDNSOption) }.

Definition demo_parser : parser :=
  mkParser chain_answers [(1, []); (41, [mkOption 15 ([0; 22] ++ s2b "timeout" ++ [0])])].

Definition eof : go_error := errorsNew "section done".

#[export] Instance demo_dns : DNSMessage := {|
  Parser := parser;
  Start pkt := if bool_decide (pkt = [1]) then Ok (demo_parser, false) else Err eof;
  SkipAllQuestions p := Ok p;
  AllAnswers p := Ok (chain_answers, mkParser [] (left_additional p));
  SkipAllAnswers p := Ok (mkParser [] (left_additional p));
  SkipAllAuthorities p := Ok p;
  AdditionalHeader p := match take (Z.to_nat 65535) (left_additional p) with
                        | [] => Err eof
                        | x :: _ => Ok (fst x, p)
                        end;
  SkipAdditional p := match take (Z.to_nat 65535) (left_additional p) with
                      | [] => Err eof
                      | _ :: l => Ok (mkParser (left_answers p) l)
                      end;
  OPTResource p := match take (Z.to_nat 65535) (left_additional p) with
                   | [] => Err eof
                   | x :: l => Ok (snd x, mkParser (left_answers p) l)
                   end
|}.

#[export] Instance demo_dns_laws : DNSMessageLaws.
Proof.
  refine {| additionals p := zlen (take (Z.to_nat 65535) (left_additional p)) |}.
  - intros p rs p' [= <- _]. repeat constructor; cbn; intros; try discriminate; eauto.
  - intros p rs p' [= <- _]. repeat constructor; cbn; intros; discriminate.
  - intros p. unfold zlen. rewrite length_take. lia.
  - intros p ty p'. cbn. destruct (take _ (left_additional p)) as [|x l] eqn:E; [done|]. intros [= _ <-].
    rewrite E. split; [done|]. rewrite zlen_cons. pose proof (zlen_nonneg l). lia.
  - intros p p'. cbn. destruct (take _ (left_additional p)) as [|x l] eqn:E; [done|]. intros [= <-].
    cbn [left_additional]. rewrite zlen_cons. unfold zlen. rewrite length_take. lia.
  - intros p os p'. cbn. destruct (take _ (left_additional p)) as [|x l] eqn:E; [done|]. intros [= _ <-].
    cbn [left_additional]. rewrite zlen_cons. unfold zlen. rewrite length_take. lia.
Qed.

Definition blank : Result := mkResult true false false [1] [] [] [].

End DemoDNS.

Import DemoUnicode DemoDNS.

Lemma cname_walk_witness :
  followChain chain_answers chain_answers (s2b "www.example.") = Some (s2b "host.example.").
Proof.
  apply (proj1 (cname_walk chain_answers (s2b "www.example.")
    ltac:(repeat constructor; cbn; intros; try discriminate; eauto))).
  split; [|vm_compute; reflexivity].
  apply (rtc_l _ _ (s2b "cdn.example.")); [vm_compute; reflexivity|].
  apply rtc_once. vm_compute. reflexivity.
Defined.

Definition demo_result : Result :=
  mkResult true true false [1] [AddrFrom4 [192; 0; 2; 1]; AddrFrom4 [192; 0; 2; 3]] [] [].

Lemma demo_parse : parseAnswer blank (s2b "www.example.") 1 = Some (demo_result, None).
Proof. vm_compute. reflexivity. Qed.

Lemma parseAnswer_spec_witness :
  exists answers owner, answer_of [1] (s2b "www.example.") 1 answers owner /\
    addrs demo_result = omap addr_of (selected 1 owner answers).
Proof.
  destruct (proj2 (parseAnswer_spec blank (s2b "www.example.") 1) _ demo_parse)
    as [[H _]|(rs & o & Ha & _ & Haddrs & _)]; [discriminate H|].
  exists rs, o. split; [exact Ha|exact Haddrs].
Defined.

Lemma parseEDE_total_witness :
  parseEDE [1] = Some (Some [mkEDE 22 (s2b "timeout")]) /\ exists l, parseEDE [2] = Some (Some l).
Proof. split; [vm_compute; reflexivity|]. exact (parseEDE_total [2]). Defined.
