(* ===== verification/SocketsSpec.v ===== *)
(** * Functional behaviour of the host calls

    Theorems about single operations of host.go and sockets.go, run without
    interference ([run]): the event queue, timers, the life of a socket,
    and receiving from TCP streams and UDP sockets. *)

From S2P Require Import Prelude Errors Errno Netip Egress GuestMem Proc Host Sockets System.

#[local] Open Scope Z_scope.

(** ** Closing sockets *)

Lemma close_udp_state c s :
  run_state (close_udp c) s =
  match c with
  | None => s
  | Some c => set_uconns (alter (fun k => mkUDP (u_port k) false) c (uconns s)) s
  end.
Proof. by destruct c. Qed.

Lemma close_tcp_state c s :
  run_state (close_tcp c) s =
  match c with
  | None => s
  | Some c => set_tconns (alter (fun k => mkTCP (t_port k) (t_peer k) false) c (tconns s)) s
  end.
Proof. by destruct c. Qed.

Lemma sock_close_state l s :
  run_state (sock_close l) s =
  match heap s !! l with
  | Some sk => if closed sk then s
               else run_state (close_tcp (tcp sk)) (run_state (close_udp (udp sk))
                      (upd_socket l (s_closed true) s))
  | None => s
  end.
Proof.
  unfold sock_close. runs. destruct (heap s !! l) as [sk|]; [|done].
  destruct (closed sk); [done|]. cbn [fst snd]. by runs.
Qed.

(** Every open operating-system socket belongs to an open [hostSocket] at
    one of the locations [ls]. *)
Record owned (ls : list nat) (s : instanceState) : Prop := {
  ow_udp : forall c k, uconns s !! c = Some k -> u_open k = true ->
           exists l sk, l ∈ ls /\ heap s !! l = Some sk /\ closed sk = false /\ udp sk = Some c;
  ow_tcp : forall c k, tconns s !! c = Some k -> t_open k = true ->
           exists l sk, l ∈ ls /\ heap s !! l = Some sk /\ closed sk = false /\ tcp sk = Some c
}.

Lemma alter_udp_open (o : option nat) (us : list udpConn) c k :
  (match o with Some d => alter (fun k => mkUDP (u_port k) false) d us | None => us end) !! c = Some k ->
  u_open k = true -> us !! c = Some k /\ o <> Some c.
Proof.
  destruct o as [d|]; [|done]. rewrite list_lookup_alter. case_decide as Hd.
  - subst. destruct (us !! c); cbn; [|done]. by intros [= <-].
  - intros. split; [done|congruence].
Qed.

Lemma alter_tcp_open (o : option nat) (ts : list tcpConn) c k :
  (match o with Some d => alter (fun k => mkTCP (t_port k) (t_peer k) false) d ts | None => ts end) !! c = Some k ->
  t_open k = true -> ts !! c = Some k /\ o <> Some c.
Proof.
  destruct o as [d|]; [|done]. rewrite list_lookup_alter. case_decide as Hd.
  - subst. destruct (ts !! c); cbn; [|done]. by intros [= <-].
  - intros. split; [done|congruence].
Qed.

(** The effect of closing one socket, projection by projection. *)
Lemma sock_close_open l s sk :
  heap s !! l = Some sk -> closed sk = false ->
  let s' := run_state (sock_close l) s in
  heap s' = alter (s_closed true) l (heap s) /\
  uconns s' = (match udp sk with
               | Some d => alter (fun k => mkUDP (u_port k) false) d (uconns s)
               | None => uconns s end) /\
  tconns s' = (match tcp sk with
               | Some d => alter (fun k => mkTCP (t_port k) (t_peer k) false) d (tconns s)
               | None => tconns s end).
Proof.
  intros Hl Hc. cbv zeta. rewrite sock_close_state, Hl, Hc, close_tcp_state, close_udp_state.
  destruct (udp sk), (tcp sk); done.
Qed.

Lemma sock_close_owned l ls s : owned (l :: ls) s -> owned ls (run_state (sock_close l) s).
Proof.
  intros [Hu Ht].
  destruct (heap s !! l) as [sk|] eqn:E; [destruct (closed sk) eqn:Ec|].
  2: { destruct (sock_close_open l s sk E Ec) as (Hh & HU & HT). constructor.
       - intros c k Hk Ho. rewrite HU in Hk. destruct (alter_udp_open _ _ _ _ Hk Ho) as [Hk' Hne].
         destruct (Hu c k Hk' Ho) as (l' & sk' & Hin & Hl' & Hc' & Hud).
         apply elem_of_cons in Hin as [->|Hin]; [congruence|].
         destruct (decide (l' = l)) as [->|Hl]; [congruence|].
         exists l', sk'. rewrite Hh, list_lookup_alter_ne by done. done.
       - intros c k Hk Ho. rewrite HT in Hk. destruct (alter_tcp_open _ _ _ _ Hk Ho) as [Hk' Hne].
         destruct (Ht c k Hk' Ho) as (l' & sk' & Hin & Hl' & Hc' & Hud).
         apply elem_of_cons in Hin as [->|Hin]; [congruence|].
         destruct (decide (l' = l)) as [->|Hl]; [congruence|].
         exists l', sk'. rewrite Hh, list_lookup_alter_ne by done. done. }
  all: rewrite sock_close_state, E; try rewrite Ec; constructor; intros c k Hk Ho;
    [destruct (Hu c k Hk Ho) as (l' & sk' & Hin & Hrest)
    |destruct (Ht c k Hk Ho) as (l' & sk' & Hin & Hrest)];
    apply elem_of_cons in Hin as [->|Hin]; [|by exists l', sk'| |by exists l', sk'];
    destruct Hrest as (? & ? & ?); congruence.
Qed.

Lemma for_each_close_owned ls s : owned ls s -> owned [] (run_state (for_each sock_close ls) s).
Proof.
  revert s. induction ls as [|l ls IH]; intros s H; [done|].
  cbn [for_each]. runs. apply IH. by apply sock_close_owned.
Qed.

Lemma owned_nil_closed s :
  owned [] s -> Forall (fun k => u_open k = false) (uconns s) /\
                Forall (fun k => t_open k = false) (tconns s).
Proof.
  intros [Hu Ht]. split; apply Forall_lookup; intros c k Hk; apply not_true_iff_false; intros Ho.
  - destruct (Hu c k Hk Ho) as (l & sk & Hin & _). by apply not_elem_of_nil in Hin.
  - destruct (Ht c k Hk Ho) as (l & sk & Hin & _). by apply not_elem_of_nil in Hin.
Qed.

(** The locations of the live sockets. *)
Definition live (s : instanceState) : list nat :=
  match sockets s with Some m => (map_to_list m).*2 | None => [] end.

(** What closing sockets leaves alone. *)
Record same_tables (s s' : instanceState) : Prop := {
  st_log : log s' = log s;
  st_events : events s' = events s;
  st_done : done s' = done s;
  st_err : err s' = err s;
  st_sockets : sockets s' = sockets s;
  st_timers : timers s' = timers s;
  st_armed : armed s' = armed s;
  st_wire : wire s' = wire s
}.

#[export] Instance same_tables_preorder : PreOrder same_tables.
Proof.
  split; [by constructor|]. intros ??? [] []. constructor; by etrans; eauto.
Qed.

Lemma sock_close_same l s : same_tables s (run_state (sock_close l) s).
Proof.
  rewrite sock_close_state. destruct (heap s !! l) as [sk|]; [|done].
  destruct (closed sk); [done|]. rewrite close_tcp_state, close_udp_state.
  destruct (udp sk), (tcp sk); by constructor.
Qed.

Lemma for_each_close_same ls s : same_tables s (run_state (for_each sock_close ls) s).
Proof.
  revert s. induction ls as [|l ls IH]; intros s; [done|].
  cbn [for_each]. runs. etrans; [apply sock_close_same|apply IH].
Qed.

Lemma shutdown_state e s :
  done s = false ->
  run_state (shutdown e) s =
  run_state (for_each sock_close (live s))
    (set_sockets None (match timers s with
                       | Some ts => set_timers None (set_armed (armed s ∖ ts) (set_done true (set_err e s)))
                       | None => set_done true (set_err e s)
                       end)).
Proof.
  intros Hd. unfold shutdown, live. runs. rewrite Hd. cbn [fst snd]. runs.
  destruct s as [? ? ? ? [?|] ? [?|]]; cbn; by runs.
Qed.

Lemma shutdown_again e s : done s = true -> run_state (shutdown e) s = s.
Proof. intros Hd. unfold shutdown. runs. by rewrite Hd. Qed.

(** C24: an undisturbed shutdown leaves nothing behind. When every open
    operating-system socket belongs to a live socket of the instance and
    every armed timer is in its table, [shutdown] on an open instance
    records the cause, closes [done], drops both tables, and leaves no
    operating-system socket open and no timer armed. *)
Theorem shutdown_closes_all e s ts :
  done s = false -> timers s = Some ts -> armed s ⊆ ts -> owned (live s) s ->
  let s' := run_state (shutdown e) s in
  done s' = true /\ err s' = e /\ sockets s' = None /\ timers s' = None /\ armed s' = ∅ /\
  Forall (fun k => u_open k = false) (uconns s') /\ Forall (fun k => t_open k = false) (tconns s').
Proof.
  intros Hd Ht Ha Ho. cbv zeta. rewrite (shutdown_state _ _ Hd), Ht.
  set (s1 := set_sockets _ _).
  destruct (for_each_close_same (live s) s1) as [_ _ -> -> -> -> -> _].
  assert (owned [] (run_state (for_each sock_close (live s)) s1)) as [Hu1 Ht1]%owned_nil_closed
    by (apply for_each_close_owned; destruct Ho; by constructor).
  repeat split; try done. by apply subseteq_empty_difference_L.
Qed.

(** An instance that holds a bound UDP socket and an armed timer. *)
Definition demo_busy : instanceState :=
  set_armed {[7]} (set_timers (Some {[7]}) (set_sockets (Some {[1 := 0%nat]})
    (set_heap [mkSocket 1 4 1 0 (Some 0%nat) None AddrPort_zero [] None false]
      (set_uconns [mkUDP 4242 true] newInstanceState)))).

Lemma demo_busy_owned : owned (live demo_busy) demo_busy.
Proof.
  constructor; intros [|c] k; cbn; try done. intros [= <-] _.
  exists 0%nat. eexists. split; [|done]. vm_compute. by left.
Qed.

Lemma shutdown_closes_all_witness :
  Forall (fun k => u_open k = true) (uconns demo_busy) /\
  let s' := run_state (shutdown None) demo_busy in
  done s' = true /\ err s' = None /\ sockets s' = None /\ timers s' = None /\ armed s' = ∅ /\
  Forall (fun k => u_open k = false) (uconns s') /\ Forall (fun k => t_open k = false) (tconns s').
Proof.
  split; [by repeat constructor|].
  exact (shutdown_closes_all None demo_busy {[7]} eq_refl eq_refl (reflexivity _) demo_busy_owned).
Defined.

(** ** The event queue *)

Lemma shutdown_tables e s :
  done s = false ->
  let s' := run_state (shutdown e) s in
  done s' = true /\ err s' = e /\ events s' = events s /\ sockets s' = None /\ timers s' = None.
Proof.
  intros Hd. cbv zeta. rewrite (shutdown_state _ _ Hd). set (s1 := set_sockets _ _).
  destruct (for_each_close_same (live s) s1) as [_ -> -> -> -> -> _ _].
  subst s1. by destruct (timers s) eqn:E; cbn; rewrite ?E.
Qed.

Lemma enqueue_room pick ev s :
  done s = false -> zlen (events s) < eventsCap ->
  run_state (enqueue pick ev) s = set_events (events s ++ [ev]) s.
Proof.
  intros Hd Hl%Z.ltb_lt. unfold enqueue. runs. by rewrite Hl, Hd.
Qed.

Lemma enqueue_full pick ev s :
  done s = false -> eventsCap <= zlen (events s) ->
  run_state (enqueue pick ev) s = run_state (fail_ errEventQueueOverflow) s.
Proof.
  intros Hd Hl%Z.ltb_ge. unfold enqueue. runs. by rewrite Hl, Hd.
Qed.

Lemma enqueue_done pick ev s :
  done s = true ->
  run_state (enqueue pick ev) s = s \/
  run_state (enqueue pick ev) s = set_events (events s ++ [ev]) s.
Proof.
  intros Hd. unfold enqueue. runs. rewrite Hd. cbn [negb orb].
  destruct (_ && _); cbn [fst snd]; auto.
Qed.

(** [enqueue] never blocks and never drops an event of an open
    instance silently. With room in the buffer the event goes to its end
    and nothing else changes; with the buffer full, the instance fails with
    the overflow error, which closes [done] and drops its sockets and
    timers, and keeps the events queued so far; on a closed instance the
    state changes at most by the event. *)
Lemma enqueue_spec pick ev s :
  let s' := run_state (enqueue pick ev) s in
  (done s = false /\ zlen (events s) < eventsCap /\ s' = set_events (events s ++ [ev]) s) \/
  (done s = false /\ eventsCap <= zlen (events s) /\ done s' = true /\
   err s' = Some errEventQueueOverflow /\ events s' = events s /\
   sockets s' = None /\ timers s' = None) \/
  (done s = true /\ (s' = s \/ s' = set_events (events s ++ [ev]) s)).
Proof.
  cbv zeta. destruct (done s) eqn:Hd; [right; right; split; [done|by apply enqueue_done]|].
  destruct (Z.lt_ge_cases (zlen (events s)) eventsCap) as [Hl|Hl].
  - left. split_and!; [done..|by apply enqueue_room].
  - right; left. rewrite enqueue_full by done.
    destruct (shutdown_tables (Some errEventQueueOverflow) s Hd) as (?&?&?&?&?). done.
Qed.

(** An event is delivered: queued for the guest, or the instance ended. *)
Definition delivered (ev : hostEvent) (s : instanceState) : Prop :=
  ev ∈ events s \/ done s = true.

Lemma enqueue_delivered pick ev s : delivered ev (run_state (enqueue pick ev) s).
Proof.
  unfold delivered. destruct (done s) eqn:Hd.
  - destruct (enqueue_done pick ev s Hd) as [->| ->]; auto.
  - destruct (Z.lt_ge_cases (zlen (events s)) eventsCap).
    + rewrite enqueue_room by done. left. cbn. apply elem_of_app. right. by left.
    + rewrite enqueue_full by done.
      destruct (shutdown_tables (Some errEventQueueOverflow) s Hd) as (?&_). auto.
Qed.

(** ** Queues of received packets *)

(** Closing sockets and queueing events touch no receive queue. *)
Definition same_queues (s s' : instanceState) : Prop :=
  forall l, queue <$> heap s' !! l = queue <$> heap s !! l /\
            typ <$> heap s' !! l = typ <$> heap s !! l /\
            sk_id <$> heap s' !! l = sk_id <$> heap s !! l.

#[export] Instance same_queues_preorder : PreOrder same_queues.
Proof.
  split; [by intros ??|]. intros s1 s2 s3 H1 H2 l.
  destruct (H1 l) as (?&?&?), (H2 l) as (?&?&?). split_and!; by etrans.
Qed.

Lemma same_queues_heap s s' : heap s' = heap s -> same_queues s s'.
Proof. intros E l. by rewrite E. Qed.

Lemma upd_socket_same_queues l f s :
  (forall k, queue (f k) = queue k /\ typ (f k) = typ k /\ sk_id (f k) = sk_id k) ->
  same_queues s (upd_socket l f s).
Proof.
  intros Hf l'. unfold upd_socket. cbn [heap set_heap]. rewrite list_lookup_alter.
  case_decide; [subst|done]. destruct (heap s !! l') as [k|]; [|done].
  destruct (Hf k) as (E1 & E2 & E3). cbn. by rewrite E1, E2, E3.
Qed.

Lemma sock_close_queues l s : same_queues s (run_state (sock_close l) s).
Proof.
  rewrite sock_close_state. destruct (heap s !! l) as [sk|]; [|done].
  destruct (closed sk); [done|]. rewrite close_tcp_state, close_udp_state.
  transitivity (upd_socket l (s_closed true) s);
    [by apply upd_socket_same_queues|apply same_queues_heap; by destruct (udp sk), (tcp sk)].
Qed.

Lemma for_each_close_queues ls s : same_queues s (run_state (for_each sock_close ls) s).
Proof.
  revert s. induction ls as [|l ls IH]; intros s; [done|].
  cbn [for_each]. runs. etrans; [apply sock_close_queues|apply IH].
Qed.

Lemma shutdown_queues e s : same_queues s (run_state (shutdown e) s).
Proof.
  destruct (done s) eqn:Hd; [by rewrite shutdown_again|].
  rewrite shutdown_state by done. etrans; [|apply for_each_close_queues].
  apply same_queues_heap. by destruct (timers s).
Qed.

Lemma enqueue_queues pick ev s : same_queues s (run_state (enqueue pick ev) s).
Proof.
  destruct (done s) eqn:Hd.
  - by destruct (enqueue_done pick ev s Hd) as [->| ->]; [|apply same_queues_heap].
  - destruct (Z.lt_ge_cases (zlen (events s)) eventsCap).
    + rewrite enqueue_room by done. by apply same_queues_heap.
    + rewrite enqueue_full by done. apply shutdown_queues.
Qed.

Lemma push_state pick l bs src s sk :
  heap s !! l = Some sk ->
  run_state (push pick l bs src) s =
  run_state (enqueue pick (mkEvent eventIO (sk_id sk) ioRead 0))
    (if closed sk then s
     else upd_socket l (fun sk => s_queue (queue sk ++ [mkPacket bs src]) sk) s).
Proof. intros Hl. unfold push. runs. by rewrite Hl. Qed.

Lemma push_queue pick l bs src s sk :
  heap s !! l = Some sk ->
  exists sk', heap (run_state (push pick l bs src) s) !! l = Some sk' /\
    typ sk' = typ sk /\
    queue sk' = if closed sk then queue sk else queue sk ++ [mkPacket bs src].
Proof.
  intros Hl. rewrite (push_state _ _ _ _ _ _ Hl).
  set (s1 := if closed sk then _ else _).
  destruct (enqueue_queues pick (mkEvent eventIO (sk_id sk) ioRead 0) s1 l) as (Hq & Ht & _).
  revert Hq Ht. subst s1. destruct (closed sk); [rewrite Hl|unfold upd_socket at 2 4; cbn [heap set_heap];
    rewrite list_lookup_alter_eq, Hl]; cbn; intros Hq Ht;
    destruct (heap (run_state _ _) !! l) as [sk'|]; try done; exists sk';
    by injection Hq as ->; injection Ht as ->.
Qed.

Lemma sockRecvLocked_some l cap s sk pkt q :
  heap s !! l = Some sk -> queue sk = pkt :: q ->
  let n := if cap <? u32 (zlen (data pkt)) then cap else zlen (data pkt) in
  let q' := if (n =? zlen (data pkt)) || (typ sk =? socketUDP) then q
            else mkPacket (drop (Z.to_nat n) (data pkt)) (from pkt) :: q in
  sockRecvLocked l cap s =
  (upd_socket l (s_queue q') s,
   RecvChunk (take (Z.to_nat n) (data pkt)) (from pkt) (bool_decide (q' <> []))).
Proof. intros Hl Hq. unfold sockRecvLocked. by rewrite Hl, Hq. Qed.

(** The bytes a receive took from the queue. *)
Definition taken (r : recvOutcome) : list Z :=
  match r with RecvCode _ => [] | RecvChunk chunk _ _ => chunk end.

(** The bytes waiting in a queue. *)
Definition stream (q : list receivedPacket) : list Z := concat (map data q).

Definition small (q : list receivedPacket) : Prop := Forall (fun p => zlen (data p) < 2 ^ 32) q.

Lemma stream_app q q' : stream (q ++ q') = stream q ++ stream q'.
Proof. unfold stream. by rewrite map_app, concat_app. Qed.

(** What one receive does to the queue of a socket. *)
Lemma sockRecvLocked_queue l cap s sk :
  heap s !! l = Some sk -> 0 <= cap -> small (queue sk) ->
  exists sk', heap (sockRecvLocked l cap s).1 !! l = Some sk' /\
    typ sk' = typ sk /\ closed sk' = closed sk /\ small (queue sk') /\
    zlen (taken (sockRecvLocked l cap s).2) <= cap /\
    (typ sk <> socketUDP -> taken (sockRecvLocked l cap s).2 ++ stream (queue sk') = stream (queue sk)) /\
    (typ sk = socketUDP -> queue sk' = tail (queue sk)).
Proof.
  intros Hl Hc Hs. destruct (queue sk) as [|pkt q] eqn:Hq.
  - exists (s_serr None sk). unfold sockRecvLocked. rewrite Hl, Hq.
    unfold upd_socket. cbn. rewrite list_lookup_alter_eq, Hl. cbn. rewrite Hq. done.
  - rewrite (sockRecvLocked_some _ _ _ _ _ _ Hl Hq). cbn [fst snd taken].
    apply Forall_cons in Hs as [Hp Hs]. rewrite u32_id by (split; [apply zlen_nonneg|done]).
    set (n := if cap <? _ then _ else _).
    assert (Hn : n <= cap /\ 0 <= n <= zlen (data pkt)).
    { subst n. pose proof (zlen_nonneg (data pkt)). destruct (Z.ltb_spec cap (zlen (data pkt))); lia. }
    eexists. unfold upd_socket. cbn [heap set_heap]. rewrite list_lookup_alter_eq, Hl. split; [done|].
    cbn [typ closed queue s_queue]. split_and!; [done|done| | | |].
    + destruct (_ || _); [done|]. constructor; [|done]. unfold zlen in *; cbn. rewrite length_drop. lia.
    + unfold zlen. rewrite length_take. lia.
    + intros Ht%Z.eqb_neq. rewrite Ht, orb_false_r. destruct (Z.eqb_spec n (zlen (data pkt))) as [E|E].
      * rewrite E. unfold zlen. by rewrite Nat2Z.id, firstn_all.
      * unfold stream. cbn. by rewrite app_assoc, take_drop.
    + intros ->. by rewrite orb_true_r.
Qed.

(** *** Streams *)

(** A history of one socket: its reader pushes data, the guest receives
    with a buffer of some capacity. *)
Inductive sockOp :=
| OpPush (pick : bool) (bs : list Z) (src : AddrPort)
| OpRecv (cap : Z).

(** Run a history; also the bytes accepted (pushed while the socket was
    open) and the bytes received. *)
Fixpoint history (l : nat) (ops : list sockOp) (s : instanceState) (acc got : list Z)
    : instanceState * list Z * list Z :=
  match ops with
  | [] => (s, acc, got)
  | OpPush pick bs src :: ops =>
      let open := match heap s !! l with Some sk => negb (closed sk) | None => false end in
      history l ops (run_state (push pick l bs src) s) (if open then acc ++ bs else acc) got
  | OpRecv cap :: ops =>
      let '(s, r) := sockRecvLocked l cap s in history l ops s acc (got ++ taken r)
  end.

Definition op_ok (o : sockOp) : Prop :=
  match o with OpPush _ bs _ => zlen bs < 2 ^ 32 | OpRecv cap => 0 <= cap end.

Lemma history_stream l ops : forall s acc got sk,
  heap s !! l = Some sk -> typ sk <> socketUDP -> small (queue sk) -> Forall op_ok ops ->
  acc = got ++ stream (queue sk) ->
  let '(s', acc', got') := history l ops s acc got in
  exists sk', heap s' !! l = Some sk' /\ acc' = got' ++ stream (queue sk').
Proof.
  induction ops as [|[pick bs src|cap] ops IH]; intros s acc got sk Hl Ht Hs Hops Hacc; cbn [history].
  - by exists sk.
  - apply Forall_cons in Hops as [Hb Hops]. rewrite Hl.
    destruct (push_queue pick l bs src s sk Hl) as (sk' & Hl' & Ht' & Hq').
    apply (IH _ _ _ sk'); [done|by rewrite Ht'| |done|]; rewrite Hq'; destruct (closed sk); try done.
    + apply Forall_app. split; [done|]. by repeat constructor.
    + cbn. rewrite stream_app, Hacc. unfold stream at 3. cbn. by rewrite app_nil_r, app_assoc.
  - apply Forall_cons in Hops as [Hc Hops].
    destruct (sockRecvLocked_queue l cap s sk Hl Hc Hs) as (sk' & Hl' & Ht' & _ & Hs' & _ & Htcp & _).
    destruct (sockRecvLocked l cap s) as [s' r]. cbn [fst snd] in *.
    apply (IH _ _ _ sk'); [done|by rewrite Ht'|done|done|].
    rewrite Hacc, <- (Htcp Ht). by rewrite app_assoc.
Qed.

(** C12: a TCP socket is a byte stream. For a fresh TCP socket and every
    sequence of reader pushes and guest receives, with any buffer
    capacities and with overflows of the event queue in between, the bytes
    pushed while the socket was open are, in order, the bytes received so
    far followed by the bytes still queued: nothing is lost, duplicated or
    reordered. *)
Theorem tcp_stream l ops s sk :
  heap s !! l = Some sk -> typ sk = socketTCP -> queue sk = [] -> Forall op_ok ops ->
  let '(s', acc, got) := history l ops s [] [] in
  exists sk', heap s' !! l = Some sk' /\ acc = got ++ stream (queue sk').
Proof.
  intros Hl Ht Hq Hops. apply (history_stream l ops s [] [] sk Hl); rewrite ?Ht, ?Hq; [done|constructor|done|done].
Qed.

(** C27: a UDP socket keeps datagram boundaries. A receive takes exactly the
    first datagram of the queue, gives the guest as much of it as the
    buffer holds together with its source, discards the rest of it, and
    leaves the other datagrams as they were. *)
Theorem udp_datagram l cap s sk pkt q :
  heap s !! l = Some sk -> typ sk = socketUDP -> queue sk = pkt :: q ->
  0 <= cap -> zlen (data pkt) < 2 ^ 32 ->
  sockRecvLocked l cap s =
  (upd_socket l (s_queue q) s,
   RecvChunk (take (Z.to_nat (Z.min cap (zlen (data pkt)))) (data pkt)) (from pkt) (bool_decide (q <> []))).
Proof.
  intros Hl Ht Hq Hc Hp. rewrite (sockRecvLocked_some _ _ _ _ _ _ Hl Hq), Ht, orb_true_r.
  rewrite u32_id by (split; [apply zlen_nonneg|done]).
  replace (if cap <? _ then _ else _) with (Z.min cap (zlen (data pkt))); [done|].
  destruct (Z.ltb_spec cap (zlen (data pkt))); lia.
Qed.

(** Three bytes pushed, read two at a time, with another push in between. *)
Definition demo_tcp : instanceState :=
  set_heap [mkSocket 1 4 socketTCP 0 None (Some 0%nat) AddrPort_zero [] None false] newInstanceState.

Definition demo_ops : list sockOp :=
  [OpPush true [1; 2; 3] AddrPort_zero; OpRecv 2; OpPush true [4] AddrPort_zero; OpRecv 2].

Lemma tcp_stream_witness :
  (history 0 demo_ops demo_tcp [] []).2 = [1; 2; 3] /\
  let '(s', acc, got) := history 0 demo_ops demo_tcp [] [] in
  exists sk', heap s' !! 0%nat = Some sk' /\ acc = got ++ stream (queue sk').
Proof.
  split; [vm_compute; reflexivity|].
  apply (tcp_stream 0 demo_ops demo_tcp (mkSocket 1 4 socketTCP 0 None (Some 0%nat) AddrPort_zero [] None false));
    [reflexivity..|]. by repeat constructor.
Defined.

Definition demo_udp : instanceState :=
  set_heap [mkSocket 1 4 socketUDP 0 (Some 0%nat) None AddrPort_zero
    [mkPacket [1; 2; 3] AddrPort_zero; mkPacket [4] AddrPort_zero] None false] newInstanceState.

Lemma udp_datagram_witness :
  exists s', sockRecvLocked 0 2 demo_udp = (s', RecvChunk [1; 2] AddrPort_zero true).
Proof.
  eexists. exact (udp_datagram 0 2 demo_udp _ (mkPacket [1; 2; 3] AddrPort_zero) [mkPacket [4] AddrPort_zero]
    eq_refl eq_refl eq_refl ltac:(lia) ltac:(vm_compute; reflexivity)).
Defined.

(** ** Wake-ups *)

Section Wakeup.
Context {M : Type} `{GL : GuestMemoryLaws M}.

(** A receive without source addresses, on a socket with data. *)
Lemma sockRecv_some pick (m : M) id ptr cap ipOut portOut s t l chunk src more s1 :
  sockets s = Some t -> t !! id = Some l ->
  sockRecvLocked l cap s = (s1, RecvChunk chunk src more) ->
  run_value (sockRecv pick m id ptr cap false ipOut portOut) s =
    match mem_write m ptr chunk with
    | None => (- wasiEFAULT, m)
    | Some m' => (i32 (zlen chunk), m')
    end /\
  run_state (sockRecv pick m id ptr cap false ipOut portOut) s =
    if bool_decide (is_Some (mem_write m ptr chunk)) && more
    then run_state (enqueue pick (mkEvent eventIO id ioRead 0)) s1 else s1.
Proof.
  intros Hs Ht Hr. unfold sockRecv, socket. runs. rewrite Hs, Ht. runs. rewrite Hr. cbn [fst snd].
  destruct (mem_write m ptr chunk) as [m'|]; cbn; runs; [|done].
  destruct more; by runs.
Qed.

(** The socket [id] of the guest has queued data exactly if a receive
    reports more. *)
Lemma sockRecvLocked_more l cap s s1 chunk src more sk :
  heap s !! l = Some sk -> sockRecvLocked l cap s = (s1, RecvChunk chunk src more) ->
  exists sk1, heap s1 !! l = Some sk1 /\ (queue sk1 <> [] <-> more = true).
Proof.
  intros Hl Hr. unfold sockRecvLocked in Hr. rewrite Hl in Hr.
  destruct (queue sk) as [|pkt q]; [done|]. injection Hr as <- _ _ <-.
  eexists. unfold upd_socket. cbn [heap set_heap]. rewrite list_lookup_alter_eq, Hl. split; [done|].
  cbn. by rewrite bool_decide_eq_true.
Qed.


End Wakeup.

Import ListMem.

Definition demo_table (s : instanceState) : instanceState := set_sockets (Some {[1 := 0%nat]}) s.


(** ** Opening and closing sockets *)

Definition freshSocket (id fam ty : Z) : hostSocket :=
  mkSocket id fam ty 0 None None AddrPort_zero [] None false.

Lemma sockOpen_ok fam ty s t :
  fam = 4 \/ fam = 6 -> ty = socketUDP \/ ty = socketTCP ->
  sockets s = Some t -> Z.of_nat (size t) < maxSocketsPerInstance ->
  run_value (sockOpen fam ty) s = nextSocket s /\
  run_state (sockOpen fam ty) s =
    set_nextSocket (i32 (nextSocket s + 1))
      (set_sockets (Some (<[nextSocket s := length (heap s)]> t))
        (set_heap (heap s ++ [freshSocket (nextSocket s) fam ty]) s)).
Proof.
  intros Hf Hy Hs Hlt%Z.leb_gt. unfold sockOpen.
  replace (_ || _) with false; [runs; rewrite Hs, Hlt; done|].
  by destruct Hf as [->| ->], Hy as [->| ->].
Qed.

(** C28: the life of a socket descriptor. On an open instance with fewer
    than [maxSocketsPerInstance] sockets and a fresh next id, [sockOpen] of
    a supported family and type returns that id, under which [socket] then
    finds a new, open, unbound socket of that type, while every other
    descriptor still finds what it found before. Closing it again brings
    the table back to what it was, so that the id finds nothing, opens or
    closes no operating-system socket, and leaves the object closed. *)
Theorem sockOpen_sockClose fam ty s t :
  fam = 4 \/ fam = 6 -> ty = socketUDP \/ ty = socketTCP ->
  sockets s = Some t -> Z.of_nat (size t) < maxSocketsPerInstance -> t !! nextSocket s = None ->
  let id := run_value (sockOpen fam ty) s in
  let s1 := run_state (sockOpen fam ty) s in
  let s2 := run_state (sockClose id) s1 in
  let l := length (heap s) in
  id = nextSocket s /\
  run_value (socket id) s1 = Some l /\
  heap s1 !! l = Some (freshSocket id fam ty) /\
  (forall id', id' <> id -> run_value (socket id') s1 = run_value (socket id') s) /\
  sockets s2 = Some t /\ run_value (socket id) s2 = None /\
  uconns s2 = uconns s /\ tconns s2 = tconns s /\
  heap s2 = heap s ++ [s_closed true (freshSocket id fam ty)].
Proof.
  intros Hf Hy Hs Hlt Hfresh. cbv zeta.
  destruct (sockOpen_ok fam ty s t Hf Hy Hs Hlt) as [-> ->].
  assert (Hf1 : (heap s ++ [freshSocket (nextSocket s) fam ty]) !! length (heap s) =
                Some (freshSocket (nextSocket s) fam ty)) by (by rewrite list_lookup_middle).
  split; [done|]. split; [unfold socket; runs; apply lookup_insert_eq|].
  split; [done|]. split.
  { intros id' Hid. unfold socket. runs. cbn. rewrite Hs. by apply lookup_insert_ne. }
  unfold sockClose. runs. cbn [sockets set_nextSocket set_sockets fst snd].
  rewrite lookup_insert_eq, sock_close_state. cbn [heap set_heap set_nextSocket set_sockets].
  rewrite Hf1. cbn. rewrite delete_insert_id by done. split_and!; try done.
  unfold upd_socket. cbn [heap set_heap set_sockets set_nextSocket].
  by rewrite alter_app_r_alt, Nat.sub_diag.
Qed.

Lemma sockOpen_sockClose_witness :
  run_value (sockOpen 4 socketUDP) (set_nextSocket 2 demo_busy) = 2 /\
  sockets (run_state (sockClose 2) (run_state (sockOpen 4 socketUDP) (set_nextSocket 2 demo_busy))) =
    Some {[1 := 0%nat]}.
Proof.
  destruct (sockOpen_sockClose 4 socketUDP (set_nextSocket 2 demo_busy) {[1 := 0%nat]}
    (or_introl eq_refl) (or_introl eq_refl) eq_refl ltac:(vm_compute; reflexivity) eq_refl)
    as (Hid & _ & _ & _ & Hs & _). rewrite Hid in Hs. exact (conj Hid Hs).
Defined.

(** ** Timers *)

(** The life of a timer, for an instance without replay hooks. A
    negative delay counts as zero, a closed instance or a full table arms
    nothing and returns 0. Otherwise a fresh id is returned, listed and
    armed; stopping it takes it from both; firing it (whose timer the
    runtime has disarmed) takes it from the table and delivers its event. *)
Lemma timer_life pick ms s :
  let r := timerStart None ms in
  let tid := run_value r s in
  let s1 := run_state r s in
  (timers s = None \/ (exists ts, timers s = Some ts /\ maxTimersPerInstance <= Z.of_nat (size ts)) ->
   tid = 0 /\ timers s1 = timers s /\ armed s1 = armed s) /\
  (forall ts, timers s = Some ts -> Z.of_nat (size ts) < maxTimersPerInstance ->
   u64 (nextTimer s + 1) ∉ ts -> u64 (nextTimer s + 1) ∉ armed s ->
   tid = u64 (nextTimer s + 1) /\ timers s1 = Some ({[tid]} ∪ ts) /\ armed s1 = {[tid]} ∪ armed s /\
   timers (run_state (timerStop None tid) s1) = Some ts /\
   armed (run_state (timerStop None tid) s1) = armed s /\
   delivered (mkEvent eventTimer 0 0 tid)
     (run_state (timerCallback pick tid) (set_armed (armed s1 ∖ {[tid]}) s1))).
Proof.
  cbv zeta. unfold timerStart. runs. split.
  - intros [Ht|(ts & Ht & Hsz%Z.leb_le)]; cbn; rewrite Ht; [done|]. by rewrite Hsz.
  - intros ts Ht Hsz%Z.leb_gt Hn Ha. cbn. rewrite Ht, Hsz. cbn [fst snd].
    split_and!; try done.
    + unfold timerStop. runs. cbn. rewrite bool_decide_true by set_solver. cbn. f_equal. set_solver.
    + unfold timerStop. runs. cbn. rewrite bool_decide_true by set_solver. cbn. set_solver.
    + unfold timerCallback. runs. apply enqueue_delivered.
Qed.

Lemma timer_life_witness :
  run_value (timerStart None 5) newInstanceState = 1 /\
  delivered (mkEvent eventTimer 0 0 1)
    (run_state (timerCallback true 1) (set_armed ({[1]} ∖ {[1]}) (run_state (timerStart None 5) newInstanceState))).
Proof.
  destruct (proj2 (timer_life true 5 newInstanceState) ∅ eq_refl ltac:(vm_compute; reflexivity)
    ltac:(set_solver) ltac:(set_solver)) as (Hid & _ & _ & _ & _ & Hd).
  split; [exact Hid|exact Hd].
Defined.
