(* ===== verification/Memory.v ===== *)
(** * memory_unix.go: the memory behind an instance

    The allocators wazero calls for a guest's linear memory: anonymous
    mappings, copy-on-write mappings of the zygote image, and the slice
    fallback. [mmap] belongs to the operating system: whether a mapping
    succeeds is an argument, and a fresh anonymous mapping reads as zeros.
    [backs] relates an allocation to the bytes the guest has seen and
    written; [Reallocate_backs] is the contract wazero relies on. *)

From S2P Require Import Prelude.

#[local] Open Scope Z_scope.

Definition MaxInt : Z := 2 ^ 63 - 1.

Definition zeros (n : Z) : list Z := replicate (Z.to_nat n) 0.

(** A linear memory: the whole reservation, or for a slice its backing array
    and its length. [None] after [Free]. *)
Inductive LinearMemory :=
| MmapMemoryRegion (buf : option (list Z))
| ImageMemory (buf : option (list Z)) (imageLen : Z)
| SliceMemory (arr : list Z) (len : Z).

(** Which of the mappings the operating system grants. *)
Record osEnv := mkOS { mmap_ok : Z -> bool; mmap_image_ok : bool }.

(** [mmapMemory]. *)
Definition mmapMemory (os : osEnv) (maxBytes : Z) : LinearMemory :=
  if MaxInt <? maxBytes then SliceMemory [] 0
  else if mmap_ok os maxBytes then MmapMemoryRegion (Some (zeros maxBytes))
  else SliceMemory [] 0.

(** The allocator [newImageAllocator] returns. *)
Definition imageAllocate (os : osEnv) (image : list Z) (maxBytes : Z) : LinearMemory :=
  let slice := SliceMemory image (zlen image) in
  if (maxBytes <=? MaxInt) && (zlen image <=? maxBytes) then
    if mmap_ok os maxBytes then
      if mmap_image_ok os then ImageMemory (Some (image ++ zeros (maxBytes - zlen image))) (zlen image)
      else slice
    else slice
  else slice.

(** [Reallocate] of the three kinds: the memory and the view it returns
    (nil for [None]). Sizes are uint64. *)
Definition Reallocate (m : LinearMemory) (size : Z) : LinearMemory * option (list Z) :=
  match m with
  | MmapMemoryRegion buf =>
      let b := default [] buf in
      if zlen b <? size then (m, None) else (m, Some (take (Z.to_nat size) b))
  | ImageMemory buf imageLen =>
      let b := default [] buf in
      let size := if size <? imageLen then imageLen else size in
      if zlen b <? size then (m, None) else (m, Some (take (Z.to_nat size) b))
  | SliceMemory arr len =>
      let size := if size <? len then len else size in
      if zlen arr <? size then
        let b := take (Z.to_nat len) arr ++ zeros (size - len) in (SliceMemory b size, Some b)
      else (SliceMemory arr size, Some (take (Z.to_nat size) arr))
  end.

(** [Free]. *)
Definition Free (m : LinearMemory) : LinearMemory :=
  match m with
  | MmapMemoryRegion _ => MmapMemoryRegion None
  | ImageMemory _ n => ImageMemory None n
  | SliceMemory _ _ => SliceMemory [] 0
  end.

(** ** The contract *)

(** The bytes an allocation holds. *)
Definition contents (m : LinearMemory) : list Z :=
  match m with
  | MmapMemoryRegion buf | ImageMemory buf _ => default [] buf
  | SliceMemory arr _ => arr
  end.

(** The size below which an allocation never shrinks. *)
Definition floor_size (m : LinearMemory) : Z :=
  match m with MmapMemoryRegion _ => 0 | ImageMemory _ n => n | SliceMemory _ len => len end.

(** The allocation holds the guest's bytes [view], then zeros. *)
Definition backs (m : LinearMemory) (view : list Z) : Prop :=
  (exists k, contents m = view ++ zeros k) /\ floor_size m <= zlen view /\
  match m with SliceMemory _ len => len = zlen view | _ => True end.

(** A guest store: the bytes of the current view change, in place. *)
Definition store (m : LinearMemory) (view : list Z) : LinearMemory :=
  match m with
  | MmapMemoryRegion buf => MmapMemoryRegion ((fun b => view ++ drop (length view) b) <$> buf)
  | ImageMemory buf n => ImageMemory ((fun b => view ++ drop (length view) b) <$> buf) n
  | SliceMemory arr len => SliceMemory (view ++ drop (length view) arr) len
  end.

Lemma zlen_zeros n : zlen (zeros n) = Z.max 0 n.
Proof. unfold zlen, zeros. rewrite length_replicate. lia. Qed.

Lemma zeros_app a b : 0 <= a -> 0 <= b -> zeros a ++ zeros b = zeros (a + b).
Proof. intros. unfold zeros. rewrite <- replicate_add. f_equal. lia. Qed.

Lemma zeros_neg n : n <= 0 -> zeros n = [].
Proof. intros. unfold zeros. by replace (Z.to_nat n) with 0%nat by lia. Qed.

Lemma take_zeros n k : take n (zeros k) = zeros (Z.min (Z.of_nat n) k).
Proof. unfold zeros. rewrite take_replicate. f_equal. lia. Qed.

(** Growing the view of an allocation that holds it. *)
Lemma take_grow view k size :
  zlen view <= size <= zlen (view ++ zeros k) ->
  take (Z.to_nat size) (view ++ zeros k) = view ++ zeros (size - zlen view) /\
  exists k', view ++ zeros k = (view ++ zeros (size - zlen view)) ++ zeros k'.
Proof.
  intros [Hv Hs]. rewrite zlen_app, zlen_zeros in Hs. split.
  - rewrite take_app_ge by (unfold zlen in *; lia). f_equal. rewrite take_zeros. unfold zeros. f_equal. unfold zlen in *. lia.
  - exists (Z.max 0 k - (size - zlen view)). rewrite <- app_assoc, zeros_app by lia. f_equal.
    unfold zeros. f_equal. lia.
Qed.

Lemma backs_store m view view' : backs m view -> length view' = length view -> backs (store m view') view'.
Proof.
  intros [[k Hk] [Hf Hm]] Hl. unfold backs, zlen in *. rewrite Hl.
  assert (Hd : view' ++ drop (length view') (view ++ zeros k) = view' ++ zeros k)
    by (by rewrite Hl, drop_app_length).
  assert (Hnil : [] = view ++ zeros k -> view' = []).
  { intros E%eq_sym. apply app_eq_nil in E as [-> _]. by destruct view'. }
  destruct m as [[buf|]|[buf|] n|arr len]; cbn in *; (split; [|done]).
  1, 3, 5: exists k; rewrite Hk; exact Hd.
  all: exists 0; by rewrite (Hnil Hk).
Qed.

(** C34: every allocator keeps the guest's memory. Whatever the guest has
    stored in its current memory [view], growing to [size] either returns
    exactly those bytes followed by zeros up to [size], and the allocation
    still holds them, or, for the mapped kinds only, fails because the
    reservation is smaller, and changes nothing. This holds for the
    anonymous mapping, the copy-on-write image and the slice fallback
    alike, before and after any stores. *)
Theorem Reallocate_backs m view size :
  backs m view -> zlen view <= size ->
  match Reallocate m size with
  | (m', Some v) => v = view ++ zeros (size - zlen view) /\ backs m' v
  | (m', None) => m' = m /\ zlen (contents m) < size
  end.
Proof.
  intros [[k Hk] [Hf Hm]] Hs. destruct m as [buf|buf n|arr len]; cbn [Reallocate contents floor_size] in *.
  - rewrite Hk. destruct (Z.ltb_spec (zlen (view ++ zeros k)) size); [done|].
    destruct (take_grow view k size) as [-> [k' Hk']]; [lia|]. split; [done|].
    split; [exists k'; cbn; congruence|]. cbn. split; [apply zlen_nonneg|done].
  - rewrite (proj2 (Z.ltb_ge size n)), Hk by lia.
    destruct (Z.ltb_spec (zlen (view ++ zeros k)) size); [done|].
    destruct (take_grow view k size) as [-> [k' Hk']]; [lia|]. split; [done|].
    split; [exists k'; cbn; congruence|]. cbn. rewrite zlen_app, zlen_zeros. split; [lia|done].
  - rewrite (proj2 (Z.ltb_ge size len)) by lia. subst len arr.
    assert (Hzl : zlen (view ++ zeros (size - zlen view)) = size) by (rewrite zlen_app, zlen_zeros; lia).
    destruct (Z.ltb_spec (zlen (view ++ zeros k)) size).
    + replace (take (Z.to_nat (zlen view)) (view ++ zeros k)) with view
        by (unfold zlen; by rewrite Nat2Z.id, take_app_length).
      split; [done|]. split; [exists 0; cbn; by rewrite (zeros_neg 0), app_nil_r by lia|]. cbn. lia.
    + destruct (take_grow view k size) as [-> [k' Hk']]; [lia|]. split; [done|].
      split; [exists k'; cbn; done|]. cbn. lia.
Qed.

Lemma imageAllocate_view os image maxBytes size :
  0 <= size <= zlen image -> zlen image <= maxBytes ->
  let m := imageAllocate os image maxBytes in
  exists m', Reallocate m size = (m', Some image) /\ backs m' image.
Proof.
  intros Hs Hm. cbv zeta. unfold imageAllocate.
  assert (Hz : zeros 0 = []) by done.
  assert (Hsl : exists m', Reallocate (SliceMemory image (zlen image)) size = (m', Some image) /\ backs m' image).
  { cbn [Reallocate].
    replace (if size <? zlen image then zlen image else size) with (zlen image)
      by (destruct (Z.ltb_spec size (zlen image)); lia).
    rewrite Z.ltb_irrefl. eexists. split; [f_equal; f_equal; unfold zlen; by rewrite Nat2Z.id, firstn_all|].
    split; [exists 0; cbn; by rewrite Hz, app_nil_r|]. cbn. lia. }
  destruct (_ && _); [|done]. destruct (mmap_ok os maxBytes); [|done]. destruct (mmap_image_ok os); [|done].
  cbn [Reallocate from_option id].
  replace (if size <? zlen image then zlen image else size) with (zlen image)
    by (destruct (Z.ltb_spec size (zlen image)); lia).
  rewrite (proj2 (Z.ltb_ge (zlen (image ++ zeros (maxBytes - zlen image))) (zlen image))) by (rewrite zlen_app, zlen_zeros; lia).
  eexists. split; [f_equal; f_equal; unfold zlen; by rewrite Nat2Z.id, take_app_length|].
  split; [eexists; cbn; done|]. cbn. lia.
Qed.

(** A clone starts from the template. Whether or not the operating
    system grants the mappings, the memory the image allocator hands to a
    clone, when wazero asks for its initial size (at most the image, and
    the limit admits the image), is exactly the image; growth then keeps it
    (see [Reallocate_backs]). *)
Lemma imageAllocate_image os image maxBytes size :
  0 <= size <= zlen image -> zlen image <= maxBytes ->
  let m := imageAllocate os image maxBytes in
  exists m', Reallocate m size = (m', Some image) /\ backs m' image.
Proof. apply imageAllocate_view. Qed.

(** A 4-byte allocation, a store and a growth, by mapping and by slice. *)
Definition os_all : osEnv := mkOS (fun _ => true) true.

Lemma Reallocate_backs_witness :
  backs (store (mmapMemory os_all 8) [1; 2]) [1; 2] /\
  exists m', Reallocate (store (mmapMemory os_all 8) [1; 2]) 4 = (m', Some [1; 2; 0; 0]).
Proof.
  assert (Hb : backs (store (mmapMemory os_all 8) [1; 2]) [1; 2]).
  { split; [exists 6; vm_compute; reflexivity|]. split; [vm_compute; discriminate|exact I]. }
  split; [exact Hb|].
  pose proof (Reallocate_backs _ [1; 2] 4 Hb ltac:(vm_compute; discriminate)) as H.
  destruct (Reallocate (store (mmapMemory os_all 8) [1; 2]) 4) as [m' [v|]].
  - exists m'. destruct H as [-> _]. vm_compute. reflexivity.
  - exfalso. destruct H as [_ H]. vm_compute in H. discriminate H.
Defined.

Lemma imageAllocate_image_witness :
  exists m', Reallocate (imageAllocate os_all [5; 6; 7] 10) 2 = (m', Some [5; 6; 7]).
Proof.
  destruct (imageAllocate_image os_all [5; 6; 7] 10 2 ltac:(vm_compute; split; discriminate)
    ltac:(vm_compute; discriminate)) as (m' & H & _).
  exists m'. exact H.
Defined.
