(* ===== verification/DataSegments.v ===== *)
(** * zygote.go: the data segments of the module

    [parseDataSegments] reads which ranges of guest memory instantiation
    overwrites. The position [p] is threaded explicitly; [None] stands for a
    run-time panic or a loop that has not ended within its fuel, and
    [parseDataSegments_total] shows that neither happens. *)

From S2P Require Import Prelude Errors.

#[local] Open Scope Z_scope.

Record segRange := mkSeg { seg_off : Z; seg_len : Z }.

(** A step of the parser: a value and the next position, an error, or a
    panic. *)
Abbreviation parsed A := (option (result go_error (A * Z))).

Definition perr {A} (s : string) : option (result go_error A) := Some (Err (errorsNew s)).

Notation "'let!' x := m 'in' k" :=
  (match m with
   | Some (Ok x) => k
   | Some (Err err) => Some (Err err)
   | None => None
   end)
  (at level 10, x pattern, k at level 200) : go_scope.

Section Parse.
Variable wasm : list Z.

(** ** LEB128 *)

(** The closure [uleb]. The shift exceeds 63 at the eleventh byte. *)
Fixpoint uleb_from (fuel : nat) (p shift v : Z) : parsed Z :=
  match fuel with
  | O => None
  | S fuel =>
      if (zlen wasm <=? p) || (63 <? shift) then perr "bad leb128"
      else
        b ← go_index wasm p;
        let v := Z.lor v (u64 (Z.shiftl (Z.land b 0x7f) shift)) in
        if Z.land b 0x80 =? 0 then Some (Ok (v, p + 1)) else uleb_from fuel (p + 1) (shift + 7) v
  end.

Definition uleb (p : Z) : parsed Z := uleb_from 11 p 0 0.

(** The loop for the signed offset. *)
Fixpoint sleb_from (fuel : nat) (p shift off : Z) : parsed Z :=
  match fuel with
  | O => None
  | S fuel =>
      if (zlen wasm <=? p) || (63 <? shift) then perr "bad sleb128"
      else
        b ← go_index wasm p;
        let off := Z.lor off (i64 (Z.shiftl (Z.land b 0x7f) shift)) in
        let shift := shift + 7 in
        if Z.land b 0x80 =? 0 then
          let off := if negb (Z.land b 0x40 =? 0) && (shift <? 64)
                     then Z.lor off (i64 (Z.shiftl (-1) shift)) else off in
          Some (Ok (off, p + 1))
        else sleb_from fuel (p + 1) shift off
  end.

Definition sleb (p : Z) : parsed Z := sleb_from 11 p 0 0.

(** ** Segments and sections *)

(** A byte that must have a given value. *)
Definition expect (p b : Z) (msg : string) : parsed unit :=
  if zlen wasm <=? p then perr msg
  else
    x ← go_index wasm p;
    if negb (x =? b) then perr msg else Some (Ok (tt, p + 1)).

(** One turn of the loop over the segments of a section. *)
Definition parseSegment (ends p : Z) : parsed segRange :=
  let! (flags, p) := uleb p in
  if negb (flags =? 0) then Some (Err (ErrString (s2b "data segment flags " ++ itoa flags)))
  else
    let! (_, p) := expect p 0x41 "data segment offset is not i32.const" in
    let! (off, p) := sleb p in
    let! (_, p) := expect p 0x0b "data segment offset expression too long" in
    let! (n, p) := uleb p in
    if (off <? 0) || (Z.shiftl 1 32 - 1 <? off) || (Z.shiftl 1 32 - 1 <? n)
    then perr "data segment out of range"
    else
      let p := p + i64 n in
      if ends <? p then perr "data segment overflows section"
      else Some (Ok (mkSeg (u32 off) (u32 n), p)).

(** [for range count]. *)
Fixpoint parseSegments (fuel : nat) (count ends p : Z) (segs : list segRange)
    : parsed (list segRange) :=
  if count <=? 0 then Some (Ok (segs, p))
  else
    match fuel with
    | O => None
    | S fuel =>
        let! (s, p) := parseSegment ends p in
        parseSegments fuel (count - 1) ends p (segs ++ [s])
    end.

(** The loop over the sections. *)
Fixpoint parseSections (fuel : nat) (p : Z) (segs : list segRange) : option (result go_error (list segRange)) :=
  if zlen wasm <=? p then Some (Ok segs)
  else
    match fuel with
    | O => None
    | S fuel =>
        id ← go_index wasm p;
        match uleb (p + 1) with
        | None => None
        | Some (Err _) => perr "bad section size"
        | Some (Ok (size, p)) =>
            if u64 (zlen wasm - p) <? size then perr "bad section size"
            else
              let ends := p + i64 size in
              if negb (id =? 11) then parseSections fuel ends segs
              else
                let! (count, p) := uleb p in
                let! (segs, _) := parseSegments (length wasm) count ends p segs in
                parseSections fuel ends segs
        end
    end.

(** [parseDataSegments]. *)
Definition parseDataSegments : option (result go_error (list segRange)) :=
  if zlen wasm <? 8 then perr "not a wasm v1 binary"
  else
    magic ← go_slice wasm 0 4;
    version ← go_slice wasm 4 8;
    if negb (bool_decide (magic = 0 :: s2b "asm")) || negb (le_decode version =? 1)
    then perr "not a wasm v1 binary"
    else parseSections (length wasm) 8 [].

(** ** Termination *)

(** The parser never reads outside the module. *)
Lemma go_index_lt p : 0 <= p < zlen wasm -> is_Some (go_index wasm p).
Proof.
  intros Hp. unfold go_index. rewrite (proj2 (Z.leb_le 0 p)) by lia.
  apply lookup_lt_is_Some. unfold zlen in Hp. lia.
Qed.

(** A result that moves forward, if it is one. *)
Definition forward {A} (p : Z) (r : parsed A) : Prop :=
  match r with
  | None => False
  | Some (Err _) => True
  | Some (Ok (_, p')) => p < p' <= zlen wasm
  end.

Lemma uleb_from_forward fuel p shift v :
  0 <= p -> 70 <= shift + 7 * (Z.of_nat fuel - 1) -> (0 < fuel)%nat -> forward p (uleb_from fuel p shift v).
Proof.
  revert p shift v. induction fuel as [|fuel IH]; intros p shift v Hp Hf Hpos; [lia|]. cbn [uleb_from].
  destruct (_ || _) eqn:E; [done|]. bool_props.
  destruct (go_index_lt p) as [b ->]; [lia|]. cbn [mbind option_bind]. cbv zeta.
  destruct (_ =? 0); [cbn; lia|]. destruct fuel as [|fuel]; [lia|].
  pose proof (IH (p + 1) (shift + 7) (Z.lor v (u64 (Z.shiftl (Z.land b 127) shift)))
    ltac:(lia) ltac:(lia) ltac:(lia)) as Hr.
  destruct (uleb_from _ _ _ _) as [[[x q]|e]|]; cbn in *; [lia|done|done].
Qed.

Lemma uleb_forward p : 0 <= p -> forward p (uleb p).
Proof. intros Hp. apply uleb_from_forward; [done|lia|lia]. Qed.

Lemma sleb_from_forward fuel p shift v :
  0 <= p -> 70 <= shift + 7 * (Z.of_nat fuel - 1) -> (0 < fuel)%nat -> forward p (sleb_from fuel p shift v).
Proof.
  revert p shift v. induction fuel as [|fuel IH]; intros p shift v Hp Hf Hpos; [lia|]. cbn [sleb_from].
  destruct (_ || _) eqn:E; [done|]. bool_props.
  destruct (go_index_lt p) as [b ->]; [lia|]. cbn [mbind option_bind]. cbv zeta.
  destruct (Z.land b 128 =? 0); [cbn; lia|]. destruct fuel as [|fuel]; [lia|].
  pose proof (IH (p + 1) (shift + 7) (Z.lor v (i64 (Z.shiftl (Z.land b 127) shift)))
    ltac:(lia) ltac:(lia) ltac:(lia)) as Hr.
  destruct (sleb_from _ _ _ _) as [[[x q]|e]|]; cbn in *; [lia|done|done].
Qed.

Lemma sleb_forward p : 0 <= p -> forward p (sleb p).
Proof. intros Hp. apply sleb_from_forward; [done|lia|lia]. Qed.

Lemma expect_forward p b msg : 0 <= p -> forward p (expect p b msg).
Proof.
  intros Hp. unfold expect. destruct (Z.leb_spec (zlen wasm) p); [done|].
  destruct (go_index_lt p) as [x ->]; [lia|]. cbn [mbind option_bind]. destruct (negb _); [done|]. cbn. lia.
Qed.

Lemma u32_const z : (Z.shiftl 1 32 - 1 <? z) = false -> z <= 2 ^ 32 - 1.
Proof. intros H%Z.ltb_ge. exact H. Qed.

(** Every value of [uleb] is unsigned. *)
Lemma uleb_from_nonneg fuel p shift v x q :
  0 <= v -> uleb_from fuel p shift v = Some (Ok (x, q)) -> 0 <= x.
Proof.
  revert p shift v. induction fuel as [|fuel IH]; intros p shift v Hv; [done|]. cbn [uleb_from].
  destruct (_ || _); [done|]. destruct (go_index wasm p) as [b|]; [|done]. cbn [mbind option_bind]. cbv zeta.
  assert (0 <= Z.lor v (u64 (Z.shiftl (Z.land b 127) shift)))
    by (apply Z.lor_nonneg; split; [done|apply u64_range]).
  destruct (_ =? 0); [intros [= <- _]; done|by apply IH].
Qed.

Lemma uleb_nonneg p x q : uleb p = Some (Ok (x, q)) -> 0 <= x.
Proof. by apply uleb_from_nonneg. Qed.

(** A segment lies within its section and names a 32-bit range. *)
Definition seg_ok (s : segRange) : Prop := 0 <= seg_off s < 2 ^ 32 /\ 0 <= seg_len s < 2 ^ 32.

Lemma parseSegment_spec ends p :
  0 <= p -> ends <= zlen wasm ->
  match parseSegment ends p with
  | None => False
  | Some (Err _) => True
  | Some (Ok (s, q)) => p < q <= ends /\ seg_ok s
  end.
Proof.
  intros Hp He. unfold parseSegment.
  pose proof (uleb_forward p Hp) as F1. destruct (uleb p) as [[[flags p1]|e]|]; cbn in F1; [|done|done].
  destruct (negb (flags =? 0)); [done|].
  pose proof (expect_forward p1 0x41 "data segment offset is not i32.const" ltac:(lia)) as F2.
  destruct (expect p1 _ _) as [[[[] p2]|e]|]; cbn in F2; [|done|done].
  pose proof (sleb_forward p2 ltac:(lia)) as F3. destruct (sleb p2) as [[[off p3]|e]|]; cbn in F3; [|done|done].
  pose proof (expect_forward p3 0x0b "data segment offset expression too long" ltac:(lia)) as F4.
  destruct (expect p3 _ _) as [[[[] p4]|e]|]; cbn in F4; [|done|done].
  pose proof (uleb_forward p4 ltac:(lia)) as F5. destruct (uleb p4) as [[[n p5]|e]|] eqn:En; cbn in F5; [|done|done].
  apply uleb_nonneg in En. destruct (_ || _) eqn:Er; [done|].
  apply orb_false_iff in Er as [[Eo1 Eo2]%orb_false_iff Eo3]. apply u32_const in Eo2, Eo3. bool_props.
  rewrite i64_id by lia. destruct (Z.ltb_spec ends (p5 + n)); [done|].
  split; [lia|]. unfold seg_ok. cbn. split; apply u32_range.
Qed.

Lemma parseSegments_spec fuel count ends p segs :
  0 <= p <= zlen wasm -> ends <= zlen wasm -> zlen wasm - p < Z.of_nat fuel -> Forall seg_ok segs ->
  match parseSegments fuel count ends p segs with
  | None => False
  | Some (Err _) => True
  | Some (Ok (segs', _)) => Forall seg_ok segs'
  end.
Proof.
  revert count p segs. induction fuel as [|fuel IH]; intros count p segs Hp He Hf Hs; cbn [parseSegments];
    (destruct (count <=? 0); [done|]).
  { lia. }
  pose proof (parseSegment_spec ends p ltac:(lia) He) as Hseg.
  destruct (parseSegment ends p) as [[[s q]|e]|]; [|done|done]. destruct Hseg as [Hq Hsok].
  apply IH; [lia|done|lia|]. apply Forall_app. split; [done|]. by apply Forall_singleton.
Qed.

Lemma parseSections_spec fuel p segs :
  8 <= p -> zlen wasm - p <= Z.of_nat fuel -> zlen wasm < 2 ^ 63 -> Forall seg_ok segs ->
  match parseSections fuel p segs with
  | None => False
  | Some (Err _) => True
  | Some (Ok segs') => Forall seg_ok segs'
  end.
Proof.
  revert p segs. induction fuel as [|fuel IH]; intros p segs Hp Hf Hlen Hs; cbn [parseSections];
    (destruct (Z.leb_spec (zlen wasm) p); [done|]); [lia|].
  destruct (go_index_lt p) as [id ->]; [lia|]. cbn [mbind option_bind].
  pose proof (uleb_forward (p + 1) ltac:(lia)) as F1.
  destruct (uleb (p + 1)) as [[[size p1]|e]|] eqn:E1; cbn in F1; [|done|done].
  apply uleb_nonneg in E1. rewrite u64_id by lia.
  destruct (Z.ltb_spec (zlen wasm - p1) size); [done|]. rewrite i64_id by lia.
  destruct (negb (id =? 11)); [apply IH; [lia|lia|done|done]|].
  pose proof (uleb_forward p1 ltac:(lia)) as F2.
  destruct (uleb p1) as [[[count p2]|e]|]; cbn in F2; [|done|done].
  pose proof (parseSegments_spec (length wasm) count (p1 + size) p2 segs ltac:(lia) ltac:(lia)
    ltac:(unfold zlen in *; lia) Hs) as Hsegs.
  destruct (parseSegments _ _ _ _ _) as [[[segs' p3]|e]|]; [|done|done].
  apply IH; [lia|lia|done|done].
Qed.

Lemma parseDataSegments_ok :
  zlen wasm < 2 ^ 63 ->
  match parseDataSegments with
  | None => False
  | Some (Err _) => True
  | Some (Ok segs) => Forall seg_ok segs
  end.
Proof.
  intros Hlen. unfold parseDataSegments. destruct (Z.ltb_spec (zlen wasm) 8); [done|].
  rewrite !go_slice_Some by lia. cbn [mbind option_bind].
  destruct (_ || _); [done|]. apply parseSections_spec; [lia|unfold zlen; lia|done|constructor].
Qed.

End Parse.

(** C14: [parseDataSegments] returns on every input: whatever bytes it is
    given (a Go slice, so fewer than 2^63), its loops end, none of its
    accesses is out of range, and it yields an error or a list of segments
    whose offsets and lengths are 32-bit. *)
Theorem parseDataSegments_total wasm :
  zlen wasm < 2 ^ 63 ->
  exists r, parseDataSegments wasm = Some r /\
    forall segs, r = Ok segs -> Forall seg_ok segs.
Proof.
  intros Hlen. pose proof (parseDataSegments_ok wasm Hlen) as H.
  destruct (parseDataSegments wasm) as [[segs|e]|]; [| |done].
  - eexists. split; [done|]. by intros ? [= <-].
  - eexists. split; [done|]. done.
Qed.

(** ** The wasm encoding *)

(** LEB128 with at most [n] bytes. *)
Fixpoint uleb_enc (n : nat) (v : Z) : list Z :=
  match n with
  | O => []
  | S n => if v <? 128 then [v] else (v mod 128 + 128) :: uleb_enc n (v / 128)
  end.

Fixpoint sleb_enc (n : nat) (v : Z) : list Z :=
  match n with
  | O => []
  | S n => if v <? 64 then [v] else (v mod 128 + 128) :: sleb_enc n (v / 128)
  end.

(** 32-bit values take at most five bytes. *)
Definition uleb32 (v : Z) : list Z := uleb_enc 5 v.

Definition sleb32 (v : Z) : list Z := sleb_enc 5 v.

(** An active segment of memory 0: its offset and contents. *)
Definition enc_segment (s : Z * list Z) : list Z :=
  uleb32 0 ++ [0x41] ++ sleb32 (fst s) ++ [0x0b] ++ uleb32 (zlen (snd s)) ++ snd s.

Inductive section :=
| Custom (id : Z) (payload : list Z)
| DataSection (segs : list (Z * list Z)).

Definition enc_section (s : section) : list Z :=
  match s with
  | Custom id payload => id :: uleb32 (zlen payload) ++ payload
  | DataSection segs =>
      let payload := uleb32 (zlen segs) ++ concat (map enc_segment segs) in
      11 :: uleb32 (zlen payload) ++ payload
  end.

Definition enc_module (ss : list section) : list Z :=
  (0 :: s2b "asm") ++ le_encode 4 1 ++ concat (map enc_section ss).

(** The ranges the data sections cover. *)
Definition ranges (ss : list section) : list segRange :=
  concat (map (fun s => match s with
                        | Custom _ _ => []
                        | DataSection segs => map (fun g => mkSeg (fst g) (zlen (snd g))) segs
                        end) ss).

Definition section_ok (s : section) : Prop :=
  zlen (enc_section s) < 2 ^ 32 /\
  match s with
  | Custom id _ => id <> 11
  | DataSection segs => Forall (fun g => 0 <= fst g < 2 ^ 32) segs
  end.

(** *** Reading back LEB128 *)

Lemma byte_bits b :
  0 <= b < 256 -> Z.land b 0x7f = b mod 128 /\ (Z.land b 0x80 =? 0) = (b <? 128) /\
                  (Z.land b 0x40 =? 0) = (b mod 128 <? 64).
Proof.
  intros Hb.
  assert (Hall : forallb (fun n => let b := Z.of_nat n in
     (Z.land b 0x7f =? b mod 128) && Bool.eqb (Z.land b 0x80 =? 0) (b <? 128) &&
     Bool.eqb (Z.land b 0x40 =? 0) (b mod 128 <? 64)) (seq 0 256) = true) by (vm_compute; reflexivity).
  rewrite forallb_forall in Hall. specialize (Hall (Z.to_nat b)). rewrite Z2Nat.id in Hall by lia.
  cbv zeta in Hall. rewrite !andb_true_iff, Z.eqb_eq, !Bool.eqb_true_iff in Hall.
  destruct Hall as [[? ?] ?]; [|done]. apply in_seq. lia.
Qed.

Lemma land_shift a x s : 0 <= s -> 0 <= a < 2 ^ s -> Z.land a (Z.shiftl x s) = 0.
Proof.
  intros Hs Ha. apply Z.bits_inj_0. intros n. rewrite Z.land_spec.
  destruct (Z.lt_ge_cases n s) as [Hlt|Hge]; [rewrite Z.shiftl_spec_low by done; apply andb_false_r|].
  destruct (decide (a = 0)) as [->|Hz]; [by rewrite Z.bits_0|].
  rewrite (Z.bits_above_log2 a n); [done|lia|].
  apply Z.lt_le_trans with s; [apply Z.log2_lt_pow2; lia|done].
Qed.

Lemma lor_shift a x s : 0 <= s -> 0 <= a < 2 ^ s -> Z.lor a (Z.shiftl x s) = a + x * 2 ^ s.
Proof.
  intros Hs Ha. pose proof (land_shift a x s Hs Ha) as H0.
  rewrite <- Z.lxor_lor, <- Z.add_nocarry_lxor by done. by rewrite Z.shiftl_mul_pow2.
Qed.

Lemma go_index_mid {A} (pre post : list A) b : go_index (pre ++ b :: post) (zlen pre) = Some b.
Proof.
  unfold go_index. rewrite (proj2 (Z.leb_le 0 (zlen pre))) by apply zlen_nonneg.
  unfold zlen. rewrite Nat2Z.id. by apply list_lookup_middle.
Qed.

Lemma zlen_mid_lt {A} (pre post : list A) b : (zlen (pre ++ b :: post) <=? zlen pre) = false.
Proof. apply Z.leb_gt. rewrite zlen_app, zlen_cons. pose proof (zlen_nonneg post). lia. Qed.

(** The value of the bytes read so far is below [2 ^ shift]. *)
Lemma leb_acc_bound acc x shift : 0 <= shift -> 0 <= acc < 2 ^ shift -> 0 <= x < 128 -> 0 <= acc + x * 2 ^ shift < 2 ^ (shift + 7).
Proof. intros Hs Ha Hx. rewrite Z.pow_add_r by lia. change (2 ^ 7) with 128. nia. Qed.

Lemma pow128_S n : 128 ^ Z.of_nat (S n) = 128 * 128 ^ Z.of_nat n.
Proof. rewrite Nat2Z.inj_succ, Z.pow_succ_r by lia. done. Qed.

(** One byte of either encoding, continued or last. *)
Lemma leb_value v shift acc :
  acc + v mod 128 * 2 ^ shift + v / 128 * 2 ^ (shift + 7) = acc + v * 2 ^ shift \/ shift < 0.
Proof.
  destruct (Z.lt_ge_cases shift 0) as [?|Hs]; [by right|left].
  rewrite Z.pow_add_r by lia. change (2 ^ 7) with 128. pose proof (Z.div_mod v 128 ltac:(lia)). nia.
Qed.

Lemma uleb_read n : forall fuel pre post shift acc v,
  (0 < n <= fuel)%nat -> 0 <= v < 128 ^ Z.of_nat n -> 0 <= shift -> shift + 7 * Z.of_nat n <= 63 ->
  0 <= acc < 2 ^ shift ->
  uleb_from (pre ++ uleb_enc n v ++ post) fuel (zlen pre) shift acc =
  Some (Ok (acc + v * 2 ^ shift, zlen pre + zlen (uleb_enc n v))).
Proof.
  induction n as [|n IH]; intros fuel pre post shift acc v Hf Hv Hs Hb Ha; [lia|].
  destruct fuel as [|fuel]; [lia|]. cbn [uleb_enc]. rewrite pow128_S in Hv.
  assert (Hpow : 2 ^ shift * 128 <= 2 ^ 63).
  { change 128 with (2 ^ 7). rewrite <- Z.pow_add_r by lia. apply Z.pow_le_mono_r; lia. }
  destruct (Z.ltb_spec v 128) as [Hlt|Hge].
  - cbn [uleb_from app]. rewrite zlen_mid_lt, (proj2 (Z.ltb_ge 63 shift)) by lia. cbn [orb].
    rewrite go_index_mid. cbn [mbind option_bind]. cbv zeta.
    destruct (byte_bits v ltac:(lia)) as (-> & -> & _). rewrite Z.mod_small by lia.
    rewrite (proj2 (Z.ltb_lt v 128)) by lia.
    rewrite u64_id by (rewrite Z.shiftl_mul_pow2 by lia; nia). rewrite lor_shift by lia.
    by rewrite zlen_cons, zlen_nil.
  - set (b := v mod 128 + 128). pose proof (Z.mod_pos_bound v 128 ltac:(lia)) as Hm.
    change ((b :: uleb_enc n (v / 128)) ++ post) with (b :: (uleb_enc n (v / 128) ++ post)).
    cbn [uleb_from]. rewrite zlen_mid_lt, (proj2 (Z.ltb_ge 63 shift)) by lia. cbn [orb].
    rewrite go_index_mid. cbn [mbind option_bind]. cbv zeta.
    destruct (byte_bits b ltac:(subst b; lia)) as (-> & -> & _).
    rewrite (proj2 (Z.ltb_ge b 128)) by (subst b; lia).
    replace (b mod 128) with (v mod 128) by (subst b; rewrite Z.add_mod, Z.mod_same, Z.add_0_r, !Z.mod_mod by lia; done).
    rewrite u64_id by (rewrite Z.shiftl_mul_pow2 by lia; nia). rewrite lor_shift by lia.
    replace (pre ++ b :: uleb_enc n (v / 128) ++ post) with ((pre ++ [b]) ++ uleb_enc n (v / 128) ++ post)
      by (by rewrite <- app_assoc).
    replace (zlen pre + 1) with (zlen (pre ++ [b])) by (by rewrite zlen_app).
    assert (Hn : (0 < n)%nat) by (destruct n; [change (128 ^ Z.of_nat 0) with 1 in Hv; lia|lia]).
    rewrite IH; [|lia| |lia|lia|by apply leb_acc_bound].
    + rewrite zlen_app, !zlen_cons, zlen_nil. do 2 f_equal. f_equal; [|lia].
      destruct (leb_value v shift acc) as [E|E]; lia.
    + split; [apply Z.div_pos; lia|apply Z.div_lt_upper_bound; lia].
Qed.

Lemma sleb_read n : forall fuel pre post shift acc v,
  (0 < n <= fuel)%nat -> 0 <= 2 * v < 128 ^ Z.of_nat n -> 0 <= shift -> shift + 7 * Z.of_nat n <= 56 ->
  0 <= acc < 2 ^ shift ->
  sleb_from (pre ++ sleb_enc n v ++ post) fuel (zlen pre) shift acc =
  Some (Ok (acc + v * 2 ^ shift, zlen pre + zlen (sleb_enc n v))).
Proof.
  induction n as [|n IH]; intros fuel pre post shift acc v Hf Hv Hs Hb Ha; [lia|].
  destruct fuel as [|fuel]; [lia|]. cbn [sleb_enc]. rewrite pow128_S in Hv.
  assert (Hpow : 2 ^ shift * 128 <= 2 ^ 56).
  { change 128 with (2 ^ 7). rewrite <- Z.pow_add_r by lia. apply Z.pow_le_mono_r; lia. }
  destruct (Z.ltb_spec v 64) as [Hlt|Hge].
  - cbn [sleb_from app]. rewrite zlen_mid_lt, (proj2 (Z.ltb_ge 63 shift)) by lia. cbn [orb].
    rewrite go_index_mid. cbn [mbind option_bind]. cbv zeta.
    destruct (byte_bits v ltac:(lia)) as (-> & -> & ->). rewrite Z.mod_small by lia.
    rewrite (proj2 (Z.ltb_lt v 128)), (proj2 (Z.ltb_lt v 64)) by lia. cbn [negb andb].
    rewrite i64_id by (rewrite Z.shiftl_mul_pow2 by lia; nia). rewrite lor_shift by lia.
    by rewrite zlen_cons, zlen_nil.
  - set (b := v mod 128 + 128). pose proof (Z.mod_pos_bound v 128 ltac:(lia)) as Hm.
    change ((b :: sleb_enc n (v / 128)) ++ post) with (b :: (sleb_enc n (v / 128) ++ post)).
    cbn [sleb_from]. rewrite zlen_mid_lt, (proj2 (Z.ltb_ge 63 shift)) by lia. cbn [orb].
    rewrite go_index_mid. cbn [mbind option_bind]. cbv zeta.
    destruct (byte_bits b ltac:(subst b; lia)) as (-> & -> & _).
    rewrite (proj2 (Z.ltb_ge b 128)) by (subst b; lia).
    replace (b mod 128) with (v mod 128) by (subst b; rewrite Z.add_mod, Z.mod_same, Z.add_0_r, !Z.mod_mod by lia; done).
    rewrite i64_id by (rewrite Z.shiftl_mul_pow2 by lia; nia). rewrite lor_shift by lia.
    replace (pre ++ b :: sleb_enc n (v / 128) ++ post) with ((pre ++ [b]) ++ sleb_enc n (v / 128) ++ post)
      by (by rewrite <- app_assoc).
    replace (zlen pre + 1) with (zlen (pre ++ [b])) by (by rewrite zlen_app).
    pose proof (Z.mul_div_le v 128 ltac:(lia)) as Hdiv.
    assert (Hn : (0 < n)%nat) by (destruct n; [change (128 ^ Z.of_nat 0) with 1 in Hv; lia|lia]).
    rewrite IH; [|lia| |lia|lia|by apply leb_acc_bound].
    + rewrite zlen_app, !zlen_cons, zlen_nil. do 2 f_equal. f_equal; [|lia].
      destruct (leb_value v shift acc) as [E|E]; lia.
    + split; [pose proof (Z.div_pos v 128); lia|lia].
Qed.

Lemma uleb32_read pre post v :
  0 <= v < 2 ^ 32 -> uleb (pre ++ uleb32 v ++ post) (zlen pre) = Some (Ok (v, zlen pre + zlen (uleb32 v))).
Proof.
  intros Hv. unfold uleb, uleb32. rewrite (uleb_read 5); [|lia|change (128 ^ Z.of_nat 5) with (2 ^ 35); lia|lia..].
  do 3 f_equal. lia.
Qed.

Lemma sleb32_read pre post v :
  0 <= v < 2 ^ 32 -> sleb (pre ++ sleb32 v ++ post) (zlen pre) = Some (Ok (v, zlen pre + zlen (sleb32 v))).
Proof.
  intros Hv. unfold sleb, sleb32. rewrite (sleb_read 5); [|lia|change (128 ^ Z.of_nat 5) with (2 ^ 35); lia|lia..].
  do 3 f_equal. lia.
Qed.

(** *** Reading back segments and sections *)

(** The same at a position of a given module. *)
Lemma uleb32_at wasm p v pre post :
  wasm = pre ++ uleb32 v ++ post -> p = zlen pre -> 0 <= v < 2 ^ 32 ->
  uleb wasm p = Some (Ok (v, zlen (pre ++ uleb32 v))).
Proof. intros -> -> Hv. rewrite uleb32_read by done. by rewrite zlen_app. Qed.

Lemma sleb32_at wasm p v pre post :
  wasm = pre ++ sleb32 v ++ post -> p = zlen pre -> 0 <= v < 2 ^ 32 ->
  sleb wasm p = Some (Ok (v, zlen (pre ++ sleb32 v))).
Proof. intros -> -> Hv. rewrite sleb32_read by done. by rewrite zlen_app. Qed.

Lemma expect_at wasm p b msg pre post :
  wasm = pre ++ [b] ++ post -> p = zlen pre -> expect wasm p b msg = Some (Ok (tt, zlen (pre ++ [b]))).
Proof.
  intros -> ->. unfold expect. cbn [app]. rewrite zlen_mid_lt, go_index_mid. cbn [mbind option_bind].
  rewrite Z.eqb_refl. cbn [negb]. by rewrite zlen_app.
Qed.

Ltac assoc := rewrite <- ?app_assoc; reflexivity.

Lemma parseSegment_enc pre post off bs ends :
  0 <= off < 2 ^ 32 -> zlen bs < 2 ^ 32 -> zlen (pre ++ enc_segment (off, bs)) <= ends ->
  parseSegment (pre ++ enc_segment (off, bs) ++ post) ends (zlen pre) =
  Some (Ok (mkSeg off (zlen bs), zlen (pre ++ enc_segment (off, bs)))).
Proof.
  intros Ho Hn He. set (wasm := pre ++ enc_segment (off, bs) ++ post).
  pose proof (zlen_nonneg bs) as Hz.
  unfold parseSegment. unfold enc_segment in *. cbn [fst snd] in *.
  set (p1 := pre ++ uleb32 0). set (p2 := p1 ++ [0x41]). set (p3 := p2 ++ sleb32 off).
  set (p4 := p3 ++ [0x0b]). set (p5 := p4 ++ uleb32 (zlen bs)).
  rewrite (uleb32_at wasm (zlen pre) 0 pre ([0x41] ++ sleb32 off ++ [0x0b] ++ uleb32 (zlen bs) ++ bs ++ post));
    [|subst wasm; assoc|done|lia].
  fold p1. change (negb (0 =? 0)) with false. cbv iota.
  rewrite (expect_at wasm (zlen p1) 0x41 _ p1 (sleb32 off ++ [0x0b] ++ uleb32 (zlen bs) ++ bs ++ post));
    [|subst wasm p1; assoc|done]. fold p2.
  rewrite (sleb32_at wasm (zlen p2) off p2 ([0x0b] ++ uleb32 (zlen bs) ++ bs ++ post));
    [|subst wasm p2 p1; assoc|done|lia]. fold p3.
  rewrite (expect_at wasm (zlen p3) 0x0b _ p3 (uleb32 (zlen bs) ++ bs ++ post));
    [|subst wasm p3 p2 p1; assoc|done]. fold p4.
  rewrite (uleb32_at wasm (zlen p4) (zlen bs) p4 (bs ++ post));
    [|subst wasm p4 p3 p2 p1; assoc|done|lia]. fold p5.
  change (Z.shiftl 1 32 - 1) with (2 ^ 32 - 1).
  rewrite (proj2 (Z.ltb_ge off 0)), (proj2 (Z.ltb_ge (2 ^ 32 - 1) off)), (proj2 (Z.ltb_ge (2 ^ 32 - 1) (zlen bs))) by lia.
  cbn [orb]. rewrite i64_id, !u32_id by lia.
  assert (Hp : zlen p5 + zlen bs = zlen (pre ++ uleb32 0 ++ [65] ++ sleb32 off ++ [11] ++ uleb32 (zlen bs) ++ bs)).
  { subst p5 p4 p3 p2 p1. rewrite <- zlen_app. f_equal. assoc. }
  rewrite Hp, (proj2 (Z.ltb_ge ends _)) by done. done.
Qed.

Lemma enc_segment_nonempty g : 0 < zlen (enc_segment g).
Proof.
  unfold enc_segment. rewrite !zlen_app. change (zlen [0x41]) with 1.
  pose proof (zlen_nonneg (uleb32 0)). pose proof (zlen_nonneg (sleb32 (fst g))).
  pose proof (zlen_nonneg [0x0b]). pose proof (zlen_nonneg (uleb32 (zlen (snd g)))).
  pose proof (zlen_nonneg (snd g)). lia.
Qed.

Lemma enc_segment_len g : zlen (snd g) <= zlen (enc_segment g).
Proof.
  unfold enc_segment. rewrite !zlen_app.
  pose proof (zlen_nonneg (uleb32 0)). pose proof (zlen_nonneg (sleb32 (fst g))).
  pose proof (zlen_nonneg [0x41]). pose proof (zlen_nonneg [0x0b]).
  pose proof (zlen_nonneg (uleb32 (zlen (snd g)))). lia.
Qed.

Lemma zlen_segments gs : zlen gs <= zlen (concat (map enc_segment gs)).
Proof.
  induction gs as [|g gs IH]; [done|]. cbn [map concat]. rewrite zlen_cons, zlen_app.
  pose proof (enc_segment_nonempty g). lia.
Qed.

Lemma parseSegments_enc gs : forall fuel pre post ends segs,
  (length gs <= fuel)%nat -> Forall (fun g => 0 <= fst g < 2 ^ 32) gs ->
  zlen (concat (map enc_segment gs)) < 2 ^ 32 -> zlen (pre ++ concat (map enc_segment gs)) <= ends ->
  exists q, parseSegments (pre ++ concat (map enc_segment gs) ++ post) fuel (zlen gs) ends (zlen pre) segs =
    Some (Ok (segs ++ map (fun g => mkSeg (fst g) (zlen (snd g))) gs, q)).
Proof.
  induction gs as [|[off bs] gs IH]; intros fuel pre post ends segs Hf Ho Hl He.
  - exists (zlen pre). destruct fuel; cbn; by rewrite app_nil_r.
  - apply Forall_cons in Ho as [Hoff Ho]. cbn [fst] in Hoff.
    destruct fuel as [|fuel]; [cbn in Hf; lia|]. cbn [map concat] in *.
    pose proof (zlen_nonneg (concat (map enc_segment gs))). pose proof (enc_segment_len (off, bs)) as Hbs.
    pose proof (zlen_nonneg bs).
    cbn [snd] in Hbs. rewrite zlen_app in Hl. rewrite app_assoc, zlen_app in He.
    cbn [parseSegments]. rewrite (proj2 (Z.leb_gt (zlen ((off, bs) :: gs)) 0))
      by (rewrite zlen_cons; pose proof (zlen_nonneg gs); lia).
    replace (pre ++ (enc_segment (off, bs) ++ concat (map enc_segment gs)) ++ post)
      with (pre ++ enc_segment (off, bs) ++ concat (map enc_segment gs) ++ post) by assoc.
    rewrite parseSegment_enc by lia.
    replace (zlen ((off, bs) :: gs) - 1) with (zlen gs) by (rewrite zlen_cons; lia).
    rewrite app_assoc.
    destruct (IH fuel (pre ++ enc_segment (off, bs)) post ends (segs ++ [mkSeg off (zlen bs)])) as [q Hq];
      [cbn in Hf; lia|done|lia|by rewrite zlen_app|].
    exists q. rewrite Hq. by rewrite <- app_assoc.
Qed.

Lemma enc_section_split s :
  exists id payload, enc_section s = id :: uleb32 (zlen payload) ++ payload /\
    match s with
    | Custom i q => id = i /\ payload = q
    | DataSection gs => id = 11 /\ payload = uleb32 (zlen gs) ++ concat (map enc_segment gs)
    end.
Proof. destruct s; cbn; eauto. Qed.

Lemma enc_section_nonempty s : 0 < zlen (enc_section s).
Proof.
  destruct (enc_section_split s) as (id & pl & -> & _). rewrite zlen_cons.
  pose proof (zlen_nonneg (uleb32 (zlen pl) ++ pl)). lia.
Qed.

Lemma parseSections_enc ss : forall fuel pre segs,
  Forall section_ok ss -> (length ss <= fuel)%nat ->
  zlen (pre ++ concat (map enc_section ss)) < 2 ^ 63 ->
  parseSections (pre ++ concat (map enc_section ss)) fuel (zlen pre) segs = Some (Ok (segs ++ ranges ss)).
Proof.
  induction ss as [|s ss IH]; intros fuel pre segs Hss Hf Hl.
  - cbn [map concat]. rewrite app_nil_r in *. unfold ranges. cbn. rewrite app_nil_r.
    destruct fuel; cbn [parseSections]; by rewrite (proj2 (Z.leb_le _ _) (Z.le_refl _)).
  - apply Forall_cons in Hss as [[Hsz Hs] Hss]. destruct fuel as [|fuel]; [cbn in Hf; lia|].
    cbn [map concat] in *. set (rest := concat (map enc_section ss)) in *.
    destruct (enc_section_split s) as (id & pl & Hsec & Hcase). rewrite Hsec in *.
    rewrite zlen_cons, zlen_app in Hsz. pose proof (zlen_nonneg (uleb32 (zlen pl))). pose proof (zlen_nonneg pl).
    set (wasm := pre ++ (id :: uleb32 (zlen pl) ++ pl) ++ rest) in *.
    assert (Hw1 : wasm = (pre ++ [id]) ++ uleb32 (zlen pl) ++ (pl ++ rest)) by (subst wasm; cbn; assoc).
    set (p1 := (pre ++ [id]) ++ uleb32 (zlen pl)).
    assert (Hw2 : wasm = p1 ++ pl ++ rest) by (rewrite Hw1; subst p1; assoc).
    cbn [parseSections]. subst wasm. cbn [app]. rewrite zlen_mid_lt, go_index_mid. cbn [mbind option_bind].
    change (pre ++ id :: (uleb32 (zlen pl) ++ pl) ++ rest) with (pre ++ (id :: uleb32 (zlen pl) ++ pl) ++ rest).
    set (wasm := pre ++ (id :: uleb32 (zlen pl) ++ pl) ++ rest) in *.
    rewrite (uleb32_at wasm (zlen pre + 1) (zlen pl) (pre ++ [id]) (pl ++ rest) Hw1);
      [|by rewrite zlen_app|lia]. fold p1.
    assert (Hlen : zlen wasm = zlen p1 + zlen pl + zlen rest) by (rewrite Hw2, !zlen_app; lia).
    pose proof (zlen_nonneg rest). pose proof (zlen_nonneg p1).
    rewrite u64_id, (proj2 (Z.ltb_ge _ (zlen pl))), i64_id by lia.
    replace (zlen p1 + zlen pl) with (zlen (p1 ++ pl)) by (by rewrite zlen_app).
    assert (Hend : forall segs', parseSections wasm fuel (zlen (p1 ++ pl)) segs' = Some (Ok (segs' ++ ranges ss))).
    { intros segs'. rewrite Hw2, app_assoc. apply IH; [done|cbn in Hf; lia|].
      fold rest. rewrite <- app_assoc, <- Hw2. done. }
    destruct s as [i q|gs]; destruct Hcase as [-> ->].
    + rewrite (proj2 (Z.eqb_neq i 11) Hs). cbn [negb]. exact (Hend segs).
    + change (negb (11 =? 11)) with false. cbv iota.
      pose proof (zlen_segments gs) as Hgs. set (body := concat (map enc_segment gs)) in *.
      pose proof (zlen_app (uleb32 (zlen gs)) body) as Hpl.
      pose proof (zlen_nonneg (uleb32 (zlen gs))). pose proof (zlen_nonneg gs).
      assert (Hw3 : wasm = p1 ++ uleb32 (zlen gs) ++ body ++ rest) by (rewrite Hw2; assoc).
      rewrite (uleb32_at wasm (zlen p1) (zlen gs) p1 (body ++ rest) Hw3); [|done|lia].
      set (p2 := p1 ++ uleb32 (zlen gs)).
      destruct (parseSegments_enc gs (length wasm) p2 rest (zlen (p1 ++ uleb32 (zlen gs) ++ body)) segs) as [q Hq];
        [|done|fold body; lia|fold body; subst p2; by rewrite <- app_assoc|].
      { apply Nat2Z.inj_le. change (Z.of_nat (length gs)) with (zlen gs). change (Z.of_nat (length wasm)) with (zlen wasm).
        rewrite Hlen, Hpl. lia. }
      fold body in Hq. replace (p2 ++ body ++ rest) with wasm in Hq by (rewrite Hw3; subst p2; assoc).
      rewrite Hq. rewrite Hend. unfold ranges. cbn [map concat]. by rewrite app_assoc.
Qed.

Lemma parseDataSegments_read ss :
  Forall section_ok ss -> zlen (enc_module ss) < 2 ^ 63 ->
  parseDataSegments (enc_module ss) = Some (Ok (ranges ss)).
Proof.
  intros Hss Hl. unfold parseDataSegments, enc_module in *.
  set (hd := (0 :: s2b "asm") ++ le_encode 4 1). set (body := concat (map enc_section ss)) in *.
  assert (Hb : (0 :: s2b "asm") ++ le_encode 4 1 ++ body = hd ++ body) by (subst hd; assoc).
  pose proof (zlen_nonneg body). assert (Hhd : zlen hd = 8) by done.
  rewrite (proj2 (Z.ltb_ge _ 8)) by (rewrite Hb, zlen_app; lia).
  pose proof (go_slice_mid [] (0 :: s2b "asm") (le_encode 4 1 ++ body) 0 4 eq_refl eq_refl) as E1.
  pose proof (go_slice_mid (0 :: s2b "asm") (le_encode 4 1) body 4 8 eq_refl eq_refl) as E2.
  rewrite app_nil_l in E1. rewrite E1, E2. cbn [mbind option_bind].
  change (negb (bool_decide (0 :: s2b "asm" = 0 :: s2b "asm")) || negb (le_decode (le_encode 4 1) =? 1)) with false.
  cbv iota. rewrite Hb. change 8 with (zlen hd).
  apply (parseSections_enc ss (length (hd ++ body)) hd []); [done| |rewrite Hb in Hl; exact Hl].
  rewrite length_app. subst body. clear. induction ss as [|s ss IH]; [cbn; lia|].
  cbn [map concat length]. rewrite length_app. pose proof (enc_section_nonempty s). unfold zlen in *. lia.
Qed.


Definition demo_module : list section :=
  [Custom 1 [1; 2; 3]; DataSection [(1024, [7; 8; 9]); (65536, [])]; Custom 0 [5]].


Lemma parseDataSegments_total_witness :
  exists r, parseDataSegments (take 20 (enc_module demo_module)) = Some r.
Proof.
  destruct (parseDataSegments_total (take 20 (enc_module demo_module)) ltac:(vm_compute; reflexivity)) as (r & Hr & _).
  exists r. exact Hr.
Defined.
