(* ===== verification/Zygote.v ===== *)
(** * zygote.go: the template and its clones

    [initZygote] decides whether instances are cloned and takes the image;
    [newClone] turns an instance whose memory started as the image, and over
    which wazero has written the module's data segments, back into the
    template. The parts of the runtime they call are arguments: the template
    instance (Lifecycle), the temporary file, and the guest's exports. An
    outer [None] is a run-time panic. *)

From S2P Require Import Prelude Errors Netip GuestMem Memory DataSegments.

#[local] Open Scope Z_scope.

Record zygote := mkZygote { image : list Z; segs : list segRange }.

(** What [initZygote] leaves in the Runtime: no template, an error that
    fails every NewInstance, or a template. *)
Inductive zygoteState :=
| NoZygote
| ZygoteErr (e : go_error)
| Zygote (z : zygote).

Section Zygote.
Context {M : Type} `{GM : GuestMemory M}.

(** What the calls of [initZygote] return: the memory of the warmed template
    (or the error of creating it), the result of warmup, how many sockets
    and timers the template holds, whether [guest] found the module open,
    and the temporary file. *)
Record templateEnv := mkTemplate {
  te_disabled : bool;                   (* disableZygote, or no allocator *)
  te_inst : result go_error M;          (* newFullInstance *)
  te_warmup : result go_error Z;        (* out[0] of warmup *)
  te_sockets : Z;
  te_timers : Z;
  te_closed : option go_error;          (* the error of guest, if any *)
  te_create : option go_error;          (* os.CreateTemp *)
  te_write : option go_error;           (* f.Write *)
  te_alloc : bool                       (* newImageAllocator is not nil *)
}.

(** The check that every segment lies within the image, in uint64. *)
Definition segsInImage (image : list Z) (segs : list segRange) : bool :=
  forallb (fun s => u64 (seg_off s + seg_len s) <=? zlen image) segs.

(** [initZygote]. *)
Definition initZygote (wasm : list Z) (te : templateEnv) : option zygoteState :=
  if te_disabled te then Some NoZygote
  else
    parsed ← parseDataSegments wasm;
    match parsed with
    | Err _ => Some NoZygote
    | Ok segs =>
        match te_inst te with
        | Err e => Some (ZygoteErr e)
        | Ok mem =>
            match te_warmup te with
            | Err e => Some (ZygoteErr (errorfw "unbound: warmup: " e))
            | Ok out =>
                let rc := i32 (u32 out) in
                if negb (rc =? 0)
                then Some (ZygoteErr (ErrString (s2b "unbound: guest warmup failed: wasi errno " ++ itoa (i32 (- rc)))))
                else if negb (te_sockets te =? 0) || negb (te_timers te =? 0)
                then Some (ZygoteErr (ErrString (s2b "unbound: warmed template holds " ++ itoa (te_sockets te) ++
                       s2b " sockets and " ++ itoa (te_timers te) ++ s2b " timers")))
                else
                  match te_closed te with
                  | Some e => Some (ZygoteErr e)
                  | None =>
                      match mem_read mem 0 (mem_size mem) with
                      | None => Some (ZygoteErr (errorsNew "unbound: reading template memory failed"))
                      | Some image =>
                          if negb (segsInImage image segs)
                          then Some (ZygoteErr (errorsNew "unbound: data segment outside template memory"))
                          else
                            match te_create te, te_write te with
                            | Some _, _ => Some NoZygote
                            | None, Some _ => Some NoZygote
                            | None, None => if te_alloc te then Some (Zygote (mkZygote image segs)) else Some NoZygote
                            end
                      end
                  end
            end
        end
    end.

(** The loop of [newClone] that restores the segments; the slice bounds are
    uint32. *)
Fixpoint restoreSegs (m : M) (img : list Z) (sg : list segRange) : option (result go_error M) :=
  match sg with
  | [] => Some (Ok m)
  | s :: sg =>
      part ← go_slice img (seg_off s) (u32 (seg_off s + seg_len s));
      match mem_write m (seg_off s) part with
      | None => Some (Err (errorsNew "unbound: restoring data segment failed"))
      | Some m => restoreSegs m img sg
      end
  end.

(** The critical section of [newClone] on the memory of a new instance. *)
Definition restoreClone (z : zygote) (m : M) : option (result go_error M) :=
  let got := mem_size m in
  if negb (got =? zlen (image z))
  then Some (Err (ErrString (s2b "unbound: clone memory is " ++ itoa got ++ s2b " bytes, template " ++ itoa (zlen (image z)))))
  else restoreSegs m (image z) (segs z).

(** ** The clone is the template *)

Context {GL : GuestMemoryLaws M}.

(** Memory [m] agrees with the image outside the segments. *)
Definition image_outside (img : list Z) (sg : list segRange) (m : M) : Prop :=
  zlen (mem_bytes m) = zlen img /\
  forall i : nat, (forall s, s ∈ sg -> ~ (seg_off s <= Z.of_nat i < seg_off s + seg_len s)) ->
    mem_bytes m !! i = img !! i.

Lemma restore_one img s sg (m m' : M) :
  Forall is_byte img -> seg_ok s -> seg_off s + seg_len s <= zlen img ->
  image_outside img (s :: sg) m ->
  mem_write m (seg_off s) (slice img (seg_off s) (seg_len s)) = Some m' -> image_outside img sg m'.
Proof.
  intros Hb [Ho Hl] Hfit [Hsz Hout] Hw.
  pose proof (zlen_slice img (seg_off s) (seg_len s) ltac:(lia) ltac:(lia) Hfit) as Hlen.
  destruct (frame_write m (seg_off s) (seg_len s) (slice img (seg_off s) (seg_len s)) m'
    ltac:(lia) ltac:(lia) Hw) as [Hsz' Hfr].
  split; [congruence|]. intros i Hi.
  destruct (decide (seg_off s <= Z.of_nat i < seg_off s + seg_len s)) as [Hin|Hnot].
  - apply mem_write_Some in Hw as [-> _]; [|lia|by apply slice_forall].
    unfold splice, slice, zlen in *.
    rewrite lookup_app_r by (rewrite length_take; lia). rewrite length_take.
    rewrite lookup_app_l by lia. rewrite lookup_take_lt, lookup_drop by lia. f_equal. lia.
  - rewrite Hfr.
    + apply Hout. intros s' [->|Hs']%elem_of_cons; [done|]. by apply Hi.
    + intros p n [= -> ->]%list_elem_of_singleton. done.
Qed.

Lemma restoreSegs_image img sg (m : M) :
  Forall is_byte img -> zlen img < 2 ^ 32 -> Forall seg_ok sg -> segsInImage img sg = true ->
  image_outside img sg m -> exists m', restoreSegs m img sg = Some (Ok m') /\ mem_bytes m' = img.
Proof.
  intros Hb Hsz. revert m. induction sg as [|s sg IH]; intros m Hok Hin Hm.
  - exists m. split; [done|]. destruct Hm as [_ Hm]. apply list_eq. intros i. apply Hm. by intros s ?%not_elem_of_nil.
  - apply Forall_cons in Hok as [[Ho Hl] Hok]. cbn [segsInImage forallb] in Hin.
    apply andb_true_iff in Hin as [Hfit Hin]. rewrite u64_id in Hfit by lia. bool_props.
    cbn [restoreSegs]. rewrite u32_id, go_slice_Some by lia. cbn [mbind option_bind].
    replace (seg_off s + seg_len s - seg_off s) with (seg_len s) by lia.
    destruct (mem_write_ok m (seg_off s) (slice img (seg_off s) (seg_len s))) as [m1 Hw]; [lia| |].
    { rewrite zlen_slice by lia. destruct Hm as [-> _]. lia. }
    rewrite Hw. apply IH; [done|done|]. by eapply restore_one; [| | | |exact Hw].
Qed.

Lemma restoreClone_image z (m : M) :
  Forall is_byte (image z) -> zlen (image z) < 2 ^ 32 -> Forall seg_ok (segs z) ->
  segsInImage (image z) (segs z) = true -> image_outside (image z) (segs z) m ->
  exists m', restoreClone z m = Some (Ok m') /\ mem_bytes m' = image z.
Proof.
  intros Hb Hsz Hok Hin Hm. unfold restoreClone. cbv zeta.
  assert (Hs : mem_size m = zlen (image z)).
  { rewrite mem_size_spec. destruct Hm as [-> _]. apply u32_id. pose proof (zlen_nonneg (image z)). lia. }
  rewrite Hs, Z.eqb_refl. by apply restoreSegs_image.
Qed.

(** ** Instantiation *)

(** wasm instantiation: the active segments are copied into memory in
    order (core specification, section 4.5.4). *)
Definition writeSegments (view : list Z) (gs : list (Z * list Z)) : list Z :=
  fold_left (fun v g => splice v (fst g) (snd g)) gs view.

Definition moduleSegments (ss : list section) : list (Z * list Z) :=
  concat (map (fun s => match s with Custom _ _ => [] | DataSection gs => gs end) ss).

Lemma ranges_segments ss : ranges ss = map (fun g => mkSeg (fst g) (zlen (snd g))) (moduleSegments ss).
Proof.
  unfold ranges, moduleSegments. induction ss as [|[i p|gs] ss IH]; cbn; [done|done|].
  by rewrite map_app, IH.
Qed.

Lemma splice_outside (l : list Z) p bs (i : nat) :
  0 <= p -> p + zlen bs <= zlen l -> ~ (p <= Z.of_nat i < p + zlen bs) -> splice l p bs !! i = l !! i.
Proof.
  intros Hp Hfit Hi. unfold splice, zlen in *. destruct (decide (i < Z.to_nat p)%nat).
  - rewrite lookup_app_l by (rewrite length_take; lia). by rewrite lookup_take_lt.
  - rewrite !lookup_app_r by (rewrite ?length_take; lia). rewrite lookup_drop, length_take. f_equal. lia.
Qed.

Lemma writeSegments_outside gs : forall view,
  Forall (fun g => 0 <= fst g /\ fst g + zlen (snd g) <= zlen view) gs ->
  zlen (writeSegments view gs) = zlen view /\
  forall i : nat, (forall g, g ∈ gs -> ~ (fst g <= Z.of_nat i < fst g + zlen (snd g))) ->
    writeSegments view gs !! i = view !! i.
Proof.
  induction gs as [|g gs IH]; intros view Hg; [done|].
  apply Forall_cons in Hg as [[Ho Hf] Hg]. cbn [writeSegments fold_left].
  assert (Hz : zlen (splice view (fst g) (snd g)) = zlen view) by (by apply zlen_splice).
  destruct (IH (splice view (fst g) (snd g))) as [IH1 IH2]; [by rewrite Hz|].
  split; [by rewrite <- Hz|]. intros i Hi. fold (writeSegments (splice view (fst g) (snd g)) gs).
  rewrite IH2 by (intros g' Hg'; apply Hi; by right).
  apply splice_outside; [done|done|]. apply Hi. by left.
Qed.

(** When [initZygote] makes a template, the module parsed, the guest warmed
    up, the template held no sockets or timers, and the image is its whole
    memory. *)
Lemma initZygote_inv wasm te z :
  initZygote wasm te = Some (Zygote z) ->
  parseDataSegments wasm = Some (Ok (segs z)) /\ segsInImage (image z) (segs z) = true /\
  te_sockets te = 0 /\ te_timers te = 0 /\
  exists mem out, te_inst te = Ok mem /\ te_warmup te = Ok out /\ i32 (u32 out) = 0 /\
    mem_read mem 0 (mem_size mem) = Some (image z).
Proof.
  unfold initZygote. destruct (te_disabled te); [done|].
  destruct (parseDataSegments wasm) as [[sg|e]|]; [|done|done]. cbn [mbind option_bind].
  destruct (te_inst te) as [mem|]; [|done]. destruct (te_warmup te) as [out|]; [|done]. cbv zeta.
  destruct (negb (i32 (u32 out) =? 0)) eqn:Erc; [done|].
  destruct (negb (te_sockets te =? 0) || negb (te_timers te =? 0)) eqn:Est; [done|].
  destruct (te_closed te); [done|].
  destruct (mem_read mem 0 (mem_size mem)) as [img|] eqn:Er; [|done].
  destruct (negb (segsInImage img sg)) eqn:Ei; [done|].
  destruct (te_create te); [done|]. destruct (te_write te); [done|]. destruct (te_alloc te); [|done].
  intros [= <-]. bool_props. cbn [image segs]. split_and!; try done. by exists mem, out.
Qed.

(** C9: a clone's memory is the template's, byte for byte. Let the module be
    any sections whose active segments are 32-bit, and let [initZygote]
    have taken a template of it. An instance whose memory wazero obtained
    from the image allocator (mapped or not), and over which instantiation
    copied the module's data segments, is restored by [newClone] to exactly
    the template's image: no panic, no error, whatever the segments'
    overlaps. *)
Theorem clone_memory ss te z os maxBytes size view lm (m : M) :
  Forall section_ok ss -> zlen (enc_module ss) < 2 ^ 63 ->
  initZygote (enc_module ss) te = Some (Zygote z) ->
  zlen (image z) < 2 ^ 32 -> 0 <= size <= zlen (image z) -> zlen (image z) <= maxBytes ->
  Reallocate (imageAllocate os (image z) maxBytes) size = (lm, Some view) ->
  mem_bytes m = writeSegments view (moduleSegments ss) ->
  exists m', restoreClone z m = Some (Ok m') /\ mem_bytes m' = image z.
Proof.
  intros Hss Hlen Hz Hsz Hsize Hmax Hre Hm.
  destruct (initZygote_inv _ _ _ Hz) as (Hp & Hin & _ & _ & mem & out & _ & _ & _ & Hr).
  assert (Hms : 0 <= mem_size mem) by (rewrite mem_size_spec; apply u32_range).
  apply mem_read_Some in Hr as (_ & _ & _ & Hb); [|lia|done].
  pose proof (parseDataSegments_ok _ Hlen) as Hok. rewrite Hp in Hok.
  pose proof (parseDataSegments_read ss Hss Hlen) as Hrt. rewrite Hp in Hrt. injection Hrt as Hrt.
  destruct (imageAllocate_view os (image z) maxBytes size Hsize Hmax) as (lm' & Hre' & _).
  rewrite Hre in Hre'. injection Hre' as -> ->.
  apply restoreClone_image; try done.
  rewrite Hrt, ranges_segments in Hok, Hin |- *. rewrite Forall_map in Hok.
  assert (Hg : Forall (fun g => 0 <= fst g /\ fst g + zlen (snd g) <= zlen (image z)) (moduleSegments ss)).
  { unfold segsInImage in Hin. rewrite forallb_forall in Hin. apply Forall_forall. intros g Hg.
    rewrite Forall_forall in Hok. destruct (Hok g Hg) as [Ho Hl]. cbn in Ho, Hl.
    specialize (Hin (mkSeg (fst g) (zlen (snd g)))). cbn in Hin. rewrite u64_id in Hin by lia.
    split; [lia|]. apply Z.leb_le, Hin. apply in_map_iff. exists g. split; [done|]. by apply list_elem_of_In. }
  destruct (writeSegments_outside _ _ Hg) as [Hwl Hwo]. split; [by rewrite Hm|].
  intros i Hi. rewrite Hm. apply Hwo. intros g Hgi. apply (Hi (mkSeg (fst g) (zlen (snd g)))).
  apply list_elem_of_fmap. by exists g.
Qed.

(** A template is only taken when it is fit to be cloned. If
    [initZygote] makes one, then the module's data segments parsed and lie
    within the image, the guest was created and warmed up without error,
    the warmed instance held no socket and no timer (whose identifiers
    would dangle in every clone), and the image is the whole guest memory;
    with a module it can parse it never panics. *)
Lemma template_clean wasm te z :
  initZygote wasm te = Some (Zygote z) ->
  parseDataSegments wasm = Some (Ok (segs z)) /\ segsInImage (image z) (segs z) = true /\
  te_sockets te = 0 /\ te_timers te = 0 /\
  exists mem out, te_inst te = Ok mem /\ te_warmup te = Ok out /\ i32 (u32 out) = 0 /\
    mem_read mem 0 (mem_size mem) = Some (image z).
Proof. apply initZygote_inv. Qed.

End Zygote.

Import ListMem.

(** A module with two overlapping segments, a template of eight bytes, and
    the memory of a clone after instantiation. *)
Definition demo_sections : list section := [Custom 1 []; DataSection [(2, [90; 91; 92]); (3, [80])]].

Definition demo_template : templateEnv :=
  mkTemplate false (Ok [1; 2; 3; 4; 5; 6; 7; 8]) (Ok 0) 0 0 None None None true.

Definition demo_zygote : zygote := mkZygote [1; 2; 3; 4; 5; 6; 7; 8] [mkSeg 2 3; mkSeg 3 1].

Lemma demo_init : initZygote (enc_module demo_sections) demo_template = Some (Zygote demo_zygote).
Proof. vm_compute. reflexivity. Qed.

Lemma demo_sections_ok : Forall section_ok demo_sections.
Proof. repeat constructor; vm_compute; reflexivity || discriminate. Qed.

Lemma clone_memory_witness :
  exists m', restoreClone demo_zygote [1; 2; 90; 80; 92; 6; 7; 8] = Some (Ok m') /\
    mem_bytes m' = [1; 2; 3; 4; 5; 6; 7; 8].
Proof.
  exact (clone_memory demo_sections demo_template demo_zygote os_all 64 4 [1; 2; 3; 4; 5; 6; 7; 8]
    (Reallocate (imageAllocate os_all [1; 2; 3; 4; 5; 6; 7; 8] 64) 4).1 [1; 2; 90; 80; 92; 6; 7; 8]
    demo_sections_ok ltac:(vm_compute; reflexivity) demo_init ltac:(vm_compute; reflexivity)
    ltac:(vm_compute; split; discriminate) ltac:(vm_compute; discriminate) eq_refl eq_refl).
Defined.

Lemma template_clean_witness :
  segsInImage (image demo_zygote) (segs demo_zygote) = true.
Proof. destruct (template_clean _ _ _ demo_init) as (_ & H & _). exact H. Defined.
