(* ===== verification/Resolve.v ===== *)
(** * runtime.go: resolving queries

    [ResolveAll] and what it calls, as a goroutine over an [instance]: the
    host's flags, the guest's memory and private state, and the host state
    the guest's imports act on. The guest is arbitrary: [exec] is any
    function that runs an export under the guest lock. What [select] does
    in the waiting loop is a script: the context is done, the instance is
    done, or an event arrives; a branch that is not ready is not taken. An
    [ending] is a return, a panic, or that the script is over and the call
    still waits. *)

From S2P Require Import Prelude Errors Netip GuestMem Proc Host Names Answer.

#[local] Open Scope Z_scope.

(** ** Names and errors *)

(** [normalizeName]. *)
Definition normalizeName (name : list Z) : result go_error (list Z) :=
  if bool_decide (name = []) then Err (errorsNew "unbound: empty name")
  else if bool_decide (0 ∈ name) then Err (errorsNew "unbound: name contains NUL")
  else
    let name := if bool_decide (last name = Some 46) then name else name ++ [46] in
    if 1024 <? zlen name then Err (errorsNew "unbound: name too long") else Ok name.

(** [joinQueryErrors]. *)
Definition joinQueryErrors (queries : list Query) (errs : list (option go_error)) : option go_error :=
  errorsJoin (zip_with (fun q e => QueryError q <$> e) queries errs).

(** ** The instance *)

(** The exports bound by [bindExports]. *)
Inductive export :=
| X_abiVersion | X_alloc | X_dealloc | X_init | X_warmup | X_reseed | X_resolveStart
| X_ioReady | X_timerFired | X_resultGet | X_resolveCancel.

Definition resultSize : Z := 32.

(** [instanceState.mod]: nil, an open module or a closed one. *)
Inductive modState := ModNil | ModOpen | ModClosed.

#[export] Instance modState_eq_dec : EqDecision modState.
Proof. solve_decision. Defined.

Inductive waitChoice :=
| WaitCtx (e : go_error)   (* ctx is done, with ctx.Err() *)
| WaitDone                 (* the instance's done channel *)
| WaitEvent.               (* the event channel *)

Inductive ending :=
| Panics
| Waits
| Returned (results : list (option Result)) (err : option go_error).

(** One query of a batch: [names[n]], [rids[n]], [results[n]], [errs[n]]. *)
Record slot := mkSlot { sl_name : list Z; sl_rid : Z; sl_res : option Result; sl_err : option go_error }.

Definition blank_slot : slot := mkSlot [] 0 None None.

Definition settled (s : slot) : bool :=
  bool_decide (is_Some (sl_res s)) || bool_decide (is_Some (sl_err s)).

(** [failUnsettled], on the arrays. *)
Definition failSlot (e : go_error) (s : slot) : slot :=
  if settled s then s else mkSlot (sl_name s) (sl_rid s) (sl_res s) (Some e).

(** What both return statements of [ResolveAll] return. *)
Definition finish (queries : list Query) (slots : list slot) : ending :=
  Returned (map sl_res slots) (joinQueryErrors queries (map sl_err slots)).

Section Resolve.
Context {M : Type} `{GM : GuestMemory M} {G : Type} {U : Unicode} {DM : DNSMessage}.

Record instance := mkInstance {
  i_closed : bool;           (* Instance.closed *)
  i_registered : bool;       (* present in Runtime.states *)
  modDead : bool;            (* instanceState.modDead *)
  i_mod : modState;          (* instanceState.mod *)
  i_mem : M;
  i_guest : G;
  i_host : instanceState;
  i_calls : list (export * list Z)   (* the guest calls made *)
}.

Definition set_host (h : instanceState) (s : instance) : instance :=
  mkInstance (i_closed s) (i_registered s) (modDead s) (i_mod s) (i_mem s) (i_guest s) h (i_calls s).

(** The guest: what an export returns, and what it leaves. *)
Variable exec : export -> list Z -> G * M * instanceState -> result go_error Z * (G * M * instanceState).

(** A call under the guest lock. *)
Definition invoke (f : export) (args : list Z) (s : instance) : instance * result go_error Z :=
  let '(r, (g, m, h)) := exec f args (i_guest s, i_mem s, i_host s) in
  (mkInstance (i_closed s) (i_registered s) (modDead s) (i_mod s) m g h (i_calls s ++ [(f, args)]), r).

(** [instanceState.guest]. *)
Definition guest {A : Type} (fn : instance -> instance * result go_error A) : proc instance (result go_error A) :=
  atomic (fun s => if modDead s then (s, Err ErrClosed) else fn s).

(** [Instance.call]. *)
Definition call (f : export) (args : list Z) : proc instance (result go_error Z) := guest (invoke f args).

(** A goroutine of the host state, run by this one. *)
Fixpoint on_host {A : Type} (p : proc instanceState A) : proc instance A :=
  match p with
  | Done a => Done a
  | Step f k => Step (fun s => set_host (f (i_host s)) s) (fun s => on_host (k (i_host s)))
  | Spawn c k => Spawn (on_host c) (on_host k)
  end.

(** [removeState], on the instance. *)
Definition unregister (s : instance) : instance :=
  mkInstance (i_closed s) false (modDead s) (i_mod s) (i_mem s) (i_guest s) (i_host s) (i_calls s).

(** [closeModule]: mark the module dead and close it, if there is one. *)
Definition closeModule : proc instance unit :=
  modify (fun s => mkInstance (i_closed s) (i_registered s) true (match i_mod s with ModNil => ModNil | _ => ModClosed end)
                     (i_mem s) (i_guest s) (i_host s) (i_calls s)).

(** [Instance.Close]. *)
Definition Close : proc instance unit :=
  let* first := atomic (fun s =>
    if i_closed s then (s, false)
    else (mkInstance true (i_registered s) (modDead s) (i_mod s) (i_mem s) (i_guest s) (i_host s) (i_calls s), true)) in
  if first : bool then
    do* on_host close in
    do* modify unregister in
    closeModule
  else Done tt.

(** [kill]. *)
Definition kill (e : go_error) : proc instance go_error := do* Close in Done e.

(** [allocWrite]. *)
Definition allocWrite (b : list Z) : proc instance (result go_error Z) :=
  guest (fun s =>
    let n := if zlen b =? 0 then 1 else zlen b in
    let '(s, out) := invoke X_alloc [n] s in
    match out with
    | Err e => (s, Err (errorfw "unbound: alloc: " e))
    | Ok v =>
        let p := u32 v in
        if p =? 0 then (s, Err (errorsNew "unbound: guest allocation failed"))
        else if 0 <? zlen b then
          match mem_write (i_mem s) p b with
          | None => (s, Err (errorsNew "unbound: guest allocation outside memory"))
          | Some m =>
              (mkInstance (i_closed s) (i_registered s) (modDead s) (i_mod s) m (i_guest s) (i_host s) (i_calls s), Ok p)
          end
        else (s, Ok p)
    end).

(** [free]. *)
Definition free (p n : Z) : proc instance unit :=
  if negb (p =? 0) then do* call X_dealloc [p; u32 n] in Done tt else Done tt.

(** [cancel]. *)
Definition cancel (rid : Z) : proc instance unit :=
  let* c := reads i_closed in
  if negb c then do* call X_resolveCancel [u32 rid] in Done tt else Done tt.

(** [stateErr]. *)
Definition stateErr : proc instance go_error :=
  let* e := reads (fun s => err (i_host s)) in
  match e with
  | Some e => kill e
  | None => Done ErrClosed
  end.

(** [dispatch]. *)
Definition dispatch (ev : hostEvent) : proc instance (option go_error) :=
  let* r := match kind ev with
            | eventIO => call X_ioReady [u32 (sid ev); u32 (flags ev)]
            | eventTimer => call X_timerFired [tid ev]
            end in
  match r with
  | Ok _ => Done None
  | Err e => let* e := kill (errorfw "unbound: dispatch event: " e) in Done (Some e)
  end.

(** ** Polling *)

(** What the guest block of [pollResult] collects. *)
Record rawResult := mkRaw { rw_rc : Z; rw_sec : Z; rw_rcode : Z; rw_why : list Z; rw_packet : list Z }.

(** The closure [read]. *)
Definition readBuffer (m : M) (ptr n : Z) : result go_error (list Z) :=
  if n =? 0 then Ok []
  else if 65535 <? n then Err (errorsNew "unbound: result buffer exceeds ABI limit")
  else match mem_read m ptr n with
       | None => Err (errorsNew "unbound: result buffer outside guest memory")
       | Some v => Ok v
       end.

(** The guest block. *)
Definition pollGuest (rid p : Z) (s : instance) : instance * result go_error rawResult :=
  let '(s, out) := invoke X_resultGet [u32 rid; p] s in
  match out with
  | Err e => (s, Err (errorfw "unbound: result_get: " e))
  | Ok v =>
      let rc := i32 (u32 v) in
      if rc <=? 0 then (s, Ok (mkRaw rc 0 0 [] []))
      else
        match mem_read (i_mem s) p resultSize with
        | None => (s, Err (errorsNew "unbound: result structure outside guest memory"))
        | Some b =>
            let word off := le_decode (slice b off 4) in
            (s, let? why := readBuffer (i_mem s) (word 8) (word 12) in
                let? packet := readBuffer (i_mem s) (word 16) (word 20) in
                Ok (mkRaw rc (word 0) (word 4) why packet))
        end
  end.

Inductive polled :=
| PollPanics
| PollPending
| PollError (e : go_error)
| PollReady (r : Result).

Definition secStatusSecure : Z := 1.
Definition secStatusBogus : Z := 2.
Definition rcodeNoError : Z := 0.
Definition rcodeNXDomain : Z := 3.

Definition with_ede (packet : list Z) (f : list EDE -> go_error) : polled :=
  match parseEDE packet with
  | Some (Some ede) => PollError (f ede)
  | _ => PollPanics
  end.

(** What [pollResult] makes of the collected values. *)
Definition interpret (raw : rawResult) (qname : list Z) (qtype : Z) : polled :=
  if rw_rc raw =? 0 then PollPending
  else if rw_rc raw <? 0
  then PollError (ErrString (s2b "unbound: result_get failed: wasi errno " ++ itoa (i32 (- rw_rc raw))))
  else if rw_sec raw =? secStatusBogus then with_ede (rw_packet raw) (BogusError (rw_why raw))
  else
    let packet := rw_packet raw in
    let rcode := if (rw_rcode raw =? rcodeNoError) && (4 <=? zlen packet)
                 then Z.land (byte_at packet 3) 0xf else rw_rcode raw in
    if negb (rcode =? rcodeNoError) && negb (rcode =? rcodeNXDomain)
    then with_ede packet (ResponseError rcode)
    else
      let res := mkResult (rw_sec raw =? secStatusSecure) false (rcode =? rcodeNXDomain) packet [] [] [] in
      if rcode =? rcodeNoError then
        match parseAnswer res qname qtype with
        | None => PollPanics
        | Some (_, Some e) => PollError e
        | Some (res, None) => PollReady res
        end
      else PollReady res.

(** [pollResult]: an error that killed the instance, or the outcome. *)
Definition pollResult (rid p : Z) (qname : list Z) (qtype : Z) : proc instance (result go_error polled) :=
  let* raw := guest (pollGuest rid p) in
  match raw with
  | Err e => let* e := kill e in Done (Err e)
  | Ok raw => Done (Ok (interpret raw qname qtype))
  end.

(** ** ResolveAll *)

(** The first loop: start every query. The slots, the number started, and
    the error that ended the call early. *)
Fixpoint startAll (queries : list Query) (acc : list slot) (pending : Z)
    : proc instance (list slot * Z * option go_error) :=
  match queries with
  | [] => Done (acc, pending, None)
  | q :: rest =>
      match normalizeName (Name q) with
      | Err e => startAll rest (acc ++ [mkSlot [] 0 None (Some e)]) pending
      | Ok name =>
          let* p := allocWrite name in
          match p with
          | Err e => Done (acc ++ mkSlot name 0 None None :: map (fun _ => blank_slot) rest, pending, Some e)
          | Ok p =>
              let* out := call X_resolveStart [p; zlen name; Type_ q; 1] in
              do* free p (zlen name) in
              match out with
              | Err e =>
                  let* e := kill (errorfw "unbound: resolve_start: " e) in
                  Done (acc ++ mkSlot name 0 None None :: map (fun _ => blank_slot) rest, pending, Some e)
              | Ok v =>
                  let rid := i32 (u32 v) in
                  if rid <? 0
                  then startAll rest (acc ++ [mkSlot name 0 None
                         (Some (ErrString (s2b "unbound: resolve_start failed: wasi errno " ++ itoa (i32 (- rid)))))]) pending
                  else startAll rest (acc ++ [mkSlot name rid None None]) (pending + 1)
              end
          end
      end
  end.

(** What one pass over the queries ends with. *)
Inductive passed :=
| PassPanics
| PassFatal (e : go_error)
| PassDone (pending : Z).

(** One pass: poll every started, unsettled query. *)
Fixpoint pollAll (p : Z) (queries : list Query) (slots acc : list slot) (pending : Z)
    : proc instance (list slot * passed) :=
  match queries, slots with
  | q :: queries, s :: slots =>
      if (sl_rid s =? 0) || settled s then pollAll p queries slots (acc ++ [s]) pending
      else
        let* r := pollResult (sl_rid s) p (sl_name s) (Type_ q) in
        match r with
        | Err e => Done (acc ++ s :: slots, PassFatal e)
        | Ok PollPanics => Done (acc ++ s :: slots, PassPanics)
        | Ok PollPending => pollAll p queries slots (acc ++ [s]) pending
        | Ok (PollError e) =>
            pollAll p queries slots (acc ++ [mkSlot (sl_name s) (sl_rid s) None (Some e)]) (pending - 1)
        | Ok (PollReady res) =>
            pollAll p queries slots (acc ++ [mkSlot (sl_name s) (sl_rid s) (Some res) None]) (pending - 1)
        end
  | _, _ => Done (acc ++ slots, PassDone pending)
  end.

(** The branch [select] takes. *)
Inductive selected_ := SelCtx (e : go_error) | SelDone | SelEvent (ev : hostEvent) | SelNone.

Definition select_ (ch : waitChoice) : proc instance selected_ :=
  atomic (fun s =>
    match ch with
    | WaitCtx e => (s, SelCtx e)
    | WaitDone => (s, if done (i_host s) then SelDone else SelNone)
    | WaitEvent =>
        match events (i_host s) with
        | [] => (s, SelNone)
        | ev :: evs => (set_host (set_events evs (i_host s)) s, SelEvent ev)
        end
    end).

(** The waiting loop; [poll] tells whether the next turn polls (it does
    unless the last branch was not ready). *)
Fixpoint rounds (script : list waitChoice) (poll : bool) (p : Z) (queries : list Query)
    (slots : list slot) (pending : Z) : proc instance (ending * list slot) :=
  let wait slots pending :=
    let fail e := (finish queries (map (failSlot e) slots), slots) in
    match script with
    | [] => Done (Waits, slots)
    | ch :: script =>
        let* b := select_ ch in
        match b with
        | SelNone => rounds script false p queries slots pending
        | SelCtx e => do* Close in Done (fail e)
        | SelDone => let* e := stateErr in Done (fail e)
        | SelEvent ev =>
            let* r := dispatch ev in
            match r with
            | Some e => Done (fail e)
            | None => rounds script true p queries slots pending
            end
        end
    end in
  if poll then
    let* r := pollAll p queries slots [] pending in
    match r with
    | (slots, PassPanics) => Done (Panics, slots)
    | (slots, PassFatal e) => Done (finish queries (map (failSlot e) slots), slots)
    | (slots, PassDone pending) =>
        if pending =? 0 then Done (finish queries slots, slots) else wait slots pending
    end
  else wait slots pending.

(** The deferred function: free the guest's result slots. *)
Definition cancelAll (slots : list slot) : proc instance unit :=
  for_each (fun s => if 0 <? sl_rid s then cancel (sl_rid s) else Done tt) slots.

(** [ResolveAll]. *)
Definition ResolveAll (script : list waitChoice) (queries : list Query) : proc instance ending :=
  let* c := reads i_closed in
  if c : bool then
    if bool_decide (queries = []) then Done (Returned [] (Some ErrClosed))
    else Done (finish queries (map (fun _ => failSlot ErrClosed blank_slot) queries))
  else
    let* r := startAll queries [] 0 in
    let '(slots, pending, early) := r in
    match early with
    | Some e => do* cancelAll slots in Done (finish queries (map (failSlot e) slots))
    | None =>
        if pending =? 0 then do* cancelAll slots in Done (finish queries slots)
        else
          let* p := allocWrite (replicate (Z.to_nat resultSize) 0) in
          match p with
          | Err e => do* cancelAll slots in Done (finish queries (map (failSlot e) slots))
          | Ok p =>
              let* r := rounds script true p queries slots pending in
              match r with
              | (Panics, _) => Done Panics
              | (Waits, _) => Done Waits
              | (fin, slots) =>
                  do* free p resultSize in
                  do* cancelAll slots in
                  Done fin
              end
          end
    end.

(** [Resolve]. *)
Definition Resolve (script : list waitChoice) (name : list Z) (qtype : Z)
    : proc instance (option (result go_error (option Result))) :=
  let* r := ResolveAll script [mkQuery name qtype] in
  match r with
  | Returned results (Some e) =>
      Done (Some (Err (match as_query e with Some e' => e' | None => e end)))
  | Returned results None => Done (Some (Ok (match results with r :: _ => r | [] => None end)))
  | _ => Done None
  end.

End Resolve.
