(* ===== verification/ResolveSpec.v ===== *)
(** * What resolving guarantees

    Theorems about Resolve.v: for every guest, every script of the waiting
    loop and every interference from other goroutines, what [ResolveAll]
    and [Resolve] return, that they return once the context is done, that
    fatal errors close the instance, and how guest results are read. *)

From S2P Require Import Prelude Errors Netip GuestMem Proc Host Names Answer AnswerSpec Resolve.

#[local] Open Scope Z_scope.

(** ** Names *)


Lemma normalizeName_nonempty name n : normalizeName name = Ok n -> n <> [].
Proof.
  unfold normalizeName. repeat case_bool_decide; try done; destruct (1024 <? _); try done; intros [= <-] Hn; [done|].
  by destruct name.
Qed.

(** ** Results read from the guest *)

Section Spec.
Context {M : Type} `{GM : GuestMemory M} {G : Type} {U : Unicode} {DM : DNSMessage} {DL : DNSMessageLaws}.

Lemma with_ede_error packet f : exists ede, parseEDE packet = Some (Some ede) /\ with_ede packet f = PollError (f ede).
Proof. unfold with_ede. destruct (parseEDE_total packet) as [l Hl]. exists l. by rewrite Hl. Qed.

Lemma interpret_total raw qname qtype : interpret raw qname qtype <> PollPanics.
Proof.
  unfold interpret. repeat case_match; try done.
  all: match goal with
       | |- with_ede ?p ?f <> _ => by destruct (with_ede_error p f) as (ede & _ & ->)
       | H : parseAnswer ?r ?q ?t = None |- _ => destruct (proj1 (parseAnswer_core r q t)); congruence
       end.
Qed.

(** The response code of a result: the callback's unless it is NOERROR and
    the packet has a header. *)
Definition result_rcode (raw : rawResult) : Z :=
  if (rw_rcode raw =? rcodeNoError) && (4 <=? zlen (rw_packet raw))
  then Z.land (byte_at (rw_packet raw) 3) 0xf else rw_rcode raw.

(** The result [pollResult] starts from. *)
Definition fresh_result (raw : rawResult) : Result :=
  mkResult (rw_sec raw =? secStatusSecure) false (result_rcode raw =? rcodeNXDomain) (rw_packet raw) [] [] [].

(** C4: how a collected guest result is classified, on every input. It never
    panics; it is pending exactly for return code 0; a bogus answer is always
    a [BogusError] with the guest's reason, whatever the packet says, so
    unvalidated data is never returned; any response code other than NOERROR
    and NXDOMAIN is a [ResponseError]; and a result is only returned for a
    non-bogus NOERROR or NXDOMAIN answer, with [Secure] exactly for the
    secure status, no data when NXDOMAIN, and otherwise the records that
    answer the query. *)
Theorem interpret_spec raw qname qtype :
  match interpret raw qname qtype with
  | PollPanics => False
  | PollPending => rw_rc raw = 0
  | PollError e =>
      rw_rc raw < 0 \/
      (0 < rw_rc raw /\ rw_sec raw = 2 /\
        exists ede, parseEDE (rw_packet raw) = Some (Some ede) /\ e = BogusError (rw_why raw) ede) \/
      (0 < rw_rc raw /\ rw_sec raw <> 2 /\ result_rcode raw <> 0 /\ result_rcode raw <> 3 /\
        exists ede, parseEDE (rw_packet raw) = Some (Some ede) /\ e = ResponseError (result_rcode raw) ede) \/
      (0 < rw_rc raw /\ rw_sec raw <> 2 /\ result_rcode raw = 0 /\
        exists r, parseAnswer (fresh_result raw) qname qtype = Some (r, Some e))
  | PollReady r =>
      0 < rw_rc raw /\ rw_sec raw <> 2 /\ AnswerPacket r = rw_packet raw /\
      (Secure r = true <-> rw_sec raw = 1) /\
      ((result_rcode raw = 3 /\ r = fresh_result raw) \/
       (result_rcode raw = 0 /\ NXDomain r = false /\ answers_query (fresh_result raw) qname qtype r))
  end.
Proof.
  unfold interpret, secStatusBogus. fold (result_rcode raw). fold (fresh_result raw).
  destruct (Z.eqb_spec (rw_rc raw) 0) as [?|Hz]; [done|].
  destruct (Z.ltb_spec (rw_rc raw) 0) as [?|Hp]; [by left|].
  assert (0 < rw_rc raw) by lia.
  destruct (Z.eqb_spec (rw_sec raw) 2) as [?|Hb].
  { destruct (with_ede_error (rw_packet raw) (BogusError (rw_why raw))) as (ede & He & ->). naive_solver. }
  unfold rcodeNoError, rcodeNXDomain in *.
  destruct (Z.eqb_spec (result_rcode raw) 0) as [H0|H0]; [|destruct (Z.eqb_spec (result_rcode raw) 3) as [H3|H3]]; cbn [negb andb].
  - destruct (parseAnswer_core (fresh_result raw) qname qtype) as [[[r oe] Hr] Ha]. rewrite Hr.
    destruct oe as [e|]; [naive_solver|]. specialize (Ha r Hr).
    destruct (answers_query_keeps _ _ _ _ Ha) as (-> & HN & ->). split_and!; try done.
    + cbn. unfold secStatusSecure. apply Z.eqb_eq.
    + right. split_and!; try done. rewrite HN. cbn. by rewrite H0.
  - split_and!; try done; [|by left]. cbn. apply Z.eqb_eq.
  - destruct (with_ede_error (rw_packet raw) (ResponseError (result_rcode raw))) as (ede & He & ->).
    right; right; left. naive_solver.
Qed.

(** ** The instance under interference *)

Variable exec : export -> list Z -> G * M * instanceState -> result go_error Z * (G * M * instanceState).

#[local] Abbreviation inst := (@instance M G).

(** A dead module is not open. *)
Definition mod_sound (s : inst) : Prop := modDead s = true -> i_mod s <> ModOpen.

(** What any goroutine may do to an instance: anything but to reopen it, to
    bring its module back, or to register it again. *)
Definition keeps (s s' : inst) : Prop :=
  (i_closed s = true -> i_closed s' = true) /\ (modDead s = true -> modDead s' = true) /\
  (i_registered s' = true -> i_registered s = true) /\ (mod_sound s -> mod_sound s').

(** What the goroutines of the instance itself do: it leaves the registry
    only when it has been closed. *)
Definition steps (s s' : inst) : Prop :=
  keeps s s' /\ (i_registered s = true -> i_registered s' = true \/ i_closed s' = true).

Lemma steps_keeps s s' : steps s s' -> keeps s s'.
Proof. by intros [H _]. Qed.

(** A step that leaves the flags alone. *)
Lemma same_flags (s : inst) m g h cs :
  steps s (mkInstance (i_closed s) (i_registered s) (modDead s) (i_mod s) m g h cs).
Proof. unfold steps, keeps, mod_sound. cbn. tauto. Qed.

Lemma steps_refl s : steps s s.
Proof. unfold steps, keeps. tauto. Qed.

Lemma keeps_rtc s s' : rtc keeps s s' -> keeps s s'.
Proof. induction 1 as [s|s s1 s' H _ IH]; [apply steps_keeps, steps_refl|]. unfold keeps in *. tauto. Qed.

Lemma seq {A B} (p : proc inst A) (k : A -> proc inst B) s0 Q P :
  rgr keeps steps p s0 Q -> (forall a s, rtc keeps s0 s -> Q a s -> rgr keeps steps (k a) s P) ->
  rgr keeps steps (pbind k p) s0 P.
Proof. apply rgr_bind, steps_keeps. Qed.

Lemma keeps_on_host {A : Type} (p : proc instanceState A) s : rgr_ keeps steps (on_host p) s.
Proof.
  revert s. induction p as [A a|A f p IH|A c IHc p IH]; intros s; cbn [on_host rgr]; [done| |by split].
  intros s' _. split; [apply same_flags|apply IH].
Qed.

Lemma keeps_guest {A} (fn : inst -> inst * result go_error A) s (Q : result go_error A -> Prop) :
  (forall s, steps s (fn s).1) -> (forall s, Q (fn s).2) -> Q (Err ErrClosed) ->
  rgr keeps steps (guest fn) s (fun a _ => Q a).
Proof.
  intros Hk HQ HE. apply rgr_atomic. intros s' _. destruct (modDead s'); cbn; [by split; [apply steps_refl|]|].
  split; [apply Hk|apply HQ].
Qed.

Lemma steps_invoke f args s : steps s (invoke exec f args s).1.
Proof. unfold invoke. destruct (exec _ _ _) as [r [[g m] h]]. apply same_flags. Qed.

Lemma keeps_call f args s : rgr_ keeps steps (call exec f args) s.
Proof. apply keeps_guest; [apply steps_invoke|done|done]. Qed.

Lemma keeps_free p n s : rgr_ keeps steps (free exec p n) s.
Proof. unfold free. destruct (negb _); [|done]. eapply seq; [apply keeps_call|done]. Qed.

Lemma keeps_cancelAll slots s : rgr_ keeps steps (cancelAll exec slots) s.
Proof.
  apply (rgr_for_each _ _ steps_keeps). intros sl s1 _ _. destruct (0 <? sl_rid sl); [|done].
  unfold cancel. eapply seq with (Q := fun _ _ => True); [by apply rgr_reads; [apply steps_refl|]|]. intros c s2 _ _.
  destruct (negb c); [|done]. eapply seq; [apply keeps_call|done].
Qed.

Lemma steps_closeModule s : steps s (run_state closeModule s).
Proof. unfold closeModule. rewrite run_state_modify. unfold steps, keeps, mod_sound. cbn. destruct (i_mod s); intuition congruence. Qed.

Lemma closes_Close s : rgr keeps steps (Close (M := M) (G := G)) s (fun _ s' => i_closed s' = true).
Proof.
  unfold Close. eapply seq with (Q := fun _ s => i_closed s = true).
  { apply rgr_atomic. intros s1 _. unfold steps, keeps, mod_sound. destruct (i_closed s1) eqn:E; cbn; intuition congruence. }
  intros [|] s1 _ H1; [|done]. eapply seq; [apply keeps_on_host|]. intros _ s2 [H2 _]%keeps_rtc _.
  eapply seq with (Q := fun _ s => i_closed s = true).
  - apply rgr_modify. intros s3 [H3 _]%keeps_rtc. unfold steps, keeps, mod_sound, unregister. cbn. intuition congruence.
  - intros _ s3 _ H3. apply rgr_modify. intros s4 [H4 _]%keeps_rtc. split; [apply steps_closeModule|]. cbn. auto.
Qed.

Lemma closes_kill e s : rgr keeps steps (kill (M := M) (G := G) e) s (fun a s' => a = e /\ i_closed s' = true).
Proof. unfold kill. eapply seq; [apply closes_Close|]. intros ? s' _ H. by split. Qed.

Lemma closes_stateErr s :
  rgr keeps steps (stateErr (M := M) (G := G)) s (fun e s' => e = ErrClosed \/ i_closed s' = true).
Proof.
  unfold stateErr. eapply seq with (Q := fun _ _ => True); [by apply rgr_reads; [apply steps_refl|]|].
  intros [e|] s' _ _; [|by left]. eapply rgr_weaken; [apply closes_kill|]. cbn. naive_solver.
Qed.

Lemma closes_dispatch ev s :
  rgr keeps steps (dispatch exec ev) s (fun r s' => is_Some r -> i_closed s' = true).
Proof.
  unfold dispatch. eapply seq with (Q := fun _ _ => True); [by destruct (kind ev); apply keeps_call|].
  intros [v|e] s' _ _; [by apply rgr_done; intros [??]|].
  eapply seq; [apply closes_kill|]. intros a s2 _ [_ H]. by apply rgr_done.
Qed.

Lemma steps_pollGuest rid p s : steps s (pollGuest exec rid p s).1.
Proof.
  unfold pollGuest. pose proof (steps_invoke X_resultGet [u32 rid; p] s) as Hk.
  destruct (invoke exec X_resultGet [u32 rid; p] s) as [s1 [v|e]]; [|done].
  destruct (_ <=? 0); [done|]. by destruct (mem_read _ _ _).
Qed.

Lemma closes_pollResult rid p qname qtype s :
  rgr keeps steps (pollResult exec rid p qname qtype) s (fun r s' =>
    match r with
    | Err _ => i_closed s' = true
    | Ok o => exists raw, o = interpret raw qname qtype
    end).
Proof.
  unfold pollResult. eapply seq with (Q := fun _ _ => True).
  { apply keeps_guest; [apply steps_pollGuest|done|done]. }
  intros [raw|e] s1 _ _; [by apply rgr_done; exists raw|].
  eapply seq; [apply closes_kill|]. intros a s2 _ [_ H]. by apply rgr_done.
Qed.

(** The errors of [allocWrite]. *)
Definition alloc_failure (e : go_error) : Prop :=
  e = ErrClosed \/ (exists e', e = errorfw "unbound: alloc: " e') \/
  e = errorsNew "unbound: guest allocation failed" \/
  e = errorsNew "unbound: guest allocation outside memory".

Lemma keeps_allocWrite b s :
  rgr keeps steps (allocWrite exec b) s (fun r _ => forall e, r = Err e -> alloc_failure e).
Proof.
  apply keeps_guest with (Q := fun r => forall e, r = Err e -> alloc_failure e).
  3: by intros ? [= <-]; left.
  all: intros s1; cbv zeta;
    match goal with |- context [invoke exec ?f ?a s1] => pose proof (steps_invoke f a s1) as Hk;
      destruct (invoke exec f a s1) as [s2 [v|e]] end; cbn [fst snd] in *.
  - destruct (u32 v =? 0), (0 <? zlen b); try done; by destruct (mem_write _ _ _).
  - done.
  - unfold alloc_failure. destruct (u32 v =? 0), (0 <? zlen b); try naive_solver.
    destruct (mem_write _ _ _); naive_solver.
  - unfold alloc_failure. naive_solver.
Qed.

(** ** The queries of a batch *)

(** Errors that concern one query only: its name, the guest's refusal to
    start it, or its outcome. *)
Definition query_failure (q : Query) (e : go_error) : Prop :=
  normalizeName (Name q) = Err e \/
  (exists errno, e = ErrString (s2b "unbound: resolve_start failed: wasi errno " ++ itoa errno)) \/
  exists raw name, normalizeName (Name q) = Ok name /\ interpret raw name (Type_ q) = PollError e.

Definition query_answer (q : Query) (r : Result) : Prop :=
  exists raw name, normalizeName (Name q) = Ok name /\ interpret raw name (Type_ q) = PollReady r.

(** What is known of a query's slot during the call. *)
Record slot_ok (q : Query) (s : slot) : Prop := {
  ok_err e : sl_err s = Some e -> query_failure q e;
  ok_res r : sl_res s = Some r -> query_answer q r;
  ok_one : sl_res s = None \/ sl_err s = None;
  ok_name : sl_rid s <> 0 -> normalizeName (Name q) = Ok (sl_name s)
}.

Definition unsettled (slots : list slot) : Z := zlen (List.filter (fun s => negb (settled s)) slots).

Lemma unsettled_app l1 l2 : unsettled (l1 ++ l2) = unsettled l1 + unsettled l2.
Proof. unfold unsettled. by rewrite List.filter_app, zlen_app. Qed.

Lemma unsettled_one s : unsettled [s] = if settled s then 0 else 1.
Proof. unfold unsettled. cbn. by destruct (settled s). Qed.

Lemma unsettled_zero l : unsettled l = 0 -> Forall (fun s => settled s = true) l.
Proof.
  induction l as [|s l IH]; [by constructor|]. change (s :: l) with ([s] ++ l).
  rewrite unsettled_app, unsettled_one. pose proof (zlen_nonneg (List.filter (fun s => negb (settled s)) l)).
  fold (unsettled l) in H. destruct (settled s) eqn:E; [|lia]. intros. constructor; [done|]. apply IH. lia.
Qed.

Lemma slot_ok_blank q name : slot_ok q (mkSlot name 0 None None).
Proof. split; cbn; try done. by left. Qed.

Lemma slot_ok_failed q name e : query_failure q e -> slot_ok q (mkSlot name 0 None (Some e)).
Proof. intros He. split; cbn; try done; [by intros ? [= <-]|by left]. Qed.

Lemma slots_blank queries : Forall2 slot_ok queries (map (fun _ => blank_slot) queries).
Proof. induction queries; constructor; [apply slot_ok_blank|done]. Qed.

(** The start loop: every slot is accounted for, and an error that ends
    the call early is an allocation failure or closed the instance. *)
Lemma startAll_ok queries done_ acc pending s :
  Forall2 slot_ok done_ acc -> pending = unsettled acc ->
  rgr keeps steps (startAll exec queries acc pending) s (fun '(slots, pend, early) s' =>
    Forall2 slot_ok (done_ ++ queries) slots /\
    match early with
    | None => pend = unsettled slots
    | Some e => alloc_failure e \/ i_closed s' = true
    end).
Proof.
  revert done_ acc pending s. induction queries as [|q queries IH]; intros done_ acc pending s Hacc Hp; cbn [startAll].
  { apply rgr_done. by rewrite app_nil_r. }
  assert (Hnext : forall sl s1 pend, slot_ok q sl -> pend = pending + unsettled [sl] ->
    rgr keeps steps (startAll exec queries (acc ++ [sl]) pend) s1 (fun '(slots, pend, early) s' =>
      Forall2 slot_ok (done_ ++ q :: queries) slots /\
      match early with None => pend = unsettled slots | Some e => alloc_failure e \/ i_closed s' = true end)).
  { intros sl s1 pend Hsl ->. specialize (IH (done_ ++ [q]) (acc ++ [sl])). rewrite <- (app_assoc done_) in IH. apply IH.
    - apply Forall2_app; [done|by constructor].
    - rewrite unsettled_app. lia. }
  assert (Hstop : forall name, Forall2 slot_ok (done_ ++ q :: queries)
    (acc ++ mkSlot name 0 None None :: map (fun _ => blank_slot) queries)).
  { intros name. apply Forall2_app; [done|]. constructor; [apply slot_ok_blank|apply slots_blank]. }
  destruct (normalizeName (Name q)) as [name|e] eqn:En.
  2: { apply Hnext; [|rewrite unsettled_one; cbn; lia]. apply slot_ok_failed. by left. }
  eapply seq; [apply keeps_allocWrite|]. intros [p|e] s1 _ Ha.
  2: { apply rgr_done. split; [apply Hstop|left; by apply Ha]. }
  eapply seq; [apply keeps_call|]. intros out s2 _ _.
  eapply seq; [apply keeps_free|]. intros _ s3 _ _.
  destruct out as [v|e].
  2: { eapply seq; [apply closes_kill|]. intros e' s4 _ [_ Hc]. apply rgr_done. split; [apply Hstop|by right]. }
  destruct (i32 (u32 v) <? 0).
  - apply Hnext; [|rewrite unsettled_one; cbn; lia]. apply slot_ok_failed. right; left. eauto.
  - apply Hnext; [|rewrite unsettled_one; cbn; lia]. split; cbn; try done. by left.
Qed.

(** One polling pass: settled slots stay, polled ones get their outcome,
    and the count of pending queries stays exact. *)
Lemma pollAll_ok p queries slots done_ acc pending s :
  Forall2 slot_ok done_ acc -> Forall2 slot_ok queries slots -> pending = unsettled (acc ++ slots) ->
  rgr keeps steps (pollAll exec p queries slots acc pending) s (fun '(slots', r) s' =>
    Forall2 slot_ok (done_ ++ queries) slots' /\
    match r with
    | PassPanics => False
    | PassFatal e => i_closed s' = true
    | PassDone pend => pend = unsettled slots'
    end).
Proof.
  intros Hacc Hsl. revert done_ acc pending s Hacc.
  induction Hsl as [|q sl queries slots Hq Hrest IH]; intros done_ acc pending s Hacc Hp; cbn [pollAll].
  { apply rgr_done. rewrite app_nil_r in *. by rewrite app_nil_r. }
  assert (Hnext : forall sl' s1 pend, slot_ok q sl' -> pend = pending - unsettled [sl] + unsettled [sl'] ->
    rgr keeps steps (pollAll exec p queries slots (acc ++ [sl']) pend) s1 (fun '(slots', r) s' =>
      Forall2 slot_ok (done_ ++ q :: queries) slots' /\
      match r with PassPanics => False | PassFatal e => i_closed s' = true
                 | PassDone pend => pend = unsettled slots' end)).
  { intros sl' s1 pend Hsl' ->. specialize (IH (done_ ++ [q]) (acc ++ [sl'])). rewrite <- (app_assoc done_) in IH. apply IH.
    - apply Forall2_app; [done|by constructor].
    - subst pending. change (sl :: slots) with ([sl] ++ slots). rewrite !unsettled_app. lia. }
  destruct ((sl_rid sl =? 0) || settled sl) eqn:Eskip; [apply Hnext; [done|lia]|].
  apply orb_false_iff in Eskip as [Hrid%Z.eqb_neq Hset].
  pose proof (ok_name _ _ Hq Hrid) as Hname.
  eapply seq; [apply closes_pollResult|]. intros [o|e] s1 _ Hr.
  2: { apply rgr_done. split; [|done]. apply Forall2_app; [done|by constructor]. }
  destruct Hr as [raw ->]. destruct (interpret raw (sl_name sl) (Type_ q)) as [| |e|res] eqn:Ei.
  - by apply interpret_total in Ei.
  - apply Hnext; [done|lia].
  - apply Hnext; [|rewrite !unsettled_one, Hset; cbn; lia].
    split; cbn; try done; [|by left]. intros ? [= <-]. right; right. eauto.
  - apply Hnext; [|rewrite !unsettled_one, Hset; cbn; lia].
    split; cbn; try done; [|by right]. intros ? [= <-]. exists raw, (sl_name sl). by split.
Qed.

(** ** What the call returns *)

(** The result and the error of one query: a result for an answer of the
    guest and no error, or no result and an error that is the query's own,
    or shared: an allocation failure, or the instance was closed. *)
Definition explained (s : inst) (q : Query) (r : option Result) (e : option go_error) : Prop :=
  match r, e with
  | Some r, None => query_answer q r
  | None, Some e => query_failure q e \/ alloc_failure e \/ i_closed s = true
  | _, _ => False
  end.

Definition ending_ok (queries : list Query) (en : ending) (s : inst) : Prop :=
  match en with
  | Panics => False
  | Waits => True
  | Returned results err =>
      exists errs, err = joinQueryErrors queries errs /\ Forall3 (explained s) queries results errs
  end.

Lemma ending_ok_later queries en s s' : ending_ok queries en s -> rtc keeps s s' -> ending_ok queries en s'.
Proof.
  intros H Hs%keeps_rtc. destruct en as [| |results err]; [done|done|].
  destruct H as (errs & He & H3). exists errs. split; [done|].
  eapply Forall3_impl; [exact H3|]. intros q [r|] [e|]; cbn; try done. unfold keeps in Hs. tauto.
Qed.

Lemma finish_failed queries slots e s :
  Forall2 slot_ok queries slots -> alloc_failure e \/ i_closed s = true ->
  ending_ok queries (finish queries (map (failSlot e) slots)) s.
Proof.
  intros Hsl He. eexists. split; [done|]. induction Hsl as [|q sl queries slots Hq _ IH]; cbn [map]; constructor; [|done].
  unfold failSlot, settled. destruct sl as [name rid [r|] [e'|]]; cbn.
  - by destruct (ok_one _ _ Hq).
  - by apply (ok_res _ _ Hq).
  - left. by apply (ok_err _ _ Hq).
  - by right.
Qed.

Lemma finish_settled queries slots s :
  Forall2 slot_ok queries slots -> unsettled slots = 0 -> ending_ok queries (finish queries slots) s.
Proof.
  intros Hsl Hu%unsettled_zero.
  assert (Hid : map (failSlot ErrClosed) slots = slots).
  { clear Hsl. induction Hu as [|sl slots Hs _ IH]; [done|]. cbn. rewrite IH. unfold failSlot. by rewrite Hs. }
  rewrite <- Hid. apply finish_failed; [done|]. left. by left.
Qed.

(** A polling pass before waiting. *)
Lemma poll_then (poll : bool) p queries slots pending s W (Q : ending * list slot -> inst -> Prop) :
  Forall2 slot_ok queries slots -> pending = unsettled slots ->
  (forall en slots s, ending_ok queries en s -> en <> Waits -> Q (en, slots) s) ->
  (forall slots pending s, Forall2 slot_ok queries slots -> pending = unsettled slots ->
     rgr keeps steps (W slots pending) s Q) ->
  rgr keeps steps (if poll then
    let* r := pollAll exec p queries slots [] pending in
    match r with
    | (slots, PassPanics) => Done (Panics, slots)
    | (slots, PassFatal e) => Done (finish queries (map (failSlot e) slots), slots)
    | (slots, PassDone pending) =>
        if pending =? 0 then Done (finish queries slots, slots) else W slots pending
    end
  else W slots pending) s Q.
Proof.
  intros Hsl Hp HQ HW. destruct poll; [|by apply HW].
  eapply seq; [by apply (pollAll_ok p queries slots [] [])|]. intros [slots' r] s1 _ [Hsl' Hr].
  destruct r as [|e|pend]; [done| |].
  - apply rgr_done, HQ; [|done]. apply finish_failed; [done|by right].
  - destruct (Z.eqb_spec pend 0) as [H0|H0]; [|by apply HW].
    apply rgr_done, HQ; [|done]. apply finish_settled; [done|]. by rewrite <- Hr.
Qed.

(** The waiting loop ends as [ending_ok] says, and when the script made the
    context done it does not wait. *)
Lemma rounds_ok script poll p queries slots pending s :
  Forall2 slot_ok queries slots -> pending = unsettled slots ->
  rgr keeps steps (rounds exec script poll p queries slots pending) s (fun r s' =>
    ending_ok queries r.1 s' /\ (r.1 = Waits -> forall e, WaitCtx e ∉ script)).
Proof.
  revert poll slots pending s. induction script as [|ch script IH]; intros poll slots pending s Hsl Hp; cbn [rounds].
  { apply poll_then; try done. intros slots' pend s1 _ _. apply rgr_done. split; [done|]. intros _ e. apply not_elem_of_nil. }
  apply poll_then; try done. clear slots pending s Hsl Hp. intros slots pending s Hsl Hp.
  assert (Hmore : forall s b, (forall e, ch <> WaitCtx e) ->
    rgr keeps steps (rounds exec script b p queries slots pending) s (fun r s' =>
      ending_ok queries r.1 s' /\ (r.1 = Waits -> forall e, WaitCtx e ∉ ch :: script))).
  { intros s1 b Hch. eapply rgr_weaken; [by apply IH|]. intros [en sl'] s2 [He Hw]. split; [done|].
    intros Hen e. rewrite not_elem_of_cons. split; [by apply not_eq_sym|by apply Hw]. }
  eapply seq with (Q := fun b _ => forall e, ch = WaitCtx e -> b = SelCtx e).
  { apply rgr_atomic. intros s1 _. destruct ch; cbn; [|destruct (Host.done _)|destruct (events _)];
      (split; [by first [apply steps_refl|apply same_flags]|intros ? Hq; by simplify_eq]). }
  intros [e| |ev|] s1 _ Hb.
  - eapply seq; [apply closes_Close|]. intros [] s2 _ Hc. apply rgr_done. split; [|done].
    apply finish_failed; [done|by right].
  - eapply seq; [apply closes_stateErr|]. intros e s2 _ Hc. apply rgr_done. split; [|done].
    apply finish_failed; [done|]. destruct Hc as [->|Hc]; [by left; left|by right].
  - eapply seq; [apply closes_dispatch|]. intros [e|] s2 _ Hc.
    + apply rgr_done. split; [|done]. apply finish_failed; [done|]. right. by apply Hc.
    + apply Hmore. intros e He. by specialize (Hb e He).
  - apply Hmore. intros e He. by specialize (Hb e He).
Qed.

Lemma resolveAll_core script queries s :
  rgr keeps steps (ResolveAll exec script queries) s (fun en s' =>
    ((queries = [] /\ en = Returned [] (Some ErrClosed)) \/ ending_ok queries en s') /\
    (en = Waits -> forall e, WaitCtx e ∉ script)).
Proof.
  unfold ResolveAll. eapply seq with (Q := fun _ _ => True); [by apply rgr_reads; [apply steps_refl|]|].
  assert (Hend : forall p s, rgr keeps steps p s (fun en s' => ending_ok queries en s' /\ en <> Waits) ->
    rgr keeps steps p s (fun en s' =>
      ((queries = [] /\ en = Returned [] (Some ErrClosed)) \/ ending_ok queries en s') /\
      (en = Waits -> forall e, WaitCtx e ∉ script))).
  { intros p s1 H. eapply rgr_weaken; [exact H|]. cbn. naive_solver. }
  assert (Hstop : forall slots en s, ending_ok queries en s -> en <> Waits ->
    rgr keeps steps (do* cancelAll exec slots in Done en) s (fun en s' => ending_ok queries en s' /\ en <> Waits)).
  { intros slots en s1 He Hw. eapply seq; [apply keeps_cancelAll|]. intros _ s2 Hs _. apply rgr_done.
    split; [by eapply ending_ok_later|done]. }
  intros [|] s1 _ _.
  { case_bool_decide as Hq; [apply rgr_done; naive_solver|]. apply Hend, rgr_done. split; [|done].
    rewrite <- (map_map (fun _ => blank_slot) (failSlot ErrClosed)).
    apply finish_failed; [apply slots_blank|left; by left]. }
  eapply seq; [by apply (startAll_ok queries [] [])|]. intros [[slots pending] early] s2 _ [Hsl Hearly].
  destruct early as [e|]; [apply Hend, Hstop; [by apply finish_failed|done]|].
  destruct (Z.eqb_spec pending 0) as [H0|H0].
  { apply Hend, Hstop; [|done]. apply finish_settled; [done|]. by rewrite <- Hearly. }
  eapply seq; [apply keeps_allocWrite|]. intros [p|e] s3 _ Ha.
  2: { apply Hend, Hstop; [|done]. apply finish_failed; [done|]. left. by apply Ha. }
  eapply seq; [by apply rounds_ok|]. intros [en slots'] s4 _ [He Hw]. cbn [fst snd] in *.
  destruct en as [| |results err]; [done|by apply rgr_done; split; [right|]|].
  apply Hend. eapply seq; [apply keeps_free|]. intros [] s5 Hs _. apply Hstop; [|done].
  by eapply ending_ok_later.
Qed.

Lemma join_none s queries results errs :
  Forall3 (explained s) queries results errs ->
  joinQueryErrors queries errs = None <-> Forall is_Some results.
Proof.
  unfold joinQueryErrors, errorsJoin. induction 1 as [|q r e queries results errs He _ IH]; [done|].
  cbn. destruct r as [r|], e as [e|]; try done; cbn.
  - rewrite IH, Forall_cons. naive_solver eauto.
  - rewrite Forall_cons. split; [done|]. by intros [[??] _].
Qed.




(** C37: a failing allocation does not close the instance. The
    documentation says that an instance whose context is cancelled during a
    resolution is closed; but when it is cancelled by the time the guest
    allocates the name, [alloc] fails, [Resolve] returns that error at once,
    and the instance stays open and registered, with its sockets and timers
    as the guest left them. *)
Theorem alloc_failure_leaves_open script name qtype n e (s : inst) :
  normalizeName name = Ok n -> i_closed s = false -> modDead s = false ->
  (exec X_alloc [zlen n] (i_guest s, i_mem s, i_host s)).1 = Err e ->
  let s' := run_state (Resolve exec script name qtype) s in
  run_value (Resolve exec script name qtype) s = Some (Err (errorfw "unbound: alloc: " e)) /\
  i_closed s' = false /\ i_registered s' = i_registered s /\
  i_host s' = (exec X_alloc [zlen n] (i_guest s, i_mem s, i_host s)).2.2.
Proof.
  intros Hn Hc Hd He. cbv zeta. unfold Resolve, ResolveAll. runs. rewrite Hc.
  cbn [startAll Name]. rewrite Hn. runs.
  assert (Ha : run_state (allocWrite exec n) s =
    (invoke exec X_alloc [zlen n] s).1 /\ run_value (allocWrite exec n) s = Err (errorfw "unbound: alloc: " e)).
  { unfold allocWrite, guest. runs. rewrite Hd.
    assert (Hz : (zlen n =? 0) = false).
    { apply normalizeName_nonempty in Hn. destruct n; [done|]. rewrite zlen_cons. pose proof (zlen_nonneg n). lia. }
    rewrite Hz. unfold invoke. destruct (exec X_alloc [zlen n] _) as [r [[g m] h]]. cbn in He. subst r. done. }
  destruct Ha as [Has Hav]. rewrite Has, Hav. runs. unfold cancelAll. cbn [for_each map]. runs.
  cbn [finish]. unfold invoke. destruct (exec X_alloc [zlen n] _) as [r [[g m] h]]. cbn. by runs.
Qed.

End Spec.

(** ** A concrete guest *)

(** A guest that answers its only query with packet [[1]] of [DemoDNS] on
    the second poll, after one timer event. *)
Module DemoGuest.
Import ListMem.

Definition result_words : list Z := concat (map (le_encode 4) [1; 0; 0; 0; 128; 1; 0; 0]).

Definition demo_exec (f : export) (args : list Z) (s : nat * list Z * instanceState)
    : result go_error Z * (nat * list Z * instanceState) :=
  let '(g, m, h) := s in
  match f, args with
  | X_alloc, _ => (Ok 16, s)
  | X_resolveStart, _ => (Ok 1, s)
  | X_timerFired, _ => (Ok 0, (S g, m, h))
  | X_resultGet, [_; p] =>
      if (g =? 0)%nat then (Ok 0, s)
      else match mem_write m p result_words with
           | Some m => (Ok 1, (g, m, h))
           | None => (Err (errorsNew "trap"), s)
           end
  | _, _ => (Ok 0, s)
  end.

(** The same guest once its context is cancelled: every call fails. *)
Definition cancelled_exec (f : export) (args : list Z) (s : nat * list Z * instanceState)
    : result go_error Z * (nat * list Z * instanceState) := (Err Canceled, s).

Definition demo_inst : instance (M := list Z) (G := nat) :=
  mkInstance false true false ModOpen (replicate 128 0 ++ [1] ++ replicate 127 0) 0%nat
    (set_events [mkEvent eventTimer 0 0 7] newInstanceState) [].

Definition demo_name : list Z := s2b "www.example".

End DemoGuest.

Import ListMem DemoUnicode DemoDNS DemoGuest.


Definition demo_bogus : rawResult := mkRaw 1 2 0 (s2b "why") [1].

Lemma demo_bogus_error :
  interpret demo_bogus demo_name 1 = PollError (BogusError (s2b "why") [mkEDE 22 (s2b "timeout")]).
Proof. vm_compute. reflexivity. Qed.

Lemma interpret_spec_witness :
  exists ede, parseEDE [1] = Some (Some ede) /\
    BogusError (s2b "why") [mkEDE 22 (s2b "timeout")] = BogusError (s2b "why") ede.
Proof.
  pose proof (interpret_spec demo_bogus demo_name 1) as H. rewrite demo_bogus_error in H.
  destruct H as [H|[(_ & _ & H)|[(_ & H & _)|(_ & H & _)]]]; [discriminate H|exact H|by destruct H|by destruct H].
Defined.

(** The demonstration query, polled, woken by the event and polled again. *)
Lemma demo_resolves :
  run_value (Resolve demo_exec [WaitEvent] demo_name 1) demo_inst = Some (Ok (Some demo_result)).
Proof. vm_compute. reflexivity. Qed.




Lemma alloc_failure_leaves_open_witness :
  run_value (Resolve cancelled_exec [] demo_name 1) demo_inst = Some (Err (errorfw "unbound: alloc: " Canceled)) /\
  i_closed (run_state (Resolve cancelled_exec [] demo_name 1) demo_inst) = false.
Proof.
  destruct (alloc_failure_leaves_open cancelled_exec [] demo_name 1 (s2b "www.example.") Canceled demo_inst)
    as (H1 & H2 & _); [vm_compute; reflexivity|reflexivity|reflexivity|reflexivity|].
  split; [exact H1|exact H2].
Defined.
