(* ===== verification/Lifecycle.v ===== *)
(** * runtime.go and zygote.go: creating and closing instances

    A [Runtime] with the instances made from it, and the operations that
    create and close them: [newModuleInstance], [newFullInstance],
    [newClone], [initZygote], [NewInstance] and [Runtime.Close], as
    goroutines over the runtime. An instance is known by its index: the
    random name under which the source registers it is never reused. What
    wazero's InstantiateModule does, which guest exports the module has and
    what the operating system does are arguments; [sync.Once] makes a caller
    wait while another runs the initialization, which is the result
    [None]. *)

From S2P Require Import Prelude Errors Netip GuestMem Proc Host Names Answer Config Memory DataSegments Zygote Resolve.

#[local] Open Scope Z_scope.

Definition abiVersion : Z := 0.

(** The names [bindExports] looks up, in order. *)
Definition exportNames : list (export * string) := [
  (X_abiVersion, "unbound_wasm_abi_version"); (X_alloc, "alloc"); (X_dealloc, "dealloc"); (X_init, "init");
  (X_warmup, "warmup"); (X_reseed, "reseed"); (X_resolveStart, "resolve_start"); (X_ioReady, "io_ready");
  (X_timerFired, "timer_fired"); (X_resultGet, "result_get"); (X_resolveCancel, "resolve_cancel")]%string.

(** [bindExports]: the error for the first export that is missing. *)
Definition bindExports (exported : export -> bool) : option go_error :=
  match List.find (fun x => negb (exported x.1)) exportNames with
  | Some (_, name) => Some (ErrString (s2b "unbound: module lacks required export " ++ [34] ++ s2b name ++ [34]))
  | None => None
  end.

Inductive onceState := OnceNew | OnceRunning | OnceDone.

Section Lifecycle.
Context {M : Type} `{GM : GuestMemory M} {G : Type}.

#[local] Abbreviation inst := (@instance M G).

(** An instance and what became of its wasm module. *)
Record entry := mkEntry {
  e_inst : inst;
  e_failed : bool;    (* InstantiateModule failed *)
  e_private : bool    (* newModuleInstance holds a module it has neither published nor closed *)
}.

Record Runtime := mkRuntime {
  rt_cfg : Config;
  rt_closed : bool;             (* closed *)
  rt_entries : list entry;      (* every instance created; [i_registered] for those in states *)
  rt_once : onceState;          (* zygoteOnce *)
  rt_zygote : zygoteState;      (* zygote, zygoteErr *)
  rt_wazero : bool              (* the wazero runtime is open *)
}.

(** Whether a module of the instance, with its memory, is still open. *)
Definition mod_open (e : entry) : bool := e_private e || bool_decide (i_mod (e_inst e) = ModOpen).

Definition set_entries (l : list entry) (r : Runtime) : Runtime :=
  mkRuntime (rt_cfg r) (rt_closed r) l (rt_once r) (rt_zygote r) (rt_wazero r).

Definition set_once (o : onceState) (r : Runtime) : Runtime :=
  mkRuntime (rt_cfg r) (rt_closed r) (rt_entries r) o (rt_zygote r) (rt_wazero r).

Definition set_zygote (z : zygoteState) (r : Runtime) : Runtime :=
  mkRuntime (rt_cfg r) (rt_closed r) (rt_entries r) (rt_once r) z (rt_wazero r).

(** The code outside the repository. *)
Record world := mkWorld {
  (* an export of the guest *)
  w_exec : export -> list Z -> G * M * instanceState -> result go_error Z * (G * M * instanceState);
  (* InstantiateModule with the anonymous or the image allocator, with or without _initialize *)
  w_instantiate : option zygote -> bool -> instanceState -> result go_error (G * M) * instanceState;
  w_exported : export -> bool;
  w_unborn : G * M;               (* stands for the guest before it is instantiated; never read *)
  w_wasm : list Z;                (* embeddedModule *)
  w_disabled : bool;              (* disableZygote, or no guestMemoryAllocator *)
  w_create : option go_error;     (* os.CreateTemp *)
  w_write : option go_error;      (* f.Write *)
  w_imageAlloc : bool;            (* newImageAllocator is not nil *)
  w_disableIPv6 : bool            (* UNBOUND_WASM_DISABLE_IPV6 is set *)
}.

Variable w : world.

(** ** One instance *)

Definition unborn : inst :=
  mkInstance false true false ModNil (snd (w_unborn w)) (fst (w_unborn w)) newInstanceState [].

Definition inst_at (k : nat) (r : Runtime) : inst :=
  match rt_entries r !! k with Some e => e_inst e | None => unborn end.

Definition upd_entry (k : nat) (f : entry -> entry) (r : Runtime) : Runtime :=
  set_entries (alter f k (rt_entries r)) r.

Definition set_inst (k : nat) (i : inst) (r : Runtime) : Runtime :=
  upd_entry k (fun e => mkEntry i (e_failed e) (e_private e)) r.

Definition failed (e : entry) : entry := mkEntry (e_inst e) true (e_private e).

Definition instantiated (e : entry) : entry := mkEntry (e_inst e) (e_failed e) true.

Definition dropped (e : entry) : entry := mkEntry (e_inst e) (e_failed e) false.

(** [state.mod = mod]. *)
Definition published (e : entry) : entry :=
  let i := e_inst e in
  mkEntry (mkInstance (i_closed i) (i_registered i) (modDead i) ModOpen (i_mem i) (i_guest i) (i_host i) (i_calls i))
    (e_failed e) false.

(** A goroutine of an instance, run by one of the runtime. *)
Fixpoint on_inst {A : Type} (k : nat) (p : proc inst A) : proc Runtime A :=
  match p with
  | Done a => Done a
  | Step f p' => Step (fun r => set_inst k (f (inst_at k r)) r) (fun r => on_inst k (p' (inst_at k r)))
  | Spawn c p' => Spawn (on_inst k c) (on_inst k p')
  end.

Definition unregistered (e : entry) : entry := mkEntry (unregister (e_inst e)) (e_failed e) (e_private e).

(** [removeState]. *)
Definition removeState (k : nat) : proc Runtime unit := modify (fun r => set_inst k (unregister (inst_at k r)) r).

(** [Runtime.state], which host imports call: [None] is the panic. *)
Definition state (k : nat) : proc Runtime (option instanceState) :=
  reads (fun r => if i_registered (inst_at k r) then Some (i_host (inst_at k r)) else None).

(** [checkABIVersion]. *)
Definition checkABIVersion : proc inst (option go_error) :=
  let* out := call (w_exec w) X_abiVersion [] in
  match out with
  | Err e => Done (Some (errorfw "unbound: read ABI version: " e))
  | Ok v =>
      if negb (u32 v =? abiVersion)
      then Done (Some (ErrString (s2b "unbound: wasm ABI version mismatch: host v" ++ itoa abiVersion ++
             s2b ", guest v" ++ itoa (u32 v))))
      else Done None
  end.

(** The loop of [initialize]: the buffers allocated, latest first, and the
    error that ended it. *)
Fixpoint allocAll (vals : list (list Z)) (ptrs : list (Z * Z)) : proc inst (list (Z * Z) * option go_error) :=
  match vals with
  | [] => Done (ptrs, None)
  | v :: vals =>
      let* p := allocWrite (w_exec w) v in
      match p with
      | Err e => Done (ptrs, Some e)
      | Ok p => allocAll vals ((p, zlen v) :: ptrs)
      end
  end.

(** The deferred calls of [initialize], in the order they run. *)
Definition freeAll (ptrs : list (Z * Z)) : proc inst unit :=
  for_each (fun x => free (w_exec w) (fst x) (u32 (snd x))) ptrs.

(** [initialize]. *)
Definition initialize (cfg anchors hints : list Z) : proc inst (option go_error) :=
  let* r := allocAll [cfg; anchors; hints] [] in
  match r with
  | (ptrs, Some e) => do* freeAll ptrs in Done (Some e)
  | (ptrs, None) =>
      let* out := call (w_exec w) X_init (concat (map (fun x => [fst x; snd x]) (rev ptrs))) in
      do* freeAll ptrs in
      match out with
      | Err e => Done (Some (errorfw "unbound: guest init: " e))
      | Ok v =>
          let rc := i32 (u32 v) in
          if negb (rc =? 0)
          then Done (Some (ErrString (s2b "unbound: guest init failed: wasi errno " ++ itoa (i32 (- rc)))))
          else Done None
      end
  end.

(** ** Creating instances *)

Definition closedRuntime : go_error := errorsNew "unbound: closed runtime".

(** [newModuleInstance]: the index of the instance. *)
Definition newModuleInstance (alloc : option zygote) (start : bool) : proc Runtime (result go_error nat) :=
  let* k := atomic (fun r =>
    if rt_closed r then (r, None)
    else (set_entries (rt_entries r ++ [mkEntry unborn false false]) r, Some (length (rt_entries r)))) in
  match k with
  | None => Done (Err closedRuntime)
  | Some k =>
      let* e := atomic (fun r =>
        let i := inst_at k r in
        let '(out, h) := w_instantiate w alloc start (i_host i) in
        match out with
        | Err e => (upd_entry k failed (set_inst k (set_host h i) r), Some e)
        | Ok (g, m) =>
            (upd_entry k instantiated
               (set_inst k (mkInstance (i_closed i) (i_registered i) (modDead i) (i_mod i) m g h (i_calls i)) r), None)
        end) in
      match e with
      | Some e =>
          do* removeState k in
          do* on_inst k (on_host close) in
          Done (Err (errorfw "unbound: instantiate module: " e))
      | None =>
          let* dead := atomic (fun r =>
            if modDead (inst_at k r) then (r, true) else (upd_entry k published r, false)) in
          if dead : bool then
            do* modify (upd_entry k dropped) in
            do* removeState k in
            do* on_inst k (on_host close) in
            Done (Err closedRuntime)
          else
            match bindExports (w_exported w) with
            | Some e => do* on_inst k Close in Done (Err e)
            | None => Done (Ok k)
            end
      end
  end.

(** Return an error after closing the instance. *)
Definition closing (k : nat) (e : go_error) : proc Runtime (result go_error nat) :=
  do* on_inst k Close in Done (Err e).

(** The root hints as the guest gets them: [Join] with newlines and a final
    one, or nothing without hints. *)
Definition hintLines (hints : list (list Z)) : list Z :=
  concat (map (fun h => h ++ [10]) hints).

(** [newFullInstance]. *)
Definition newFullInstance : proc Runtime (result go_error nat) :=
  let* r := newModuleInstance None true in
  match r with
  | Err e => Done (Err e)
  | Ok k =>
      let* e := on_inst k checkABIVersion in
      match e with
      | Some e => closing k e
      | None =>
          let conf := defaultCanonicalConfig ++ (if w_disableIPv6 w then s2b "do-ip6:=no" ++ [10] else []) in
          let* cfg := reads rt_cfg in
          let* e := on_inst k (initialize conf (TrustAnchors cfg) (hintLines (RootHints cfg))) in
          match e with
          | Some e => closing k e
          | None => Done (Ok k)
          end
      end
  end.

(** ** The template *)

Definition tableSize {K} `{Countable K} {A} (t : option (gmap K A)) : Z :=
  match t with Some t => Z.of_nat (size t) | None => 0 end.

Definition setSize {K} `{Countable K} (t : option (gset K)) : Z :=
  match t with Some t => Z.of_nat (size t) | None => 0 end.

(** The guest block that copies the template's memory. *)
Definition readImage : proc inst (result go_error (list Z)) :=
  guest (fun i => (i,
    match mem_read (i_mem i) 0 (mem_size (i_mem i)) with
    | None => Err (errorsNew "unbound: reading template memory failed")
    | Some view => Ok view
    end)).

(** [initZygote] after the template has been created, with the ranges of
    the data segments. *)
Definition takeTemplate (k : nat) (segs : list segRange) : proc Runtime zygoteState :=
  let* out := on_inst k (call (w_exec w) X_warmup []) in
  match out with
  | Err e => Done (ZygoteErr (errorfw "unbound: warmup: " e))
  | Ok v =>
      let rc := i32 (u32 v) in
      if negb (rc =? 0)
      then Done (ZygoteErr (ErrString (s2b "unbound: guest warmup failed: wasi errno " ++ itoa (i32 (- rc)))))
      else
        let* ns := on_inst k (reads (fun i => tableSize (sockets (i_host i)))) in
        let* nt := on_inst k (reads (fun i => setSize (timers (i_host i)))) in
        if negb (ns =? 0) || negb (nt =? 0)
        then Done (ZygoteErr (ErrString (s2b "unbound: warmed template holds " ++ itoa ns ++
               s2b " sockets and " ++ itoa nt ++ s2b " timers")))
        else
          let* img := on_inst k readImage in
          match img with
          | Err e => Done (ZygoteErr e)
          | Ok image =>
              if negb (segsInImage image segs)
              then Done (ZygoteErr (errorsNew "unbound: data segment outside template memory"))
              else
                match w_create w, w_write w with
                | Some _, _ => Done NoZygote
                | None, Some _ => Done NoZygote
                | None, None => Done (if w_imageAlloc w then Zygote (mkZygote image segs) else NoZygote)
                end
          end
  end.

(** [initZygote]; [None] is a panic. *)
Definition buildZygote : proc Runtime (option zygoteState) :=
  if w_disabled w then Done (Some NoZygote)
  else
    match parseDataSegments (w_wasm w) with
    | None => Done None
    | Some (Err _) => Done (Some NoZygote)
    | Some (Ok segs) =>
        let* r := newFullInstance in
        match r with
        | Err e => Done (Some (ZygoteErr e))
        | Ok k =>
            let* z := takeTemplate k segs in
            do* on_inst k Close in
            Done (Some z)
        end
    end.

(** [newClone]; [None] is a panic. The instance is closed when restoring
    fails, so what a failed restore leaves in its memory is not kept. *)
Definition newClone (z : zygote) : proc Runtime (option (result go_error nat)) :=
  let* r := newModuleInstance (Some z) false in
  match r with
  | Err e => Done (Some (Err e))
  | Ok k =>
      let* restored := on_inst k (atomic (fun i =>
        if modDead i then (i, Some (Some ErrClosed))
        else
          match restoreClone z (i_mem i) with
          | None => (i, None)
          | Some (Err e) => (i, Some (Some e))
          | Some (Ok m) =>
              (mkInstance (i_closed i) (i_registered i) (modDead i) (i_mod i) m (i_guest i) (i_host i) (i_calls i), Some None)
          end)) in
      match restored with
      | None => Done None
      | Some (Some e) => let* r := closing k e in Done (Some r)
      | Some None =>
          let* out := on_inst k (call (w_exec w) X_reseed []) in
          match out with
          | Err e => let* r := closing k (errorfw "unbound: reseed: " e) in Done (Some r)
          | Ok _ =>
              let* e := on_inst k checkABIVersion in
              match e with
              | Some e => let* r := closing k e in Done (Some r)
              | None => Done (Some (Ok k))
              end
          end
      end
  end.

(** ** The exported operations *)

Inductive created := CreatePanics | CreateWaits | Created (r : result go_error nat).

(** [zygoteOnce.Do]: whether this call is to run the function. *)
Definition onceBegin : proc Runtime onceState :=
  atomic (fun r => (match rt_once r with OnceNew => set_once OnceRunning r | _ => r end, rt_once r)).

(** [NewInstance]. *)
Definition NewInstance : proc Runtime created :=
  let* c := reads rt_closed in
  if c : bool then Done (Created (Err (errorsNew "unbound: nil or closed runtime")))
  else
    let finish :=
      let* z := reads rt_zygote in
      match z with
      | ZygoteErr e => Done (Created (Err e))
      | Zygote z =>
          let* r := newClone z in
          Done (match r with None => CreatePanics | Some r => Created r end)
      | NoZygote => let* r := newFullInstance in Done (Created r)
      end in
    let* o := onceBegin in
    match o with
    | OnceRunning => Done CreateWaits
    | OnceDone => finish
    | OnceNew =>
        let* z := buildZygote in
        match z with
        | None => Done CreatePanics
        | Some z => do* modify (fun r => set_once OnceDone (set_zygote z r)) in finish
        end
    end.

(** The instances registered. *)
Definition registered (r : Runtime) : list nat :=
  List.filter (fun k => i_registered (inst_at k r)) (seq 0 (length (rt_entries r))).

(** [Runtime.Close]: [false] while it waits for the initialization of the
    template. *)
Definition RuntimeClose : proc Runtime bool :=
  let* first := atomic (fun r =>
    if rt_closed r then (r, false)
    else (mkRuntime (rt_cfg r) true (rt_entries r) (rt_once r) (rt_zygote r) (rt_wazero r), true)) in
  if first : bool then
    let* o := atomic (fun r => (match rt_once r with OnceNew => set_once OnceDone r | _ => r end, rt_once r)) in
    match o with
    | OnceRunning => Done false
    | _ =>
        let* ks := atomic (fun r =>
          (set_entries (map unregistered (rt_entries r)) r, registered r)) in
        do* for_each (fun k => do* on_inst k (on_host close) in on_inst k closeModule) ks in
        do* modify (fun r => mkRuntime (rt_cfg r) (rt_closed r) (rt_entries r) (rt_once r) (rt_zygote r) false) in
        Done true
    end
  else Done true.

End Lifecycle.
