(* ===== verification/LifecycleSpec.v ===== *)
(** * What creating and closing instances guarantees

    Theorems about Lifecycle.v. [rt_grows] is what any goroutine does to a
    runtime, [rt_steps] what every operation but [Runtime.Close] does; the
    result is that a closed runtime has swept every instance, whatever runs
    beside it. *)

From S2P Require Import Prelude Errors Netip GuestMem Proc Host Names Answer AnswerSpec Config Memory DataSegments Zygote.
From S2P Require Import Resolve ResolveSpec Lifecycle.

#[local] Open Scope Z_scope.

Section Spec.
Context {M : Type} `{GM : GuestMemory M} {G : Type}.
Variable w : world (M := M) (G := G).

#[local] Abbreviation inst := (@instance M G).
#[local] Abbreviation runtime := (@Runtime M G).
#[local] Abbreviation entry := (@entry M G).

(** ** Interference on a runtime *)

Definition grows (e e' : entry) : Prop :=
  keeps (e_inst e) (e_inst e') /\ (e_failed e = true -> e_failed e' = true).

(** No dead module is open. *)
Definition rt_sound (r : runtime) : Prop := Forall (fun e => mod_sound (e_inst e)) (rt_entries r).

(** Any goroutine: nothing reopens, instances are never forgotten, and a
    closed runtime gets no new ones. *)
Definition rt_grows (r r' : runtime) : Prop :=
  (rt_closed r = true -> rt_closed r' = true /\ length (rt_entries r') = length (rt_entries r)) /\
  (forall k e, rt_entries r !! k = Some e -> exists e', rt_entries r' !! k = Some e' /\ grows e e') /\
  (rt_sound r -> rt_sound r').

(** An instance is registered unless it was closed, its module is dead, or
    it never had one. *)
Definition accounted (e : entry) : Prop :=
  i_registered (e_inst e) = true \/ i_closed (e_inst e) = true \/ modDead (e_inst e) = true \/ e_failed e = true.

(** Every goroutine but [Runtime.Close]: it does not close the runtime, and
    keeps the instances accounted for. *)
Definition rt_steps (r r' : runtime) : Prop :=
  rt_grows r r' /\ rt_closed r' = rt_closed r /\ rt_wazero r' = rt_wazero r /\
  (Forall accounted (rt_entries r) -> Forall accounted (rt_entries r')).

Lemma grows_refl e : grows e e.
Proof. unfold grows. split; [apply steps_keeps, steps_refl|done]. Qed.

Lemma rt_grows_refl r : rt_grows r r.
Proof. split_and!; [done| |done]. intros k e He. exists e. split; [done|apply grows_refl]. Qed.

(** A step that adds no instance. *)
Lemma grows_pointwise (r r' : runtime) :
  (rt_closed r = true -> rt_closed r' = true) -> length (rt_entries r') = length (rt_entries r) ->
  (forall k e, rt_entries r !! k = Some e -> exists e', rt_entries r' !! k = Some e' /\ grows e e') -> rt_grows r r'.
Proof.
  intros Hc Hl He. split_and!; [auto|done|]. unfold rt_sound. rewrite !Forall_lookup. intros Hs k e' Hk'.
  destruct (lookup_lt_is_Some_2 (rt_entries r) k) as [e Hk]; [rewrite <- Hl; by eapply lookup_lt_Some|].
  destruct (He k e Hk) as (e2 & Hk2 & ((_ & _ & _ & Hg) & _)). rewrite Hk' in Hk2. injection Hk2 as <-.
  apply Hg. by eapply Hs.
Qed.

Lemma rt_steps_refl r : rt_steps r r.
Proof. split; [apply rt_grows_refl|done]. Qed.

Lemma rt_steps_grows r r' : rt_steps r r' -> rt_grows r r'.
Proof. by intros [H _]. Qed.

Lemma grows_trans e1 e2 e3 : grows e1 e2 -> grows e2 e3 -> grows e1 e3.
Proof. unfold grows, keeps. intuition. Qed.

Lemma rt_grows_trans r1 r2 r3 : rt_grows r1 r2 -> rt_grows r2 r3 -> rt_grows r1 r3.
Proof.
  intros (C1 & E1 & S1) (C2 & E2 & S2). split_and!; [| |auto].
  - intros Hc. destruct (C1 Hc) as [Hc' Hl]. destruct (C2 Hc'). by rewrite <- Hl.
  - intros k e He. destruct (E1 k e He) as (e' & He' & G1). destruct (E2 k e' He') as (e'' & He'' & G2).
    exists e''. split; [done|by eapply grows_trans].
Qed.

Lemma rt_grows_rtc r r' : rtc rt_grows r r' -> rt_grows r r'.
Proof. induction 1; [apply rt_grows_refl|by eapply rt_grows_trans]. Qed.

Lemma seq_rt {A B} (p : proc runtime A) (k : A -> proc runtime B) s0 Q P :
  rgr rt_grows rt_steps p s0 Q -> (forall a s, rtc rt_grows s0 s -> Q a s -> rgr rt_grows rt_steps (k a) s P) ->
  rgr rt_grows rt_steps (pbind k p) s0 P.
Proof. apply rgr_bind, rt_steps_grows. Qed.

(** Changing one instance, and keeping it accounted for. *)
Lemma rt_steps_upd k f (r : runtime) :
  (forall e, rt_entries r !! k = Some e -> grows e (f e) /\ (accounted e -> accounted (f e))) ->
  rt_steps r (upd_entry k f r).
Proof.
  intros Hf. split; [|split_and!; [done|done|]].
  - apply grows_pointwise; [done|apply length_alter|].
    intros k' e He. cbn. destruct (decide (k = k')) as [<-|Hk].
    + rewrite list_lookup_alter_eq, He. cbn. eexists. split; [done|]. by apply Hf.
    + rewrite list_lookup_alter_ne by done. exists e. split; [done|apply grows_refl].
  - rewrite !Forall_lookup. intros Ha k' e'. cbn. destruct (decide (k = k')) as [<-|Hk].
    + rewrite list_lookup_alter_eq. destruct (rt_entries r !! k) as [e|] eqn:He; [|done]. intros [= <-].
      apply Hf; [done|]. by eapply Ha.
    + rewrite list_lookup_alter_ne by done. apply Ha.
Qed.

(** An instance is at [k]. *)
Definition has (k : nat) (r : runtime) : Prop := is_Some (rt_entries r !! k).

Lemma has_later k r r' : rt_grows r r' -> has k r -> has k r'.
Proof. intros (_ & H & _) [e He]. destruct (H k e He) as (e' & He' & _). by exists e'. Qed.

Lemma inst_at_keeps k r r' : rt_grows r r' -> has k r -> keeps (inst_at w k r) (inst_at w k r').
Proof.
  intros (_ & H & _) [e He]. destruct (H k e He) as (e' & He' & Hg). unfold inst_at. rewrite He, He'. apply Hg.
Qed.

Lemma inst_at_rtc k r r' :
  rtc rt_grows r r' -> has k r -> has k r' /\ rtc keeps (inst_at w k r) (inst_at w k r').
Proof.
  induction 1 as [r|r r1 r' H1 _ IH]; intros Hk; [by split; [|apply rtc_refl]|].
  destruct IH as [Hk' IH]; [by eapply has_later|]. split; [done|].
  eapply rtc_l; [by apply inst_at_keeps|done].
Qed.

Lemma inst_at_set k i r : has k r -> inst_at w k (set_inst k i r) = i.
Proof. intros [e He]. unfold inst_at, set_inst, upd_entry. cbn. by rewrite list_lookup_alter_eq, He. Qed.

(** Whether an instance is accounted for depends on its flags. *)
Lemma rt_steps_inst k i (r : runtime) : has k r -> steps (inst_at w k r) i -> rt_steps r (set_inst k i r).
Proof.
  intros [e0 He0] Hs. apply rt_steps_upd. intros e He. rewrite He in He0. injection He0 as <-.
  unfold inst_at in Hs. rewrite He in Hs. destruct Hs as [Hk Hr]. split; [by split|].
  unfold accounted in *. cbn. unfold keeps in Hk. intuition.
Qed.

(** A goroutine of an instance, lifted. *)
Lemma lift_inst {A} k (p : proc inst A) s Q :
  has k s -> rgr keeps steps p (inst_at w k s) Q ->
  rgr rt_grows rt_steps (on_inst w k p) s (fun a s' => has k s' /\ Q a (inst_at w k s')).
Proof.
  revert s Q. induction p as [A a|A f p IH|A c IHc p IH]; intros s Q Hk Hp; cbn [on_inst rgr] in *; [done| |].
  - intros s1 Hs1. destruct (inst_at_rtc k s s1 Hs1 Hk) as [Hk1 Hi]. destruct (Hp _ Hi) as [Hg Hp'].
    split; [by apply rt_steps_inst|]. apply IH; [by eapply has_later; [apply rt_steps_grows, rt_steps_inst|]|].
    by rewrite inst_at_set.
  - destruct Hp as [Hc Hp]. split; [|by apply IH]. eapply rgr_weaken; [by apply IHc|]. done.
Qed.

Lemma lift_ {A} k (p : proc inst A) s :
  has k s -> rgr_ keeps steps p (inst_at w k s) ->
  rgr rt_grows rt_steps (on_inst w k p) s (fun _ s' => has k s').
Proof. intros Hk Hp. eapply rgr_weaken; [by apply lift_inst|]. by intros a s' [H _]. Qed.

(** ** The operations under interference *)

Definition flags (i : inst) : bool * bool * bool * modState := (i_closed i, i_registered i, modDead i, i_mod i).

(** Goroutines of an instance none of whose steps touches its flags. *)
Fixpoint calm {A : Type} (p : proc inst A) : Prop :=
  match p with
  | Done _ => True
  | Step f k => forall i, flags (f i) = flags i /\ calm (k i)
  | Spawn c k => calm c /\ calm k
  end.

Lemma calm_bind {A B} (p : proc inst A) (k : A -> proc inst B) : calm p -> (forall a, calm (k a)) -> calm (pbind k p).
Proof.
  intros Hp Hk. induction p as [A a|A f p IH|A c _ p IH]; [apply Hk| |].
  - intros i. destruct (Hp i). split; [done|]. by apply IH.
  - destruct Hp. split; [done|]. by apply IH.
Qed.

Lemma calm_atomic {A} (f : inst -> inst * A) : (forall i, flags (f i).1 = flags i) -> calm (atomic f).
Proof. intros Hf i. split; [apply Hf|done]. Qed.

Lemma calm_reads {A} (f : inst -> A) : calm (reads f).
Proof. done. Qed.

Lemma calm_guest {A} (fn : inst -> inst * result go_error A) :
  (forall i, flags (fn i).1 = flags i) -> calm (guest fn).
Proof. intros Hf. apply calm_atomic. intros i. by destruct (modDead i). Qed.

Lemma flags_invoke exec f args (i : inst) : flags (invoke exec f args i).1 = flags i.
Proof. unfold invoke. by destruct (exec _ _ _) as [r [[g m] h]]. Qed.

Lemma calm_call exec f args : calm (call exec f args).
Proof. apply calm_guest. intros i. apply flags_invoke. Qed.

Lemma calm_allocWrite exec b : calm (allocWrite exec b).
Proof.
  apply calm_guest. intros i. cbv zeta.
  match goal with |- context [invoke exec ?f ?a i] => pose proof (flags_invoke exec f a i) as Hf;
    destruct (invoke exec f a i) as [i1 [v|e]] end; [|done].
  destruct (u32 v =? 0), (0 <? zlen b); try done. by destruct (mem_write _ _ _).
Qed.

Lemma calm_free exec p n : calm (free exec p n).
Proof. unfold free. destruct (negb _); [|done]. apply calm_bind; [apply calm_call|done]. Qed.

Lemma calm_checkABIVersion : calm (checkABIVersion w).
Proof. apply calm_bind; [apply calm_call|]. intros [v|e]; [|done]. by destruct (negb _). Qed.

Lemma calm_initialize c a h : calm (initialize w c a h).
Proof.
  assert (Halloc : forall vals ptrs, calm (allocAll w vals ptrs)).
  { induction vals as [|v vals IH]; intros ptrs; cbn [allocAll]; [done|].
    apply calm_bind; [apply calm_allocWrite|]. intros [p|e]; [apply IH|done]. }
  assert (Hfree : forall ptrs, calm (freeAll w ptrs)).
  { induction ptrs as [|x ptrs IH]; [done|]. apply calm_bind; [apply calm_free|]. by intros _. }
  apply calm_bind; [apply Halloc|]. intros [ptrs [e|]]; [by apply calm_bind|].
  apply calm_bind; [apply calm_call|]. intros out. apply calm_bind; [done|]. intros _.
  destruct out; [|done]. cbv zeta. by destruct (negb _).
Qed.

Lemma calm_on_host {A} (p : proc instanceState A) : calm (on_host p).
Proof. induction p as [A a|A f p IH|A c IHc p IH]; cbn; auto. Qed.

(** Such goroutines are harmless under any interference, *)
Lemma calm_steps {A} (p : proc inst A) i : calm p -> rgr_ keeps steps p i.
Proof.
  revert i. induction p as [A a|A f p IH|A c IHc p IH]; intros i Hp; cbn [calm rgr] in *; [done| |].
  - intros i' _. destruct (Hp i') as [Hf Hk]. split; [|auto]. injection Hf as H1 H2 H3 H4.
    unfold steps, keeps, mod_sound. rewrite H1, H2, H3, H4. tauto.
  - destruct Hp. split; auto.
Qed.

Lemma closing_err k e s : has k s -> rgr rt_grows rt_steps (closing w k e) s (fun r _ => r = Err e).
Proof.
  intros Hk. unfold closing. eapply seq_rt; [|by intros].
  apply (lift_ k _ _ Hk). eapply rgr_weaken; [apply closes_Close|done].
Qed.

(** Why an instance may leave the registry without [Instance.Close]. *)
Definition excused (k : nat) (r : runtime) : Prop :=
  exists e, rt_entries r !! k = Some e /\ (e_failed e = true \/ modDead (e_inst e) = true).

Lemma excused_later k r r' : rt_grows r r' -> excused k r -> excused k r'.
Proof.
  intros (_ & H & _) (e & He & Hx). destruct (H k e He) as (e' & He' & (_ & Hd & _) & Hf). exists e'. intuition.
Qed.

Lemma rt_steps_trans r1 r2 r3 : rt_steps r1 r2 -> rt_steps r2 r3 -> rt_steps r1 r3.
Proof.
  intros (G1 & C1 & W1 & A1) (G2 & C2 & W2 & A2).
  split_and!; [by eapply rt_grows_trans|congruence|congruence|auto].
Qed.

Lemma lookup_upd k f (r : runtime) : rt_entries (upd_entry k f r) !! k = f <$> rt_entries r !! k.
Proof. apply list_lookup_alter_eq. Qed.

(** Marking what became of a module. *)
Lemma rt_steps_mark k f (r : runtime) :
  f = failed \/ f = instantiated \/ f = dropped -> rt_steps r (upd_entry k f r).
Proof.
  intros Hf. apply rt_steps_upd. intros e _. unfold grows, accounted.
  destruct Hf as [->|[->| ->]]; cbn; (split; [split; [apply steps_keeps, steps_refl|done]|tauto]).
Qed.

(** A module is published only while it is not dead. *)
Lemma rt_steps_publish k (r : runtime) : modDead (inst_at w k r) = false -> rt_steps r (upd_entry k published r).
Proof.
  intros Hd. apply rt_steps_upd. intros e He. unfold inst_at in Hd. rewrite He in Hd.
  unfold grows, accounted, keeps, mod_sound. cbn. rewrite Hd. intuition congruence.
Qed.

(** The error paths of [newModuleInstance]. *)
Lemma abandon_steps k err s :
  excused k s ->
  rgr rt_grows rt_steps (do* removeState w k in do* on_inst w k (on_host close) in Done (@Err go_error nat err)) s
    (fun r _ => r = Err err).
Proof.
  intros He. eapply seq_rt with (Q := fun _ s => has k s).
  - apply rgr_modify. intros r Hr. pose proof (excused_later _ _ _ (rt_grows_rtc _ _ Hr) He) as (e & Hek & Hx).
    assert (Hst : rt_steps r (set_inst k (unregister (inst_at w k r)) r)).
    { apply rt_steps_upd. intros e' He'. rewrite He' in Hek. injection Hek as ->. unfold inst_at. rewrite He'.
      unfold grows, keeps, accounted, mod_sound. cbn. intuition congruence. }
    split; [done|]. eapply has_later; [by apply rt_steps_grows|by exists e].
  - intros _ s1 _ Hk1. eapply seq_rt; [apply lift_; [done|apply keeps_on_host]|]. by intros.
Qed.

(** What [InstantiateModule] leaves. *)
Lemma instantiate_steps k i f (r : runtime) :
  has k r -> steps (inst_at w k r) i -> f = failed \/ f = instantiated ->
  rt_steps r (upd_entry k f (set_inst k i r)) /\ has k (upd_entry k f (set_inst k i r)) /\
  (f = failed -> excused k (upd_entry k f (set_inst k i r))).
Proof.
  intros Hk Hs Hf. assert (Hst : rt_steps r (upd_entry k f (set_inst k i r))).
  { eapply rt_steps_trans; [by apply rt_steps_inst|]. apply rt_steps_mark. tauto. }
  split_and!; [done|by eapply has_later; [apply rt_steps_grows|]|].
  intros ->. destruct Hk as [e He]. exists (failed (mkEntry i (e_failed e) (e_private e))).
  split; [|by left]. unfold set_inst. by rewrite !lookup_upd, He.
Qed.

Lemma newModuleInstance_steps alloc start s :
  rgr rt_grows rt_steps (newModuleInstance w alloc start) s (fun r s' => forall k, r = Ok k -> has k s').
Proof.
  unfold newModuleInstance. eapply seq_rt with (Q := fun k s => forall n, k = Some n -> has n s).
  { apply rgr_atomic. intros r _. destruct (rt_closed r) eqn:Ec; cbn; [split; [apply rt_steps_refl|done]|].
    split.
    - split; [split_and!; [by rewrite Ec| |]|split_and!; [done|done|]].
      + intros k e He. exists e. split; [by apply lookup_app_l_Some|apply grows_refl].
      + intros Hs. apply Forall_app. split; [done|]. by repeat constructor.
      + intros Ha. apply Forall_app. split; [done|]. constructor; [by left|done].
    - intros n [= <-]. exists (mkEntry (unborn w) false false). cbn. rewrite lookup_app_r, Nat.sub_diag by done. done. }
  intros [k|] s1 _ Hk; [|by apply rgr_done]. specialize (Hk k eq_refl).
  eapply seq_rt with (Q := fun e s => has k s /\ (is_Some e -> excused k s)).
  { apply rgr_atomic. intros r Hr. destruct (inst_at_rtc k s1 r Hr Hk) as [Hk' _].
    destruct (w_instantiate w alloc start _) as [[[g m]|err] h]; cbn [fst snd].
    - destruct (instantiate_steps k (mkInstance (i_closed (inst_at w k r)) (i_registered (inst_at w k r))
        (modDead (inst_at w k r)) (i_mod (inst_at w k r)) m g h (i_calls (inst_at w k r))) instantiated r Hk') as (H1 & H2 & _);
        [apply same_flags|by right|]. split_and!; [done|done|by intros [? ?]].
    - destruct (instantiate_steps k (set_host h (inst_at w k r)) failed r Hk') as (H1 & H2 & H3);
        [apply same_flags|by left|]. split_and!; [done|done|auto]. }
  intros [e|] s2 _ [Hk2 He].
  { eapply rgr_weaken; [apply abandon_steps; eauto|]. by intros a s' -> k'. }
  eapply seq_rt with (Q := fun dead s => has k s /\ (dead = true -> excused k s)).
  { apply rgr_atomic. intros r Hr. destruct (inst_at_rtc k s2 r Hr Hk2) as [Hk' _].
    destruct (modDead (inst_at w k r)) eqn:Ed; cbn.
    - split_and!; [apply rt_steps_refl|done|]. intros _. destruct Hk' as [en Hen]. exists en. split; [done|right].
      by rewrite <- Ed; unfold inst_at; rewrite Hen.
    - assert (Hst : rt_steps r (upd_entry k published r)) by (by apply rt_steps_publish).
      split_and!; [done|by eapply has_later; [apply rt_steps_grows|]|done]. }
  intros [|] s3 _ [Hk3 Hx].
  - eapply seq_rt with (Q := fun _ s => excused k s).
    + apply rgr_modify. intros r Hr. assert (Hst : rt_steps r (upd_entry k dropped r)) by (apply rt_steps_mark; tauto).
      split; [done|]. eapply excused_later; [by apply rt_steps_grows|]. eapply excused_later; [by apply rt_grows_rtc|auto].
    + intros _ s4 _ H4. eapply rgr_weaken; [by apply abandon_steps|]. by intros a s' -> k'.
  - destruct (bindExports _) as [e|]; [|by apply rgr_done; intros k' [= <-]].
    eapply rgr_weaken; [by apply closing_err|]. by intros a s' -> k'.
Qed.

Lemma newFullInstance_steps s :
  rgr rt_grows rt_steps (newFullInstance w) s (fun r s' => forall k, r = Ok k -> has k s').
Proof.
  unfold newFullInstance. eapply seq_rt; [apply newModuleInstance_steps|]. intros [k|e] s1 _ Hk; [|by apply rgr_done].
  specialize (Hk k eq_refl). eapply seq_rt; [apply (lift_ k); [done|apply calm_steps, calm_checkABIVersion]|].
  intros [e|] s2 _ Hk2; [eapply rgr_weaken; [by apply closing_err|]; by intros a s' -> k'|]. cbv zeta.
  eapply seq_rt with (Q := fun _ s => has k s).
  { apply rgr_reads; [apply rt_steps_refl|]. intros r Hr. by eapply inst_at_rtc. }
  intros cfg s3 _ Hk3. eapply seq_rt; [apply (lift_ k); [done|apply calm_steps, calm_initialize]|].
  intros [e|] s4 _ Hk4; [eapply rgr_weaken; [by apply closing_err|]; by intros a s' -> k'|].
  apply rgr_done. by intros k' [= <-].
Qed.

Lemma takeTemplate_steps k segs s : has k s -> rgr rt_grows rt_steps (takeTemplate w k segs) s (fun _ s' => has k s').
Proof.
  intros Hk. unfold takeTemplate. eapply seq_rt; [apply (lift_ k); [done|apply keeps_call]|].
  intros [v|e] s1 _ Hk1; [|by apply rgr_done]. cbv zeta. destruct (negb _); [by apply rgr_done|].
  eapply seq_rt; [apply (lift_ k); [done|by apply calm_steps, calm_reads]|]. intros ns s2 _ Hk2.
  eapply seq_rt; [apply (lift_ k); [done|by apply calm_steps, calm_reads]|]. intros nt s3 _ Hk3.
  destruct (_ || _); [by apply rgr_done|].
  eapply seq_rt; [apply (lift_ k); [done|apply keeps_guest; [intros; apply steps_refl|done|done]]|].
  intros [img|e] s4 _ Hk4; [|by apply rgr_done]. destruct (negb _); [by apply rgr_done|].
  by destruct (w_create w), (w_write w); apply rgr_done.
Qed.

Lemma Close_steps k s : has k s -> rgr rt_grows rt_steps (on_inst w k Close) s (fun _ s' => has k s').
Proof. intros Hk. apply lift_; [done|]. eapply rgr_weaken; [apply closes_Close|done]. Qed.

Lemma buildZygote_steps s : rgr_ rt_grows rt_steps (buildZygote w) s.
Proof.
  unfold buildZygote. destruct (w_disabled w); [done|]. destruct (parseDataSegments _) as [[segs|e]|]; [|done|done].
  eapply seq_rt; [apply newFullInstance_steps|]. intros [k|e] s1 _ Hk; [|done].
  eapply seq_rt; [by apply takeTemplate_steps, Hk|]. intros z s2 _ Hk2.
  eapply seq_rt; [by apply Close_steps|]. by intros.
Qed.

Lemma newClone_steps z s :
  rgr rt_grows rt_steps (newClone w z) s (fun r s' => forall k, r = Some (Ok k) -> has k s').
Proof.
  assert (Hfail : forall k e s, has k s ->
    rgr rt_grows rt_steps (let* r := closing w k e in Done (Some r)) s (fun r s' => forall k, r = Some (Ok k) -> has k s')).
  { intros k e s1 Hk. eapply seq_rt; [by apply closing_err|]. intros r s2 _ ->. by apply rgr_done. }
  unfold newClone. eapply seq_rt; [apply newModuleInstance_steps|]. intros [k|e] s1 _ Hk; [|by apply rgr_done].
  specialize (Hk k eq_refl). eapply seq_rt.
  { apply (lift_ k); [done|]. apply rgr_atomic. intros i _. split; [|done].
    destruct (modDead i) eqn:Ed; [apply steps_refl|]. destruct (restoreClone z (i_mem i)) as [[m|e]|]; cbn; [|apply steps_refl..].
    rewrite <- Ed. apply same_flags. }
  intros [[e|]|] s2 _ Hk2; [by apply Hfail| |by apply rgr_done].
  eapply seq_rt; [apply (lift_ k); [done|apply keeps_call]|]. intros [v|e] s3 _ Hk3; [|by apply Hfail].
  eapply seq_rt; [apply (lift_ k); [done|apply calm_steps, calm_checkABIVersion]|].
  intros [e|] s4 _ Hk4; [by apply Hfail|]. apply rgr_done. by intros k' [= <-].
Qed.

(** A step outside the instances. *)
Lemma rt_steps_outside (r r' : runtime) :
  rt_entries r' = rt_entries r -> rt_closed r' = rt_closed r -> rt_wazero r' = rt_wazero r -> rt_steps r r'.
Proof.
  intros He Hc Hw. split; [|by rewrite He]. apply grows_pointwise; [by rewrite Hc|by rewrite He|].
  intros k e Hk. exists e. rewrite He. split; [done|apply grows_refl].
Qed.

Lemma NewInstance_steps s :
  rgr rt_grows rt_steps (NewInstance w) s (fun c s' => forall k, c = Created (Ok k) -> has k s').
Proof.
  unfold NewInstance. eapply seq_rt with (Q := fun _ _ => True); [by apply rgr_reads; [apply rt_steps_refl|]|].
  intros [|] s1 _ _; [by apply rgr_done|].
  match goal with |- context [match _ with OnceNew => _ | OnceRunning => _ | OnceDone => ?f end] => set (fin := f) end.
  assert (Hfin : forall s, rgr rt_grows rt_steps fin s (fun c s' => forall k, c = Created (Ok k) -> has k s')).
  { intros s2. eapply seq_rt with (Q := fun _ _ => True); [by apply rgr_reads; [apply rt_steps_refl|]|].
    intros [|e|z] s3 _ _; [|by apply rgr_done|].
    - eapply seq_rt; [apply newFullInstance_steps|]. intros r s4 _ Hr. apply rgr_done. intros k [= ->]. by apply Hr.
    - eapply seq_rt; [apply newClone_steps|]. intros [r|] s4 _ Hr; apply rgr_done; [|done]. intros k [= ->]. by apply Hr. }
  eapply seq_rt with (Q := fun _ _ => True).
  { apply rgr_atomic. intros r _. split; [|done]. destruct (rt_once r) eqn:Eo; [by apply rt_steps_outside|apply rt_steps_refl..]. }
  intros [| |] s2 _ _; [|by apply rgr_done|apply Hfin].
  eapply seq_rt; [apply buildZygote_steps|]. intros [z|] s3 _ _; [|by apply rgr_done].
  eapply seq_rt with (Q := fun _ _ => True); [|intros; apply Hfin].
  apply rgr_modify. intros r _. split; [by apply rt_steps_outside|done].
Qed.

(** ** Closing the runtime *)

(** The runtime is closed and every instance has left the registry: closed
    by its owner, its module dead and closed, or without one. *)
Definition swept (r : runtime) : Prop :=
  rt_closed r = true /\
  Forall (fun e => i_registered (e_inst e) = false /\
    (i_closed (e_inst e) = true \/ (modDead (e_inst e) = true /\ i_mod (e_inst e) <> ModOpen) \/
     e_failed e = true)) (rt_entries r).

(** The steps of [Runtime.Close]: wazero is only closed when all is swept. *)
Definition closer (r r' : runtime) : Prop :=
  rt_grows r r' /\ (rt_wazero r' = false -> rt_wazero r = false \/ swept r').

Lemma swept_later r r' : rt_grows r r' -> swept r -> swept r'.
Proof.
  intros (Hc & He & _) [Hcl Hall]. destruct (Hc Hcl) as [Hc' Hl]. split; [done|].
  rewrite !Forall_lookup in *. intros k e' Hk'.
  destruct (lookup_lt_is_Some_2 (rt_entries r) k) as [e Hk]; [rewrite <- Hl; by eapply lookup_lt_Some|].
  destruct (He k e Hk) as (e2 & Hk2 & ((Hg1 & Hg2 & Hg3 & Hg5) & Hg4)). rewrite Hk' in Hk2. injection Hk2 as <-.
  destruct (Hall k e Hk) as [Hr Hx]. unfold mod_sound in Hg5. split; [|intuition].
  destruct (i_registered (e_inst e')); [|done]. rewrite Hg3 in Hr by done. done.
Qed.

(** After the sweep, before its modules are closed. *)
Definition sweeping (ks : list nat) (r : runtime) : Prop :=
  rt_closed r = true /\ rt_sound r /\ (forall k, k ∈ ks -> has k r) /\
  forall k e, rt_entries r !! k = Some e -> i_registered (e_inst e) = false /\
    (k ∈ ks \/ i_closed (e_inst e) = true \/ modDead (e_inst e) = true \/ e_failed e = true).

Lemma sweeping_later ks r r' : rt_grows r r' -> sweeping ks r -> sweeping ks r'.
Proof.
  intros Hg (Hcl & Hso & Hks & Hall). pose proof Hg as (Hc & He & Hso'). destruct (Hc Hcl) as [Hc' Hl].
  split_and!; [done|auto|intros k Hk; eapply has_later; [exact Hg|auto]|]. intros k e' Hk'.
  destruct (lookup_lt_is_Some_2 (rt_entries r) k) as [e Hk]; [rewrite <- Hl; by eapply lookup_lt_Some|].
  destruct (He k e Hk) as (e2 & Hk2 & ((Hg1 & Hg2 & Hg3 & Hg5) & Hg4)). rewrite Hk' in Hk2. injection Hk2 as <-.
  destruct (Hall k e Hk) as [Hr Hx]. unfold mod_sound in Hg5. split; [|intuition].
  destruct (i_registered (e_inst e')); [|done]. rewrite Hg3 in Hr by done. done.
Qed.

Lemma sweeping_nil r : sweeping [] r -> swept r.
Proof.
  intros (Hc & Hs & _ & H). split; [done|]. rewrite Forall_lookup. intros k e Hk.
  destruct (H k e Hk) as [Hr [Hx|Hx]]; [by apply not_elem_of_nil in Hx|]. split; [done|].
  unfold rt_sound in Hs. rewrite Forall_lookup in Hs. specialize (Hs k e Hk). unfold mod_sound in Hs. intuition.
Qed.

Lemma rtc_steps_grows r r' : rtc rt_steps r r' -> rt_grows r r'.
Proof. intros H. apply rt_grows_rtc. eapply rtc_subrel; [|exact H]. apply rt_steps_grows. Qed.

Lemma rtc_steps_outside r r' :
  rtc rt_steps r r' -> Forall accounted (rt_entries r) -> rt_sound r ->
  rt_closed r' = rt_closed r /\ Forall accounted (rt_entries r') /\ rt_sound r'.
Proof.
  induction 1 as [r|r r1 r' ((_ & _ & Hs) & Hc & _ & Ha) _ IH]; intros H1 H2; [done|]. rewrite <- Hc. auto.
Qed.

(** A step of [Runtime.Close] on one instance. *)
Lemma closer_inst k i (r : runtime) : has k r -> keeps (inst_at w k r) i -> closer r (set_inst k i r).
Proof.
  intros [e0 He0] Hk. split; [|by left]. apply grows_pointwise; [done|apply length_alter|].
  intros k' e He. cbn. destruct (decide (k = k')) as [<-|Hne].
  - rewrite list_lookup_alter_eq, He. cbn. eexists. split; [done|]. unfold inst_at in Hk. rewrite He in Hk. by split.
  - rewrite list_lookup_alter_ne by done. exists e. split; [done|apply grows_refl].
Qed.

Lemma closer_on_host {A} k (p : proc instanceState A) ks s :
  has k s -> sweeping ks s -> rgr rt_steps closer (on_inst w k (on_host p)) s (fun _ s' => has k s' /\ sweeping ks s').
Proof.
  revert s. induction p as [A a|A f p IH|A c IHc p IH]; intros s Hk Hs; cbn [on_inst on_host rgr]; [done| |].
  - intros s1 Hs1%rtc_steps_grows. pose proof (has_later _ _ _ Hs1 Hk) as Hk1.
    assert (Hc : closer s1 (set_inst k (set_host (f (i_host (inst_at w k s1))) (inst_at w k s1)) s1)).
    { apply closer_inst; [done|]. apply steps_keeps, same_flags. }
    split; [done|]. destruct Hc as [Hg _]. apply IH; [by eapply has_later|].
    eapply sweeping_later; [done|]. by eapply sweeping_later.
  - split; [|by apply IH]. eapply rgr_weaken; [by apply IHc|done].
Qed.

(** The loop of [Runtime.Close] closes every module it collected. *)
Lemma closer_loop ks s :
  sweeping ks s ->
  rgr rt_steps closer (for_each (fun k => do* on_inst w k (on_host close) in on_inst w k closeModule) ks) s
    (fun _ s' => swept s').
Proof.
  revert s. induction ks as [|k ks IH]; intros s Hs; cbn [for_each]; [by apply rgr_done, sweeping_nil|].
  assert (Hk : has k s) by (apply Hs; by left).
  eapply rgr_chain with (Q := fun _ s => sweeping ks s); [|intros []; apply IH].
  eapply rgr_chain; [by apply (closer_on_host k close (k :: ks))|]. intros _ s1 [Hk1 Hs1].
  unfold closeModule, modify. cbn [on_inst rgr]. intros s2 Hs2%rtc_steps_grows.
  pose proof (has_later _ _ _ Hs2 Hk1) as Hk2. pose proof (sweeping_later _ _ _ Hs2 Hs1) as Hs3.
  set (i := mkInstance _ _ true _ _ _ _ _).
  assert (Hc : closer s2 (set_inst k i s2)).
  { apply closer_inst; [done|]. apply steps_keeps, steps_closeModule. }
  split; [done|]. destruct Hc as [Hg _]. destruct (sweeping_later _ _ _ Hg Hs3) as (Hcl & Hso & Hks & Hall).
  split_and!; [done|done|intros k' Hk'; apply Hks; by right|]. intros k' e Hk'.
  destruct (Hall k' e Hk') as [Hr [[->|Hin]%elem_of_cons|Hx]]; [|by split; [|left]|by split; [|right]].
  split; [done|]. right. right. left. destruct Hk2 as [e2 He2].
  unfold set_inst in Hk'. rewrite lookup_upd, He2 in Hk'. injection Hk' as <-. done.
Qed.

Lemma elem_registered k r : k ∈ registered w r <-> has k r /\ i_registered (inst_at w k r) = true.
Proof.
  unfold registered. rewrite list_elem_of_In, filter_In, <- list_elem_of_In, elem_of_seq. unfold has.
  rewrite lookup_lt_is_Some. intuition lia.
Qed.

Lemma sweep_step r :
  rt_closed r = true -> Forall accounted (rt_entries r) -> rt_sound r ->
  let r' := set_entries (map unregistered (rt_entries r)) r in
  rt_grows r r' /\ sweeping (registered w r) r'.
Proof.
  intros Hc Ha Hs r'. assert (Hlk : forall k, rt_entries r' !! k = unregistered <$> rt_entries r !! k) by (intros k; apply list_lookup_fmap).
  assert (Hg : rt_grows r r').
  { apply grows_pointwise; [done|apply length_map|]. intros k e He. exists (unregistered e). split; [by rewrite Hlk, He|].
    unfold grows, keeps, mod_sound. cbn. intuition congruence. }
  split; [done|]. split_and!; [done|by apply Hg| |].
  - intros k [Hk _]%elem_registered. by eapply has_later.
  - intros k e'. rewrite Hlk. destruct (rt_entries r !! k) as [e|] eqn:He; [|done]. intros [= <-]. split; [done|].
    rewrite Forall_lookup in Ha. destruct (Ha k e He) as [Hr|Hx]; [|by right]. left. apply elem_registered.
    split; [by exists e|]. unfold inst_at. by rewrite He.
Qed.

(** From the sweep on. *)
Lemma closer_tail s :
  rt_closed s = true -> Forall accounted (rt_entries s) -> rt_sound s ->
  rgr_ rt_steps closer
    (let* ks := atomic (fun r => (set_entries (map unregistered (rt_entries r)) r, registered w r)) in
     do* for_each (fun k => do* on_inst w k (on_host close) in on_inst w k closeModule) ks in
     do* modify (fun r => mkRuntime (rt_cfg r) (rt_closed r) (rt_entries r) (rt_once r) (rt_zygote r) false) in
     Done true) s.
Proof.
  intros Hc Ha Hs. apply rgr_step. intros s1 Hs1. destruct (rtc_steps_outside _ _ Hs1 Ha Hs) as (Hc1 & Ha1 & Hso1). cbn [fst snd].
  destruct (sweep_step s1 ltac:(congruence) Ha1 Hso1) as [Hg Hsw]. split; [split; [exact Hg|by left]|].
  eapply rgr_chain; [by apply closer_loop|]. intros [] s2 Hs2.
  eapply rgr_chain with (Q := fun _ _ => True); [|by intros]. apply rgr_modify. intros s3 Hs3%rtc_steps_grows.
  split; [|done]. pose proof (swept_later _ _ Hs3 Hs2) as Hsw3. split; [|by intros _; right].
  apply grows_pointwise; [done|done|]. intros k e He. exists e. split; [done|apply grows_refl].
Qed.

Lemma RuntimeClose_steps s :
  rt_closed s = false -> Forall accounted (rt_entries s) -> rt_sound s -> rgr_ rt_steps closer (RuntimeClose w) s.
Proof.
  intros Hc Ha Hs. unfold RuntimeClose. apply rgr_step. intros s1 Hs1.
  destruct (rtc_steps_outside _ _ Hs1 Ha Hs) as (Hc1 & Ha1 & Hso1). rewrite Hc1, Hc. cbn [fst snd].
  split; [split; [|by left]; apply grows_pointwise; [done|done|]; intros k e He; exists e; split; [done|apply grows_refl]|].
  apply rgr_step. intros s2 Hs2. destruct (rtc_steps_outside _ _ Hs2 Ha1 Hso1) as (Hc2 & Ha2 & Hso2). cbn [fst snd rt_closed] in *.
  destruct (rt_once s2) eqn:Eo; (split; [split; [by apply rt_steps_grows, rt_steps_outside|by left]|]).
  - by apply closer_tail.
  - by apply rgr_done.
  - by apply closer_tail.
Qed.

Lemma spawnless_on_inst {A} k (p : proc inst A) : spawnless p -> spawnless (on_inst w k p).
Proof. induction p as [A a|A f p IH|A c _ p _]; cbn; auto. Qed.

Lemma spawnless_on_host {A} (p : proc instanceState A) : spawnless p -> spawnless (on_host (M := M) (G := G) p).
Proof. induction p as [A a|A f p IH|A c _ p _]; cbn; auto. Qed.

Lemma spawnless_close : spawnless close.
Proof.
  unfold close, shutdown. apply spawnless_bind; [done|]. intros [|]; [|done].
  apply spawnless_bind; [done|]. intros _. apply spawnless_bind; [done|]. intros l. apply spawnless_for_each.
  intros a. unfold sock_close. apply spawnless_bind; [done|]. intros [[u t]|]; [|done].
  apply spawnless_bind; [by destruct u|]. intros _. by destruct t.
Qed.

Lemma spawnless_RuntimeClose : spawnless (RuntimeClose w).
Proof.
  unfold RuntimeClose. apply spawnless_bind; [done|]. intros [|]; [|done]. apply spawnless_bind; [done|].
  assert (Ht : forall ks, spawnless (for_each (fun k => do* on_inst w k (on_host close) in on_inst w k closeModule) ks)).
  { intros ks. apply spawnless_for_each. intros k. apply spawnless_bind; [|intros _; by apply spawnless_on_inst].
    by apply spawnless_on_inst, spawnless_on_host, spawnless_close. }
  intros [| |]; [|done|]; (apply spawnless_bind; [done|]; intros ks; apply spawnless_bind; [apply Ht|done]).
Qed.

Context {U : Unicode} {DM : DNSMessage} {DL : DNSMessageLaws}.

(** What a program does with a runtime and its instances beside
    [Runtime.Close]: create an instance, resolve with it and close it; use
    and close instances it has. *)
Inductive operation (s : runtime) : proc runtime unit -> Prop :=
| op_new script queries :
    operation s (let* c := NewInstance w in
      match c with
      | Created (Ok k) =>
          do* on_inst w k (ResolveAll (w_exec w) script queries) in
          on_inst w k Close
      | _ => Done tt
      end)
| op_resolve k script queries :
    has k s -> operation s (do* on_inst w k (ResolveAll (w_exec w) script queries) in Done tt)
| op_close k : has k s -> operation s (on_inst w k Close).

Lemma resolve_steps k script queries s :
  has k s -> rgr rt_grows rt_steps (on_inst w k (ResolveAll (w_exec w) script queries)) s (fun _ s' => has k s').
Proof. intros Hk. apply lift_; [done|]. eapply rgr_weaken; [apply resolveAll_core|done]. Qed.

Lemma operation_steps s p : operation s p -> rgr_ rt_grows rt_steps p s.
Proof.
  intros [script queries|k script queries Hk|k Hk].
  - eapply seq_rt; [apply NewInstance_steps|]. intros [| |[k|e]] s1 _ Hk; try done.
    eapply seq_rt; [by apply resolve_steps, Hk|]. intros ? s2 _ Hk2.
    eapply rgr_weaken; [by apply Close_steps|done].
  - eapply seq_rt; [by apply resolve_steps|]. by intros.
  - eapply rgr_weaken; [by apply Close_steps|done].
Qed.


End Spec.

(** ** A concrete world *)

(** The guest of [DemoGuest] with the module and template of Zygote.v. *)
Module DemoWorld.
Import ListMem DemoGuest.

Definition demo_instantiate (alloc : option zygote) (start : bool) (h : instanceState)
    : result go_error (nat * list Z) * instanceState :=
  (Ok (0%nat, match alloc with
              | None => zeros 8192
              | Some z => writeSegments (image z) (moduleSegments demo_sections)
              end), h).

Definition demo_world : world (M := list Z) (G := nat) :=
  mkWorld demo_exec demo_instantiate (fun _ => true) (0%nat, []) (enc_module demo_sections)
    false None None true false.

Definition demo_runtime : Runtime (M := list Z) (G := nat) :=
  mkRuntime (mkConfig 0 defaultTrustAnchors [] None) false [] OnceNew NoZygote true.

End DemoWorld.

Import ListMem DemoUnicode DemoDNS DemoGuest DemoWorld.

(** An instance is created, used and closed, and the runtime is closed
    beside it. *)
Definition demo_op : proc (Runtime (M := list Z) (G := nat)) unit :=
  let* c := NewInstance demo_world in
  match c with
  | Created (Ok k) =>
      do* on_inst demo_world k (ResolveAll (w_exec demo_world) [] [mkQuery demo_name 1]) in
      on_inst demo_world k Close
  | _ => Done tt
  end.

Definition demo_closer : proc (Runtime (M := list Z) (G := nat)) unit := do* RuntimeClose demo_world in Done tt.

