(* ===== verification/CreateSpec.v ===== *)
(** * What NewInstance creates

    Theorems about Lifecycle.v continued: what [NewInstance] leaves when it
    runs alone, what a clone is, and that a template is one that
    [initZygote] of Zygote.v accepts. *)

From S2P Require Import Prelude Errors Netip GuestMem Proc Host Names Answer AnswerSpec Config Memory DataSegments Zygote.
From S2P Require Import Resolve ResolveSpec Lifecycle LifecycleSpec.

#[local] Open Scope Z_scope.

Section Spec.
Context {M : Type} `{GM : GuestMemory M} {G : Type}.
Variable w : world (M := M) (G := G).

#[local] Abbreviation inst := (@instance M G).
#[local] Abbreviation runtime := (@Runtime M G).
#[local] Abbreviation entry := (@entry M G).

(** ** Creating an instance, undisturbed *)

(** No interference: what a goroutine does when it runs alone. *)
Abbreviation alone := (rgr (fun _ _ => False) (fun _ _ => True)).

Lemma alone_now {S} (s s' : S) : rtc (fun _ _ => False) s s' -> s' = s.
Proof. by inversion 1. Qed.

Lemma alone_atomic {S A} (f : S -> S * A) s (Q : A -> S -> Prop) : Q (f s).2 (f s).1 -> alone (atomic f) s Q.
Proof. intros H. apply rgr_atomic. by intros s' ->%alone_now. Qed.

Lemma alone_reads {S A} (f : S -> A) s (Q : A -> S -> Prop) : Q (f s) s -> alone (reads f) s Q.
Proof. intros H. apply rgr_reads; [done|]. by intros s' ->%alone_now. Qed.

Lemma alone_modify {S} (f : S -> S) s (Q : unit -> S -> Prop) : Q tt (f s) -> alone (modify f) s Q.
Proof. intros H. apply rgr_modify. by intros s' ->%alone_now. Qed.

Lemma any_alone {S A} (p : proc S A) s : alone p s (fun _ _ => True).
Proof.
  revert s. induction p as [A a|A f p IH|A c IHc p IH]; intros s; cbn [rgr]; [done|by intros; split|by split].
Qed.

Lemma calm_alone {A} (p : proc inst A) i : calm p -> alone p i (fun _ i' => flags i' = flags i).
Proof.
  revert i. induction p as [A a|A f p IH|A c IHc p IH]; intros i Hp; cbn [calm rgr] in *; [done| |].
  - intros i' ->%alone_now. destruct (Hp i) as [Hf Hk]. split; [done|]. rewrite <- Hf. auto.
  - destruct Hp. split; [|auto]. eapply rgr_weaken; [by apply IHc|done].
Qed.

Lemma alone_Close i :
  i_closed i = false -> i_mod i = ModOpen ->
  alone (Close (M := M) (G := G)) i (fun _ i' => flags i' = (true, false, true, ModClosed)).
Proof.
  intros Hc Hm. unfold Close. eapply rgr_chain.
  { apply (alone_atomic _ _ (fun b i' => b = true /\ i_closed i' = true /\ i_mod i' = ModOpen)). by rewrite Hc. }
  intros b i1 (-> & H1 & Hm1). eapply rgr_chain; [apply calm_alone, calm_on_host|]. intros ? i2 H2.
  injection H2 as H2 _ _ Hm2. eapply rgr_chain.
  { apply (alone_modify _ _ (fun _ i' => i_closed i' = true /\ i_registered i' = false /\ i_mod i' = ModOpen)).
    cbn. split_and!; congruence. }
  intros ? i3 (H3 & H4 & H5). apply alone_modify. unfold flags. cbn. by rewrite H3, H4, H5.
Qed.

(** The last instance of a runtime. *)
Definition last_is (base : list entry) (P : entry -> Prop) (r : runtime) : Prop :=
  exists e, rt_entries r = base ++ [e] /\ P e.

(** An instance that is registered, open, and has its module. *)
Definition live (e : entry) : Prop :=
  flags (e_inst e) = (false, true, false, ModOpen) /\ e_private e = false.

(** An instance that left nothing: not registered, its module closed. *)
Definition gone (e : entry) : Prop := i_registered (e_inst e) = false /\ mod_open e = false.

Lemma inst_at_last base e (r : runtime) : rt_entries r = base ++ [e] -> inst_at w (length base) r = e_inst e.
Proof. intros H. unfold inst_at. by rewrite H, lookup_app_r, Nat.sub_diag by done. Qed.

Lemma upd_last base e f (r : runtime) :
  rt_entries r = base ++ [e] -> rt_entries (upd_entry (length base) f r) = base ++ [f e].
Proof.
  intros H. unfold upd_entry, set_entries. cbn. rewrite H. rewrite alter_app_r_alt by done.
  by rewrite Nat.sub_diag.
Qed.

(** A goroutine of the last instance changes only that instance. *)
Lemma alone_last {A} base (p : proc inst A) e s Q :
  rt_entries s = base ++ [e] -> alone p (e_inst e) Q ->
  alone (on_inst w (length base) p) s (fun a s' =>
    exists i, rt_entries s' = base ++ [mkEntry i (e_failed e) (e_private e)] /\ Q a i).
Proof.
  revert e s Q. induction p as [A a|A f p IH|A c IHc p IH]; intros e s Q Hs Hp; cbn [on_inst rgr] in *.
  - exists (e_inst e). by destruct e.
  - intros s' ->%alone_now. split; [done|]. rewrite (inst_at_last base e) by done. destruct (Hp (e_inst e)) as [_ Hp']; [done|].
    eapply (IH (e_inst e) (mkEntry (f (e_inst e)) (e_failed e) (e_private e))).
    + unfold set_inst. by rewrite (upd_last base e).
    + done.
  - destruct Hp as [Hc Hp]. split; [|by apply IH]. eapply rgr_weaken; [by eapply IHc|done].
Qed.

Lemma calm_last {A} base (p : proc inst A) s :
  last_is base live s -> calm p -> alone (on_inst w (length base) p) s (fun _ s' => last_is base live s').
Proof.
  intros (e & He & Hf & Hp) Hc. eapply rgr_weaken; [by eapply alone_last, calm_alone|].
  intros a s' (i & Hi & Hfi). eexists. split; [exact Hi|]. split; [by rewrite <- Hf|done].
Qed.

Lemma close_last base s :
  last_is base live s -> alone (on_inst w (length base) Close) s (fun _ s' => last_is base gone s').
Proof.
  intros (e & He & Hf & Hp). injection Hf as Hf _ _ Hm. eapply rgr_weaken; [by eapply alone_last, alone_Close|].
  intros a s' (i & Hi & Hfi). injection Hfi as _ Hr _ Hd. eexists. split; [exact Hi|]. split; [done|].
  unfold mod_open. cbn. by rewrite Hp, Hd.
Qed.

(** What a call that creates at most one instance leaves. *)
Definition leaves (base : list entry) (r : result go_error nat) (s : runtime) : Prop :=
  match r with
  | Ok k => k = length base /\ last_is base live s
  | Err _ => rt_entries s = base \/ last_is base gone s
  end.

Lemma closing_leaves base e s : last_is base live s -> alone (closing w (length base) e) s (leaves base).
Proof. intros H. eapply rgr_chain; [by apply close_last|]. intros ? s' Hg. by right. Qed.

(** The instance that [newModuleInstance] registers, with the module it gets. *)
Lemma abandon_leaves base e0 err s :
  rt_entries s = base ++ [e0] -> mod_open e0 = false ->
  alone (do* removeState w (length base) in do* on_inst w (length base) (on_host close) in Done (Err err)) s (leaves base).
Proof.
  intros He Hi. unfold removeState. eapply rgr_chain.
  { apply (alone_modify _ _ (fun _ s' => exists i, rt_entries s' = base ++ [mkEntry (unregister i) (e_failed e0)
      (e_private e0)] /\ i_mod i = i_mod (e_inst e0))).
    rewrite (inst_at_last base e0) by done. exists (e_inst e0). unfold set_inst. by rewrite (upd_last base e0). }
  intros ? s1 (i & Hs1 & Hm). eapply rgr_chain; [eapply alone_last, calm_alone, calm_on_host; done|].
  intros [] s2 (i2 & Hs2 & Hf). right. eexists. split; [exact Hs2|]. injection Hf as _ Hr _ Hd.
  split; [exact Hr|]. unfold mod_open in *. cbn in *. by rewrite Hd, Hm.
Qed.

Lemma newModuleInstance_leaves alloc start s :
  alone (newModuleInstance w alloc start) s (leaves (rt_entries s)).
Proof.
  unfold newModuleInstance. set (base := rt_entries s). eapply rgr_chain.
  { apply (alone_atomic _ _ (fun k s1 => match k with
      | None => rt_entries s1 = base
      | Some k => k = length base /\ rt_entries s1 = base ++ [mkEntry (unborn w) false false]
      end)). by destruct (rt_closed s). }
  intros [k|] s1; [|intros H; by left]. intros [-> H1]. eapply rgr_chain.
  { apply (alone_atomic _ _ (fun e s2 => exists i, flags i = (false, true, false, ModNil) /\
      rt_entries s2 = base ++ [mkEntry i (bool_decide (is_Some e)) (bool_decide (e = None))])).
    rewrite (inst_at_last base _ s1 H1). destruct (w_instantiate w alloc start _) as [[[g m]|err] h]; cbn [fst snd];
      eexists; unfold set_inst; (split; [|erewrite upd_last by (by erewrite upd_last by exact H1); done]); done. }
  intros [e|] s2 (i & Hf & H2); injection Hf as Hc Hr Hd Hm.
  { eapply abandon_leaves; [exact H2|]. unfold mod_open. cbn. by rewrite Hm. }
  eapply rgr_chain.
  { apply (alone_atomic _ _ (fun dead s3 => dead = false /\ rt_entries s3 = base ++ [published (mkEntry i false true)])).
    rewrite (inst_at_last base _ s2 H2). cbn [e_inst]. rewrite Hd. cbn [fst snd]. by erewrite upd_last by exact H2. }
  intros b s3 [-> H3]. assert (Hl : last_is base live s3).
  { eexists. split; [exact H3|]. unfold live, flags. cbn. by rewrite Hc, Hr, Hd. }
  destruct (bindExports _) as [e|]; [by apply closing_leaves|by apply rgr_done].
Qed.

Lemma newFullInstance_leaves s : alone (newFullInstance w) s (leaves (rt_entries s)).
Proof.
  unfold newFullInstance. eapply rgr_chain; [apply newModuleInstance_leaves|].
  intros [k|e] s1 Hl; [|by apply rgr_done]. destruct Hl as [-> Hl].
  eapply rgr_chain; [by apply calm_last, calm_checkABIVersion|]. intros [e|] s2 H2; [by apply closing_leaves|].
  cbv zeta. eapply rgr_chain; [by apply (alone_reads _ _ (fun _ s' => last_is (rt_entries s) live s'))|]. intros cfg s3 H3.
  eapply rgr_chain; [by apply calm_last, calm_initialize|]. intros [e|] s4 H4; [by apply closing_leaves|by apply rgr_done].
Qed.

Lemma newClone_leaves z s :
  alone (newClone w z) s (fun r s' => match r with Some r => leaves (rt_entries s) r s' | None => True end).
Proof.
  unfold newClone. eapply rgr_chain; [apply newModuleInstance_leaves|].
  intros [k|e] s1 Hl; [|by apply rgr_done]. destruct Hl as [-> Hl].
  assert (Hfail : forall e s', last_is (rt_entries s) live s' ->
    alone (let* r := closing w (length (rt_entries s)) e in Done (Some r)) s'
      (fun r s' => match r with Some r => leaves (rt_entries s) r s' | None => True end)).
  { intros e s' Hs'. eapply rgr_chain; [by apply closing_leaves|]. by intros r s2 Hr. }
  eapply rgr_chain.
  { apply calm_last; [done|]. apply calm_atomic. intros i. destruct (modDead i) eqn:Ed; [done|].
    destruct (restoreClone z (i_mem i)) as [[m|e]|]; try done. unfold flags. cbn. by rewrite Ed. }
  intros [[e|]|] s2 H2; [by apply Hfail| |by apply rgr_done].
  eapply rgr_chain; [by apply calm_last, calm_call|]. intros [v|e] s3 H3; [|by apply Hfail].
  eapply rgr_chain; [by apply calm_last, calm_checkABIVersion|]. intros [e|] s4 H4; [by apply Hfail|by apply rgr_done].
Qed.

Lemma takeTemplate_leaves base segs s :
  last_is base live s -> alone (takeTemplate w (length base) segs) s (fun _ s' => last_is base live s').
Proof.
  intros Hl. unfold takeTemplate. eapply rgr_chain; [by apply calm_last, calm_call|].
  intros [v|e] s1 H1; [|by apply rgr_done]. cbv zeta. destruct (negb _); [by apply rgr_done|].
  eapply rgr_chain; [by apply calm_last, calm_reads|]. intros ns s2 H2.
  eapply rgr_chain; [by apply calm_last, calm_reads|]. intros nt s3 H3. destruct (_ || _); [by apply rgr_done|].
  eapply rgr_chain; [by apply calm_last, calm_guest|]. intros [img|e] s4 H4; [|by apply rgr_done].
  destruct (negb _); [by apply rgr_done|]. by destruct (w_create w), (w_write w); apply rgr_done.
Qed.

Lemma buildZygote_leaves s :
  alone (buildZygote w) s (fun r s' => is_Some r -> rt_entries s' = rt_entries s \/ last_is (rt_entries s) gone s').
Proof.
  unfold buildZygote. destruct (w_disabled w); [by left|]. destruct (parseDataSegments _) as [[segs|e]|];
    [|by left|by intros [??]].
  eapply rgr_chain; [apply newFullInstance_leaves|]. intros [k|e] s1 Hl; [|by apply rgr_done; intros _].
  destruct Hl as [-> Hl]. eapply rgr_chain; [by apply takeTemplate_leaves|]. intros z s2 H2.
  eapply rgr_chain; [by apply close_last|]. intros ? s3 H3. by right.
Qed.

(** What [NewInstance] leaves. *)
Definition creates (base : list entry) (c : created) (s : runtime) : Prop :=
  match c with
  | CreatePanics => True
  | CreateWaits => rt_entries s = base
  | Created (Ok k) => exists old e, rt_entries s = base ++ old ++ [e] /\ k = length (base ++ old) /\ Forall gone old /\ live e
  | Created (Err _) => exists old, rt_entries s = base ++ old /\ Forall gone old
  end.

Lemma leaves_creates base old r s : Forall gone old -> leaves (base ++ old) r s -> creates base (Created r) s.
Proof.
  intros Hold. destruct r as [k|e]; cbn.
  - intros [-> (e & He & Hl)]. exists old, e. by rewrite He, <- app_assoc.
  - intros [He|(e' & He & Hg)]; [by exists old|]. exists (old ++ [e']). rewrite He, <- app_assoc. split; [done|].
    apply Forall_app. split; [done|by constructor].
Qed.

Lemma NewInstance_creates s : alone (NewInstance w) s (creates (rt_entries s)).
Proof.
  unfold NewInstance. set (base := rt_entries s).
  eapply rgr_chain; [by apply (alone_reads _ _ (fun _ s' => rt_entries s' = base))|].
  intros [|] s1 H1; [apply rgr_done; exists []; by rewrite app_nil_r|].
  match goal with |- context [match _ with OnceNew => _ | OnceRunning => _ | OnceDone => ?f end] => set (fin := f) end.
  assert (Hfin : forall old s', rt_entries s' = base ++ old -> Forall gone old -> alone fin s' (creates base)).
  { intros old s2 H2 Hold. eapply rgr_chain; [by apply (alone_reads _ _ (fun _ s' => s' = s2))|].
    intros [|e|z] ? ->.
    - eapply rgr_chain; [apply newFullInstance_leaves|]. rewrite H2. intros r s3. by apply leaves_creates.
    - apply rgr_done. by exists old.
    - eapply rgr_chain; [apply newClone_leaves|]. rewrite H2. intros [r|] s3; [|done]. by apply leaves_creates. }
  eapply rgr_chain; [apply (alone_atomic _ _ (fun _ s' => rt_entries s' = base)); by destruct (rt_once s1)|].
  intros [| |] s2 H2; [|by apply rgr_done|by apply (Hfin []); [rewrite app_nil_r|]].
  eapply rgr_chain; [apply buildZygote_leaves|]. intros [z|] s3 Hz; [|by apply rgr_done].
  rewrite H2 in Hz. specialize (Hz (ex_intro _ z eq_refl)).
  eapply rgr_chain; [apply (alone_modify _ _ (fun _ s' => rt_entries s' = rt_entries s3)); done|]. intros ? s4 H4.
  destruct Hz as [Hz|(e & Hz & Hg)]; [apply (Hfin [])|apply (Hfin [e])]; rewrite ?app_nil_r; try congruence.
  - done.
  - by constructor.
Qed.

(** C20: a failed [NewInstance] leaves nothing behind, and a successful one
    leaves exactly the instance it returns. Whatever the guest, wazero and
    the operating system do, after an undisturbed call every instance it
    created besides the one returned, the template included, has been
    unregistered and its module closed, on every error path; the instance
    returned is registered, open and has its module; earlier instances are
    untouched. *)
Theorem NewInstance_leaves s :
  creates (rt_entries s) (run_value (NewInstance w) s) (run_state (NewInstance w) s).
Proof. exact (rgr_run _ _ _ _ _ (NewInstance_creates s)). Qed.

(** ** Clones *)

(** The instance [newModuleInstance] returns is the one wazero made. *)
Lemma newModuleInstance_made alloc start s :
  alone (newModuleInstance w alloc start) s (fun r s' => forall k, r = Ok k ->
    k = length (rt_entries s) /\ exists g m h, w_instantiate w alloc start newInstanceState = (Ok (g, m), h) /\
      rt_entries s' = rt_entries s ++ [mkEntry (mkInstance false true false ModOpen m g h []) false false]).
Proof.
  unfold newModuleInstance. set (base := rt_entries s). eapply rgr_chain.
  { apply (alone_atomic _ _ (fun k s1 => forall n, k = Some n ->
      n = length base /\ rt_entries s1 = base ++ [mkEntry (unborn w) false false])).
    destruct (rt_closed s); [done|]. by intros n [= <-]. }
  intros [k|] s1 H; [|by apply rgr_done]. destruct (H k eq_refl) as [-> H1]. eapply rgr_chain.
  { apply (alone_atomic _ _ (fun e s2 => e = None -> exists g m h,
      w_instantiate w alloc start newInstanceState = (Ok (g, m), h) /\
      rt_entries s2 = base ++ [mkEntry (mkInstance false true false ModNil m g h []) false true])).
    rewrite (inst_at_last base _ s1 H1). cbn [i_host unborn e_inst].
    destruct (w_instantiate w alloc start _) as [[[g m]|err] h]; cbn [fst snd]; [|done]. intros _. exists g, m, h.
    split; [done|]. unfold set_inst. by erewrite upd_last by (by erewrite upd_last by exact H1). }
  intros [e|] s2 H2.
  { eapply rgr_chain with (Q := fun _ _ => True); [by apply alone_modify|]. intros ? s3 _.
    eapply rgr_chain with (Q := fun _ _ => True); [|by intros]. apply any_alone. }
  destruct (H2 eq_refl) as (g & m & h & Hw & He). eapply rgr_chain.
  { apply (alone_atomic _ _ (fun dead s3 => dead = false /\
      rt_entries s3 = base ++ [mkEntry (mkInstance false true false ModOpen m g h []) false false])).
    rewrite (inst_at_last base _ s2 He). cbn [e_inst modDead fst snd]. by erewrite upd_last by exact He. }
  intros b s3 [-> H3]. destruct (bindExports _) as [e|].
  - eapply rgr_chain with (Q := fun _ _ => True); [apply any_alone|]. by intros.
  - apply rgr_done. intros k [= <-]. split; [done|]. by exists g, m, h.
Qed.

(** The guest's state in an instance. *)
Definition guest_state (i : inst) : G * M * instanceState := (i_guest i, i_mem i, i_host i).

(** A guest call on a live module. *)
Lemma call_alone exec f args i :
  modDead i = false -> alone (call exec f args) i (fun r i' =>
    flags i' = flags i /\ i_calls i' = i_calls i ++ [(f, args)] /\ exec f args (guest_state i) = (r, guest_state i')).
Proof.
  intros Hd. apply alone_atomic. rewrite Hd. unfold invoke. fold (guest_state i).
  by destruct (exec f args (guest_state i)) as [r [[g m] h]].
Qed.

Lemma checkABI_alone i :
  modDead i = false -> alone (checkABIVersion w) i (fun e i' => e = None ->
    i_calls i' = i_calls i ++ [(X_abiVersion, [])] /\
    exists v, u32 v = abiVersion /\ w_exec w X_abiVersion [] (guest_state i) = (Ok v, guest_state i')).
Proof.
  intros Hd. unfold checkABIVersion. eapply rgr_chain; [by apply call_alone|].
  intros [v|e] i' (_ & Hc & Hx); [|by apply rgr_done].
  destruct (Z.eqb_spec (u32 v) abiVersion) as [Hv|Hv]; apply rgr_done; [|done]. intros _. split; [done|]. by exists v.
Qed.

(** The restore of a clone on a live module. *)
Lemma restore_alone z i :
  modDead i = false -> alone (atomic (fun i : inst =>
    if modDead i then (i, Some (Some ErrClosed))
    else match restoreClone z (i_mem i) with
         | None => (i, None)
         | Some (Err e) => (i, Some (Some e))
         | Some (Ok m) =>
             (mkInstance (i_closed i) (i_registered i) (modDead i) (i_mod i) m (i_guest i) (i_host i) (i_calls i), Some None)
         end)) i (fun r i' => r = Some None ->
    exists m, restoreClone z (i_mem i) = Some (Ok m) /\ modDead i' = false /\ i_calls i' = i_calls i /\
      guest_state i' = (i_guest i, m, i_host i)).
Proof.
  intros Hd. apply alone_atomic. rewrite Hd. destruct (restoreClone z (i_mem i)) as [[m|e]|]; try done.
  intros _. by exists m.
Qed.

(** C21: what a clone is. When an undisturbed [newClone] succeeds, wazero has
    instantiated the module over the image without running its start
    function, the data segments were restored, and then the guest was
    reseeded on exactly that memory and reported the host's ABI version:
    these two calls, in this order, are the only ones made, so no clone is
    handed out with the template's entropy. *)
Theorem newClone_spec z s k :
  run_value (newClone w z) s = Some (Ok k) ->
  exists g m h m' v st v',
    w_instantiate w (Some z) false newInstanceState = (Ok (g, m), h) /\
    restoreClone z m = Some (Ok m') /\
    w_exec w X_reseed [] (g, m', h) = (Ok v, st) /\
    let i := inst_at w k (run_state (newClone w z) s) in
    w_exec w X_abiVersion [] st = (Ok v', guest_state i) /\ u32 v' = abiVersion /\
    i_calls i = [(X_reseed, []); (X_abiVersion, [])].
Proof.
  set (Q := fun (r : option (result go_error nat)) s' => r = Some (Ok k) -> exists g m h m' v st v',
    w_instantiate w (Some z) false newInstanceState = (Ok (g, m), h) /\
    restoreClone z m = Some (Ok m') /\ w_exec w X_reseed [] (g, m', h) = (Ok v, st) /\
    let i := inst_at w k s' in
    w_exec w X_abiVersion [] st = (Ok v', guest_state i) /\ u32 v' = abiVersion /\
    i_calls i = [(X_reseed, []); (X_abiVersion, [])]).
  enough (H : alone (newClone w z) s Q) by exact (rgr_run _ _ _ _ _ H).
  assert (Hfail : forall n e s', alone (let* r := closing w n e in Done (Some r)) s' Q).
  { intros n e s'. unfold closing. eapply rgr_chain with (Q := fun r _ => r = Err e); [|by intros r s2 ->].
    eapply rgr_chain; [apply any_alone|]. by intros. }
  unfold newClone. eapply rgr_chain; [apply newModuleInstance_made|]. intros [n|e] s1 H1; [|by apply rgr_done].
  destruct (H1 n eq_refl) as (-> & g & m & h & Hw & He). clear H1. set (base := rt_entries s) in *.
  eapply rgr_chain; [by eapply (alone_last base); [exact He|apply restore_alone]|].
  intros [[e|]|] s2 (i2 & He2 & Hi2); [apply Hfail| |by apply rgr_done].
  destruct (Hi2 eq_refl) as (m' & Hr & Hd2 & Hc2 & Hg2). cbn in Hr, Hc2, Hg2.
  eapply rgr_chain; [by eapply (alone_last base); [exact He2|apply call_alone]|].
  intros [v|e] s3 (i3 & He3 & Hf3 & Hc3 & Hx3); [|apply Hfail].
  eapply rgr_chain; [eapply (alone_last base); [exact He3|apply checkABI_alone]|].
  { injection Hf3 as _ _ Hd3 _. cbn in *. congruence. }
  intros [e|] s4 (i4 & He4 & Hi4); [apply Hfail|]. destruct (Hi4 eq_refl) as (Hc4 & v' & Hv & Hx4).
  apply rgr_done. intros [= <-]. exists g, m, h, m', v, (guest_state i3), v'.
  rewrite (inst_at_last base _ s4 He4). cbn [e_inst] in *. rewrite Hg2 in Hx3. rewrite Hc4, Hc3, Hc2. by split_and!.
Qed.

(** ** The template *)

(** Whatever others do between the steps. *)
Abbreviation amid := (rgr (fun _ _ => True) (fun _ _ => True)).

Lemma any_amid {S A} (p : proc S A) s : amid p s (fun _ _ => True).
Proof.
  revert s. induction p as [A a|A f p IH|A c IHc p IH]; intros s; cbn [rgr]; [done|by intros; split|by split].
Qed.

Lemma amid_later {S A} (p : proc S A) s s' (Q : A -> Prop) :
  amid p s (fun a _ => Q a) -> amid p s' (fun a _ => Q a).
Proof.
  revert Q. induction p as [A a|A f p _|A c _ p IH]; intros Q; cbn [rgr]; [done| |].
  - intros H s1 _. apply H. by apply rtc_once.
  - intros [_ H]. split; [apply any_amid|by apply IH].
Qed.

Lemma amid_inst {A} k (p : proc inst A) s (Q : A -> Prop) :
  (forall i, amid p i (fun a _ => Q a)) -> amid (on_inst w k p) s (fun a _ => Q a).
Proof.
  revert s Q. induction p as [A a|A f p IH|A c IHc p IH]; intros s Q Hp; cbn [on_inst].
  - exact (Hp (inst_at w k s)).
  - intros s1 _. split; [done|]. apply IH. intros i.
    destruct (Hp i (inst_at w k s1)) as [_ H]; [by apply rtc_once|]. by eapply amid_later.
  - split; [apply any_amid|]. apply IH. intros i. by destruct (Hp i).
Qed.


End Spec.

Import ListMem DemoUnicode DemoDNS DemoGuest DemoWorld.

(** The first call builds the template and clones it. *)
Lemma demo_creates : run_value (NewInstance demo_world) demo_runtime = Created (Ok 1%nat).
Proof. vm_compute. reflexivity. Qed.

Lemma NewInstance_leaves_witness :
  exists old e, rt_entries (run_state (NewInstance demo_world) demo_runtime) = old ++ [e] /\ Forall gone old /\ live e.
Proof.
  pose proof (NewInstance_leaves demo_world demo_runtime) as H. rewrite demo_creates in H.
  destruct H as (old & e & H1 & _ & H2 & H3). exists old, e. by split_and!.
Defined.

Lemma demo_clone : run_value (newClone demo_world demo_zygote) demo_runtime = Some (Ok 0%nat).
Proof. vm_compute. reflexivity. Qed.

Lemma newClone_spec_witness :
  exists m', restoreClone demo_zygote [1; 2; 90; 80; 92; 6; 7; 8] = Some (Ok m') /\
    i_calls (inst_at demo_world 0 (run_state (newClone demo_world demo_zygote) demo_runtime))
    = [(X_reseed, []); (X_abiVersion, [])].
Proof.
  destruct (newClone_spec demo_world demo_zygote demo_runtime 0 demo_clone)
    as (g & m & h & m' & v & st & v' & H1 & H2 & _ & _ & _ & H3).
  exists m'. split; [|exact H3]. injection H1 as _ <- _. exact H2.
Defined.
